(* ===== verification/_CoqProject ===== *)
-Q . S2P
Prelude.v
CString.v
Inet.v
SfexLib.v
SfexTools.v
SfexDaemon.v
SfexMutex.v
SfexCluster.v
SfexEarly.v
FindIf.v
Tickle.v
StorageMon.v
StorageCheck.v
PidFile.v
IPv6Addr.v
IPv6Meta.v
SendArpLibnet.v
SendArpLinux.v
SendArpSysfs.v
SendArpPriv.v
