(* ===== verification/Prelude.v ===== *)
(** * The C programs of resource-agents

    A model of the C programs that the cluster resource agents of this
    repository use, and of the one agent that is itself written in C, with the
    theorems that say what they do.

    ** The program

    A cluster manager starts, stops and monitors resources through agents, most
    of them shell scripts under src/heartbeat.  What a script cannot do is left
    to small C programs:

    - sfex (src/tools/sfex_daemon.c, sfex_init.c, sfex_stat.c, sfex_lib.c,
      sfex.h): exclusive ownership of a shared disk.  The disk has a control
      block and one lock record per lock; the daemon that owns a lock rewrites
      its counter periodically, and another node takes the lock only when the
      counter has not moved for a time;
    - findif (src/tools/findif.c): the interface, netmask and broadcast address
      an IPv4 address belongs on;
    - send_arp (src/tools/send_arp.linux.c, send_arp.libnet.c) and send_ua
      (src/heartbeat/send_ua.c): announcing an address that has moved;
    - tickle_tcp (src/tools/tickle_tcp.c): packets that make TCP peers notice
      the move;
    - storage_mon (src/tools/storage_mon.c): checks that block devices can be
      read, once or as a daemon that clients ask for a score;
    - IPv6addr (src/heartbeat/IPv6addr.c, IPv6addr_utils.c,
      src/include/IPv6addr.h): the agent for IPv6 addresses.

    The programs share no code but the PID-file loop, which is copied from one
    to another; sfex and IPv6addr are the two made of several files.  They
    interact through what they share on the outside: the nodes of sfex through
    the disk, the processes of storage_mon through exit codes and the PID file,
    the PID-file programs through the file, the two sides of address conflict
    detection through ARP packets.  Those interactions are what the theorems
    across routines are about.

    ** The files

    - Prelude (this file): outcomes, the program monad, buffers with checked
      access, machine integers, tactics and hints.
    - CString: C strings and the libc conversions ([atoi], [strtol], [strtoul],
      [snprintf] formats, [strncmp], [sscanf] pieces).
    - Inet: byte order, [inet_pton], [inet_aton].
    - SfexLib: sfex.h and sfex_lib.c.  The device and the block buffer are the
      state [world]; each function of the library is a definition of the same
      name in the monad.
    - SfexTools: the two mains, sfex_init.c and sfex_stat.c.
    - SfexDaemon: sfex_daemon.c.  Its routines are programs ([prog]) over reads
      and writes of the lock, sleeps and commands, so that they can be run on
      the device of SfexLib, on an abstract cell, and with other nodes writing
      during the sleeps.  [LockStore] is the interface the library provides.
    - SfexMutex: several daemons and a clock, as a step relation over those
      programs and one record.
    - SfexCluster: the same nodes as processes with their own buffers on the
      bytes of one device, from the start-up of main on; SfexMutex simulates it.
    - SfexEarly: an executable scheduler that makes exactly the steps of
      SfexMutex ([exec_lstep]), and a run of it.
    - FindIf: findif.c; [findif_main] is main.
    - Tickle: tickle_tcp.c; [tickle_main] is main.
    - StorageMon: storage_mon.c.  [smon] has the daemon's global variables, an
      [event] is a callback of the event loop, [dispatch] runs it, [run_loop]
      the loop.
    - StorageCheck: the one-shot check against a reference definition, and what
      the results of check and client say about the devices.
    - PidFile: the loop that IPv6addr.c and send_arp.libnet.c both contain.
    - IPv6Addr: IPv6addr.c, IPv6addr_utils.c, IPv6addr.h, send_ua.c, over a
      kernel given by the type class [Kernel] with the laws of [LawfulKernel].
    - IPv6Meta: the meta-data the agent prints.
    - SendArpLibnet: send_arp.libnet.c.
    - SendArpLinux: send_arp.linux.c as it is built here.
    - SendArpSysfs: the search for the device and the broadcast address of the
      same file with libsysfs, whose devices are an argument.
    - SendArpPriv: how the same file gives its privileges up, with user ids and
      with libcap, as two instances of one class, over the kernel's
      credentials.

    ** How C is modelled

    A routine returns a value, ends the process with a code, or makes an access
    outside an object ([Ret], [Exited], [Fault]); state is passed by the monad
    [M].  Bytes and integers are [Z], kept in their range by the conversions
    ([u8], [u32], [s32] and so on) written where C makes them; buffers are lists
    of bytes of the declared size, read and written by [peek] and [poke], which
    fail outside of them.  The answers of the system (system calls, files,
    clocks, signals) are arguments: a script the calls consume, a record of
    answers, or a list of events.  The configuration is the one the build
    produces for Linux, but for SendArpSysfs and the libcap half of
    SendArpPriv; integers are little-endian, [int] has 32 bits, [long] 64.

    ** What the theorems show

    - SfexLib: lock data survives the disk ([lockdata_roundtrip]); writing and
      reading a lock stay inside their buffers and their block of the device
      whatever the kernel answers ([write_lockdata_safe],
      [read_lockdata_sound]).
    - SfexTools: sfex_init leaves a formatted device ([sfex_init_formats]); as
      lemmas, the status of sfex_stat ([sfex_stat_status]) and its neglect of a
      failed read.
    - SfexDaemon: a daemon on the device refines one on an ideal cell, and a
      typed program stays typed ([run_refines]); acquisition on every branch
      ([acquire_lock_spec]); the heartbeat keeps contenders away
      ([heartbeat_protects]); hand-over ([release_hands_over]); as lemmas, what
      a daemon that lost the lock does ([daemon_turn_spec]) and a read whose
      failure is not noticed ([acquire_lock_second_read_unchecked]).
    - SfexMutex: at most one node owns the lock, when an operation takes less
      than the collision timeout and the lock timeout exceeds the heartbeat
      interval by more than a few operations ([mutual_exclusion], a lemma); as
      lemmas, a daemon that is left alone acquires the lock in time, also a dead
      node's ([lone_daemon_acquires]), and is never stuck before
      ([solo_run_holds]).
    - SfexCluster: the same on the device, whose sector is the holder's record
      byte for byte ([device_mutual_exclusion]); whatever the timeouts, format
      and types survive and no access leaves a buffer ([device_well_formed]);
      a daemon left alone gets there in time ([device_daemon_acquires]);
      sfex_stat names the holder ([stat_names_holder]).
    - SfexEarly: the parameter [early] of both machines says whether SIGTERM may
      also come during the acquisition.  Types survive it; mutual exclusion
      does not, as a run of three nodes shows ([early_sigterm_two_holders]), and
      is proved without it.
    - FindIf: the route search is longest-prefix match
      ([longest_prefix_match]; as a lemma for any metrics and masks,
      [proc_route_selects]); the lines the kernel prints are read back
      ([kernel_line_read]); memory safety and exit codes ([findif_safe]);
      output ([findif_cidr_output]); netmasks ([netmask_roundtrip]; as a lemma,
      [quad_netmask_contiguous]).
    - Tickle: the packets have the checksums a receiver verifies
      ([tickle_checksums_valid]); the program sends what its input lists
      ([tickle_main_sends]).
    - StorageMon: the daemon's arrays are never left ([daemon_never_faults]);
      SIGTERM and the end of the loop ([loop_ends_iff_sigterm]; as a lemma,
      [sigterm_stops]); the one-shot check ends ([oneshot_ends]); two
      ways the daemon goes wrong ([unreaped_child_stops_checks],
      [stale_expiry_miscounts]); as lemmas, the score of a round
      ([round_score]), client and server ([client_reads_score]), the command
      line ([main_config_sound]).
    - StorageCheck: what a client is told after a round, and that 0 means a
      sector was read from every device ([client_reads_round]); main agrees with
      the reference definition of the check, and its exit status is the score,
      without overflow ([oneshot_status]); status 0 means that a sector of every
      device was read ([zero_means_readable]).
    - IPv6Addr: the search of the kernel's table equals a search of a list of
      entries ([scan_if_first_match]); start and stop followed by status
      ([start_then_status], [stop_then_status]); the advertisement
      ([advertisement_wf]).
    - IPv6Meta: as a lemma, the meta-data is well-formed XML and announces what
      the agent reads and does ([meta_data_announces]).
    - SendArpLibnet: what is announced ([libnet_announces]), the conversion of
      hardware addresses ([macaddr_digits_only]), and, as a lemma, the PID
      file of another address ([pidfile_shared]).
    - SendArpLinux: an invariant of all reachable states ([arp_invariant]); an
      announcement elsewhere is detected ([announcement_detected]); the exit
      status of conflict detection ([dad_verdict]); an announcement ends after
      its packets ([announcement_complete]).
    - SendArpSysfs: for a named device the search through sysfs finds and sets
      what the search through getifaddrs does ([sysfs_agrees]).
    - SendArpPriv: with libcap packets are handled without any capability
      ([libcap_least_privilege]), and the program otherwise does what [arp_main]
      does ([libcap_program], a lemma); without it a set-user-ID program stays
      root ([setuid_keeps_root]).

    ** Fuel and bounds

    Recursion is on the input wherever the C loop consumes one (text, tables,
    events, scripts of answers).  The loops that do not: the conversions print
    at most as many digits as their fuel (20 for a 64-bit number, enough for
    ten to the 20th); [scan_loop] of IPv6Addr and the line loops of FindIf have
    the length of the file plus one, and each turn consumes a byte; the retry
    loops of SfexLib and PidFile run over the script of answers; the timed loop
    of [oneshot_ends] is proved to end.  Where a run is cut because its events
    are used up the result says so ([Ret] of a program that has not exited).

    ** Not modelled

    The shell agents, ldirectord (Perl), the rgmanager scripts and ocft, which
    are not C.  Of the C files: text printed for people (usage, log messages),
    except where the output is the result; the libraries: libqb's event loop
    and IPC transport, libnet, PILS logging; the parts that the build leaves
    out (libidn, other operating systems; libcap and libsysfs themselves);
    setting close-on-exec and non-blocking mode.  In
    SfexMutex and SfexCluster reads and writes of the lock are atomic and
    succeed (after interruptions).  The single routines are modelled with their error paths. *)

From stdpp Require Export base list list_numbers gmap strings numbers.
From Stdlib Require Export ZArith Lia.

#[global] Open Scope Z_scope.

(** ** Outcomes and the program monad

    A C routine either returns a value, terminates the process through
    [exit(code)], or performs an access the C standard leaves undefined
    (here: outside the object it addresses).  The last case is a value of
    its own, so that "the routine never goes out of bounds" is a theorem
    about the model. *)

Inductive outcome (A : Type) : Type :=
| Ret (a : A)
| Exited (code : Z)
| Fault.
Arguments Ret {A} a.
Arguments Exited {A} code.
Arguments Fault {A}.

#[export] Instance outcome_ret : MRet outcome := @Ret.
#[export] Instance outcome_bind : MBind outcome := λ A B f o,
  match o with
  | Ret a => f a
  | Exited c => Exited c
  | Fault => Fault
  end.

Definition M (W A : Type) : Type := W → outcome A * W.

#[global] Instance M_ret W : MRet (M W) := λ A a w, (Ret a, w).
#[global] Instance M_bind W : MBind (M W) := λ A B f m w,
  match m w with
  | (Ret a, w') => f a w'
  | (Exited c, w') => (Exited c, w')
  | (Fault, w') => (Fault, w')
  end.

Definition mexit {W A} (code : Z) : M W A := λ w, (Exited code, w).
Definition mfault {W A} : M W A := λ w, (Fault, w).
Definition mgets {W A} (f : W → A) : M W A := λ w, (Ret (f w), w).
Definition mmodify {W} (f : W → W) : M W unit := λ w, (Ret tt, f w).
Definition mlift {W A} (o : option A) : M W A :=
  match o with Some a => mret a | None => mfault end.

(** ** Buffers: byte lists with checked access *)

(** [poke off bs m] stores [bs] at offset [off]; [None] if it does not fit. *)
Definition poke (off : nat) (bs m : list Z) : option (list Z) :=
  if decide (off + length bs ≤ length m)%nat
  then Some (take off m ++ bs ++ drop (off + length bs) m)
  else None.

(** [peek off n m] is the [n] bytes at offset [off]; [None] if out of range. *)
Definition peek (off n : nat) (m : list Z) : option (list Z) :=
  if decide (off + n ≤ length m)%nat
  then Some (take n (drop off m))
  else None.

Definition is_byte (b : Z) : Prop := 0 ≤ b < 256.

#[export] Instance is_byte_dec b : Decision (is_byte b).
Proof. unfold is_byte. apply _. Defined.

(** ** Tactics *)

Ltac destruct_match_eqn :=
  match goal with
  | |- context [match ?x with _ => _ end] =>
      lazymatch x with context [match _ with _ => _ end] => fail | _ => idtac end;
      destruct x eqn:?
  | H : context [match ?x with _ => _ end] |- _ =>
      lazymatch x with context [match _ with _ => _ end] => fail | _ => idtac end;
      destruct x eqn:?
  end.

(** Turn the boolean tests of the code into propositions. *)
Ltac zbool :=
  repeat match goal with
  | H : (_ && _)%bool = true |- _ => apply andb_true_iff in H; destruct H
  | H : (_ && _)%bool = false |- _ => apply andb_false_iff in H; destruct H
  | H : (_ || _)%bool = true |- _ => apply orb_true_iff in H; destruct H
  | H : (_ || _)%bool = false |- _ => apply orb_false_iff in H; destruct H
  | H : negb _ = true |- _ => apply negb_true_iff in H
  | H : negb _ = false |- _ => apply negb_false_iff in H
  | H : (_ =? _) = true |- _ => apply Z.eqb_eq in H
  | H : (_ =? _) = false |- _ => apply Z.eqb_neq in H
  | H : (_ <? _) = true |- _ => apply Z.ltb_lt in H
  | H : (_ <? _) = false |- _ => apply Z.ltb_ge in H
  | H : (_ <=? _) = true |- _ => apply Z.leb_le in H
  | H : (_ <=? _) = false |- _ => apply Z.leb_gt in H
  | H : bool_decide _ = true |- _ => apply bool_decide_eq_true in H
  | H : bool_decide _ = false |- _ => apply bool_decide_eq_false in H
  end.

(** Rewrite a boolean test whose truth value [lia] can decide. *)
Ltac ztest :=
  repeat match goal with
  | |- context [?a =? ?b] =>
      first [ rewrite (proj2 (Z.eqb_eq a b)) by lia
            | rewrite (proj2 (Z.eqb_neq a b)) by lia ]
  | |- context [?a <? ?b] =>
      first [ rewrite (proj2 (Z.ltb_lt a b)) by lia
            | rewrite (proj2 (Z.ltb_ge a b)) by lia ]
  | |- context [?a <=? ?b] =>
      first [ rewrite (proj2 (Z.leb_le a b)) by lia
            | rewrite (proj2 (Z.leb_gt a b)) by lia ]
  end.

(** Unfold the monad. *)
Ltac munfold :=
  unfold mbind, M_bind, mret, M_ret, mexit, mfault, mgets, mmodify, mlift in *.

(** ** Buffer lemmas *)

Create HintDb buf.

Lemma poke_length off bs m m' : poke off bs m = Some m' → length m' = length m.
Proof.
  unfold poke. case_decide; [|done]. intros [= <-].
  rewrite !length_app, length_take, length_drop. lia.
Qed.

Lemma poke_Some off bs m :
  (off + length bs ≤ length m)%nat →
  poke off bs m = Some (take off m ++ bs ++ drop (off + length bs) m).
Proof. intros. unfold poke. by rewrite decide_True. Qed.

Lemma peek_Some off n m :
  (off + n ≤ length m)%nat → peek off n m = Some (take n (drop off m)).
Proof. intros. unfold peek. by rewrite decide_True. Qed.

Lemma peek_length off n m bs : peek off n m = Some bs → length bs = n.
Proof.
  unfold peek. case_decide; [|done]. intros [= <-].
  rewrite length_take, length_drop. lia.
Qed.

(** Reading inside an explicitly concatenated buffer. *)
Lemma peek_app l bs r n off :
  length l = off → length bs = n → peek off n (l ++ bs ++ r) = Some bs.
Proof.
  intros <- <-. rewrite peek_Some by (rewrite !length_app; lia).
  by rewrite drop_app_length, take_app_length.
Qed.

Lemma poke_app l old bs r off :
  length l = off → length old = length bs →
  poke off bs (l ++ old ++ r) = Some (l ++ bs ++ r).
Proof.
  intros <- Hlen. rewrite poke_Some by (rewrite !length_app; lia).
  rewrite take_app_length, <-Hlen.
  do 2 f_equal. rewrite drop_app_add. by rewrite drop_app_length.
Qed.

(** A zeroed buffer and a stored prefix of it. *)
Lemma poke_zeros l n s r off :
  length l = off → (length s ≤ n)%nat →
  poke off s (l ++ replicate n 0 ++ r) = Some (l ++ (s ++ replicate (n - length s) 0) ++ r).
Proof.
  intros Hl Hs.
  replace (replicate n 0) with (replicate (length s) 0 ++ replicate (n - length s) 0)
    by (rewrite <-replicate_add; f_equal; lia).
  rewrite <-!app_assoc. apply poke_app; [done|]. by rewrite length_replicate.
Qed.

(** Filling a zeroed buffer from the left. *)
Lemma poke_next l n bs off k :
  length l = off → (length bs ≤ n)%nat → k = (n - length bs)%nat →
  poke off bs (l ++ replicate n 0) = Some ((l ++ bs) ++ replicate k 0).
Proof.
  intros Hl Hb ->. rewrite <-(app_nil_r (replicate n 0)), poke_zeros by done.
  by rewrite app_nil_r, app_assoc.
Qed.

(** Overwriting a whole buffer. *)
Lemma poke_all bs m : length bs = length m → poke 0 bs m = Some bs.
Proof.
  intros H. rewrite poke_Some by lia. simpl. rewrite H, drop_all. by rewrite app_nil_r.
Qed.

Lemma peek_all m n : length m = n → peek 0 n m = Some m.
Proof. intros <-. rewrite peek_Some by lia. by rewrite drop_0, firstn_all. Qed.

(** Skipping a prefix of known length. *)
Lemma poke_skip k off bs a m :
  length a = k → poke (k + off) bs (a ++ m) = app a <$> poke off bs m.
Proof.
  intros <-. unfold poke. rewrite length_app.
  destruct (decide (off + length bs ≤ length m)%nat).
  - rewrite decide_True by lia. cbn [fmap option_fmap option_map]. f_equal.
    rewrite take_app_add, <-app_assoc, <-Nat.add_assoc, drop_app_add. done.
  - by rewrite decide_False by lia.
Qed.

Lemma peek_skip k off n a m :
  length a = k → peek (k + off) n (a ++ m) = peek off n m.
Proof.
  intros <-. unfold peek. rewrite length_app.
  destruct (decide (off + n ≤ length m)%nat).
  - rewrite decide_True by lia. by rewrite drop_app_add.
  - by rewrite decide_False by lia.
Qed.

(** Disjoint ranges: a store does not change what is read elsewhere. *)
Lemma peek_poke_eq off bs m m' :
  poke off bs m = Some m' → peek off (length bs) m' = Some bs.
Proof.
  unfold poke. case_decide; [|done]. intros [= <-].
  apply peek_app; [rewrite length_take; lia|done].
Qed.

Lemma peek_poke_ne off bs m m' o n :
  poke off bs m = Some m' → (o + n ≤ off ∨ off + length bs ≤ o)%nat →
  peek o n m' = peek o n m.
Proof.
  intros Hp Hd. pose proof (poke_length _ _ _ _ Hp) as Hlen. revert Hp.
  unfold poke, peek. case_decide; [|done]. intros [= <-].
  rewrite Hlen. case_decide as Ho; [|done]. f_equal.
  apply list_eq. intros i.
  destruct (decide (i < n)%nat); [|by rewrite !lookup_take_ge by lia].
  rewrite !lookup_take_lt, !lookup_drop by lia.
  destruct Hd.
  - rewrite lookup_app_l by (rewrite length_take; lia). by rewrite lookup_take_lt by lia.
  - rewrite lookup_app_r by (rewrite length_take; lia). rewrite length_take.
    rewrite lookup_app_r by lia. rewrite lookup_drop. f_equal. lia.
Qed.

(** Running a bind whose first half returns. *)
Lemma bind_run {W A B} (m : M W A) (f : A → M W B) w a w' :
  m w = (Ret a, w') → (m ≫= f) w = f a w'.
Proof. intros H. unfold mbind, M_bind. by rewrite H. Qed.

#[export] Hint Resolve poke_length peek_length : buf.

(** ** Outcomes that do not fault *)

(** The routine returns a value that satisfies [P] or exits with one of
    [codes]. *)
Definition safe {A} (codes : list Z) (P : A → Prop) (o : outcome A) : Prop :=
  match o with
  | Ret a => P a
  | Exited c => c ∈ codes
  | Fault => False
  end.

Lemma safe_bind {A B} codes P Q (m : outcome A) (f : A → outcome B) :
  safe codes P m → (∀ a, P a → safe codes Q (f a)) → safe codes Q (m ≫= f).
Proof. destruct m; cbn; auto. Qed.

Lemma safe_mono {A} codes (P Q : A → Prop) (m : outcome A) :
  (∀ a, P a → Q a) → safe codes P m → safe codes Q m.
Proof. destruct m; cbn; auto. Qed.

(** ** Integer lemmas shared by the components *)

Lemma mod_small_iff a n : 0 < n → (a mod n = a ↔ 0 ≤ a < n).
Proof.
  intros Hn. split; [|apply Z.mod_small].
  intros <-. by apply Z.mod_pos_bound.
Qed.

Lemma Forall_not_elem {A} (P : A → Prop) l x : Forall P l → ¬ P x → x ∉ l.
Proof.
  intros Hl Hx. induction Hl as [|y l Hy _ IH]; [apply not_elem_of_nil|].
  apply not_elem_of_cons. split; [by intros ->|done].
Qed.

(** Deciding a property of a range of integers by computation. *)
Lemma range_forallb (f : Z → bool) lo n z :
  forallb f (seqZ lo n) = true → lo ≤ z < lo + n → f z = true.
Proof.
  intros H Hz. rewrite forallb_forall in H. apply H. apply list_elem_of_In, elem_of_seqZ. lia.
Qed.

(** ** Machine integers

    A w-bit unsigned integer is a [Z] in [0, 2^w); a conversion to the type
    is the remainder.  Signed conversions are two's complement. *)

Definition u8 (z : Z) : Z := z mod 256.
Definition u16 (z : Z) : Z := z mod 65536.
Definition u32 (z : Z) : Z := z mod 4294967296.
Definition u64 (z : Z) : Z := z mod 18446744073709551616.
Definition s8 (z : Z) : Z := (z + 128) mod 256 - 128.
Definition s32 (z : Z) : Z := (z + 2147483648) mod 4294967296 - 2147483648.
Definition s64 (z : Z) : Z :=
  (z + 9223372036854775808) mod 18446744073709551616 - 9223372036854775808.

Definition INT_MAX : Z := 2147483647.
Definition UINT_MAX : Z := 4294967295.
Definition LONG_MAX : Z := 9223372036854775807.
Definition LONG_MIN : Z := -9223372036854775808.
Definition ULONG_MAX : Z := 18446744073709551615.

Definition EXIT_SUCCESS : Z := 0.
Definition EXIT_FAILURE : Z := 1.

Lemma u64_small z : 0 ≤ z ≤ ULONG_MAX → u64 z = z.
Proof. unfold u64, ULONG_MAX. intros. rewrite Z.mod_small; lia. Qed.
Lemma u32_small z : 0 ≤ z ≤ UINT_MAX → u32 z = z.
Proof. unfold u32, UINT_MAX. intros. rewrite Z.mod_small; lia. Qed.
Lemma u16_small z : 0 ≤ z < 65536 → u16 z = z.
Proof. unfold u16. intros. rewrite Z.mod_small; lia. Qed.
Lemma u8_small z : 0 ≤ z < 256 → u8 z = z.
Proof. unfold u8. intros. rewrite Z.mod_small; lia. Qed.
Lemma s32_small z : -2147483648 ≤ z ≤ INT_MAX → s32 z = z.
Proof. unfold s32, INT_MAX. intros. rewrite Z.mod_small; lia. Qed.
Lemma s8_small z : -128 ≤ z < 128 → s8 z = z.
Proof. unfold s8. intros. rewrite Z.mod_small; lia. Qed.

Lemma s32_range z : -2147483648 ≤ s32 z ≤ INT_MAX.
Proof.
  unfold s32, INT_MAX. pose proof (Z.mod_pos_bound (z + 2147483648) 4294967296 ltac:(lia)). lia.
Qed.

(** Clearing the low [k] bits of a [w]-bit word. *)
Lemma land_high_bits w x k :
  0 ≤ x < 2 ^ w → 0 ≤ k ≤ w → Z.land x (2 ^ w - 2 ^ k) = x / 2 ^ k * 2 ^ k.
Proof.
  intros Hx Hk. rewrite <-Z.shiftr_div_pow2, <-Z.shiftl_mul_pow2 by lia.
  replace (2 ^ w - 2 ^ k) with (Z.shiftl (Z.ones (w - k)) k).
  2:{ rewrite Z.shiftl_mul_pow2, Z.ones_equiv by lia.
      rewrite <-Z.sub_1_r, Z.mul_sub_distr_r, <-Z.pow_add_r by lia.
      replace (w - k + k) with w by lia. lia. }
  apply Z.bits_inj'. intros n Hn. rewrite Z.land_spec, !Z.shiftl_spec by done.
  destruct (decide (n < k)).
  - rewrite !(Z.testbit_neg_r _ (n - k)) by lia. apply andb_false_r.
  - rewrite Z.testbit_ones_nonneg, Z.shiftr_spec by lia.
    replace (n - k + k) with n by lia.
    destruct (n - k <? w - k) eqn:E; zbool; [apply andb_true_r|].
    rewrite andb_false_r. symmetry.
    destruct (decide (x = 0)) as [->|]; [apply Z.bits_0|]. apply Z.bits_above_log2; [lia|].
    apply Z.log2_lt_pow2; [lia|]. apply Z.lt_le_trans with (2 ^ w); [apply Hx|].
    apply Z.pow_le_mono_r; lia.
Qed.

Create Rewrite HintDb cint.
#[export] Hint Rewrite u64_small u32_small u16_small u8_small s32_small s8_small
  using (unfold ULONG_MAX, UINT_MAX, INT_MAX in *; lia) : cint.
