(* ===== verification/CString.v ===== *)
(** * C strings and the libc conversions the programs call

    A C string is a [list Z] of bytes; a buffer that holds one ends it at its
    first 0 byte ([cstr]), and reading beyond the end of a string constant
    reads its terminator.  The conversions follow the C standard as glibc
    implements it: [atoi] is [(int) strtol(_, NULL, 10)], [strtol] and
    [strtoul] skip [isspace] bytes, accept a sign, saturate and report the
    rest of the string ([endptr]); [snprintf] cuts to the buffer and always
    terminates it. *)

From S2P Require Import Prelude.
From Stdlib Require Import Ascii String.
From stdpp Require Import list.
#[local] Open Scope Z_scope.

(** ** Definitions *)

Fixpoint str (s : string) : list Z :=
  match s with
  | EmptyString => []
  | String a s' => Z.of_N (N_of_ascii a) :: str s'
  end.

(** The string a buffer holds: the bytes before the first NUL. *)
Fixpoint cstr (l : list Z) : list Z :=
  match l with
  | [] => []
  | c :: l' => if c =? 0 then [] else c :: cstr l'
  end.

Definition strlen (l : list Z) : Z := Z.of_nat (length (cstr l)).

Fixpoint strncmp (a b : list Z) (n : nat) : Z :=
  match n with
  | O => 0
  | S n' =>
      let ca := hd 0 a in
      let cb := hd 0 b in
      if ca =? cb then (if ca =? 0 then 0 else strncmp (tl a) (tl b) n')
      else ca - cb
  end.

(** [strcmp] has no bound: one byte more than the longer string is enough. *)
Definition strcmp (a b : list Z) : Z := strncmp a b (S (length a + length b)).

(** The [n] bytes [strncpy(dst, src, n)] stores. *)
Definition strncpy_bytes (src : list Z) (n : nat) : list Z :=
  let s := take n (cstr src) in s ++ replicate (n - length s) 0.

(** [dst] after [strncpy(dst, src, n)]. *)
Definition strncpy (dst src : list Z) (n : nat) : list Z :=
  strncpy_bytes src n ++ drop n dst.

(** The bytes [snprintf(buf, size, "%s", s)] stores. *)
Definition snprintf_bytes (size : nat) (s : list Z) : list Z :=
  match size with
  | O => []
  | S n => take n s ++ [0]
  end.

Definition isspace (c : Z) : bool := (c =? 32) || ((9 <=? c) && (c <=? 13)).
Definition isdigit (c : Z) : bool := (48 <=? c) && (c <=? 57).

(** Value of a byte as a digit of the given base. *)
Definition digit_of (base c : Z) : option Z :=
  let v := if isdigit c then Some (c - 48)
           else if (97 <=? c) && (c <=? 122) then Some (c - 87)
           else if (65 <=? c) && (c <=? 90) then Some (c - 55)
           else None in
  match v with
  | Some d => if d <? base then Some d else None
  | None => None
  end.

(** Longest prefix of digits: their values and the rest of the string. *)
Fixpoint span_digits (base : Z) (l : list Z) : list Z * list Z :=
  match l with
  | [] => ([], [])
  | c :: l' =>
      match digit_of base c with
      | Some d => let '(ds, r) := span_digits base l' in (d :: ds, r)
      | None => ([], l)
      end
  end.

Definition digits_val (base : Z) (ds : list Z) : Z :=
  foldl (λ v d, v * base + d) 0 ds.

Fixpoint skip_spaces (l : list Z) : list Z :=
  match l with
  | c :: l' => if isspace c then skip_spaces l' else l
  | [] => []
  end.

(** Sign of a number: [true] for '-'. *)
Definition scan_sign (l : list Z) : bool * list Z :=
  match l with
  | 45 :: l' => (true, l')
  | 43 :: l' => (false, l')
  | _ => (false, l)
  end.

(** The optional [0x] of base 16, when a hexadecimal digit follows it. *)
Definition skip_0x (base : Z) (l : list Z) : list Z :=
  if base =? 16 then
    match l with
    | 48 :: x :: d :: l' =>
        if ((x =? 120) || (x =? 88)) && bool_decide (is_Some (digit_of 16 d))
        then d :: l' else l
    | _ => l
    end
  else l.

(** What the [strto*] family reads: [None] when there is no digit, else the
    sign, the unbounded magnitude and the rest of the string. *)
Definition scan_number (base : Z) (s : list Z) : option (bool * Z * list Z) :=
  let '(neg, l) := scan_sign (skip_spaces s) in
  let '(ds, r) := span_digits base (skip_0x base l) in
  match ds with
  | [] => None
  | _ => Some (neg, digits_val base ds, r)
  end.

(** [strtoul(s, &end, base)]: value, rest of the string and whether errno
    becomes ERANGE. *)
Definition strtoul (base : Z) (s : list Z) : Z * list Z * bool :=
  match scan_number base s with
  | None => (0, s, false)
  | Some (neg, v, r) =>
      if ULONG_MAX <? v then (ULONG_MAX, r, true)
      else ((if neg then u64 (- v) else v), r, false)
  end.

Definition strtoul10 (s : list Z) : Z := fst (fst (strtoul 10 s)).

Definition strtol (base : Z) (s : list Z) : Z :=
  match scan_number base s with
  | None => 0
  | Some (neg, v, _) => Z.max LONG_MIN (Z.min LONG_MAX (if neg then - v else v))
  end.

Definition atol (s : list Z) : Z := strtol 10 s.
Definition atoi (s : list Z) : Z := s32 (strtol 10 s).

(** Decimal printing, as [%u], [%d] and [%lu]. *)
Fixpoint dec_digits (fuel : nat) (n : Z) (acc : list Z) : list Z :=
  match fuel with
  | O => acc
  | S f =>
      let acc' := (48 + n mod 10) :: acc in
      if n <? 10 then acc' else dec_digits f (n / 10) acc'
  end.

(** 20 digits print every 64-bit value. *)
Definition dec_u (n : Z) : list Z := dec_digits 20 n [].
Definition dec_d (n : Z) : list Z :=
  if n <? 0 then 45 :: dec_u (- n) else dec_u n.

(** The last [n] hexadecimal digits of a number. *)
Definition hex_digits_be (n : nat) (z : Z) : list Z :=
  rev ((λ i, z / 16 ^ Z.of_nat i mod 16) <$> seq 0 n).

(** First suffix that starts with byte [c] ([strchr]/[index]). *)
Fixpoint strchr (l : list Z) (c : Z) : option (list Z) :=
  match l with
  | [] => None
  | x :: l' => if x =? c then Some l else strchr l' c
  end.

(** Last suffix that starts with byte [c] ([strrchr]/[rindex]). *)
Fixpoint strrchr (l : list Z) (c : Z) : option (list Z) :=
  match l with
  | [] => None
  | x :: l' =>
      match strrchr l' c with
      | Some r => Some r
      | None => if x =? c then Some l else None
      end
  end.

(** [fgets(buf, size, f)]: at most [size - 1] bytes, through the newline. *)
Fixpoint fgets_aux (n : nat) (l : list Z) : list Z * list Z :=
  match n, l with
  | S n', c :: l' =>
      if c =? 10 then ([c], l')
      else let '(a, b) := fgets_aux n' l' in (c :: a, b)
  | _, _ => ([], l)
  end.

Definition fgets (size : nat) (l : list Z) : option (list Z * list Z) :=
  match l with
  | [] => None
  | _ => Some (fgets_aux (size - 1) l)
  end.

(** The buffers successive calls of [fgets] fill until it returns NULL; every
    call takes at least one byte, so the length of the file is enough fuel. *)
Fixpoint lines_fuel (fuel size : nat) (file : list Z) : list (list Z) :=
  match fuel with
  | O => []
  | S f =>
      match fgets size file with
      | None => []
      | Some (l, rest) => l :: lines_fuel f size rest
      end
  end.

Definition fgets_lines (size : nat) (file : list Z) : list (list Z) :=
  lines_fuel (S (length file)) size file.

(** Bytes before the first occurrence of [c]. *)
Fixpoint until (c : Z) (l : list Z) : list Z :=
  match l with
  | [] => []
  | x :: l' => if x =? c then [] else x :: until c l'
  end.

(** Text that can stand in a NUL-terminated buffer. *)
Definition c_text (l : list Z) : Prop := Forall (λ c, 0 < c < 256) l.

#[export] Instance c_text_dec l : Decision (c_text l).
Proof. unfold c_text. apply _. Defined.

(** ** Strings in buffers *)

Create HintDb cstring.

Lemma c_text_app a b : c_text (a ++ b) ↔ c_text a ∧ c_text b.
Proof. apply Forall_app. Qed.

Lemma c_text_take n a : c_text a → c_text (take n a).
Proof. apply Forall_take. Qed.

Lemma cstr_text l r : c_text l → cstr (l ++ 0 :: r) = l.
Proof.
  induction 1 as [|c l Hc _ IH]; [done|]; simpl.
  ztest. by rewrite IH.
Qed.

Lemma cstr_text_nil l : c_text l → cstr l = l.
Proof.
  induction 1 as [|c l Hc _ IH]; [done|]; simpl. ztest. by rewrite IH.
Qed.

Lemma cstr_text_pad l n : c_text l → cstr (l ++ replicate n 0) = l.
Proof.
  intros. destruct n; simpl; [rewrite app_nil_r; by apply cstr_text_nil|].
  by apply cstr_text.
Qed.

Lemma cstr_nonzero_all l : Forall (λ c, c ≠ 0) l → cstr l = l.
Proof. induction 1 as [|c l Hc _ IH]; [done|]. cbn [cstr]. by rewrite (proj2 (Z.eqb_neq c 0)), IH. Qed.

Lemma cstr_length l : (length (cstr l) ≤ length l)%nat.
Proof. induction l as [|c l IH]; simpl; [lia|]. destruct (c =? 0); simpl; lia. Qed.

Lemma cstr_is_text l : Forall is_byte l → c_text (cstr l).
Proof.
  induction 1 as [|c l Hc _ IH]; simpl; [constructor|].
  destruct (c =? 0) eqn:E; [constructor|]. zbool.
  constructor; [unfold is_byte in Hc; lia|done].
Qed.

Lemma cstr_app_pad l : Forall is_byte l →
  ∃ r, l = cstr l ++ r ∧ (r = [] ∨ ∃ r', r = 0 :: r').
Proof.
  induction 1 as [|c l Hc _ (r & Hl & Hr)]; simpl; [exists []; auto|].
  destruct (c =? 0) eqn:E; zbool.
  - subst. exists (0 :: l). eauto.
  - exists r. simpl. rewrite <-Hl. auto.
Qed.

Lemma strncpy_bytes_length src n : length (strncpy_bytes src n) = n.
Proof.
  unfold strncpy_bytes. rewrite length_app, length_replicate, length_take. lia.
Qed.

Lemma strncpy_length dst src n :
  (n ≤ length dst)%nat → length (strncpy dst src n) = length dst.
Proof.
  intros. unfold strncpy. rewrite length_app, strncpy_bytes_length, length_drop. lia.
Qed.

Lemma strncpy_bytes_text src n :
  c_text src → (length src ≤ n)%nat →
  strncpy_bytes src n = src ++ replicate (n - length src) 0.
Proof.
  intros. unfold strncpy_bytes. rewrite cstr_text_nil by done.
  by rewrite take_ge by lia.
Qed.

Lemma snprintf_bytes_length size s :
  (0 < size)%nat → (length (snprintf_bytes size s) ≤ size)%nat.
Proof.
  destruct size; [lia|]. intros _. simpl. rewrite length_app, length_take. simpl. lia.
Qed.

Lemma snprintf_bytes_fit size s :
  (length s < size)%nat → snprintf_bytes size s = s ++ [0].
Proof. destruct size; [lia|]. intros. simpl. by rewrite take_ge by lia. Qed.

(** [strncmp] over a bound that covers both strings decides equality. *)
Lemma strncmp_refl a n : strncmp a a n = 0.
Proof.
  revert a. induction n as [|n IH]; intros a; simpl; [done|].
  rewrite Z.eqb_refl. case_match; auto.
Qed.

Lemma hd_tl_pad a m :
  hd 0 (a ++ replicate m 0) = hd 0 a ∧
  tl (a ++ replicate m 0) = tl a ++ replicate (match a with [] => pred m | _ => m end) 0.
Proof. destruct a as [|x a]; simpl; [by destruct m|done]. Qed.

Lemma strncmp_pad a b n m k :
  strncmp (a ++ replicate m 0) (b ++ replicate k 0) n = strncmp a b n.
Proof.
  revert a b m k. induction n as [|n IH]; intros a b m k; simpl; [done|].
  destruct (hd_tl_pad a m) as [-> ->]. destruct (hd_tl_pad b k) as [-> ->].
  repeat case_match; auto.
Qed.

Lemma strncmp_eq a b n :
  c_text a → c_text b → (length a ≤ n)%nat → (length b ≤ n)%nat →
  strncmp a b n = 0 → a = b.
Proof.
  revert a b. induction n as [|n IH]; intros a b Ha Hb La Lb E.
  - destruct a, b; simpl in *; try lia; done.
  - cbn [strncmp] in E. destruct Ha as [|x a Hx Ha], Hb as [|y b Hy Hb];
      cbn [hd tl length] in *; [done|..].
    + destruct (0 =? y) eqn:?; zbool; lia.
    + destruct (x =? 0) eqn:?; zbool; lia.
    + destruct (x =? y) eqn:?; zbool; [subst|lia].
      destruct (y =? 0) eqn:?; zbool; [lia|].
      f_equal. apply IH; auto; lia.
Qed.

Lemma strncmp_iff a b n m k :
  c_text a → c_text b → (length a ≤ n)%nat → (length b ≤ n)%nat →
  strncmp (a ++ replicate m 0) (b ++ replicate k 0) n = 0 ↔ a = b.
Proof.
  intros. rewrite strncmp_pad. split; [by apply strncmp_eq|].
  intros ->. apply strncmp_refl.
Qed.

Lemma strcmp_text a b : c_text a → c_text b → strcmp a b = 0 ↔ a = b.
Proof.
  intros Ha Hb. unfold strcmp.
  rewrite <-(strncmp_iff a b (S (length a + length b)) 0 0) by (done || lia).
  by rewrite !app_nil_r.
Qed.

(** ** Numbers: printing then scanning *)

Lemma scan_sign_cons c l :
  scan_sign (c :: l) =
    if c =? 45 then (true, l) else if c =? 43 then (false, l) else (false, c :: l).
Proof. destruct c as [|p|p]; try done. do 6 (destruct p as [p|p|]; try reflexivity). Qed.

Lemma digit_of_dec d : 0 ≤ d < 10 → digit_of 10 (48 + d) = Some d.
Proof.
  intros. unfold digit_of, isdigit. ztest. simpl.
  replace (48 + d - 48) with d by lia. by ztest.
Qed.

Lemma span_digits_app ds r :
  Forall (λ d, 0 ≤ d < 10) ds →
  (match r with c :: _ => digit_of 10 c = None | [] => True end) →
  span_digits 10 (((λ d, 48 + d) <$> ds) ++ r) = (ds, r).
Proof.
  intros Hds Hr. induction Hds as [|d ds Hd _ IH].
  - destruct r; simpl; [done|]. by rewrite Hr.
  - rewrite fmap_cons. cbn [app span_digits]. rewrite digit_of_dec by done. by rewrite IH.
Qed.

Lemma foldl_digits_shift ds v :
  foldl (λ v d, v * 10 + d) v ds = v * 10 ^ Z.of_nat (length ds) + digits_val 10 ds.
Proof.
  unfold digits_val. revert v. induction ds as [|d ds IH]; intros v; simpl; [lia|].
  rewrite IH, (IH (0 * 10 + d)).
  rewrite Nat2Z.inj_succ, Z.pow_succ_r by lia. lia.
Qed.

(** The digits [dec_digits] puts in front of its accumulator. *)
Lemma dec_digits_spec f n acc :
  0 ≤ n < 10 ^ Z.of_nat f → (0 < f)%nat →
  ∃ ds, dec_digits f n acc = ((λ d, 48 + d) <$> ds) ++ acc ∧
        Forall (λ d, 0 ≤ d < 10) ds ∧ ds ≠ [] ∧ digits_val 10 ds = n ∧
        (∀ k, 0 < k → n < 10 ^ k → Z.of_nat (length ds) ≤ k).
Proof.
  revert n acc. induction f as [|f IH]; intros n acc Hn Hf; [lia|]. simpl.
  destruct (n <? 10) eqn:E; zbool.
  - exists [n]. rewrite Z.mod_small by lia. repeat split; simpl; auto; try lia.
    repeat constructor; lia.
  - rewrite Nat2Z.inj_succ, Z.pow_succ_r in Hn by lia.
    assert (f ≠ O) by (intros ->; simpl in Hn; lia).
    destruct (IH (n / 10) ((48 + n mod 10) :: acc)) as (ds & -> & Hds & Hne & Hv & Hk).
    { split; [apply Z.div_pos; lia|]. apply Z.div_lt_upper_bound; lia. }
    { lia. }
    exists (ds ++ [n mod 10]). split_and!.
    + by rewrite fmap_app, <-app_assoc.
    + apply Forall_app. split; [done|]. repeat constructor; apply Z.mod_pos_bound; lia.
    + by destruct ds.
    + unfold digits_val in *. rewrite foldl_app, Hv. simpl.
      rewrite (Z.div_mod n 10) at 3 by lia. lia.
    + intros k Hk0 Hnk. rewrite length_app. simpl.
      assert (k ≠ 1) by (intros ->; simpl in Hnk; lia).
      assert (Z.of_nat (length ds) ≤ k - 1); [|lia].
      apply Hk; [lia|]. apply Z.div_lt_upper_bound; [lia|].
      rewrite <-Z.pow_succ_r by lia. by replace (Z.succ (k - 1)) with k by lia.
Qed.

Lemma dec_u_spec n : 0 ≤ n < 10 ^ 20 →
  ∃ ds, dec_u n = (λ d, 48 + d) <$> ds ∧
        Forall (λ d, 0 ≤ d < 10) ds ∧ ds ≠ [] ∧ digits_val 10 ds = n ∧
        (∀ k, 0 < k → n < 10 ^ k → Z.of_nat (length ds) ≤ k).
Proof.
  intros. destruct (dec_digits_spec 20 n []) as (ds & Hds & ?); [done|lia|].
  exists ds. unfold dec_u. by rewrite Hds, app_nil_r.
Qed.

Lemma digits_val_snoc b ds d : digits_val b (ds ++ [d]) = digits_val b ds * b + d.
Proof. unfold digits_val. by rewrite foldl_app. Qed.

Lemma hex_digits_be_spec n z :
  Forall (λ d, 0 ≤ d < 16) (hex_digits_be n z) ∧
  digits_val 16 (hex_digits_be n z) = z mod 16 ^ Z.of_nat n.
Proof.
  unfold hex_digits_be. split.
  { apply Forall_rev, Forall_fmap, list.Forall_forall. intros i _. cbn. by apply Z.mod_pos_bound. }
  revert z. induction n as [|n IH]; intros z; [by rewrite Z.mod_1_r|].
  cbn [seq]. rewrite <-fmap_S_seq, fmap_cons. cbn [rev]. rewrite digits_val_snoc.
  rewrite <-list_fmap_compose.
  rewrite (list_fmap_ext _ (λ i, (z / 16) / 16 ^ Z.of_nat i mod 16)).
  2:{ intros i x _. cbn [compose]. rewrite Nat2Z.inj_succ, Z.pow_succ_r by lia.
      rewrite Z.div_div; [done|lia|]. apply Z.pow_pos_nonneg; lia. }
  rewrite IH, Nat2Z.inj_succ, Z.pow_succ_r by lia. change (16 ^ Z.of_nat 0) with 1.
  assert (16 ^ Z.of_nat n ≠ 0) by (apply Z.pow_nonzero; lia).
  rewrite Z.div_1_r, Z.rem_mul_r by lia. lia.
Qed.

Lemma digits_val_nonneg ds : Forall (λ d, 0 ≤ d < 10) ds → 0 ≤ digits_val 10 ds.
Proof.
  induction 1 as [|d ds Hd _ IH]; [done|]. unfold digits_val. cbn [foldl].
  rewrite foldl_digits_shift.
  assert (0 ≤ (0 * 10 + d) * 10 ^ Z.of_nat (length ds)) by (apply Z.mul_nonneg_nonneg; lia). lia.
Qed.

Lemma dec_u_length n k : 0 ≤ n < 10 ^ 20 → 0 < k → n < 10 ^ k →
  Z.of_nat (length (dec_u n)) ≤ k.
Proof.
  intros Hn Hk Hnk. destruct (dec_u_spec n Hn) as (ds & -> & _ & _ & _ & H).
  rewrite length_fmap. auto.
Qed.

Lemma dec_u_text n : 0 ≤ n < 10 ^ 20 → c_text (dec_u n).
Proof.
  intros Hn. destruct (dec_u_spec n Hn) as (ds & -> & Hds & _).
  apply Forall_fmap. eapply Forall_impl; [exact Hds|]. simpl. lia.
Qed.

(** Scanning what was printed gives the number back, whatever follows it. *)
Lemma scan_number_dec_u n r : 0 ≤ n < 10 ^ 20 →
  (match r with c :: _ => digit_of 10 c = None | [] => True end) →
  scan_number 10 (dec_u n ++ r) = Some (false, n, r).
Proof.
  intros Hn Hr. destruct (dec_u_spec n Hn) as (ds & -> & Hds & Hne & Hv & _).
  destruct ds as [|d ds]; [done|]. pose proof Hds as [Hd _]%Forall_cons.
  assert (skip_spaces (((λ d, 48 + d) <$> (d :: ds)) ++ r)
          = ((λ d, 48 + d) <$> (d :: ds)) ++ r) as Hsk.
  { change ((λ d, 48 + d) <$> (d :: ds)) with ((48 + d) :: ((λ d, 48 + d) <$> ds)).
    simpl. unfold isspace. by ztest. }
  assert (scan_sign (((λ d, 48 + d) <$> (d :: ds)) ++ r)
          = (false, ((λ d, 48 + d) <$> (d :: ds)) ++ r)) as Hsg.
  { change ((λ d, 48 + d) <$> (d :: ds)) with ((48 + d) :: ((λ d, 48 + d) <$> ds)).
    simpl app. unfold scan_sign.
    assert (d = 0 ∨ d = 1 ∨ d = 2 ∨ d = 3 ∨ d = 4 ∨ d = 5 ∨ d = 6 ∨ d = 7 ∨ d = 8 ∨ d = 9)
      as Hcase by lia.
    by repeat (destruct Hcase as [->|Hcase]; [reflexivity|]); subst. }
  unfold scan_number. rewrite Hsk, Hsg. unfold skip_0x. simpl (10 =? 16). cbv iota.
  rewrite span_digits_app by done. by rewrite Hv.
Qed.

Lemma atoi_dec_u n r : 0 ≤ n ≤ INT_MAX →
  (match r with c :: _ => digit_of 10 c = None | [] => True end) →
  atoi (dec_u n ++ r) = n.
Proof.
  unfold INT_MAX. intros Hn Hr. unfold atoi, strtol.
  rewrite scan_number_dec_u by (done || lia). unfold LONG_MIN, LONG_MAX.
  rewrite Z.min_r, Z.max_r by lia. apply s32_small. unfold INT_MAX. lia.
Qed.

Lemma scan_number_dec_neg n r : 0 ≤ n < 10 ^ 20 →
  (match r with c :: _ => digit_of 10 c = None | [] => True end) →
  scan_number 10 (45 :: dec_u n ++ r) = Some (true, n, r).
Proof.
  intros Hn Hr. destruct (dec_u_spec n Hn) as (ds & -> & Hds & Hne & Hv & _).
  unfold scan_number. cbn [skip_spaces]. change (isspace 45) with false. cbv iota.
  rewrite scan_sign_cons. change (45 =? 45) with true. cbv iota.
  unfold skip_0x. change (10 =? 16) with false. cbv iota.
  rewrite span_digits_app by done. rewrite Hv. by destruct ds.
Qed.

(** Digits left after a printed number are read with it. *)
Lemma atoi_digits ds r : Forall (λ d, 0 ≤ d < 10) ds → ds ≠ [] →
  (match r with c :: _ => digit_of 10 c = None | [] => True end) →
  0 ≤ digits_val 10 ds ≤ INT_MAX →
  atoi (((λ d, 48 + d) <$> ds) ++ r) = digits_val 10 ds.
Proof.
  intros Hds Hne Hr Hv. unfold atoi, strtol, scan_number.
  destruct ds as [|d ds]; [done|]. pose proof (Forall_inv Hds) as Hd. cbn beta in Hd.
  assert (Hsp : isspace (48 + d) = false) by (unfold isspace; by ztest).
  rewrite fmap_cons. cbn [app skip_spaces]. rewrite Hsp, scan_sign_cons. ztest.
  unfold skip_0x. change (10 =? 16) with false. cbv iota.
  change (48 + d :: ((λ d, 48 + d) <$> ds) ++ r) with (((λ d, 48 + d) <$> (d :: ds)) ++ r).
  rewrite span_digits_app by done. unfold INT_MAX in Hv. unfold LONG_MIN, LONG_MAX.
  rewrite Z.min_r, Z.max_r by lia. apply s32_small. unfold INT_MAX. lia.
Qed.

Lemma atoi_dec_u_more n ks r : 0 ≤ n ≤ INT_MAX → Forall (λ d, 0 ≤ d < 10) ks →
  (match r with c :: _ => digit_of 10 c = None | [] => True end) →
  n * 10 ^ Z.of_nat (length ks) + digits_val 10 ks ≤ INT_MAX →
  atoi (dec_u n ++ ((λ d, 48 + d) <$> ks) ++ r) =
    n * 10 ^ Z.of_nat (length ks) + digits_val 10 ks.
Proof.
  intros Hn Hks Hr Hb.
  destruct (dec_u_spec n ltac:(unfold INT_MAX in *; lia)) as (ds & -> & Hds & Hne & Hv & _).
  assert (Hval : digits_val 10 (ds ++ ks) = n * 10 ^ Z.of_nat (length ks) + digits_val 10 ks).
  { unfold digits_val. rewrite foldl_app. fold (digits_val 10 ds). rewrite Hv.
    apply foldl_digits_shift. }
  assert (Hk0 : 0 ≤ digits_val 10 ks) by by apply digits_val_nonneg.
  assert (0 ≤ n * 10 ^ Z.of_nat (length ks)) by (apply Z.mul_nonneg_nonneg; lia).
  rewrite app_assoc, <-fmap_app, atoi_digits; [done| | |done|rewrite Hval; lia].
  - by apply Forall_app.
  - by destruct ds.
Qed.

(** Every [int] printed with [%d] is read back by [atoi]. *)
Lemma atoi_dec_d v r : -2147483648 ≤ v ≤ INT_MAX →
  (match r with c :: _ => digit_of 10 c = None | [] => True end) →
  atoi (dec_d v ++ r) = v.
Proof.
  unfold INT_MAX. intros Hv Hr. unfold dec_d. destruct (v <? 0) eqn:E; zbool.
  - unfold atoi, strtol. cbn [app]. rewrite scan_number_dec_neg by (done || lia).
    unfold LONG_MIN, LONG_MAX. rewrite Z.min_r, Z.max_r by lia.
    rewrite s32_small; unfold INT_MAX; lia.
  - apply atoi_dec_u; [unfold INT_MAX; lia|done].
Qed.

Lemma dec_d_text v : -2147483648 ≤ v ≤ INT_MAX → c_text (dec_d v).
Proof.
  unfold INT_MAX, dec_d. intros Hv. destruct (v <? 0) eqn:E; zbool.
  - constructor; [lia|]. apply dec_u_text. lia.
  - apply dec_u_text. lia.
Qed.

Lemma dec_d_length v : -2147483648 ≤ v ≤ INT_MAX → (0 < length (dec_d v) ≤ 11)%nat.
Proof.
  unfold INT_MAX, dec_d. intros Hv.
  assert (H : ∀ n, 0 ≤ n ≤ 2147483648 → (0 < length (dec_u n) ≤ 10)%nat).
  { intros n Hn. pose proof (dec_u_length n 10 ltac:(lia) ltac:(lia) ltac:(lia)).
    destruct (dec_u_spec n ltac:(lia)) as (ds & Hd & _ & Hne & _).
    assert (length (dec_u n) ≠ 0%nat); [|lia]. rewrite Hd, length_fmap. by destruct ds. }
  destruct (v <? 0) eqn:E; zbool; cbn [length].
  - specialize (H (- v) ltac:(lia)). lia.
  - specialize (H v ltac:(lia)). lia.
Qed.

Lemma atoi_range s : -2147483648 ≤ atoi s ≤ INT_MAX.
Proof.
  unfold atoi, s32, INT_MAX.
  pose proof (Z.mod_pos_bound (strtol 10 s + 2147483648) 4294967296). lia.
Qed.

Lemma dec_d_nonneg n : 0 ≤ n → dec_d n = dec_u n.
Proof. intros. unfold dec_d. by ztest. Qed.

(** ** Lines *)

(** Concatenating the lines gives the file back: the fuel of [fgets_lines] is
    enough for every file and buffer of at least two bytes. *)
Lemma fgets_aux_app n l : (fgets_aux n l).1 ++ (fgets_aux n l).2 = l.
Proof.
  revert l. induction n as [|n IH]; intros [|c l]; [done..|]. cbn [fgets_aux].
  destruct (c =? 10); [done|]. specialize (IH l).
  destruct (fgets_aux n l) as [a b]. cbn in *. by rewrite IH.
Qed.

Lemma fgets_aux_nonempty n c l : (0 < n)%nat → (length (fgets_aux n (c :: l)).2 ≤ length l)%nat.
Proof.
  intros Hn. destruct n as [|n]; [lia|]. cbn [fgets_aux]. destruct (c =? 10); [done|].
  pose proof (fgets_aux_app n l) as H. destruct (fgets_aux n l) as [a b]. cbn in *.
  rewrite <-H, length_app. lia.
Qed.

Lemma lines_fuel_concat f size file :
  (2 ≤ size)%nat → (length file < f)%nat → concat (lines_fuel f size file) = file.
Proof.
  intros Hs. revert file. induction f as [|f IH]; intros file Hf; [lia|].
  cbn [lines_fuel]. unfold fgets. destruct file as [|c l]; [done|].
  pose proof (fgets_aux_app (size - 1) (c :: l)) as Happ.
  pose proof (fgets_aux_nonempty (size - 1) c l ltac:(lia)) as Hlen.
  destruct (fgets_aux (size - 1) (c :: l)) as [a b]. cbn [fst snd concat] in *.
  rewrite IH; [done|]. cbn [length] in Hf. lia.
Qed.

Lemma fgets_lines_concat size file :
  (2 ≤ size)%nat → concat (fgets_lines size file) = file.
Proof. intros. apply lines_fuel_concat; [done|lia]. Qed.

Lemma lines_fuel_more f g size file :
  (2 ≤ size)%nat → (length file < f)%nat → (f ≤ g)%nat →
  lines_fuel g size file = lines_fuel f size file.
Proof.
  intros Hs. revert g file. induction f as [|f IH]; intros [|g] file Hf Hg; try lia.
  cbn [lines_fuel]. unfold fgets. destruct file as [|c l]; [done|].
  pose proof (fgets_aux_nonempty (size - 1) c l ltac:(lia)) as Hlen.
  destruct (fgets_aux (size - 1) (c :: l)) as [a b]. cbn [snd length] in *.
  f_equal. apply IH; lia.
Qed.

Lemma fgets_aux_line n l rest :
  10 ∉ l → (length l < n)%nat → fgets_aux n (l ++ 10 :: rest) = (l ++ [10], rest).
Proof.
  revert n. induction l as [|x l IH]; intros n Hl Hn; (destruct n as [|n]; [cbn in Hn; lia|]).
  - done.
  - apply not_elem_of_cons in Hl as [Hx Hl]. cbn [length] in Hn. cbn [app fgets_aux]. ztest.
    by rewrite IH by (done || lia).
Qed.

(** A line that fits the buffer is read whole. *)
Lemma fgets_lines_line size l rest :
  10 ∉ l → (length l + 1 < size)%nat →
  fgets_lines size (l ++ 10 :: rest) = (l ++ [10]) :: fgets_lines size rest.
Proof.
  intros Hl Hs. unfold fgets_lines.
  assert (Hline : ∀ f, lines_fuel (S f) size (l ++ 10 :: rest)
                       = (l ++ [10]) :: lines_fuel f size rest).
  { intros f. cbn [lines_fuel]. unfold fgets at 1.
    destruct (l ++ 10 :: rest) as [|c r] eqn:E; [by destruct l|]. rewrite <-E.
    by rewrite fgets_aux_line by (done || lia). }
  rewrite Hline. f_equal. rewrite length_app. cbn [length]. apply lines_fuel_more; lia.
Qed.

Lemma until_app c l r : c ∉ l → until c (l ++ c :: r) = l.
Proof.
  induction l as [|x l IH]; intros Hc; cbn [app until]; [by rewrite Z.eqb_refl|].
  apply not_elem_of_cons in Hc as [Hx Hc]. ztest. by rewrite IH.
Qed.

#[export] Hint Resolve c_text_take cstr_is_text dec_u_text : cstring.
