(* ===== verification/Inet.v ===== *)
(** * Network byte order and IPv4 addresses

    A 32-bit object of the host (little-endian, as the code's [/proc]
    comments assume) is the number its bytes combine to; [htonl] and [htons]
    swap them.  [inet_pton4] is glibc's [inet_pton(AF_INET, _, _)]: four
    decimal octets without leading zeros. *)

From S2P Require Import Prelude CString.
#[local] Open Scope Z_scope.

(** ** Bytes of a word *)

Fixpoint le_split (n : nat) (z : Z) : list Z :=
  match n with
  | O => []
  | S n' => z mod 256 :: le_split n' (z / 256)
  end.

Fixpoint le_combine (l : list Z) : Z :=
  match l with
  | [] => 0
  | b :: l' => b + 256 * le_combine l'
  end.

Definition be_split (n : nat) (z : Z) : list Z := rev (le_split n z).
Definition be_combine (l : list Z) : Z := le_combine (rev l).

Definition htonl (z : Z) : Z := le_combine (be_split 4 z).
Definition ntohl (z : Z) : Z := htonl z.
Definition htons (z : Z) : Z := le_combine (be_split 2 z).
Definition ntohs (z : Z) : Z := htons z.

(** ** Dotted quads *)

Fixpoint pton4_loop (l done : list Z) (cur : Z) (saw_digit : bool) (octets : Z)
    : option (list Z) :=
  match l with
  | [] => if octets <? 4 then None else Some (done ++ [cur])
  | c :: l' =>
      if isdigit c then
        let new := cur * 10 + (c - 48) in
        if saw_digit && (cur =? 0) then None
        else if 255 <? new then None
        else if saw_digit then pton4_loop l' done new true octets
        else if 4 <? octets + 1 then None
        else pton4_loop l' done new true (octets + 1)
      else if (c =? 46) && saw_digit then
        if octets =? 4 then None else pton4_loop l' (done ++ [cur]) 0 false octets
      else None
  end.

(** The four bytes stored, [None] when the result is not positive. *)
Definition inet_pton4 (s : list Z) : option (list Z) :=
  pton4_loop (cstr s) [] 0 false 0.

(** glibc's [inet_pton(AF_INET6, _, _)].  [tp] is what has been stored so far,
    [colonp] the position of the "::", [curtok] the current field. *)
Fixpoint pton6_loop (src curtok tp : list Z) (colonp : option nat) (xdigits val : Z)
    : option (list Z * option nat * Z * Z) :=
  match src with
  | [] => Some (tp, colonp, xdigits, val)
  | ch :: src' =>
      match digit_of 16 ch with
      | Some digit =>
          if xdigits =? 4 then None
          else if 65535 <? val * 16 + digit then None
          else pton6_loop src' curtok tp colonp (xdigits + 1) (val * 16 + digit)
      | None =>
          if ch =? 58 then
            if xdigits =? 0 then
              match colonp with
              | Some _ => None
              | None => pton6_loop src' src' tp (Some (length tp)) xdigits val
              end
            else match src' with
            | [] => None
            | _ =>
                if (16 <? Z.of_nat (length tp) + 2) then None
                else pton6_loop src' src' (tp ++ [val / 256; val mod 256]) colonp 0 0
            end
          else if (ch =? 46) && (Z.of_nat (length tp) + 4 <=? 16) then
            match inet_pton4 curtok with
            | Some bs => Some (tp ++ bs, colonp, 0, val)
            | None => None
            end
          else None
      end
  end.

Definition inet_pton6 (s : list Z) : option (list Z) :=
  let src := cstr s in
  let start :=
    match src with
    | [] => None
    | c :: src' => if c =? 58
                   then match src' with c2 :: _ => if c2 =? 58 then Some src' else None
                                   | [] => None end
                   else Some src
    end in
  src ← start;
  '(tp, colonp, xdigits, val) ← pton6_loop src src [] None 0 0;
  tp ← (if 0 <? xdigits then
          if 16 <? Z.of_nat (length tp) + 2 then None else Some (tp ++ [val / 256; val mod 256])
        else Some tp);
  match colonp with
  | Some k =>
      if (length tp =? 16)%nat then None
      else Some (take k tp ++ replicate (16 - length tp) 0 ++ drop k tp)
  | None => if (length tp =? 16)%nat then Some tp else None
  end.

(** [strtoul(_, _, 0)] at a digit: base 16 after [0x], 8 after [0], else 10. *)
Definition strtoul0 (l : list Z) : Z * list Z :=
  match l with
  | c :: x :: d :: l' =>
      if (c =? 48) && ((x =? 120) || (x =? 88)) && bool_decide (is_Some (digit_of 16 d)) then
        let '(ds, r) := span_digits 16 (d :: l') in (digits_val 16 ds, r)
      else
        let '(ds, r) := span_digits (if c =? 48 then 8 else 10) l in
        (digits_val (if c =? 48 then 8 else 10) ds, r)
  | c :: _ =>
      let '(ds, r) := span_digits (if c =? 48 then 8 else 10) l in
      (digits_val (if c =? 48 then 8 else 10) ds, r)
  | [] => (0, [])
  end.

(** glibc's [inet_aton]: one to four numbers, the last one filling the bytes
    that are left; space may follow.  The four bytes of the address. *)
Fixpoint aton_loop (fuel : nat) (l bytes : list Z) : option (list Z) :=
  match fuel, l with
  | S f, c :: _ =>
      if negb (isdigit c) then None
      else
        let '(val, r) := strtoul0 l in
        if 4294967295 <? val then None
        else match r with
        | 46 :: r' =>
            if (3 <=? length bytes)%nat || (255 <? val) then None
            else aton_loop f r' (bytes ++ [val])
        | _ =>
            if match r with [] => true | c :: _ => isspace c end
            then if 256 ^ (4 - Z.of_nat (length bytes)) - 1 <? val then None
                 else Some (bytes ++ be_split (4 - length bytes) val)
            else None
        end
  | _, _ => None
  end.

Definition inet_aton (s : list Z) : option (list Z) := aton_loop 4 (cstr s) [].

(** [%d.%d.%d.%d] *)
Definition dotted (bs : list Z) : list Z :=
  match bs with
  | [a; b; c; d] => dec_u a ++ [46] ++ dec_u b ++ [46] ++ dec_u c ++ [46] ++ dec_u d
  | _ => []
  end.

(** ** Lemmas *)

Lemma le_split_length n z : length (le_split n z) = n.
Proof. revert z. induction n as [|n IH]; intros z; simpl; [done|]. by rewrite IH. Qed.

Lemma le_split_bytes n z : Forall is_byte (le_split n z).
Proof.
  revert z. induction n as [|n IH]; intros z; simpl; constructor; [|done].
  unfold is_byte. apply Z.mod_pos_bound. lia.
Qed.

Lemma le_combine_bound l :
  Forall is_byte l → 0 ≤ le_combine l < 256 ^ Z.of_nat (length l).
Proof.
  induction 1 as [|b l Hb _ IH]; simpl length; [simpl; lia|].
  rewrite Nat2Z.inj_succ, Z.pow_succ_r by lia. simpl. unfold is_byte in Hb. lia.
Qed.

Lemma le_split_combine l : Forall is_byte l → le_split (length l) (le_combine l) = l.
Proof.
  induction 1 as [|b l Hb _ IH]; [done|]. simpl. unfold is_byte in Hb.
  rewrite (Z.mul_comm 256), Z.mod_add, Z.mod_small by lia.
  by rewrite Z.div_add, Z.div_small, Z.add_0_l, IH by lia.
Qed.

Lemma le_combine_split n z : le_combine (le_split n z) = z mod 256 ^ Z.of_nat n.
Proof.
  revert z. induction n as [|n IH]; intros z; [by rewrite Z.mod_1_r|].
  rewrite Nat2Z.inj_succ, Z.pow_succ_r by lia. cbn [le_split le_combine]. rewrite IH.
  rewrite Z.rem_mul_r by lia. lia.
Qed.

Lemma be_split_length n z : length (be_split n z) = n.
Proof. unfold be_split. by rewrite length_rev, le_split_length. Qed.

Lemma be_split_bytes n z : Forall is_byte (be_split n z).
Proof. apply Forall_rev, le_split_bytes. Qed.

(** [htonl] on a word given by its bytes. *)
Lemma htonl_bytes bs : Forall is_byte bs → length bs = 4%nat →
  htonl (le_combine bs) = be_combine bs.
Proof.
  intros Hb Hl. unfold htonl, be_split, be_combine. rewrite <-Hl. by rewrite le_split_combine.
Qed.

Lemma htonl_range z : 0 ≤ htonl z < 4294967296.
Proof.
  pose proof (le_combine_bound _ (be_split_bytes 4 z)) as H.
  rewrite be_split_length in H. exact H.
Qed.

Lemma htonl_involutive z : htonl (htonl z) = z mod 4294967296.
Proof.
  unfold htonl at 1. unfold htonl, be_split at 1.
  rewrite <-(be_split_length 4 z) at 1. rewrite le_split_combine by apply be_split_bytes.
  unfold be_split. rewrite rev_involutive. apply le_combine_split.
Qed.

(** The bytes of [htonl z], most significant first, are those of [z]. *)
Lemma be_split_htonl z : be_split 4 (htonl z) = le_split 4 z.
Proof.
  unfold htonl. unfold be_split at 1. rewrite <-(be_split_length 4 z) at 1.
  rewrite le_split_combine by apply be_split_bytes. unfold be_split. apply rev_involutive.
Qed.

(** One octet of a dotted quad. *)
Lemma pton4_octet x rest done octets :
  0 ≤ x < 256 → octets < 4 →
  pton4_loop (dec_u x ++ rest) done 0 false octets = pton4_loop rest done x true (octets + 1).
Proof.
  intros Hx Ho. unfold dec_u. cbn [dec_digits].
  destruct (x <? 10) eqn:E1; zbool.
  { rewrite Z.mod_small by lia. cbn [app pton4_loop]. unfold isdigit. ztest. cbn [andb].
    ztest. f_equal. lia. }
  pose proof (Z.div_mod x 10 ltac:(lia)). pose proof (Z.mod_pos_bound x 10 ltac:(lia)).
  destruct (x / 10 <? 10) eqn:E2; zbool.
  { rewrite (Z.mod_small (x / 10)) by lia. cbn [app pton4_loop]. unfold isdigit. ztest.
    cbn [andb]. ztest. f_equal. lia. }
  pose proof (Z.div_mod (x / 10) 10 ltac:(lia)).
  pose proof (Z.mod_pos_bound (x / 10) 10 ltac:(lia)).
  replace (x / 10 / 10 <? 10) with true by (symmetry; apply Z.ltb_lt; lia).
  rewrite (Z.mod_small (x / 10 / 10)) by lia. cbn [app pton4_loop]. unfold isdigit. ztest.
  cbn [andb]. ztest. f_equal. lia.
Qed.

Lemma dec_u_text_byte x : 0 ≤ x < 256 → c_text (dec_u x).
Proof. intros. apply dec_u_text. lia. Qed.

(** What is printed with [%d.%d.%d.%d] reads back. *)
Lemma inet_pton4_dotted a b c d :
  Forall is_byte [a; b; c; d] → inet_pton4 (dotted [a; b; c; d]) = Some [a; b; c; d].
Proof.
  intros [Ha [Hb [Hc [Hd _]%Forall_cons_1]%Forall_cons_1]%Forall_cons_1]%Forall_cons_1.
  unfold inet_pton4, dotted.
  unfold is_byte in *.
  assert (Hdot : c_text [46]) by (repeat constructor).
  rewrite cstr_text_nil by (rewrite !c_text_app; auto 10 using dec_u_text_byte).
  rewrite pton4_octet by lia. cbn [app pton4_loop]. change (isdigit 46) with false.
  cbn [Z.add]. rewrite pton4_octet by lia. cbn [app pton4_loop]. change (isdigit 46) with false.
  cbn [Z.add]. rewrite pton4_octet by lia. cbn [app pton4_loop]. change (isdigit 46) with false.
  cbn [Z.add]. rewrite <-(app_nil_r (dec_u d)), pton4_octet by lia. reflexivity.
Qed.

(** ** Bitwise operations and byte order *)

Lemma mod256_land x y : Z.land x y mod 256 = Z.land (x mod 256) (y mod 256).
Proof.
  change 256 with (2 ^ 8). rewrite <-!Z.land_ones by lia.
  apply Z.bits_inj'. intros n _. rewrite !Z.land_spec, ?Z.lor_spec, ?Z.land_spec.
  by destruct (Z.testbit x n), (Z.testbit y n), (Z.testbit (Z.ones 8) n).
Qed.

Lemma mod256_lor x y : Z.lor x y mod 256 = Z.lor (x mod 256) (y mod 256).
Proof.
  change 256 with (2 ^ 8). rewrite <-!Z.land_ones by lia.
  apply Z.bits_inj'. intros n _. rewrite !Z.land_spec, ?Z.lor_spec, ?Z.land_spec.
  by destruct (Z.testbit x n), (Z.testbit y n), (Z.testbit (Z.ones 8) n).
Qed.

Lemma div256_land x y : Z.land x y / 256 = Z.land (x / 256) (y / 256).
Proof. change 256 with (2 ^ 8). by rewrite <-!Z.shiftr_div_pow2, Z.shiftr_land by lia. Qed.

Lemma div256_lor x y : Z.lor x y / 256 = Z.lor (x / 256) (y / 256).
Proof. change 256 with (2 ^ 8). by rewrite <-!Z.shiftr_div_pow2, Z.shiftr_lor by lia. Qed.

Lemma le_split_land n x y :
  le_split n (Z.land x y) = zip_with Z.land (le_split n x) (le_split n y).
Proof.
  revert x y. induction n as [|n IH]; intros x y; [done|].
  cbn [le_split zip_with]. by rewrite mod256_land, div256_land, IH.
Qed.

Lemma le_split_lor n x y :
  le_split n (Z.lor x y) = zip_with Z.lor (le_split n x) (le_split n y).
Proof.
  revert x y. induction n as [|n IH]; intros x y; [done|].
  cbn [le_split zip_with]. by rewrite mod256_lor, div256_lor, IH.
Qed.

Lemma rev_zip_with {A} (f : A → A → A) l k :
  length l = length k → rev (zip_with f l k) = zip_with f (rev l) (rev k).
Proof.
  revert k. induction l as [|x l IH]; intros [|y k]; simpl; try done.
  intros [= H]. rewrite IH by done. rewrite zip_with_app by (by rewrite !length_rev). done.
Qed.

Lemma le_split_htonl x : le_split 4 (htonl x) = be_split 4 x.
Proof.
  unfold htonl. rewrite <-(be_split_length 4 x) at 1.
  apply le_split_combine, be_split_bytes.
Qed.

(** Words below 2^32 with the same bytes are the same. *)
Lemma le_split_inj x y :
  0 ≤ x < 4294967296 → 0 ≤ y < 4294967296 → le_split 4 x = le_split 4 y → x = y.
Proof.
  intros Hx Hy H. apply (f_equal le_combine) in H. rewrite !le_combine_split in H.
  change (256 ^ Z.of_nat 4) with 4294967296 in H. by rewrite !Z.mod_small in H.
Qed.

Lemma land_range x y n :
  0 ≤ n → 0 ≤ x → 0 ≤ y < 2 ^ n → 0 ≤ Z.land x y < 2 ^ n.
Proof.
  intros Hn Hx Hy. split; [apply Z.land_nonneg; lia|].
  destruct (decide (Z.land x y = 0)) as [->|Hz]; [apply Z.pow_pos_nonneg; lia|].
  apply Z.log2_lt_pow2; [pose proof (proj2 (Z.land_nonneg x y)); lia|].
  pose proof (Z.log2_land x y Hx (proj1 Hy)).
  destruct (decide (y = 0)) as [->|]; [by rewrite Z.land_0_r in Hz|].
  pose proof (proj1 (Z.log2_lt_pow2 y n ltac:(lia)) (proj2 Hy)). lia.
Qed.

Lemma lor_range x y n :
  0 ≤ n → 0 ≤ x < 2 ^ n → 0 ≤ y < 2 ^ n → 0 ≤ Z.lor x y < 2 ^ n.
Proof.
  intros Hn Hx Hy. split; [apply Z.lor_nonneg; lia|].
  destruct (decide (Z.lor x y = 0)) as [->|Hz]; [apply Z.pow_pos_nonneg; lia|].
  pose proof (proj2 (Z.lor_nonneg x y) ltac:(lia)).
  apply Z.log2_lt_pow2; [lia|]. rewrite Z.log2_lor by lia.
  apply Z.max_lub_lt.
  - destruct (decide (x = 0)) as [->|]; [|apply Z.log2_lt_pow2; lia].
    destruct (decide (n = 0)) as [->|]; [|simpl; lia].
    exfalso. assert (y = 0) as -> by (simpl in *; lia). by apply Hz.
  - destruct (decide (y = 0)) as [->|]; [|apply Z.log2_lt_pow2; lia].
    destruct (decide (n = 0)) as [->|]; [|simpl; lia].
    exfalso. assert (x = 0) as -> by (simpl in *; lia). by apply Hz.
Qed.

Lemma htonl_land x y : htonl (Z.land x y) = Z.land (htonl x) (htonl y).
Proof.
  apply le_split_inj; [apply htonl_range| |].
  - apply (land_range _ _ 32); [lia|apply htonl_range..].
  - rewrite le_split_land, !le_split_htonl. unfold be_split. rewrite le_split_land.
    apply rev_zip_with. by rewrite !le_split_length.
Qed.

Lemma htonl_lor x y : htonl (Z.lor x y) = Z.lor (htonl x) (htonl y).
Proof.
  apply le_split_inj; [apply htonl_range| |].
  - apply (lor_range _ _ 32); [lia|apply htonl_range..].
  - rewrite le_split_lor, !le_split_htonl. unfold be_split. rewrite le_split_lor.
    apply rev_zip_with. by rewrite !le_split_length.
Qed.

Lemma htonl_inj x y :
  0 ≤ x < 4294967296 → 0 ≤ y < 4294967296 → htonl x = htonl y → x = y.
Proof.
  intros Hx Hy H. apply (f_equal htonl) in H. rewrite !htonl_involutive in H.
  by rewrite !Z.mod_small in H.
Qed.

Lemma htonl_mod x : htonl (x mod 4294967296) = htonl x.
Proof.
  unfold htonl, be_split. f_equal. f_equal.
  change 4294967296 with (2 ^ 32). rewrite <-Z.land_ones by lia. rewrite le_split_land.
  change (le_split 4 (Z.ones 32)) with [255; 255; 255; 255].
  assert (H : ∀ z, Z.land (z mod 256) 255 = z mod 256).
  { intros z. change 255 with (Z.ones 8). rewrite Z.land_ones by lia. by rewrite Z.mod_mod. }
  cbn [le_split zip_with]. by rewrite !H.
Qed.

(** ** Prefixes *)

Lemma land_high x k :
  0 ≤ x < 4294967296 → 0 ≤ k ≤ 32 → Z.land x (4294967296 - 2 ^ k) = x / 2 ^ k * 2 ^ k.
Proof. exact (land_high_bits 32 x k). Qed.

(** Setting the low [k] bits of a word. *)
Lemma lor_low x k :
  0 ≤ x → 0 ≤ k → Z.lor x (2 ^ k - 1) = x / 2 ^ k * 2 ^ k + (2 ^ k - 1).
Proof.
  intros Hx Hk. replace (2 ^ k - 1) with (Z.ones k) by (rewrite Z.ones_equiv; lia).
  rewrite <-Z.shiftr_div_pow2, <-Z.shiftl_mul_pow2 by lia.
  rewrite Z.add_nocarry_lxor.
  2:{ apply Z.bits_inj'. intros n Hn. rewrite Z.land_spec, Z.shiftl_spec, Z.bits_0 by done.
      rewrite Z.testbit_ones_nonneg by lia. destruct (n <? k) eqn:E; zbool.
      - rewrite (Z.testbit_neg_r _ (n - k)) by lia. done.
      - apply andb_false_r. }
  apply Z.bits_inj'. intros n Hn.
  rewrite Z.lor_spec, Z.lxor_spec, Z.shiftl_spec, Z.testbit_ones_nonneg by lia.
  destruct (n <? k) eqn:E; zbool.
  - rewrite (Z.testbit_neg_r _ (n - k)) by lia. by rewrite orb_true_r.
  - rewrite Z.shiftr_spec by lia. replace (n - k + k) with n by lia.
    by rewrite orb_false_r, xorb_false_r.
Qed.

Lemma inet_pton4_quad bs :
  Forall is_byte bs → length bs = 4%nat → inet_pton4 (dotted bs) = Some bs.
Proof.
  intros H Hl. destruct bs as [|a [|b [|c [|d [|]]]]]; try done. by apply inet_pton4_dotted.
Qed.

Lemma aton_loop_length fuel l bytes a :
  aton_loop fuel l bytes = Some a → (length bytes ≤ 3)%nat → length a = 4%nat.
Proof.
  revert l bytes. induction fuel as [|f IH]; intros l bytes; [done|]. cbn [aton_loop].
  destruct l as [|c l]; [done|]. destruct (negb (isdigit c)); [done|].
  destruct (strtoul0 (c :: l)) as [val r]. destruct (4294967295 <? val); [done|].
  assert (Hlast : (if match r with [] => true | c :: _ => isspace c end
            then if 256 ^ (4 - Z.of_nat (length bytes)) - 1 <? val then None
                 else Some (bytes ++ be_split (4 - length bytes) val)
            else None) = Some a → (length bytes ≤ 3)%nat → length a = 4%nat).
  { destruct (match r with [] => true | _ => _ end); [|done]. destruct (_ <? val); [done|].
    intros [= <-] Hb. rewrite length_app, be_split_length. lia. }
  destruct r as [|d r]; [done|]. destruct (decide (d = 46)) as [->|Hd].
  - destruct ((3 <=? length bytes)%nat) eqn:E; [done|]. cbn [orb]. apply Nat.leb_gt in E.
    destruct (255 <? val); [done|]. intros H _. eapply IH; [exact H|]. rewrite length_app. cbn. lia.
  - intros H. apply Hlast. revert H.
    destruct d as [|d|d]; try done. repeat (destruct d as [d|d|]; try done).
Qed.

Lemma inet_aton_length s a : inet_aton s = Some a → length a = 4%nat.
Proof. intros H. eapply aton_loop_length; [exact H|cbn; lia]. Qed.
