(* ===== verification/SfexLib.v ===== *)
(** * sfex: the meta-data library (tools/sfex.h, tools/sfex_lib.c)

    The shared disk is a list of bytes read and written at a file offset
    through the process' block buffer [locked_mem].  Every system call takes
    its result from a script of kernel answers (an exhausted script answers
    success), so transient errors, short transfers and hard errors are all
    inputs; the [do { } while (1)] loops that retry EINTR and EAGAIN consume
    the transient answers of the script.  All accesses to the buffer are
    checked: leaving it is the outcome [Fault]. *)

From S2P Require Import Prelude CString.
#[local] Open Scope Z_scope.

(** ** Constants and data of sfex.h *)

Definition SFEX_VERSION : Z := 1.
Definition SFEX_REVISION : Z := 3.
Definition SFEX_MAGIC : list Z := str "SFEX".
Definition SFEX_MIN_NUMLOCKS : Z := 1.
Definition SFEX_MAX_NUMLOCKS : Z := 999.
Definition SFEX_MAX_COUNT : Z := 999.
Definition SFEX_MAX_NODENAME : Z := 255.
Definition SFEX_STATUS_UNLOCK : Z := 117. (* 'u' *)
Definition SFEX_STATUS_LOCK : Z := 108. (* 'l' *)

Definition SFEX_NEXT_COUNT (c : Z) : Z :=
  if SFEX_MAX_COUNT <=? c then c - SFEX_MAX_COUNT else c + 1.

Record controldata : Type := Controldata {
  cd_magic : list Z;
  cd_version : Z;
  cd_revision : Z;
  cd_blocksize : Z;
  cd_numlocks : Z }.

Record lockdata : Type := Lockdata {
  ld_status : Z;
  ld_count : Z;
  ld_nodename : list Z }.

#[export] Instance lockdata_eq_dec : EqDecision lockdata.
Proof. solve_decision. Defined.

(** Offsets and sizes of sfex_controldata_ondisk and sfex_lockdata_ondisk. *)
Definition OFF_MAGIC : nat := 0.
Definition OFF_VERSION : nat := 4.
Definition OFF_REVISION : nat := 8.
Definition OFF_BLOCKSIZE : nat := 12.
Definition OFF_NUMLOCKS : nat := 20.
Definition OFF_STATUS : nat := 0.
Definition OFF_COUNT : nat := 1.
Definition OFF_NODENAME : nat := 5.
Definition SIZEOF_LOCKDATA : nat := 261.

(** ** The process' view of the device and of the kernel *)

Inductive errno : Type := EINTR | EAGAIN | EOTHER.

#[export] Instance errno_eq_dec : EqDecision errno.
Proof. solve_decision. Defined.

(** One answer of the kernel: success, a transfer of at most [n] bytes, or an
    error. *)
Inductive kres : Type := KOk | KShort (n : nat) | KErr (e : errno).

Definition transient (k : kres) : bool :=
  match k with KErr EINTR | KErr EAGAIN => true | _ => false end.

Record world : Type := World {
  w_dev : list Z;       (* the device *)
  w_pos : Z;            (* file offset of dev_fd *)
  w_mem : list Z;       (* locked_mem *)
  w_sector : Z;         (* sector_size *)
  w_kopen : list kres;
  w_kseek : list kres;
  w_kread : list kres;
  w_kwrite : list kres }.

Definition set_pos (p : Z) (w : world) : world :=
  World (w_dev w) p (w_mem w) (w_sector w) (w_kopen w) (w_kseek w) (w_kread w) (w_kwrite w).
Definition set_mem (m : list Z) (w : world) : world :=
  World (w_dev w) (w_pos w) m (w_sector w) (w_kopen w) (w_kseek w) (w_kread w) (w_kwrite w).
Definition set_dev (d : list Z) (w : world) : world :=
  World d (w_pos w) (w_mem w) (w_sector w) (w_kopen w) (w_kseek w) (w_kread w) (w_kwrite w).
Definition set_sector (s : Z) (w : world) : world :=
  World (w_dev w) (w_pos w) (w_mem w) s (w_kopen w) (w_kseek w) (w_kread w) (w_kwrite w).
Definition set_kopen (ks : list kres) (w : world) : world :=
  World (w_dev w) (w_pos w) (w_mem w) (w_sector w) ks (w_kseek w) (w_kread w) (w_kwrite w).
Definition set_kseek (ks : list kres) (w : world) : world :=
  World (w_dev w) (w_pos w) (w_mem w) (w_sector w) (w_kopen w) ks (w_kread w) (w_kwrite w).
Definition set_kread (ks : list kres) (w : world) : world :=
  World (w_dev w) (w_pos w) (w_mem w) (w_sector w) (w_kopen w) (w_kseek w) ks (w_kwrite w).
Definition set_kwrite (ks : list kres) (w : world) : world :=
  World (w_dev w) (w_pos w) (w_mem w) (w_sector w) (w_kopen w) (w_kseek w) (w_kread w) ks.

(** The loops [do { s = call(); if (s == -1 && (errno == EINTR || errno ==
    EAGAIN)) continue; ... } while (1)]: the first answer that is not
    transient, and the script after it. *)
Fixpoint retry (ks : list kres) : kres * list kres :=
  match ks with
  | [] => (KOk, [])
  | k :: ks' => if transient k then retry ks' else (k, ks')
  end.

(** [lseek(dev_fd, off, SEEK_SET)], one call. *)
Definition sys_lseek (off : Z) : M world Z := λ w,
  let '(k, ks) := match w_kseek w with [] => (KOk, []) | k :: ks => (k, ks) end in
  let w' := set_kseek ks w in
  match k with
  | KErr _ => (Ret (-1), w')
  | _ => if s64 off <? 0 then (Ret (-1), w') else (Ret off, set_pos off w')
  end.

(** Bytes the device has from the current offset on. *)
Definition avail (w : world) : Z := Z.max 0 (Z.of_nat (length (w_dev w)) - w_pos w).

Definition transfer (k : kres) (n : Z) (w : world) : Z :=
  match k with
  | KShort m => Z.min (Z.of_nat m) (Z.min n (avail w))
  | _ => Z.min n (avail w)
  end.

(** The read loop over [read(dev_fd, locked_mem, n)]. *)
Definition read_loop (n : Z) : M world Z := λ w,
  let '(k, ks) := retry (w_kread w) in
  let w1 := set_kread ks w in
  match k with
  | KErr _ => (Ret (-1), w1)
  | _ =>
      let c := transfer k n w1 in
      let bs := take (Z.to_nat c) (drop (Z.to_nat (w_pos w1)) (w_dev w1)) in
      match poke 0 bs (w_mem w1) with
      | Some m => (Ret c, set_pos (w_pos w1 + c) (set_mem m w1))
      | None => (Fault, w1)
      end
  end.

(** The write loop over [write(dev_fd, locked_mem, n)]; a device that has no
    room left answers an error. *)
Definition write_loop (n : Z) : M world Z := λ w,
  let '(k, ks) := retry (w_kwrite w) in
  let w1 := set_kwrite ks w in
  match k with
  | KErr _ => (Ret (-1), w1)
  | _ =>
      let c := transfer k n w1 in
      if n =? 0 then (Ret 0, w1)
      else if avail w1 =? 0 then (Ret (-1), w1)
      else
        match peek 0 (Z.to_nat n) (w_mem w1) with
        | None => (Fault, w1)
        | Some buf =>
            match poke (Z.to_nat (w_pos w1)) (take (Z.to_nat c) buf) (w_dev w1) with
            | Some d => (Ret c, set_pos (w_pos w1 + c) (set_dev d w1))
            | None => (Fault, w1)
            end
        end
  end.

(** Stores into and loads from locked_mem. *)
Definition mem_poke (off : nat) (bs : list Z) : M world unit := λ w,
  match poke off bs (w_mem w) with
  | Some m => (Ret tt, set_mem m w)
  | None => (Fault, w)
  end.
Definition mem_peek (off n : nat) : M world (list Z) := λ w,
  match peek off n (w_mem w) with
  | Some bs => (Ret bs, w)
  | None => (Fault, w)
  end.
Definition mem_memset0 (n : Z) : M world unit := mem_poke 0 (replicate (Z.to_nat n) 0).

(** ** sfex_lib.c *)

(** What [ioctl(BLKSSZGET)] leaves in [sec_tmp] (0 when it fails) and whether
    [posix_memalign] succeeds are inputs of [prepare_lock]. *)
Definition prepare_lock (sec_tmp : Z) (memalign_ok : bool) : M world Z := λ w,
  let '(k, ks) := retry (w_kopen w) in
  let w1 := set_kopen ks w in
  match k with
  | KErr _ => (Exited 3, w1)
  | _ =>
      let w2 := set_pos 0 (set_sector (u64 sec_tmp) w1) in
      if w_sector w2 =? 0 then (Exited EXIT_FAILURE, w2)
      else if negb memalign_ok then (Exited 3, w2)
      else (Ret 0, set_mem (replicate (Z.to_nat (w_sector w2)) 0) w2)
  end.

Definition get_progname (argv0 : list Z) : list Z :=
  match strrchr argv0 47 with
  | Some (_ :: p) => p
  | _ => argv0
  end.

(** [uname_nodename] is what [uname] reports ([None]: it fails), [strdup_ok]
    whether [strdup] has memory. *)
Definition get_nodename (uname_nodename : option (list Z)) (strdup_ok : bool)
    : outcome (list Z) :=
  match uname_nodename with
  | None => Exited 3
  | Some n =>
      if SFEX_MAX_NODENAME <? strlen n then Exited 3
      else if strdup_ok then Ret (cstr n) else Exited 3
  end.

Definition init_controldata (blocksize numlocks : Z) : controldata :=
  Controldata SFEX_MAGIC SFEX_VERSION SFEX_REVISION blocksize numlocks.

(** [garbage] is the 256-byte array before the call: only byte 0 is set. *)
Definition init_lockdata (garbage : list Z) : lockdata :=
  Lockdata SFEX_STATUS_UNLOCK 0 (<[0%nat := 0]> garbage).

Definition write_controldata (cdata : controldata) : M world unit :=
  mem_memset0 (cd_blocksize cdata);;
  mem_poke OFF_MAGIC (cd_magic cdata);;
  mem_poke OFF_VERSION (snprintf_bytes 4 (dec_d (cd_version cdata)));;
  mem_poke OFF_REVISION (snprintf_bytes 4 (dec_d (cd_revision cdata)));;
  mem_poke OFF_BLOCKSIZE (snprintf_bytes 8 (dec_u (u32 (cd_blocksize cdata))));;
  mem_poke OFF_NUMLOCKS (snprintf_bytes 4 (dec_d (cd_numlocks cdata)));;
  r ← sys_lseek 0;
  if r =? -1 then mexit 3
  else
    s ← write_loop (cd_blocksize cdata);
    if s =? -1 then mexit 3 else mret tt.

(** Byte offset of lock [index]: [cdata->blocksize * index] in size_t. *)
Definition lock_offset (cdata : controldata) (index : Z) : Z :=
  u64 (cd_blocksize cdata * u64 index).

Definition write_lockdata (cdata : controldata) (ldata : lockdata) (index : Z)
    : M world Z :=
  mem_memset0 (cd_blocksize cdata);;
  mem_poke OFF_STATUS [u8 (ld_status ldata)];;
  mem_poke OFF_COUNT (snprintf_bytes 4 (dec_d (ld_count ldata)));;
  mem_poke OFF_NODENAME (snprintf_bytes 256 (cstr (ld_nodename ldata)));;
  r ← sys_lseek (lock_offset cdata index);
  if r =? -1 then mret (-1)
  else
    s ← write_loop (cd_blocksize cdata);
    if s =? -1 then mret (-1)
    else if negb (u64 s =? cd_blocksize cdata) then mret (-1)
    else mret 0.

(** Last byte of an on-disk field. *)
Definition last_byte (l : list Z) : Z := nth (length l - 1) l 0.

Definition read_controldata (cdata : controldata) : M world (Z * controldata) :=
  r ← sys_lseek 0;
  if r =? -1 then mret (-1, cdata)
  else
    sector ← mgets w_sector;
    s ← read_loop sector;
    if s =? -1 then mret (-1, cdata)
    else
      magic ← mem_peek OFF_MAGIC 4;
      let c1 := Controldata magic (cd_version cdata) (cd_revision cdata)
                            (cd_blocksize cdata) (cd_numlocks cdata) in
      if negb (bool_decide (magic = SFEX_MAGIC)) then mret (-1, c1)
      else
        version ← mem_peek OFF_VERSION 4;
        revision ← mem_peek OFF_REVISION 4;
        blocksize ← mem_peek OFF_BLOCKSIZE 8;
        numlocks ← mem_peek OFF_NUMLOCKS 4;
        if negb (last_byte version =? 0) || negb (last_byte revision =? 0)
           || negb (last_byte blocksize =? 0) || negb (last_byte numlocks =? 0)
        then mret (-1, c1)
        else
          let v := atoi (cstr version) in
          let c2 := Controldata magic v (cd_revision cdata)
                                (cd_blocksize cdata) (cd_numlocks cdata) in
          if negb (v =? SFEX_VERSION) then mret (-1, c2)
          else mret (0, Controldata magic v (atoi (cstr revision))
                          (u64 (atoi (cstr blocksize))) (atoi (cstr numlocks))).

Definition read_lockdata (cdata : controldata) (ldata : lockdata) (index : Z)
    : M world (Z * lockdata) :=
  r ← sys_lseek (lock_offset cdata index);
  if r =? -1 then mret (-1, ldata)
  else
    s ← read_loop (cd_blocksize cdata);
    if s =? -1 then mret (-1, ldata)
    else if negb (u64 s =? cd_blocksize cdata) then mret (-1, ldata)
    else
      count ← mem_peek OFF_COUNT 4;
      nodename ← mem_peek OFF_NODENAME 256;
      if negb (last_byte count =? 0) || negb (last_byte nodename =? 0)
      then mret (-1, ldata)
      else
        st ← mem_peek OFF_STATUS 1;
        let status := s8 (hd 0 st) in
        if negb (status =? SFEX_STATUS_UNLOCK) && negb (status =? SFEX_STATUS_LOCK)
        then mret (-1, Lockdata status (ld_count ldata) (ld_nodename ldata))
        else mret (0, Lockdata status (atoi (cstr count))
                        (strncpy (ld_nodename ldata) nodename 256)).

Definition lock_index_check (cdata : controldata) (index : Z)
    : M world (Z * controldata) :=
  '(rc, c) ← read_controldata cdata;
  if rc =? -1 then mret (-1, c)
  else if cd_numlocks c <? index then mret (-1, c)
  else
    sector ← mgets w_sector;
    if negb (cd_blocksize c =? sector) then mret (-1, c)
    else mret (0, c).

(** ** The on-disk format, as a specification *)

(** A text field: the text and NUL padding up to the field's size. *)
Definition field (n : nat) (s : list Z) : list Z := s ++ replicate (n - length s) 0.

Definition lock_block (bs : Z) (ld : lockdata) : list Z :=
  [ld_status ld] ++ field 4 (dec_u (ld_count ld)) ++ field 256 (cstr (ld_nodename ld))
  ++ replicate (Z.to_nat bs - SIZEOF_LOCKDATA) 0.

Definition control_block (c : controldata) : list Z :=
  cd_magic c ++ field 4 (dec_u (cd_version c)) ++ field 4 (dec_u (cd_revision c))
  ++ field 8 (dec_u (cd_blocksize c)) ++ field 4 (dec_u (cd_numlocks c))
  ++ replicate (Z.to_nat (cd_blocksize c) - 24) 0.

#[global] Arguments field : simpl never.
#[global] Arguments lock_block : simpl never.
#[global] Arguments control_block : simpl never.

(** A node name as the 256-byte array that holds it. *)
Definition name_buf (nm : list Z) : list Z := field 256 nm.

Definition wf_name (nm : list Z) : Prop := c_text nm ∧ (length nm ≤ 255)%nat.

Record wf_lockdata (ld : lockdata) : Prop := {
  wf_status : ld_status ld = SFEX_STATUS_UNLOCK ∨ ld_status ld = SFEX_STATUS_LOCK;
  wf_count : 0 ≤ ld_count ld ≤ SFEX_MAX_COUNT;
  wf_nodename : ∃ nm, wf_name nm ∧ ld_nodename ld = name_buf nm }.

Record wf_controldata (c : controldata) : Prop := {
  wf_magic : cd_magic c = SFEX_MAGIC;
  wf_version : cd_version c = SFEX_VERSION;
  wf_revision : 0 ≤ cd_revision c ≤ 999;
  wf_blocksize : Z.of_nat SIZEOF_LOCKDATA ≤ cd_blocksize c ≤ 9999999;
  wf_numlocks : SFEX_MIN_NUMLOCKS ≤ cd_numlocks c ≤ SFEX_MAX_NUMLOCKS }.

(** The kernel answers every seek and, after finitely many transient errors,
    every transfer in full. *)
Record healthy (w : world) : Prop := {
  h_seek : w_kseek w = [];
  h_read : Forall (λ k, transient k = true) (w_kread w);
  h_write : Forall (λ k, transient k = true) (w_kwrite w) }.

(** The device holds the control block and [numlocks] locks of the process'
    sector size, and locked_mem is one sector. *)
Record geometry (c : controldata) (w : world) : Prop := {
  g_cdata : wf_controldata c;
  g_sector : w_sector w = cd_blocksize c;
  g_mem : Z.of_nat (length (w_mem w)) = cd_blocksize c;
  g_dev : cd_blocksize c * (1 + cd_numlocks c) ≤ Z.of_nat (length (w_dev w)) }.

(** The sector at block number [i]. *)
Definition sector_at (c : controldata) (i : Z) (w : world) : option (list Z) :=
  peek (Z.to_nat (cd_blocksize c * i)) (Z.to_nat (cd_blocksize c)) (w_dev w).

(** ** Primitive steps *)

Create HintDb sfex.

(** Project the fields of an updated world. *)
Tactic Notation "wsimpl" :=
  cbn [w_dev w_pos w_mem w_sector w_kopen w_kseek w_kread w_kwrite set_pos set_mem set_dev
       set_sector set_kopen set_kseek set_kread set_kwrite].
Tactic Notation "wsimpl" "in" hyp(H) :=
  cbn [w_dev w_pos w_mem w_sector w_kopen w_kseek w_kread w_kwrite set_pos set_mem set_dev
       set_sector set_kopen set_kseek set_kread set_kwrite] in H.

Lemma retry_transient ks :
  Forall (λ k, transient k = true) ks → retry ks = (KOk, []).
Proof. induction 1 as [|k ks Hk _ IH]; simpl; [done|]. by rewrite Hk. Qed.

(** The first answer the retry loop stops at is never transient. *)
Lemma retry_stops ks : transient (fst (retry ks)) = false.
Proof.
  induction ks as [|k ks IH]; simpl; [done|].
  by destruct (transient k) eqn:E.
Qed.

Lemma mem_poke_run off bs w m :
  poke off bs (w_mem w) = Some m → mem_poke off bs w = (Ret tt, set_mem m w).
Proof. intros H. unfold mem_poke. by rewrite H. Qed.

Lemma mem_peek_run off n w bs :
  peek off n (w_mem w) = Some bs → mem_peek off n w = (Ret bs, w).
Proof. intros H. unfold mem_peek. by rewrite H. Qed.

Lemma mem_memset0_run n w :
  Z.of_nat (length (w_mem w)) = n →
  mem_memset0 n w = (Ret tt, set_mem (replicate (Z.to_nat n) 0) w).
Proof.
  intros H. apply mem_poke_run, poke_all. rewrite length_replicate. lia.
Qed.

Lemma sys_lseek_run off w :
  w_kseek w = [] → 0 ≤ off ≤ LONG_MAX → sys_lseek off w = (Ret off, set_pos off w).
Proof.
  intros H Hoff. unfold sys_lseek. rewrite H. simpl.
  assert (s64 off = off) as ->.
  { unfold s64, LONG_MAX in *. rewrite Z.mod_small by lia. lia. }
  ztest. destruct w; simpl in *; by subst.
Qed.

Lemma write_loop_run n w :
  Forall (λ k, transient k = true) (w_kwrite w) →
  Z.of_nat (length (w_mem w)) = n → 0 < n → 0 ≤ w_pos w →
  w_pos w + n ≤ Z.of_nat (length (w_dev w)) →
  ∃ d, poke (Z.to_nat (w_pos w)) (w_mem w) (w_dev w) = Some d ∧
    write_loop n w = (Ret n, set_pos (w_pos w + n) (set_dev d (set_kwrite [] w))).
Proof.
  intros Hk Hm Hn Hp Hd. eexists. split; [apply poke_Some; lia|].
  unfold write_loop. rewrite retry_transient by done. simpl.
  rewrite (proj2 (Z.eqb_neq n 0)) by lia.
  unfold avail. simpl. rewrite Z.max_r by lia.
  rewrite (proj2 (Z.eqb_neq (_ - _) 0)) by lia. simpl.
  rewrite peek_all by lia.
  rewrite Z.min_l by lia. rewrite take_ge by lia.
  rewrite poke_Some by lia. done.
Qed.

Lemma read_loop_run n w :
  Forall (λ k, transient k = true) (w_kread w) →
  Z.of_nat (length (w_mem w)) = n → 0 ≤ w_pos w →
  w_pos w + n ≤ Z.of_nat (length (w_dev w)) →
  ∃ bs, peek (Z.to_nat (w_pos w)) (Z.to_nat n) (w_dev w) = Some bs ∧
    read_loop n w = (Ret n, set_pos (w_pos w + n) (set_mem bs (set_kread [] w))).
Proof.
  intros Hk Hm Hp Hd. eexists. split; [apply peek_Some; lia|].
  unfold read_loop. rewrite retry_transient by done. simpl.
  unfold avail. simpl. rewrite Z.max_r, Z.min_l by lia.
  rewrite poke_all; [done|]. rewrite length_take, length_drop. lia.
Qed.

(** ** Fields *)

Lemma field_length n s : (length s ≤ n)%nat → length (field n s) = n.
Proof. intros. unfold field. rewrite length_app, length_replicate. lia. Qed.

Lemma cstr_field n s : c_text s → cstr (field n s) = s.
Proof. intros. unfold field. by apply cstr_text_pad. Qed.

Lemma last_byte_field n s : (length s < n)%nat → last_byte (field n s) = 0.
Proof.
  intros. unfold last_byte. rewrite field_length by lia. unfold field.
  rewrite app_nth2 by lia. apply nth_replicate_lt || idtac.
  destruct (nth_in_or_default (n - 1 - length s) (replicate (n - length s) 0) 0) as [Hin|]; [|done].
  apply list_elem_of_In, elem_of_replicate in Hin. by destruct Hin.
Qed.

Lemma poke_snprintf off n l s r :
  length l = off → (length s < n)%nat →
  poke off (snprintf_bytes n s) (l ++ replicate n 0 ++ r) = Some (l ++ field n s ++ r).
Proof.
  intros Hl Hs. rewrite snprintf_bytes_fit by done.
  rewrite poke_zeros by (done || (rewrite length_app; simpl; lia)).
  do 3 f_equal. unfold field. rewrite <-app_assoc. f_equal.
  change [0] with (replicate 1 0). rewrite <-replicate_add. f_equal.
  rewrite length_app. simpl. lia.
Qed.

Lemma wf_name_field nm : wf_name nm → cstr (name_buf nm) = nm.
Proof. intros [Ht _]. by apply cstr_field. Qed.

Lemma name_buf_length nm : wf_name nm → length (name_buf nm) = 256%nat.
Proof. intros [_ Hl]. apply field_length. lia. Qed.

(** Equality of node names is what [strncmp(_, _, sizeof nodename)] tests,
    whether a name stands in its array or as a plain string. *)
Lemma strncmp_names a b :
  wf_name a → wf_name b → strncmp (name_buf a) (name_buf b) 256 = 0 ↔ a = b.
Proof. intros [? ?] [? ?]. unfold name_buf, field. apply strncmp_iff; auto; lia. Qed.

Lemma strncmp_name_l a b :
  wf_name a → wf_name b → strncmp (name_buf a) b 256 = 0 ↔ a = b.
Proof.
  intros [? ?] [? ?]. unfold name_buf, field. rewrite <-(app_nil_r b) at 1.
  change [] with (replicate 0 0). apply strncmp_iff; auto; lia.
Qed.

Lemma strncmp_name_r a b :
  wf_name a → wf_name b → strncmp a (name_buf b) 256 = 0 ↔ a = b.
Proof.
  intros [? ?] [? ?]. unfold name_buf, field. rewrite <-(app_nil_r a) at 1.
  change [] with (replicate 0 0). apply strncmp_iff; auto; lia.
Qed.

Lemma dec_u_short n k : 0 ≤ n < 10 ^ Z.of_nat k → (0 < k ≤ 20)%nat →
  (length (dec_u n) ≤ k)%nat.
Proof.
  intros Hn Hk. assert (Z.of_nat (length (dec_u n)) ≤ Z.of_nat k); [|lia].
  apply dec_u_length; [|lia..]. split; [lia|].
  apply Z.lt_le_trans with (10 ^ Z.of_nat k); [lia|]. apply Z.pow_le_mono_r; lia.
Qed.

Lemma count_short n : 0 ≤ n ≤ 999 → (length (dec_u n) ≤ 3)%nat.
Proof. intros. apply dec_u_short; simpl; lia. Qed.

Lemma count_text n : 0 ≤ n ≤ 9999999 → c_text (dec_u n).
Proof. intros. apply dec_u_text. lia. Qed.

Lemma atoi_field n k : 0 ≤ n ≤ 9999999 → atoi (cstr (field k (dec_u n))) = n.
Proof.
  intros. rewrite cstr_field by (apply count_text; lia).
  rewrite <-(app_nil_r (dec_u n)). apply atoi_dec_u; [unfold INT_MAX; lia|done].
Qed.

Lemma SFEX_NEXT_COUNT_range c :
  0 ≤ c ≤ SFEX_MAX_COUNT → 0 ≤ SFEX_NEXT_COUNT c ≤ SFEX_MAX_COUNT.
Proof. unfold SFEX_NEXT_COUNT, SFEX_MAX_COUNT. intros. destruct (999 <=? c) eqn:?; zbool; lia. Qed.

(** The counter of a formatted lock is arithmetic modulo 1000. *)
Lemma SFEX_NEXT_COUNT_mod c :
  0 ≤ c ≤ SFEX_MAX_COUNT → SFEX_NEXT_COUNT c = (c + 1) mod 1000.
Proof.
  unfold SFEX_NEXT_COUNT, SFEX_MAX_COUNT. intros.
  destruct (999 <=? c) eqn:?; zbool.
  - assert (c = 999) as -> by lia. done.
  - rewrite Z.mod_small; lia.
Qed.

#[export] Hint Resolve SFEX_NEXT_COUNT_range count_short count_text : sfex.

(** ** The routines on a healthy device *)

Lemma lock_offset_small c w i :
  geometry c w → 0 ≤ i ≤ cd_numlocks c → lock_offset c i = cd_blocksize c * i.
Proof.
  intros [[_ _ _ Hb Hn] _ _ _] Hi. unfold lock_offset.
  unfold SFEX_MIN_NUMLOCKS, SFEX_MAX_NUMLOCKS, SIZEOF_LOCKDATA in *.
  rewrite (u64_small i) by (unfold ULONG_MAX; lia).
  apply u64_small. unfold ULONG_MAX. nia.
Qed.

Lemma lock_fits c w i :
  geometry c w → 0 ≤ i ≤ cd_numlocks c →
  0 ≤ cd_blocksize c * i ≤ LONG_MAX ∧
  cd_blocksize c * i + cd_blocksize c ≤ Z.of_nat (length (w_dev w)).
Proof.
  intros [[_ _ _ Hb Hn] _ _ Hd] Hi. unfold SFEX_MAX_NUMLOCKS, SIZEOF_LOCKDATA, LONG_MAX in *.
  split; nia.
Qed.

(** The buffer [write_lockdata] prepares is the specified block. *)
Lemma lock_buffer bs ld (nm : list Z) :
  (SIZEOF_LOCKDATA ≤ Z.to_nat bs)%nat → wf_lockdata ld →
  ∃ m1 m2, poke OFF_STATUS [u8 (ld_status ld)] (replicate (Z.to_nat bs) 0) = Some m1 ∧
    poke OFF_COUNT (snprintf_bytes 4 (dec_d (ld_count ld))) m1 = Some m2 ∧
    poke OFF_NODENAME (snprintf_bytes 256 (cstr (ld_nodename ld))) m2
      = Some (lock_block bs ld).
Proof.
  intros Hbs [Hst Hc (nm' & Hnm & Hn)].
  assert (replicate (Z.to_nat bs) 0
          = [] ++ replicate 1 0 ++ replicate 4 0 ++ replicate 256 0
            ++ replicate (Z.to_nat bs - SIZEOF_LOCKDATA) 0) as Hz.
  { unfold SIZEOF_LOCKDATA in *. rewrite app_nil_l, <-!replicate_add. f_equal. lia. }
  rewrite Hz. do 2 eexists. split; [apply poke_app; [done|by rewrite length_replicate]|].
  rewrite app_nil_l, dec_d_nonneg by lia. unfold SFEX_MAX_COUNT in Hc.
  split; [apply poke_snprintf; [done|]; pose proof (count_short (ld_count ld)); lia|].
  unfold lock_block.
  replace (u8 (ld_status ld)) with (ld_status ld)
    by (destruct Hst as [-> | ->]; reflexivity).
  assert (Hfl : length (field 4 (dec_u (ld_count ld))) = 4%nat).
  { apply field_length. pose proof (count_short (ld_count ld)). lia. }
  rewrite (app_assoc [ld_status ld]).
  rewrite (app_assoc [ld_status ld] (field 4 _) (field 256 _ ++ _)).
  rewrite Hn, wf_name_field by done. destruct Hnm as [Ht Hl].
  apply poke_snprintf; [|lia]. rewrite length_app, Hfl. done.
Qed.

Lemma lock_block_length bs ld :
  (SIZEOF_LOCKDATA ≤ Z.to_nat bs)%nat → wf_lockdata ld →
  length (lock_block bs ld) = Z.to_nat bs.
Proof.
  intros Hbs [Hst Hc (nm & Hnm & Hn)]. unfold lock_block.
  rewrite !length_app, Hn, wf_name_field, length_replicate by done.
  unfold SFEX_MAX_COUNT in Hc. pose proof (count_short (ld_count ld) Hc).
  rewrite !field_length by (destruct Hnm; lia). unfold SIZEOF_LOCKDATA in *. simpl. lia.
Qed.

(** Sectors of the device. *)
Lemma poke_sector c w w' i bs :
  geometry c w → 0 ≤ i ≤ cd_numlocks c → Z.of_nat (length bs) = cd_blocksize c →
  poke (Z.to_nat (cd_blocksize c * i)) bs (w_dev w) = Some (w_dev w') →
  sector_at c i w' = Some bs ∧
  (∀ j, 0 ≤ j ≤ cd_numlocks c → j ≠ i → sector_at c j w' = sector_at c j w).
Proof.
  intros [[_ _ _ Hb Hn] _ _ _] Hi Hbs Hp. unfold sector_at, SIZEOF_LOCKDATA in *.
  split.
  - replace (Z.to_nat (cd_blocksize c)) with (length bs) by lia.
    by apply peek_poke_eq in Hp.
  - intros j Hj Hne. eapply peek_poke_ne; [exact Hp|]. nia.
Qed.

(** Updating the buffer, the scripts, the offset or the device by a block of
    the same length keeps the geometry. *)
Lemma geometry_same c w w' :
  geometry c w → w_sector w' = w_sector w → length (w_mem w') = length (w_mem w) →
  length (w_dev w') = length (w_dev w) → geometry c w'.
Proof.
  intros [Hc Hs Hm Hd] Es Em Ed. constructor; [done|..]; by rewrite ?Es, ?Em, ?Ed.
Qed.

(** [write_lockdata] prepares the specified block, then seeks and writes. *)
Lemma write_lockdata_prep c ld i w :
  geometry c w → wf_lockdata ld → 1 ≤ i ≤ cd_numlocks c →
  write_lockdata c ld i w =
  (r ← sys_lseek (cd_blocksize c * i);
   if r =? -1 then mret (-1)
   else
     s ← write_loop (cd_blocksize c);
     if s =? -1 then mret (-1)
     else if negb (u64 s =? cd_blocksize c) then mret (-1)
     else mret 0) (set_mem (lock_block (cd_blocksize c) ld) w).
Proof.
  intros Hg Hld Hi. pose proof Hg as [Hc _ Hm _].
  pose proof (wf_blocksize _ Hc) as Hb.
  destruct (lock_buffer (cd_blocksize c) ld []) as (m1 & m2 & H1 & H2 & H3);
    [unfold SIZEOF_LOCKDATA in *; lia|done|].
  unfold write_lockdata. rewrite (lock_offset_small c w) by (done || lia).
  rewrite (bind_run _ _ _ _ _ (mem_memset0_run _ w Hm)).
  rewrite (bind_run _ _ _ _ _ (mem_poke_run _ _ (set_mem _ w) _ H1)).
  rewrite (bind_run _ _ _ _ _ (mem_poke_run _ _ (set_mem _ (set_mem _ w)) _ H2)).
  rewrite (bind_run _ _ _ _ _ (mem_poke_run _ _ (set_mem _ (set_mem _ (set_mem _ w))) _ H3)).
  reflexivity.
Qed.

Lemma write_lockdata_run c ld i w :
  healthy w → geometry c w → wf_lockdata ld → 1 ≤ i ≤ cd_numlocks c →
  ∃ w', write_lockdata c ld i w = (Ret 0, w') ∧ healthy w' ∧ geometry c w' ∧
    poke (Z.to_nat (cd_blocksize c * i)) (lock_block (cd_blocksize c) ld) (w_dev w)
      = Some (w_dev w').
Proof.
  intros [Hs Hr Hw] Hg Hld Hi. pose proof Hg as [Hc Hsec Hm Hd].
  pose proof (wf_blocksize _ Hc) as Hb.
  assert (SIZEOF_LOCKDATA ≤ Z.to_nat (cd_blocksize c))%nat as Hbn
    by (unfold SIZEOF_LOCKDATA in *; lia).
  destruct (lock_fits c w i) as [Hoff Hfit]; [done|lia|].
  pose proof (lock_block_length (cd_blocksize c) ld Hbn Hld) as Hlen.
  edestruct (write_loop_run (cd_blocksize c)
    (set_pos (cd_blocksize c * i) (set_mem (lock_block (cd_blocksize c) ld) w)))
    as (d & Hp & Hwr); wsimpl; [done|lia|unfold SIZEOF_LOCKDATA in *; lia|lia|lia|].
  wsimpl in Hp. wsimpl in Hwr.
  eexists. split_and!.
  - rewrite write_lockdata_prep by done.
    erewrite bind_run by (by apply sys_lseek_run).
    rewrite (proj2 (Z.eqb_neq _ (-1))) by lia.
    erewrite bind_run by exact Hwr.
    rewrite (proj2 (Z.eqb_neq _ (-1))) by (unfold SIZEOF_LOCKDATA in *; lia).
    rewrite u64_small by (unfold ULONG_MAX; lia). rewrite Z.eqb_refl. reflexivity.
  - constructor; wsimpl; auto.
  - eapply geometry_same; [exact Hg|done| |]; wsimpl; [lia|]. eauto with buf.
  - done.
Qed.

(** The fields of a lock block, as they are read back. *)
Lemma lock_block_fields b ld nm :
  wf_lockdata ld → wf_name nm → ld_nodename ld = name_buf nm →
  peek OFF_STATUS 1 (lock_block b ld) = Some [ld_status ld] ∧
  peek OFF_COUNT 4 (lock_block b ld) = Some (field 4 (dec_u (ld_count ld))) ∧
  peek OFF_NODENAME 256 (lock_block b ld) = Some (name_buf nm).
Proof.
  intros [Hst Hcnt _] Hnm Hn. unfold SFEX_MAX_COUNT in Hcnt. pose proof (count_short (ld_count ld) Hcnt).
  pose proof (name_buf_length _ Hnm).
  assert (Hfl : length (field 4 (dec_u (ld_count ld))) = 4%nat) by (apply field_length; lia).
  split; [by apply (peek_app [] [ld_status ld])|]. split; [by apply peek_app|].
  unfold lock_block. rewrite Hn, wf_name_field, (app_assoc [_]) by done.
  apply peek_app; [|done]. rewrite length_app, Hfl. done.
Qed.

Lemma read_lockdata_run c ld old i w :
  healthy w → geometry c w → wf_lockdata ld → 1 ≤ i ≤ cd_numlocks c →
  (length (ld_nodename old) ≤ 256)%nat →
  sector_at c i w = Some (lock_block (cd_blocksize c) ld) →
  ∃ w', read_lockdata c old i w = (Ret (0, ld), w') ∧ healthy w' ∧ geometry c w' ∧
    w_dev w' = w_dev w.
Proof.
  intros [Hs Hr Hw] Hg Hld Hi Hold Hsec. pose proof Hg as [Hc _ Hm Hd].
  pose proof (wf_blocksize _ Hc) as Hb.
  assert (SIZEOF_LOCKDATA ≤ Z.to_nat (cd_blocksize c))%nat as Hbn
    by (unfold SIZEOF_LOCKDATA in *; lia).
  destruct (lock_fits c w i) as [Hoff Hfit]; [done|lia|].
  pose proof (lock_block_length (cd_blocksize c) ld Hbn Hld) as Hlen.
  edestruct (read_loop_run (cd_blocksize c) (set_pos (cd_blocksize c * i) w))
    as (bs & Hp & Hrd); wsimpl; [done|lia|lia|lia|].
  wsimpl in Hp. wsimpl in Hrd. unfold sector_at in Hsec. rewrite Hsec in Hp. injection Hp as <-.
  pose proof Hld as [Hst Hcnt (nm & Hnm & Hn)].
  destruct (lock_block_fields (cd_blocksize c) ld nm Hld Hnm Hn) as (Hps & Hpc & Hpn).
  unfold SFEX_MAX_COUNT in Hcnt. pose proof (count_short (ld_count ld) Hcnt) as Hcs.
  pose proof (name_buf_length _ Hnm) as Hnl.
  eexists. split_and!.
  - unfold read_lockdata. rewrite (lock_offset_small c w) by (done || lia).
    erewrite bind_run by (by apply sys_lseek_run).
    rewrite (proj2 (Z.eqb_neq _ (-1))) by lia.
    erewrite bind_run by exact Hrd.
    rewrite (proj2 (Z.eqb_neq _ (-1))) by (unfold SIZEOF_LOCKDATA in *; lia).
    rewrite u64_small by (unfold ULONG_MAX; lia). rewrite Z.eqb_refl. cbn [negb].
    erewrite bind_run by (apply mem_peek_run; exact Hpc).
    erewrite bind_run by (apply mem_peek_run; exact Hpn).
    destruct Hnm as [Ht Hl].
    unfold name_buf at 1. rewrite !last_byte_field by lia.
    change (negb (0 =? 0) || negb (0 =? 0)) with false. cbv iota.
    erewrite bind_run by (apply mem_peek_run; exact Hps). cbn [hd].
    replace (s8 (ld_status ld)) with (ld_status ld)
      by (destruct Hst as [-> | ->]; reflexivity).
    replace (negb (ld_status ld =? SFEX_STATUS_UNLOCK)
             && negb (ld_status ld =? SFEX_STATUS_LOCK)) with false
      by (destruct Hst as [-> | ->]; reflexivity).
    rewrite atoi_field by lia.
    assert (strncpy (ld_nodename old) (name_buf nm) 256 = ld_nodename ld) as ->; [|by destruct ld].
    unfold strncpy. rewrite drop_ge, app_nil_r, Hn by lia.
    unfold strncpy_bytes. rewrite wf_name_field by done. rewrite take_ge by lia. done.
  - constructor; wsimpl; auto.
  - eapply geometry_same; [exact Hg|done| |done]. wsimpl. lia.
  - done.
Qed.

(** The control block. *)
Lemma control_buffer c :
  wf_controldata c →
  ∃ m1 m2 m3 m4,
    poke OFF_MAGIC (cd_magic c) (replicate (Z.to_nat (cd_blocksize c)) 0) = Some m1 ∧
    poke OFF_VERSION (snprintf_bytes 4 (dec_d (cd_version c))) m1 = Some m2 ∧
    poke OFF_REVISION (snprintf_bytes 4 (dec_d (cd_revision c))) m2 = Some m3 ∧
    poke OFF_BLOCKSIZE (snprintf_bytes 8 (dec_u (u32 (cd_blocksize c)))) m3 = Some m4 ∧
    poke OFF_NUMLOCKS (snprintf_bytes 4 (dec_d (cd_numlocks c))) m4 = Some (control_block c).
Proof.
  intros [Hm Hv Hr Hb Hn].
  unfold SFEX_MIN_NUMLOCKS, SFEX_MAX_NUMLOCKS, SFEX_VERSION in *.
  rewrite !dec_d_nonneg, u32_small by (unfold UINT_MAX; lia).
  set (v := cd_version c) in *.
  assert (length (dec_u v) ≤ 3)%nat by (apply count_short; lia).
  assert (length (dec_u (cd_revision c)) ≤ 3)%nat by (apply count_short; lia).
  assert (length (dec_u (cd_numlocks c)) ≤ 3)%nat by (apply count_short; lia).
  assert (length (dec_u (cd_blocksize c)) ≤ 7)%nat by (apply dec_u_short; simpl; lia).
  assert (replicate (Z.to_nat (cd_blocksize c)) 0
          = [] ++ replicate 4 0 ++ replicate 4 0 ++ replicate 4 0 ++ replicate 8 0
            ++ replicate 4 0 ++ replicate (Z.to_nat (cd_blocksize c) - 24) 0) as ->.
  { unfold SIZEOF_LOCKDATA in *. rewrite app_nil_l, <-!replicate_add. f_equal. lia. }
  assert (Hml : length (cd_magic c) = 4%nat) by (rewrite Hm; done).
  do 4 eexists. split; [by apply poke_app; rewrite ?length_replicate|]. rewrite app_nil_l.
  split; [apply poke_snprintf; [done|lia]|].
  split; [rewrite (poke_skip 4 4), (poke_snprintf 4 4 (field 4 _))
    by (done || lia || (apply field_length; lia)); reflexivity|].
  split; [rewrite (poke_skip 4 8), (poke_skip 4 4), (poke_snprintf 4 8 (field 4 _))
    by (done || lia || (apply field_length; lia)); reflexivity|].
  unfold control_block.
  rewrite (poke_skip 4 16), (poke_skip 4 12), (poke_skip 4 8), (poke_snprintf 8 4 (field 8 _))
    by (done || lia || (apply field_length; lia)). reflexivity.
Qed.

Lemma control_block_length c :
  wf_controldata c → length (control_block c) = Z.to_nat (cd_blocksize c).
Proof.
  intros Hc. destruct (control_buffer c Hc) as (m1 & m2 & m3 & m4 & H1 & H2 & H3 & H4 & H5).
  apply poke_length in H1, H2, H3, H4, H5. rewrite length_replicate in H1. congruence.
Qed.

Lemma write_controldata_run c w :
  healthy w → geometry c w →
  ∃ w', write_controldata c w = (Ret tt, w') ∧ healthy w' ∧ geometry c w' ∧
    poke 0 (control_block c) (w_dev w) = Some (w_dev w').
Proof.
  intros [Hs Hr Hw] Hg. pose proof Hg as [Hc Hsec Hm Hd].
  pose proof (wf_blocksize _ Hc) as Hb. pose proof (wf_numlocks _ Hc) as Hn.
  destruct (control_buffer c Hc) as (m1 & m2 & m3 & m4 & H1 & H2 & H3 & H4 & H5).
  pose proof (control_block_length c Hc) as Hlen.
  unfold SFEX_MIN_NUMLOCKS, SFEX_MAX_NUMLOCKS in Hn.
  edestruct (write_loop_run (cd_blocksize c)
    (set_pos 0 (set_mem (control_block c) w)))
    as (d & Hp & Hwr); wsimpl; [done|lia|unfold SIZEOF_LOCKDATA in *; lia|lia|nia|].
  wsimpl in Hp. wsimpl in Hwr.
  eexists. split_and!.
  - unfold write_controldata.
    erewrite bind_run by (by apply mem_memset0_run).
    erewrite bind_run by (by apply mem_poke_run; exact H1).
    erewrite bind_run by (apply mem_poke_run; exact H2).
    erewrite bind_run by (apply mem_poke_run; exact H3).
    erewrite bind_run by (apply mem_poke_run; exact H4).
    erewrite bind_run by (apply mem_poke_run; exact H5).
    erewrite bind_run by (apply sys_lseek_run; [done|unfold LONG_MAX; lia]).
    change (0 =? -1) with false. cbv iota.
    erewrite bind_run by exact Hwr.
    rewrite (proj2 (Z.eqb_neq _ (-1))) by (unfold SIZEOF_LOCKDATA in *; lia). reflexivity.
  - constructor; wsimpl; auto.
  - eapply geometry_same; [exact Hg|done| |]; wsimpl; [lia|]. eauto with buf.
  - done.
Qed.

(** Reading a well-formed control block back. *)
(** The fields of a control block, as they are read back. *)
Lemma control_block_fields c :
  wf_controldata c →
  peek OFF_MAGIC 4 (control_block c) = Some (cd_magic c) ∧
  peek OFF_VERSION 4 (control_block c) = Some (field 4 (dec_u (cd_version c))) ∧
  peek OFF_REVISION 4 (control_block c) = Some (field 4 (dec_u (cd_revision c))) ∧
  peek OFF_BLOCKSIZE 8 (control_block c) = Some (field 8 (dec_u (cd_blocksize c))) ∧
  peek OFF_NUMLOCKS 4 (control_block c) = Some (field 4 (dec_u (cd_numlocks c))) ∧
  (length (dec_u (cd_version c)) ≤ 3)%nat ∧ (length (dec_u (cd_revision c)) ≤ 3)%nat ∧
  (length (dec_u (cd_numlocks c)) ≤ 3)%nat ∧ (length (dec_u (cd_blocksize c)) ≤ 7)%nat.
Proof.
  intros Hc. pose proof (wf_blocksize _ Hc) as Hb. pose proof (wf_numlocks _ Hc) as Hn.
  pose proof Hc as [Hmg Hv Hrv _ _].
  unfold SFEX_MIN_NUMLOCKS, SFEX_MAX_NUMLOCKS, SFEX_VERSION in *.
  assert (length (dec_u (cd_version c)) ≤ 3)%nat by (apply count_short; lia).
  assert (length (dec_u (cd_revision c)) ≤ 3)%nat by (apply count_short; lia).
  assert (length (dec_u (cd_numlocks c)) ≤ 3)%nat by (apply count_short; lia).
  assert (length (dec_u (cd_blocksize c)) ≤ 7)%nat by (apply dec_u_short; simpl; lia).
  assert (Hml : length (cd_magic c) = 4%nat) by (rewrite Hmg; done).
  split_and!; try done.
  - by apply (peek_app [] (cd_magic c)).
  - apply peek_app; [done|apply field_length; lia].
  - unfold control_block. rewrite (peek_skip 4 4) by done. apply peek_app; apply field_length; lia.
  - unfold control_block. rewrite (peek_skip 4 8), (peek_skip 4 4) by (done || (apply field_length; lia)).
    apply peek_app; apply field_length; lia.
  - unfold control_block.
    rewrite (peek_skip 4 16), (peek_skip 4 12), (peek_skip 4 8)
      by (done || (apply field_length; lia)).
    apply peek_app; apply field_length; lia.
Qed.

Lemma read_controldata_run c old w :
  healthy w → geometry c w → sector_at c 0 w = Some (control_block c) →
  ∃ w', read_controldata old w = (Ret (0, c), w') ∧ healthy w' ∧ geometry c w' ∧
    w_dev w' = w_dev w.
Proof.
  intros [Hs Hr Hw] Hg Hsec. pose proof Hg as [Hc Hsz Hm Hd].
  pose proof (wf_blocksize _ Hc) as Hb. pose proof (wf_numlocks _ Hc) as Hn.
  pose proof (control_block_length c Hc) as Hlen.
  pose proof Hc as [Hmg Hv Hrv _ _].
  unfold SFEX_MIN_NUMLOCKS, SFEX_MAX_NUMLOCKS, SFEX_VERSION in *.
  edestruct (read_loop_run (cd_blocksize c) (set_pos 0 w))
    as (bs & Hp & Hrd); wsimpl; [done|lia|lia|nia|].
  wsimpl in Hp. wsimpl in Hrd. unfold sector_at in Hsec. rewrite Z.mul_0_r in Hsec.
  change (Z.to_nat 0) with 0%nat in *. rewrite Hsec in Hp. injection Hp as <-.
  destruct (control_block_fields c Hc) as (P1 & P2 & P3 & P4 & P5 & ? & ? & ? & ?).
  eexists. split_and!.
  - unfold read_controldata.
    erewrite bind_run by (apply sys_lseek_run; [done|unfold LONG_MAX; lia]).
    change (0 =? -1) with false. cbv iota.
    erewrite bind_run by reflexivity. wsimpl. rewrite Hsz.
    erewrite bind_run by exact Hrd.
    rewrite (proj2 (Z.eqb_neq _ (-1))) by (unfold SIZEOF_LOCKDATA in *; lia).
    erewrite bind_run by (apply mem_peek_run; exact P1).
    rewrite bool_decide_true by done. cbn [negb].
    erewrite bind_run by (apply mem_peek_run; exact P2).
    erewrite bind_run by (apply mem_peek_run; exact P3).
    erewrite bind_run by (apply mem_peek_run; exact P4).
    erewrite bind_run by (apply mem_peek_run; exact P5).
    rewrite !last_byte_field by lia. change (negb (0 =? 0)) with false. cbn [orb].
    rewrite !atoi_field by lia. rewrite Hv. change (1 =? SFEX_VERSION) with true. cbn [negb].
    rewrite u64_small by (unfold ULONG_MAX; lia).
    rewrite <-Hv. by destruct c.
  - constructor; wsimpl; auto.
  - eapply geometry_same; [exact Hg|done| |done]. wsimpl. lia.
  - done.
Qed.

Lemma lock_index_check_run c old i w :
  healthy w → geometry c w → sector_at c 0 w = Some (control_block c) →
  ∃ w', lock_index_check old i w = (Ret (if cd_numlocks c <? i then -1 else 0, c), w') ∧
    healthy w' ∧ geometry c w' ∧ w_dev w' = w_dev w.
Proof.
  intros Hh Hg Hsec.
  destruct (read_controldata_run c old w Hh Hg Hsec) as (w' & Hr & Hh' & Hg' & Hd).
  exists w'. split; [|done]. unfold lock_index_check.
  erewrite bind_run by exact Hr. cbn beta iota. change (0 =? -1) with false. cbv iota.
  destruct (cd_numlocks c <? i); [done|].
  erewrite bind_run by reflexivity. rewrite (g_sector _ _ Hg'), Z.eqb_refl. done.
Qed.

(** ** Any kernel behaviour: no undefined access, and what a failure leaves *)

Lemma transfer_bounds k n w :
  0 ≤ n → 0 ≤ transfer k n w ≤ n ∧ transfer k n w ≤ avail w.
Proof. unfold transfer, avail. destruct k; lia. Qed.

(** A write puts a non-empty prefix of the buffer at the offset, or fails and
    changes nothing. *)
Lemma write_loop_any n w :
  0 < n → n ≤ Z.of_nat (length (w_mem w)) → 0 ≤ w_pos w →
  ∃ s w', write_loop n w = (Ret s, w') ∧
    w_sector w' = w_sector w ∧ w_mem w' = w_mem w ∧
    ((s = -1 ∧ w_dev w' = w_dev w) ∨
     (0 ≤ s ≤ n ∧ poke (Z.to_nat (w_pos w)) (take (Z.to_nat s) (w_mem w)) (w_dev w)
                   = Some (w_dev w'))).
Proof.
  intros Hn Hm Hp. unfold write_loop. destruct (retry (w_kwrite w)) as [k ks].
  rewrite (proj2 (Z.eqb_neq n 0)) by lia.
  set (w1 := set_kwrite ks w).
  destruct (transfer_bounds k n w1) as [Hc Hc2]; [lia|].
  assert (Hav : avail w1 = Z.max 0 (Z.of_nat (length (w_dev w)) - w_pos w)) by done.
  assert (Herr : ∃ s w', (Ret (-1), w1) = (Ret s, w') ∧
    w_sector w' = w_sector w ∧ w_mem w' = w_mem w ∧
    ((s = -1 ∧ w_dev w' = w_dev w) ∨
     (0 ≤ s ≤ n ∧ poke (Z.to_nat (w_pos w)) (take (Z.to_nat s) (w_mem w)) (w_dev w)
                   = Some (w_dev w')))) by eauto 10.
  rewrite peek_Some by (unfold w1; wsimpl; lia). cbn [drop]. rewrite take_take, Nat.min_l by lia.
  destruct (avail w1 =? 0) eqn:E; zbool; [by destruct k|].
  unfold w1 in *. wsimpl. wsimpl in Hc2.
  rewrite poke_Some by (rewrite length_take; lia).
  destruct k; [..|exact Herr]; do 2 eexists; (split; [reflexivity|]); wsimpl;
    (split_and!; [done..|]); right; (split; [lia|]);
    by rewrite poke_Some by (rewrite length_take; lia).
Qed.

Lemma read_loop_any n w :
  0 ≤ n → n ≤ Z.of_nat (length (w_mem w)) → 0 ≤ w_pos w →
  ∃ s w', read_loop n w = (Ret s, w') ∧ -1 ≤ s ≤ n ∧
    w_sector w' = w_sector w ∧ length (w_mem w') = length (w_mem w) ∧ w_dev w' = w_dev w.
Proof.
  intros Hn Hm Hp. unfold read_loop. destruct (retry (w_kread w)) as [k ks].
  set (w1 := set_kread ks w).
  destruct (transfer_bounds k n w1 Hn) as [Hc Hc2].
  rewrite poke_Some by (change (w_mem w1) with (w_mem w); rewrite length_take; lia).
  destruct k; do 2 eexists; (split; [reflexivity|]);
    (split_and!; [lia|lia|done| |done]); try done;
    change (w_mem w1) with (w_mem w);
    cbn [w_mem set_pos set_mem]; rewrite !length_app, length_drop, !length_take; simpl; lia.
Qed.

Lemma sys_lseek_any off w :
  0 ≤ off ≤ LONG_MAX →
  ∃ r ks, sys_lseek off w = (Ret r, if r =? -1 then set_kseek ks w
                                    else set_pos off (set_kseek ks w)) ∧
          (r = -1 ∨ r = off).
Proof.
  intros Hoff. unfold sys_lseek.
  assert (s64 off = off) as ->.
  { unfold s64, LONG_MAX in *. rewrite Z.mod_small by lia. lia. }
  assert (Hm1 : (off =? -1) = false) by (apply Z.eqb_neq; lia).
  destruct (w_kseek w) as [|k ks]; ztest.
  - exists off, []. rewrite Hm1. auto.
  - destruct k; [exists off, ks; rewrite Hm1; auto..|exists (-1), ks; auto].
Qed.

(** Magnitude of a scanned number by the length of its text. *)
Lemma digits_val_bound ds :
  Forall (λ d, 0 ≤ d < 10) ds → 0 ≤ digits_val 10 ds < 10 ^ Z.of_nat (length ds).
Proof.
  unfold digits_val. induction ds as [|d ds IH] using rev_ind; intros H; [simpl; lia|].
  apply Forall_app in H as [H [Hd _]%Forall_cons_1]. rewrite foldl_app, length_app. simpl.
  specialize (IH H). rewrite Nat2Z.inj_add, Z.pow_add_r by lia. simpl. lia.
Qed.

Lemma span_digits_bound s ds r :
  span_digits 10 s = (ds, r) →
  Forall (λ d, 0 ≤ d < 10) ds ∧ (length ds ≤ length s)%nat.
Proof.
  revert ds r. induction s as [|c s IH]; intros ds r; simpl; [by intros [= <- <-]|].
  destruct (digit_of 10 c) as [d|] eqn:E; [|intros [= <- <-]; simpl; auto with lia].
  destruct (span_digits 10 s) as [ds' r'] eqn:E'. intros [= <- <-].
  destruct (IH _ _ eq_refl) as [Hf Hl]. split; [|simpl; lia]. constructor; [|done].
  revert E. unfold digit_of, isdigit. repeat case_match; intros; simplify_eq; zbool; lia.
Qed.

Lemma scan_number_bound s neg v r :
  scan_number 10 s = Some (neg, v, r) →
  0 ≤ v < 10 ^ (Z.of_nat (length s) - (if neg then 1 else 0)) ∧
  (if neg then (1 < length s)%nat else True).
Proof.
  unfold scan_number, skip_0x. change (10 =? 16) with false. cbv iota.
  assert (Hs : (length (skip_spaces s) ≤ length s)%nat).
  { induction s as [|c s' IH]; simpl; [lia|]. destruct (isspace c); simpl; lia. }
  destruct (scan_sign (skip_spaces s)) as [neg' l] eqn:Es.
  assert (Hl : (length l + (if neg' then 1 else 0) ≤ length (skip_spaces s))%nat).
  { revert Es. unfold scan_sign. repeat case_match; intros; simplify_eq; simpl; lia. }
  destruct (span_digits 10 l) as [ds r'] eqn:Ed. apply span_digits_bound in Ed as [Hf Hd].
  destruct ds as [|d ds]; [done|]. intros [= <- <- <-].
  pose proof (digits_val_bound _ Hf) as [H0 H1].
  split; [|destruct neg'; simpl in *; lia].
  split; [done|]. eapply Z.lt_le_trans; [exact H1|]. apply Z.pow_le_mono_r; [lia|].
  destruct neg'; simpl in *; lia.
Qed.

(** [atoi] of a field with [k] characters before its terminator. *)
Lemma atoi_bound s k :
  (length s ≤ k ≤ 9)%nat → (1 ≤ k)%nat → - 10 ^ (Z.of_nat k - 1) < atoi s < 10 ^ Z.of_nat k.
Proof.
  intros Hk Hk1. unfold atoi, strtol.
  assert (0 < 10 ^ (Z.of_nat k - 1)) by (apply Z.pow_pos_nonneg; lia).
  assert (0 < 10 ^ Z.of_nat k) by (apply Z.pow_pos_nonneg; lia).
  destruct (scan_number 10 s) as [[[neg v] r]|] eqn:E; [|change (s32 0) with 0; lia].
  apply scan_number_bound in E as [Hv Hneg].
  assert (10 ^ (Z.of_nat (length s) - (if neg then 1 else 0))
          ≤ 10 ^ (Z.of_nat k - (if neg then 1 else 0))) by (apply Z.pow_le_mono_r; lia).
  assert (10 ^ (Z.of_nat k - (if neg then 1 else 0)) ≤ 10 ^ 9)
    by (apply Z.pow_le_mono_r; destruct neg; lia).
  change (10 ^ 9) with 1000000000 in *.
  unfold LONG_MAX, LONG_MIN.
  destruct neg; cbv iota in *; rewrite ?Z.sub_0_r in *;
    rewrite s32_small by (unfold INT_MAX; lia); lia.
Qed.

Lemma last_zero_cstr l : l ≠ [] → last_byte l = 0 → (length (cstr l) < length l)%nat.
Proof.
  intros Hne. destruct l as [|x l _] using rev_ind; [done|].
  unfold last_byte. rewrite length_app. simpl. rewrite Nat.add_sub, nth_middle. intros ->.
  clear Hne. induction l as [|y l IH]; simpl; [lia|]. destruct (y =? 0); simpl in *; lia.
Qed.

(** ** Properties of the library *)

(** [C4] Lock data survives the disk: whatever transient errors (EINTR, EAGAIN)
    the kernel answers first, [write_lockdata] of a well-formed record
    succeeds, [read_lockdata] of the same index then returns exactly that
    record with code 0 and leaves the device alone, and every other sector
    (the control block and the other locks) is untouched. *)
Theorem lockdata_roundtrip c ld old i w :
  healthy w → geometry c w → wf_lockdata ld → 1 ≤ i ≤ cd_numlocks c →
  (length (ld_nodename old) ≤ 256)%nat →
  ∃ w1 w2, write_lockdata c ld i w = (Ret 0, w1) ∧
    read_lockdata c old i w1 = (Ret (0, ld), w2) ∧ w_dev w2 = w_dev w1 ∧
    ∀ j, 0 ≤ j ≤ cd_numlocks c → j ≠ i → sector_at c j w2 = sector_at c j w.
Proof.
  intros Hh Hg Hld Hi Hold.
  destruct (write_lockdata_run c ld i w) as (w1 & Hw & Hh1 & Hg1 & Hp); [done..|].
  pose proof (wf_blocksize _ (g_cdata _ _ Hg)) as Hb.
  destruct (poke_sector c w w1 i (lock_block (cd_blocksize c) ld)) as [Hs Hj]; [done|lia| |done|].
  { rewrite lock_block_length by (done || (unfold SIZEOF_LOCKDATA in *; lia)).
    unfold SIZEOF_LOCKDATA in *; lia. }
  destruct (read_lockdata_run c ld old i w1) as (w2 & Hr & _ & _ & Hd); [done..|].
  exists w1, w2. split_and!; auto.
  intros j Hjr Hne. rewrite <-Hj by done. unfold sector_at. by rewrite Hd.
Qed.

(** Whatever the kernel answers, [write_lockdata] leaves the device alone or
    writes the first [s] bytes of the block, and returns 0 only for the whole. *)
Lemma write_lockdata_any c ld i w :
  geometry c w → wf_lockdata ld → 1 ≤ i ≤ cd_numlocks c →
  ∃ rc w', write_lockdata c ld i w = (Ret rc, w') ∧ geometry c w' ∧
    (w_dev w' = w_dev w ∧ rc = -1 ∨
     ∃ s, poke (Z.to_nat (cd_blocksize c * i)) (take s (lock_block (cd_blocksize c) ld)) (w_dev w)
            = Some (w_dev w') ∧ (rc = 0 ∧ s = Z.to_nat (cd_blocksize c) ∨ rc = -1)).
Proof.
  intros Hg Hld Hi. pose proof Hg as [Hc Hsec Hm Hd].
  pose proof (wf_blocksize _ Hc) as Hb. unfold SIZEOF_LOCKDATA in Hb.
  assert (SIZEOF_LOCKDATA ≤ Z.to_nat (cd_blocksize c))%nat as Hbn
    by (unfold SIZEOF_LOCKDATA; lia).
  destruct (lock_fits c w i) as [Hoff Hfit]; [done|lia|].
  pose proof (lock_block_length (cd_blocksize c) ld Hbn Hld) as Hlen.
  set (blk := lock_block (cd_blocksize c) ld) in *.
  set (w2 := set_mem blk w).
  destruct (sys_lseek_any (cd_blocksize c * i) w2 Hoff) as (r & ks & Hseek & Hr).
  rewrite write_lockdata_prep by done. fold blk w2. rewrite (bind_run _ _ _ _ _ Hseek).
  destruct (r =? -1) eqn:Er; zbool.
  - do 2 eexists. split; [reflexivity|]. split; [|by left].
    eapply geometry_same; [exact Hg|done| |done]. unfold w2. wsimpl. lia.
  - assert (r = cd_blocksize c * i) as -> by lia.
    destruct (write_loop_any (cd_blocksize c) (set_pos (cd_blocksize c * i) (set_kseek ks w2)))
      as (s & w' & Hwl & Hs' & Hm' & Hcase); unfold w2; wsimpl; [lia..|].
    unfold w2 in Hs', Hm', Hcase. wsimpl in Hs'. wsimpl in Hm'. wsimpl in Hcase.
    erewrite bind_run by exact Hwl.
    assert (Hg' : geometry c w').
    { eapply geometry_same; [exact Hg|done|rewrite Hm'; lia|].
      destruct Hcase as [[_ ->]|[_ Hp]]; [done|]. eauto with buf. }
    destruct (s =? -1) eqn:E1; zbool.
    { do 2 eexists. split; [reflexivity|]. split; [done|]. destruct Hcase as [[_ ->]|[? _]]; [by left|lia]. }
    destruct Hcase as [[? _]|[Hs Hp]]; [done|].
    rewrite u64_small by (unfold ULONG_MAX; lia).
    destruct (s =? cd_blocksize c) eqn:E2; zbool; cbn [negb];
      (do 2 eexists; split; [reflexivity|]; split; [done|]; right; exists (Z.to_nat s); split; [done|]);
      [left; split; [done|lia]|by right].
Qed.

(** [C5] For every behaviour of the kernel (errors, short writes), writing a
    well-formed lock never accesses memory outside the sector buffer, returns
    0 or -1, and returns 0 only if the whole block of that index is on the
    device; no other sector is ever modified. *)
Theorem write_lockdata_safe c ld i w :
  geometry c w → wf_lockdata ld → 1 ≤ i ≤ cd_numlocks c →
  ∃ rc w', write_lockdata c ld i w = (Ret rc, w') ∧ geometry c w' ∧
    (rc = 0 ∧ sector_at c i w' = Some (lock_block (cd_blocksize c) ld) ∨ rc = -1) ∧
    ∀ j, 0 ≤ j ≤ cd_numlocks c → j ≠ i → sector_at c j w' = sector_at c j w.
Proof.
  intros Hg Hld Hi. destruct (write_lockdata_any c ld i w Hg Hld Hi) as (rc & w' & Hw & Hg' & Hcase).
  exists rc, w'. split; [done|]. split; [done|]. pose proof Hg as [[_ _ _ Hb _] _ _ _].
  unfold SIZEOF_LOCKDATA in Hb.
  assert (Hlen : length (lock_block (cd_blocksize c) ld) = Z.to_nat (cd_blocksize c))
    by (apply lock_block_length; [unfold SIZEOF_LOCKDATA; lia|done]).
  unfold sector_at. destruct Hcase as [[Hd ->]|(s & Hp & Hrc)]; [rewrite Hd; split; [by right|done]|]. split.
  - destruct Hrc as [[-> ->]| ->]; [left; split; [done|]|by right].
    rewrite take_ge in Hp by lia. rewrite <-Hlen. by apply peek_poke_eq in Hp.
  - intros j Hj Hne. eapply peek_poke_ne; [exact Hp|]. rewrite length_take. nia.
Qed.

(** A NUL-terminated copy: [strncpy] of a field whose last byte is 0. *)
Lemma strncpy_terminated old nb :
  length nb = 256%nat → last_byte nb = 0 →
  (length (cstr (strncpy old nb 256)) ≤ 255)%nat.
Proof.
  intros Hl Hz. apply last_zero_cstr in Hz as Hc; [|by destruct nb].
  unfold strncpy, strncpy_bytes. rewrite take_ge by lia.
  destruct (256 - length (cstr nb))%nat as [|k] eqn:E; [lia|].
  cbn [replicate]. rewrite <-!app_assoc. cbn [app].
  assert (∀ l r, (length (cstr (l ++ 0%Z :: r)) ≤ length l)%nat) as Hg; [|rewrite Hg; lia].
  intros l r. induction l as [|x l IH]; simpl; [lia|]. destruct (x =? 0); simpl; lia.
Qed.

(** [C6] For every content of the device and every behaviour of the kernel,
    reading a lock never accesses memory outside the sector buffer, never
    modifies the device, and returns 0 only for a record whose status is 'u'
    or 'l', whose counter is between -99 and 999 and whose node name is
    terminated within its 256 bytes. *)
Theorem read_lockdata_sound c old i w :
  geometry c w → 1 ≤ i ≤ cd_numlocks c →
  ∃ rc ld w', read_lockdata c old i w = (Ret (rc, ld), w') ∧ w_dev w' = w_dev w ∧
    geometry c w' ∧
    (rc = -1 ∨
     rc = 0 ∧ (ld_status ld = SFEX_STATUS_UNLOCK ∨ ld_status ld = SFEX_STATUS_LOCK) ∧
     -99 ≤ ld_count ld ≤ 999 ∧ (length (cstr (ld_nodename ld)) ≤ 255)%nat).
Proof.
  intros Hg Hi. pose proof Hg as [Hc Hsec Hm Hd].
  pose proof (wf_blocksize _ Hc) as Hb. unfold SIZEOF_LOCKDATA in Hb.
  destruct (lock_fits c w i) as [Hoff Hfit]; [done|lia|].
  destruct (sys_lseek_any (cd_blocksize c * i) w Hoff) as (r & ks & Hseek & Hr).
  unfold read_lockdata. rewrite (lock_offset_small c w) by (done || lia).
  rewrite (bind_run _ _ _ _ _ Hseek).
  destruct (r =? -1) eqn:Er; [by eauto 10 using geometry_same|]. zbool.
  assert (r = cd_blocksize c * i) as -> by lia.
  destruct (read_loop_any (cd_blocksize c) (set_pos (cd_blocksize c * i) (set_kseek ks w)))
    as (s & w1 & Hrd & Hs & Hs1 & Hm1 & Hd1); wsimpl; [lia..|].
  wsimpl in Hs1. wsimpl in Hm1. wsimpl in Hd1. rewrite (bind_run _ _ _ _ _ Hrd).
  assert (Hg1 : geometry c w1) by (eapply geometry_same; eauto; by rewrite Hd1).
  destruct (s =? -1); [by eauto 10|].
  destruct (negb (u64 s =? cd_blocksize c)); [by eauto 10|].
  destruct (peek OFF_COUNT 4 (w_mem w1)) as [cn|] eqn:Pc;
    [|rewrite peek_Some in Pc by (unfold OFF_COUNT; lia); done].
  destruct (peek OFF_NODENAME 256 (w_mem w1)) as [nb|] eqn:Pn;
    [|rewrite peek_Some in Pn by (unfold OFF_NODENAME; lia); done].
  destruct (peek OFF_STATUS 1 (w_mem w1)) as [st|] eqn:Ps;
    [|rewrite peek_Some in Ps by (unfold OFF_STATUS; lia); done].
  rewrite (bind_run _ _ _ _ _ (mem_peek_run _ _ _ _ Pc)).
  rewrite (bind_run _ _ _ _ _ (mem_peek_run _ _ _ _ Pn)).
  destruct (_ || _) eqn:Ez; [by eauto 10|].
  apply orb_false_iff in Ez as [Ec En]. zbool.
  rewrite (bind_run _ _ _ _ _ (mem_peek_run _ _ _ _ Ps)).
  destruct (_ && _) eqn:Est; [by eauto 10|].
  do 3 eexists. split; [reflexivity|]. split_and!; [done|done|]. right. cbn [ld_status ld_count ld_nodename].
  apply peek_length in Pc, Pn. split_and!; [done| | | |].
  - zbool; auto.
  - apply last_zero_cstr in Ec; [|by destruct cn].
    pose proof (atoi_bound (cstr cn) 3). lia.
  - apply last_zero_cstr in Ec; [|by destruct cn].
    pose proof (atoi_bound (cstr cn) 3). lia.
  - by apply strncpy_terminated.
Qed.

(** ** Concrete instances *)

Definition demo_lock : lockdata := Lockdata SFEX_STATUS_LOCK 41 (name_buf (str "node1")).
Definition demo_cdata : controldata := init_controldata 512 2.
(** A prepared process on an unformatted device, with transient errors ahead. *)
Definition demo_prepared : world :=
  World (replicate 1600 255) 0 (replicate 512 0) 512 [] []
        [KErr EAGAIN; KErr EINTR] [KErr EINTR; KErr EINTR].
(** The same with a device that tears a write and fails a read. *)
Definition demo_failing : world :=
  World (replicate 1600 255) 0 (replicate 512 0) 512 [] []
        [KErr EINTR; KErr EOTHER] [KErr EINTR; KShort 100].

Lemma demo_cdata_wf : wf_controldata demo_cdata.
Proof. constructor; vm_compute; try done; split; discriminate. Defined.
Lemma demo_lock_wf : wf_lockdata demo_lock.
Proof.
  constructor; [by right|vm_compute; split; discriminate|].
  exists (str "node1"). split; [|done]. split; [by apply (bool_decide_unpack _)|vm_compute; lia].
Defined.
Lemma demo_prepared_geometry : geometry demo_cdata demo_prepared.
Proof. constructor; [apply demo_cdata_wf|done|done|vm_compute; discriminate]. Defined.
Lemma demo_failing_geometry : geometry demo_cdata demo_failing.
Proof. constructor; [apply demo_cdata_wf|done|done|vm_compute; discriminate]. Defined.
Lemma demo_prepared_healthy : healthy demo_prepared.
Proof. constructor; [done|repeat constructor..]. Defined.

Lemma lockdata_roundtrip_witness :
  ∃ w1 w2, write_lockdata demo_cdata demo_lock 2 demo_prepared = (Ret 0, w1) ∧
    read_lockdata demo_cdata demo_lock 2 w1 = (Ret (0, demo_lock), w2).
Proof.
  destruct (lockdata_roundtrip demo_cdata demo_lock demo_lock 2 demo_prepared)
    as (w1 & w2 & Hw & Hr & _).
  - apply demo_prepared_healthy.
  - apply demo_prepared_geometry.
  - apply demo_lock_wf.
  - vm_compute. split; discriminate.
  - vm_compute. lia.
  - exists w1, w2. split; [exact Hw|exact Hr].
Defined.

Lemma write_lockdata_safe_witness :
  ∃ rc w', write_lockdata demo_cdata demo_lock 1 demo_failing = (Ret rc, w') ∧
    geometry demo_cdata w'.
Proof.
  destruct (write_lockdata_safe demo_cdata demo_lock 1 demo_failing) as (rc & w' & H & Hg & _).
  - apply demo_failing_geometry.
  - apply demo_lock_wf.
  - vm_compute. split; discriminate.
  - exists rc, w'. split; [exact H|exact Hg].
Defined.

Lemma read_lockdata_sound_witness :
  ∃ rc ld w', read_lockdata demo_cdata demo_lock 1 demo_failing = (Ret (rc, ld), w') ∧
    w_dev w' = w_dev demo_failing.
Proof.
  destruct (read_lockdata_sound demo_cdata demo_lock 1 demo_failing) as (rc & ld & w' & H & Hd & _).
  - apply demo_failing_geometry.
  - vm_compute. split; discriminate.
  - exists rc, ld, w'. split; [exact H|exact Hd].
Defined.
