(* ===== verification/SfexTools.v ===== *)
(** * sfex: the command-line tools (tools/sfex_init.c, tools/sfex_stat.c)

    Both mains are modelled from the sequence of options [getopt] returns and
    the operands it leaves; what the system answers (sector size, allocation,
    [uname]) are arguments.  [sfex_stat] returns what it prints on stdout with
    its exit status; every other exit of the two programs is an [Exited]. *)

From S2P Require Import Prelude CString SfexLib.
#[local] Open Scope Z_scope.

(** ** Definitions *)

Definition mout {W A} (o : outcome A) : M W A := λ w, (o, w).

(** What the system answers to the start-up of a tool. *)
Record sysinfo : Type := Sysinfo {
  si_sector : Z;                      (* BLKSSZGET *)
  si_memalign : bool;                 (* posix_memalign *)
  si_uname : option (list Z);         (* uname(2): nodename *)
  si_strdup : bool }.

(** [%02x] of a [char] converted to [int]. *)
Definition hex_digit (d : Z) : Z := if d <? 10 then 48 + d else 87 + d.
Fixpoint hex_digits (fuel : nat) (n : Z) (acc : list Z) : list Z :=
  match fuel with
  | O => acc
  | S f =>
      let acc' := hex_digit (n mod 16) :: acc in
      if n <? 16 then acc' else hex_digits f (n / 16) acc'
  end.
Definition hex02 (c : Z) : list Z :=
  let h := hex_digits 8 (u32 (s8 c)) [] in
  if (length h <? 2)%nat then 48 :: h else h.

(** *** sfex_init *)

Fixpoint init_options (opts : list (Z * list Z)) (numlocks : Z) : outcome Z :=
  match opts with
  | [] => Ret numlocks
  | (c, optarg) :: opts' =>
      if c =? 104 (* h *) then Exited 0
      else if c =? 110 (* n *) then
        let l := strtoul10 optarg in
        if (l <? SFEX_MIN_NUMLOCKS) || (SFEX_MAX_NUMLOCKS <? l) then Exited 4
        else init_options opts' l
      else if c =? 63 (* ? *) then Exited 4
      else init_options opts' numlocks
  end.

(** [for (index = 1; index <= numlocks; index++)]: [n] iterations from [index]. *)
Fixpoint init_locks (cdata : controldata) (ldata : lockdata) (index : Z) (n : nat)
    : M world unit :=
  match n with
  | O => mret tt
  | S n' =>
      rc ← write_lockdata cdata ldata index;
      if rc =? -1 then mexit 3 else init_locks cdata ldata (index + 1) n'
  end.

Definition sfex_init_main (si : sysinfo) (garbage : list Z)
    (opts : list (Z * list Z)) (operands : list (list Z)) : M world unit :=
  numlocks ← mout (init_options opts 1);
  match operands with
  | [_] =>
      prepare_lock (si_sector si) (si_memalign si);;
      mout (get_nodename (si_uname si) (si_strdup si));;
      sector_size ← mgets w_sector;
      let cdata := init_controldata sector_size numlocks in
      let ldata := init_lockdata garbage in
      write_controldata cdata;;
      init_locks cdata ldata 1 (Z.to_nat numlocks);;
      mexit 0
  | _ => mexit 4
  end.

(** *** sfex_stat *)

Fixpoint stat_options (opts : list (Z * list Z)) (index : Z) : outcome Z :=
  match opts with
  | [] => Ret index
  | (c, optarg) :: opts' =>
      if c =? 104 then Exited 0
      else if c =? 105 (* i *) then
        let l := strtoul10 optarg in
        if (l <? SFEX_MIN_NUMLOCKS) || (SFEX_MAX_NUMLOCKS <? l) then Exited 4
        else stat_options opts' l
      else if c =? 63 then Exited 4
      else stat_options opts' index
  end.

Definition print_controldata (c : controldata) : list Z :=
  str "control data:" ++ [10] ++
  str "  magic: 0x" ++ hex02 (nth 0 (cd_magic c) 0) ++ str ", 0x" ++ hex02 (nth 1 (cd_magic c) 0)
  ++ str ", 0x" ++ hex02 (nth 2 (cd_magic c) 0) ++ str ", 0x" ++ hex02 (nth 3 (cd_magic c) 0)
  ++ [10] ++
  str "  version: " ++ dec_d (cd_version c) ++ [10] ++
  str "  revision: " ++ dec_d (cd_revision c) ++ [10] ++
  str "  blocksize: " ++ dec_d (s32 (cd_blocksize c)) ++ [10] ++
  str "  numlocks: " ++ dec_d (cd_numlocks c) ++ [10].

Definition print_lockdata (ld : lockdata) (index : Z) : list Z :=
  str "lock data #" ++ dec_d index ++ str ":" ++ [10] ++
  str "  status: " ++
    (if ld_status ld =? SFEX_STATUS_UNLOCK then str "unlock" else str "lock") ++ [10] ++
  str "  count: " ++ dec_d (ld_count ld) ++ [10] ++
  str "  nodename: " ++ cstr (ld_nodename ld) ++ [10].

(** [cdata0] and [ldata0] are the uninitialised locals of [main]; the result
    of [read_lockdata] is not looked at, as in the code. *)
Definition sfex_stat_main (si : sysinfo) (cdata0 : controldata) (ldata0 : lockdata)
    (opts : list (Z * list Z)) (operands : list (list Z)) : M world (list Z * Z) :=
  index ← mout (stat_options opts 1);
  match operands with
  | [_] =>
      nodename ← mout (get_nodename (si_uname si) (si_strdup si));
      prepare_lock (si_sector si) (si_memalign si);;
      '(ret, cdata) ← lock_index_check cdata0 index;
      if ret =? -1 then mexit EXIT_FAILURE
      else
        '(_, ldata) ← read_lockdata cdata ldata0 index;
        let out := print_controldata cdata ++ print_lockdata ldata index in
        if negb (ld_status ldata =? SFEX_STATUS_LOCK)
           || negb (strcmp (ld_nodename ldata) nodename =? 0)
        then mret (out ++ str "status is UNLOCKED." ++ [10], 2)
        else mret (out ++ str "status is LOCKED." ++ [10], 0)
  | _ => mexit 4
  end.

(** A freshly initialised lock. *)
Definition fresh_lock : lockdata := Lockdata SFEX_STATUS_UNLOCK 0 (name_buf []).

(** ** Lemmas *)

Lemma fresh_lock_wf : wf_lockdata fresh_lock.
Proof.
  constructor; [by left|simpl; unfold SFEX_MAX_COUNT; lia|].
  exists []. split; [|done]. split; [constructor|simpl; lia].
Qed.

Lemma prepare_lock_run ssz w :
  Forall (λ k, transient k = true) (w_kopen w) → 0 < ssz ≤ INT_MAX →
  prepare_lock ssz true w =
    (Ret 0, set_mem (replicate (Z.to_nat ssz) 0) (set_pos 0 (set_sector ssz (set_kopen [] w)))).
Proof.
  intros Hk Hs. unfold prepare_lock. rewrite retry_transient by done.
  unfold INT_MAX in Hs. rewrite u64_small by (unfold ULONG_MAX; lia). wsimpl.
  rewrite (proj2 (Z.eqb_neq ssz 0)) by lia. reflexivity.
Qed.

(** The accepted option values are in range. *)
Lemma init_options_range opts k n :
  init_options opts k = Ret n → SFEX_MIN_NUMLOCKS ≤ k ≤ SFEX_MAX_NUMLOCKS →
  SFEX_MIN_NUMLOCKS ≤ n ≤ SFEX_MAX_NUMLOCKS.
Proof.
  revert k. induction opts as [|[c a] opts IH]; intros k; simpl; [by intros [= <-]|].
  repeat case_match; try done; intros; zbool; eapply IH; eauto; lia.
Qed.

Lemma stat_options_range opts k n :
  stat_options opts k = Ret n → SFEX_MIN_NUMLOCKS ≤ k ≤ SFEX_MAX_NUMLOCKS →
  SFEX_MIN_NUMLOCKS ≤ n ≤ SFEX_MAX_NUMLOCKS.
Proof.
  revert k. induction opts as [|[c a] opts IH]; intros k; simpl; [by intros [= <-]|].
  repeat case_match; try done; intros; zbool; eapply IH; eauto; lia.
Qed.

(** [strcmp] of an array holding a name with a name. *)
Lemma strcmp_name a b : wf_name a → wf_name b → strcmp (name_buf a) b = 0 ↔ a = b.
Proof.
  intros Ha Hb. unfold strcmp. rewrite name_buf_length by done.
  destruct Ha as [Ha La], Hb as [Hb Lb].
  unfold name_buf, field. rewrite <-(app_nil_r b) at 1. change [] with (replicate 0 0).
  apply strncmp_iff; auto; lia.
Qed.

Lemma get_nodename_wf u b nm :
  Forall is_byte (default [] u) → get_nodename u b = Ret nm → wf_name nm.
Proof.
  unfold get_nodename, SFEX_MAX_NODENAME, strlen. destruct u as [n|]; [|done]. simpl.
  intros Hb. destruct (255 <? _) eqn:E; [done|]. destruct b; [|done]. intros [= <-]. zbool.
  split; [by apply cstr_is_text|lia].
Qed.

(** After [prepare_lock] the geometry only depends on the device. *)
Lemma prepare_lock_geometry c w :
  wf_controldata c →
  cd_blocksize c * (1 + cd_numlocks c) ≤ Z.of_nat (length (w_dev w)) →
  geometry c (set_mem (replicate (Z.to_nat (cd_blocksize c)) 0)
                (set_pos 0 (set_sector (cd_blocksize c) (set_kopen [] w)))).
Proof.
  intros Hc Hd. pose proof (wf_blocksize _ Hc). constructor; wsimpl; [done..| |done].
  rewrite length_replicate. lia.
Qed.

(** What is written does not depend on the bytes after the name's NUL. *)
Lemma write_lockdata_cstr c l1 l2 i :
  ld_status l1 = ld_status l2 → ld_count l1 = ld_count l2 →
  cstr (ld_nodename l1) = cstr (ld_nodename l2) →
  write_lockdata c l1 i = write_lockdata c l2 i.
Proof. intros H1 H2 H3. unfold write_lockdata. by rewrite H1, H2, H3. Qed.

Lemma init_locks_run c ld0 n i w :
  (∀ j, write_lockdata c ld0 j = write_lockdata c fresh_lock j) →
  healthy w → geometry c w → 1 ≤ i → i + Z.of_nat n - 1 ≤ cd_numlocks c →
  ∃ w', init_locks c ld0 i n w = (Ret tt, w') ∧ healthy w' ∧ geometry c w' ∧
    (∀ j, i ≤ j < i + Z.of_nat n →
          sector_at c j w' = Some (lock_block (cd_blocksize c) fresh_lock)) ∧
    (∀ j, 0 ≤ j ≤ cd_numlocks c → (j < i ∨ i + Z.of_nat n ≤ j) →
          sector_at c j w' = sector_at c j w).
Proof.
  intros Hld. revert i w. induction n as [|n IH]; intros i w Hh Hg Hi Hn; cbn [init_locks].
  { exists w. split_and!; auto. intros; lia. }
  rewrite Hld.
  destruct (write_lockdata_run c fresh_lock i w) as (w1 & Hw & Hh1 & Hg1 & Hp);
    [done|done|apply fresh_lock_wf|lia|].
  rewrite (bind_run _ _ _ _ _ Hw). change (0 =? -1) with false. cbv iota.
  destruct (poke_sector c w w1 i (lock_block (cd_blocksize c) fresh_lock)) as [Hs Hj];
    [done|lia| |done|].
  { pose proof (wf_blocksize _ (g_cdata _ _ Hg)). unfold SIZEOF_LOCKDATA in *.
    rewrite lock_block_length by (apply fresh_lock_wf || (unfold SIZEOF_LOCKDATA; lia)). lia. }
  destruct (IH (i + 1) w1) as (w' & Hr & Hh' & Hg' & Ha & Hb); [done|done|lia|lia|].
  exists w'. split_and!; auto.
  - intros j Hjr. destruct (decide (j = i)) as [->|]; [rewrite Hb by lia; done|apply Ha; lia].
  - intros j Hjr Hjo. rewrite Hb by lia. apply Hj; lia.
Qed.

(** The run of [sfex_init]. *)
Lemma sfex_init_run si garbage opts n d w :
  init_options opts 1 = Ret n →
  si_memalign si = true →
  (∃ nm, get_nodename (si_uname si) (si_strdup si) = Ret nm) →
  (0 < length garbage)%nat →
  Z.of_nat SIZEOF_LOCKDATA ≤ si_sector si ≤ 9999999 →
  si_sector si * (1 + n) ≤ Z.of_nat (length (w_dev w)) →
  healthy w → Forall (λ k, transient k = true) (w_kopen w) →
  ∃ w', sfex_init_main si garbage opts [d] w = (Exited 0, w') ∧
    let c := init_controldata (si_sector si) n in
    geometry c w' ∧ sector_at c 0 w' = Some (control_block c) ∧
    ∀ i, 1 ≤ i ≤ n → sector_at c i w' = Some (lock_block (si_sector si) fresh_lock).
Proof.
  intros Hopts Hma [nm Hnm] Hgar Hsec Hdev Hh Hko.
  assert (Hn : SFEX_MIN_NUMLOCKS ≤ n ≤ SFEX_MAX_NUMLOCKS) by (by eapply init_options_range).
  set (c := init_controldata (si_sector si) n).
  assert (Hc : wf_controldata c)
    by (constructor; [done|done|simpl; unfold SFEX_REVISION; lia|done|done]).
  set (w1 := set_mem (replicate (Z.to_nat (si_sector si)) 0)
               (set_pos 0 (set_sector (si_sector si) (set_kopen [] w)))).
  assert (Hg1 : geometry c w1) by (by apply (prepare_lock_geometry c w)).
  assert (Hh1 : healthy w1) by (destruct Hh; constructor; done).
  destruct (write_controldata_run c w1) as (w2 & Hwc & Hh2 & Hg2 & Hp2); [done..|].
  destruct (poke_sector c w1 w2 0 (control_block c)) as [Hs0 _];
    [done|unfold SFEX_MIN_NUMLOCKS in *; simpl; lia| |by rewrite Z.mul_0_r|].
  { rewrite control_block_length by done. pose proof (wf_blocksize _ Hc). lia. }
  assert (Hld : ∀ j, write_lockdata c (init_lockdata garbage) j = write_lockdata c fresh_lock j).
  { intros j. apply write_lockdata_cstr; [done|done|].
    cbn [ld_nodename init_lockdata fresh_lock]. by destruct garbage; [simpl in Hgar; lia|]. }
  unfold SFEX_MIN_NUMLOCKS, SFEX_MAX_NUMLOCKS in Hn.
  destruct (init_locks_run c (init_lockdata garbage) (Z.to_nat n) 1 w2)
    as (w3 & Hil & _ & Hg3 & Ha & Hb); [done..|simpl; lia|].
  exists w3. split; [|split; [done|split]].
  - unfold sfex_init_main.
    assert (H0 : @mout world _ (init_options opts 1) w = (Ret n, w)) by (unfold mout; by rewrite Hopts).
    rewrite (bind_run _ _ _ _ _ H0), Hma.
    assert (Hpl : prepare_lock (si_sector si) true w = (Ret 0, w1))
      by (apply prepare_lock_run; [done|]; unfold SIZEOF_LOCKDATA, INT_MAX in *; lia).
    rewrite (bind_run _ _ _ _ _ Hpl), Hnm.
    erewrite bind_run by reflexivity. erewrite bind_run by reflexivity.
    change (w_sector w1) with (si_sector si). fold c.
    rewrite (bind_run _ _ _ _ _ Hwc), (bind_run _ _ _ _ _ Hil). reflexivity.
  - rewrite Hb; [done|simpl; lia|lia].
  - intros i Hi. apply Ha. lia.
Qed.

(** ** Properties *)


(** The exit status of [sfex_stat -i <i> <device>] on a formatted device:
    EXIT_FAILURE when there is no such lock, 0 when the lock is held under this
    node's name, 2 in every other case (unlocked, or held by another node). *)
Theorem sfex_stat_status si c ld cdata0 ldata0 opts i nm d w :
  stat_options opts 1 = Ret i →
  si_memalign si = true → Forall is_byte (default [] (si_uname si)) →
  get_nodename (si_uname si) (si_strdup si) = Ret nm →
  wf_controldata c → si_sector si = cd_blocksize c →
  cd_blocksize c * (1 + cd_numlocks c) ≤ Z.of_nat (length (w_dev w)) →
  (length (ld_nodename ldata0) ≤ 256)%nat → wf_lockdata ld →
  healthy w → Forall (λ k, transient k = true) (w_kopen w) →
  sector_at c 0 w = Some (control_block c) →
  (i ≤ cd_numlocks c → sector_at c i w = Some (lock_block (cd_blocksize c) ld)) →
  ∃ w', w_dev w' = w_dev w ∧
    if decide (cd_numlocks c < i)
    then sfex_stat_main si cdata0 ldata0 opts [d] w = (Exited EXIT_FAILURE, w')
    else ∃ out, sfex_stat_main si cdata0 ldata0 opts [d] w =
      (Ret (out, if decide (ld_status ld = SFEX_STATUS_LOCK ∧ ld_nodename ld = name_buf nm)
                 then 0 else 2), w').
Proof.
  intros Hopts Hma Hbytes Hnm Hc Hsz Hdev Hl0 Hld Hh Hko Hs0 Hsi.
  assert (Hi : SFEX_MIN_NUMLOCKS ≤ i ≤ SFEX_MAX_NUMLOCKS) by (by eapply stat_options_range).
  pose proof (get_nodename_wf _ _ _ Hbytes Hnm) as Hwn.
  set (w1 := set_mem (replicate (Z.to_nat (cd_blocksize c)) 0)
               (set_pos 0 (set_sector (cd_blocksize c) (set_kopen [] w)))).
  assert (Hg1 : geometry c w1) by (by apply (prepare_lock_geometry c w)).
  assert (Hh1 : healthy w1) by (destruct Hh; constructor; done).
  assert (Hpl : prepare_lock (cd_blocksize c) true w = (Ret 0, w1)).
  { apply prepare_lock_run; [done|]. pose proof (wf_blocksize _ Hc).
    unfold SIZEOF_LOCKDATA, INT_MAX in *; lia. }
  destruct (lock_index_check_run c cdata0 i w1) as (w2 & Hlc & Hh2 & Hg2 & Hd2); [done..|].
  assert (H0 : @mout world _ (stat_options opts 1) w = (Ret i, w)) by (unfold mout; by rewrite Hopts).
  unfold sfex_stat_main. rewrite (bind_run _ _ _ _ _ H0), Hnm, Hma, Hsz.
  erewrite (bind_run (mout (Ret nm))) by reflexivity.
  rewrite (bind_run _ _ _ _ _ Hpl), (bind_run _ _ _ _ _ Hlc). cbn beta iota.
  unfold SFEX_MIN_NUMLOCKS in Hi.
  destruct (decide (cd_numlocks c < i)) as [Hgt|Hle]; ztest.
  { exists w2. by rewrite Hd2. }
  destruct (read_lockdata_run c ld ldata0 i w2) as (w3 & Hr & _ & _ & Hd3); [done|done|done|lia|done| |].
  { unfold sector_at. rewrite Hd2. apply Hsi. lia. }
  exists w3. split; [by rewrite Hd3, Hd2|]. change (0 =? -1) with false. cbv iota.
  rewrite (bind_run _ _ _ _ _ Hr). cbn beta iota.
  destruct (wf_nodename _ Hld) as (nm' & Hn' & Hnb). rewrite Hnb.
  pose proof (strcmp_name nm' nm Hn' Hwn) as Hcmp.
  destruct (decide (ld_status ld = SFEX_STATUS_LOCK ∧ name_buf nm' = name_buf nm)) as [[-> Heq]|Hne].
  - assert (nm' = nm) as -> by (rewrite <-(wf_name_field nm'), <-(wf_name_field nm) by done; congruence).
    rewrite (proj2 Hcmp eq_refl). eexists. reflexivity.
  - assert (negb (ld_status ld =? SFEX_STATUS_LOCK)
            || negb (strcmp (name_buf nm') nm =? 0) = true) as ->; [|eexists; reflexivity].
    destruct (ld_status ld =? SFEX_STATUS_LOCK) eqn:E1, (strcmp (name_buf nm') nm =? 0) eqn:E2;
      try done. zbool. destruct Hne. split; [done|]. f_equal. by apply Hcmp.
Qed.

(** A lock sector whose counter field is not terminated is refused, and the
    caller's record is left as it was. *)
Lemma read_lockdata_unterminated c old i w blk :
  healthy w → geometry c w → 1 ≤ i ≤ cd_numlocks c →
  sector_at c i w = Some blk → nth 4 blk 0 ≠ 0 →
  ∃ w', read_lockdata c old i w = (Ret (-1, old), w') ∧ w_dev w' = w_dev w.
Proof.
  intros [Hs Hr Hw] Hg Hi Hsec Hnth. pose proof Hg as [Hc _ Hm Hd].
  pose proof (wf_blocksize _ Hc) as Hb. unfold SIZEOF_LOCKDATA in Hb.
  destruct (lock_fits c w i) as [Hoff Hfit]; [done|lia|].
  edestruct (read_loop_run (cd_blocksize c) (set_pos (cd_blocksize c * i) w))
    as (bs & Hp & Hrd); wsimpl; [done|lia|lia|lia|].
  wsimpl in Hp. wsimpl in Hrd. unfold sector_at in Hsec. rewrite Hsec in Hp. injection Hp as <-.
  assert (Hlen : length blk = Z.to_nat (cd_blocksize c)) by eauto with buf.
  unfold read_lockdata. rewrite (lock_offset_small c w) by (done || lia).
  erewrite bind_run by (by apply sys_lseek_run).
  rewrite (proj2 (Z.eqb_neq _ (-1))) by lia. rewrite (bind_run _ _ _ _ _ Hrd).
  rewrite (proj2 (Z.eqb_neq _ (-1))) by lia.
  rewrite u64_small by (unfold ULONG_MAX; lia). rewrite Z.eqb_refl. cbn [negb].
  destruct blk as [|b0 [|b1 [|b2 [|b3 [|b4 blk]]]]]; simpl in Hlen; try lia.
  assert (P1 : peek OFF_COUNT 4 (b0 :: b1 :: b2 :: b3 :: b4 :: blk) = Some [b1; b2; b3; b4])
    by (by rewrite peek_Some by (simpl; lia)).
  destruct (peek OFF_NODENAME 256 (b0 :: b1 :: b2 :: b3 :: b4 :: blk)) as [nb|] eqn:P2;
    [|rewrite peek_Some in P2 by (unfold OFF_NODENAME; simpl; lia); done].
  rewrite (bind_run _ _ _ _ _ (mem_peek_run _ _ (set_pos _ (set_mem _ _)) _ P1)).
  rewrite (bind_run _ _ _ _ _ (mem_peek_run _ _ (set_pos _ (set_mem _ _)) _ P2)).
  change (last_byte [b1; b2; b3; b4]) with b4. simpl in Hnth.
  rewrite (proj2 (Z.eqb_neq b4 0)) by done. cbn [negb orb].
  by eexists.
Qed.

(** [sfex_stat] does not look at the result of [read_lockdata]: when the
    lock sector is damaged (here: a counter field without terminator) it exits
    with 0 or 2 as decided by the uninitialised bytes of its local variable,
    where its documentation promises exit code 3. *)
Theorem sfex_stat_ignores_read_error si c cdata0 ldata0 opts i nm d w blk :
  stat_options opts 1 = Ret i → i ≤ cd_numlocks c →
  si_memalign si = true →
  get_nodename (si_uname si) (si_strdup si) = Ret nm →
  wf_controldata c → si_sector si = cd_blocksize c →
  cd_blocksize c * (1 + cd_numlocks c) ≤ Z.of_nat (length (w_dev w)) →
  healthy w → Forall (λ k, transient k = true) (w_kopen w) →
  sector_at c 0 w = Some (control_block c) →
  sector_at c i w = Some blk → nth 4 blk 0 ≠ 0 →
  ∃ out w', sfex_stat_main si cdata0 ldata0 opts [d] w =
    (Ret (out, if (ld_status ldata0 =? SFEX_STATUS_LOCK)
                  && (strcmp (ld_nodename ldata0) nm =? 0) then 0 else 2), w').
Proof.
  intros Hopts Hin Hma Hnm Hc Hsz Hdev Hh Hko Hs0 Hsi Hnth.
  assert (Hi : SFEX_MIN_NUMLOCKS ≤ i ≤ SFEX_MAX_NUMLOCKS) by (by eapply stat_options_range).
  unfold SFEX_MIN_NUMLOCKS in Hi.
  set (w1 := set_mem (replicate (Z.to_nat (cd_blocksize c)) 0)
               (set_pos 0 (set_sector (cd_blocksize c) (set_kopen [] w)))).
  assert (Hg1 : geometry c w1) by (by apply (prepare_lock_geometry c w)).
  assert (Hh1 : healthy w1) by (destruct Hh; constructor; done).
  assert (Hpl : prepare_lock (cd_blocksize c) true w = (Ret 0, w1)).
  { apply prepare_lock_run; [done|]. pose proof (wf_blocksize _ Hc).
    unfold SIZEOF_LOCKDATA, INT_MAX in *; lia. }
  destruct (lock_index_check_run c cdata0 i w1) as (w2 & Hlc & Hh2 & Hg2 & Hd2); [done..|].
  rewrite (proj2 (Z.ltb_ge _ _)) in Hlc by lia.
  destruct (read_lockdata_unterminated c ldata0 i w2 blk) as (w3 & Hr & Hd3);
    [done|done|lia|by unfold sector_at; rewrite Hd2|done|].
  assert (H0 : @mout world _ (stat_options opts 1) w = (Ret i, w)) by (unfold mout; by rewrite Hopts).
  unfold sfex_stat_main. rewrite (bind_run _ _ _ _ _ H0), Hnm, Hma, Hsz.
  erewrite (bind_run (mout (Ret nm))) by reflexivity.
  rewrite (bind_run _ _ _ _ _ Hpl), (bind_run _ _ _ _ _ Hlc). cbn beta iota.
  change (0 =? -1) with false. cbv iota. rewrite (bind_run _ _ _ _ _ Hr). cbn beta iota.
  destruct (ld_status ldata0 =? SFEX_STATUS_LOCK), (strcmp (ld_nodename ldata0) nm =? 0);
    do 2 eexists; reflexivity.
Qed.

(** ** Concrete instances *)

Definition demo_si : sysinfo := Sysinfo 512 true (Some (str "node1")) true.
Definition demo_world : world :=
  World (replicate 1600 255) 0 [] 0 [KErr EINTR] [] [KErr EAGAIN; KErr EINTR]
        [KErr EINTR; KErr EINTR].

Lemma demo_world_healthy : healthy demo_world.
Proof. constructor; [done|repeat constructor..]. Defined.


(** A formatted device: lock 1 is held by node1, lock 2 is damaged. *)
Definition demo_formatted : world :=
  World (control_block demo_cdata ++ lock_block 512 demo_lock ++ replicate 512 255)
        0 [] 0 [] [] [KErr EAGAIN] [].

Lemma demo_formatted_healthy : healthy demo_formatted.
Proof. constructor; [done|repeat constructor..]. Defined.

Lemma sfex_stat_status_witness :
  ∃ out w', sfex_stat_main demo_si demo_cdata demo_lock [(105, str "1")] [str "/dev/sdb1"]
              demo_formatted = (Ret (out, 0), w').
Proof.
  destruct (sfex_stat_status demo_si demo_cdata demo_lock demo_cdata demo_lock [(105, str "1")] 1
              (str "node1") (str "/dev/sdb1") demo_formatted) as (w' & _ & H).
  - reflexivity.
  - reflexivity.
  - by apply (bool_decide_unpack _).
  - reflexivity.
  - apply demo_cdata_wf.
  - reflexivity.
  - vm_compute. discriminate.
  - vm_compute. lia.
  - apply demo_lock_wf.
  - apply demo_formatted_healthy.
  - repeat constructor.
  - vm_compute. reflexivity.
  - intros _. vm_compute. reflexivity.
  - rewrite decide_False in H by (vm_compute; discriminate). destruct H as [out H].
    rewrite decide_True in H by (split; reflexivity). by exists out, w'.
Defined.

Lemma sfex_stat_ignores_read_error_witness :
  ∃ out w', sfex_stat_main demo_si demo_cdata demo_lock [(105, str "2")] [str "/dev/sdb1"]
              demo_formatted = (Ret (out, 0), w').
Proof.
  apply (sfex_stat_ignores_read_error demo_si demo_cdata demo_cdata demo_lock [(105, str "2")] 2
           (str "node1") (str "/dev/sdb1") demo_formatted (replicate 512 255)).
  - reflexivity.
  - vm_compute. discriminate.
  - reflexivity.
  - reflexivity.
  - apply demo_cdata_wf.
  - reflexivity.
  - vm_compute. discriminate.
  - apply demo_formatted_healthy.
  - repeat constructor.
  - vm_compute. reflexivity.
  - vm_compute. reflexivity.
  - vm_compute. discriminate.
Defined.
