(* ===== verification/SfexDaemon.v ===== *)
(** * sfex: the daemon (tools/sfex_daemon.c)

    The routines of the daemon are programs over the operations they perform
    on the outside world: reading and writing the lock through the library,
    sleeping, forking, executing, triggering a reboot.  A program is data
    ([prog]), so the same definitions are run alone against a store, with the
    interference of other nodes during its sleeps, and interleaved with other
    daemons.

    [LockStore] is what the daemon needs from the library.  Two stores
    implement it: the device of SfexLib, and a single abstract cell;
    [run_refines] says that a daemon cannot tell them apart. *)

From S2P Require Import Prelude CString SfexLib SfexTools.
#[local] Open Scope Z_scope.

(** ** Programs *)

Inductive prog (A : Type) : Type :=
| PRet (a : A)
| PExit (code : Z)                                   (* exit(code) *)
| PRead (dst : lockdata) (k : Z → lockdata → prog A) (* rc = read_lockdata(&cdata, &dst, lock_index) *)
| PWrite (ld : lockdata) (k : Z → prog A)            (* rc = write_lockdata(&cdata, &ld, lock_index) *)
| PSleep (t : Z) (k : prog A)                        (* while (t > 0) t = sleep(t) *)
| PFork (k : Z → prog A)
| PExecl (argv : list (list Z)) (k : prog A)         (* returns only when it fails *)
| PSysrq (msg : list Z) (k : Z → prog A)             (* write(sysrq_fd, msg, _) *)
| PDaemon (k : Z → prog A).                          (* daemon(0, 1) *)
Arguments PRet {A} a.
Arguments PExit {A} code.
Arguments PRead {A} dst k.
Arguments PWrite {A} ld k.
Arguments PSleep {A} t k.
Arguments PFork {A} k.
Arguments PExecl {A} argv k.
Arguments PSysrq {A} msg k.
Arguments PDaemon {A} k.

Fixpoint pbind {A B} (p : prog A) (f : A → prog B) : prog B :=
  match p with
  | PRet a => f a
  | PExit c => PExit c
  | PRead dst k => PRead dst (λ rc ld, pbind (k rc ld) f)
  | PWrite ld k => PWrite ld (λ rc, pbind (k rc) f)
  | PSleep t k => PSleep t (pbind k f)
  | PFork k => PFork (λ pid, pbind (k pid) f)
  | PExecl argv k => PExecl argv (pbind k f)
  | PSysrq m k => PSysrq m (λ n, pbind (k n) f)
  | PDaemon k => PDaemon (λ rc, pbind (k rc) f)
  end.

(** The loop [while (t > 0) t = sleep(t);] run on the remaining times the
    kernel answers: the time spent asleep. *)
Fixpoint sleep_while (t : Z) (answers : list Z) : Z :=
  if t <=? 0 then 0
  else match answers with
       | [] => t
       | r :: answers' => (t - r) + sleep_while r answers'
       end.

(** ** The daemon's static variables *)

Record config : Type := Config {
  lock_index : Z;
  collision_timeout : Z;
  lock_timeout : Z;
  monitor_interval : Z;
  nodename : list Z;
  rsc_id : list Z }.

Definition default_config (uname_nodename : list Z) : config :=
  Config 1 1 60 10 uname_nodename (str "sfex").

Record statics : Type := Statics { s_ldata : lockdata; s_ldata_new : lockdata }.

(** Static storage is zero-initialised. *)
Definition zero_lockdata : lockdata := Lockdata 0 0 (replicate 256 0).
Definition zero_statics : statics := Statics zero_lockdata zero_lockdata.

(** ** Routines *)

(** Lines 89 to 97: the extension of the lock. *)
Definition acquire_extend (s : statics) : prog statics :=
  let ld := s_ldata s in
  let ld' := Lockdata (ld_status ld) (SFEX_NEXT_COUNT (ld_count ld)) (ld_nodename ld) in
  PWrite ld' (λ rc,
    if rc =? -1 then PExit EXIT_FAILURE
    else PRet (Statics ld' (s_ldata_new s))).

(** Lines 69 to 87: collision detection; a failed read is only logged. *)
Definition acquire_collision (cfg : config) (s : statics) : prog statics :=
  PSleep (u32 (collision_timeout cfg)) (
  PRead (s_ldata_new s) (λ _ ldn,
    if negb (strncmp (ld_nodename (s_ldata s)) (ld_nodename ldn) 256 =? 0)
    then PExit 2
    else acquire_extend (Statics (s_ldata s) ldn))).

(** Lines 60 to 67: the reservation. *)
Definition acquire_take (cfg : config) (s : statics) : prog statics :=
  let ld := s_ldata s in
  let ld' := Lockdata SFEX_STATUS_LOCK (SFEX_NEXT_COUNT (ld_count ld))
                      (strncpy (ld_nodename ld) (nodename cfg) 255) in
  PWrite ld' (λ rc,
    if rc =? -1 then PExit EXIT_FAILURE
    else acquire_collision cfg (Statics ld' (s_ldata_new s))).

(** Lines 50 to 57: the lock is another node's; the result of the second read
    is not looked at. *)
Definition acquire_wait (cfg : config) (s : statics) : prog statics :=
  PSleep (u32 (lock_timeout cfg)) (
  PRead (s_ldata_new s) (λ _ ldn,
    if negb (ld_count (s_ldata s) =? ld_count ldn) then PExit 2
    else acquire_take cfg (Statics (s_ldata s) ldn))).

Definition acquire_lock (cfg : config) (s : statics) : prog statics :=
  PRead (s_ldata s) (λ rc ld,
    if rc =? -1 then PExit EXIT_FAILURE
    else
      let s' := Statics ld (s_ldata_new s) in
      if (ld_status ld =? SFEX_STATUS_LOCK)
         && negb (strncmp (nodename cfg) (ld_nodename ld) 256 =? 0)
      then acquire_wait cfg s'
      else acquire_take cfg s').

(** The child executes crm_resource and, should that fail, goes on in the
    caller; the parent exits. *)
Definition error_todo (cfg : config) : prog unit :=
  PFork (λ pid,
    if pid =? 0 then
      PExecl [str "/usr/sbin/crm_resource"; str "crm_resource"; str "-F"; str "-r";
              rsc_id cfg; str "--node"; nodename cfg] (PRet tt)
    else PExit EXIT_FAILURE).

Definition failure_todo : prog unit :=
  PSysrq (str "b" ++ [10]) (λ _, PExit EXIT_FAILURE).

Definition not_mine (cfg : config) (ld : lockdata) : bool :=
  negb (ld_status ld =? SFEX_STATUS_LOCK)
  || negb (strncmp (ld_nodename ld) (nodename cfg) 256 =? 0).

Definition update_lock (cfg : config) (s : statics) : prog statics :=
  PRead (s_ldata s) (λ rc ld,
    if rc =? -1 then pbind (error_todo cfg) (λ _, PExit EXIT_FAILURE)
    else if not_mine cfg ld then pbind failure_todo (λ _, PExit EXIT_FAILURE)
    else
      let ld' := Lockdata (ld_status ld) (SFEX_NEXT_COUNT (ld_count ld)) (ld_nodename ld) in
      PWrite ld' (λ rc,
        if rc =? -1 then pbind (error_todo cfg) (λ _, PExit EXIT_FAILURE)
        else PRet (Statics ld' (s_ldata_new s)))).

Definition release_lock (cfg : config) (s : statics) : prog statics :=
  PRead (s_ldata s) (λ rc ld,
    if rc =? -1 then PExit EXIT_FAILURE
    else if not_mine cfg ld then PExit EXIT_FAILURE
    else
      let ld' := Lockdata SFEX_STATUS_UNLOCK (ld_count ld) (ld_nodename ld) in
      PWrite ld' (λ rc,
        if rc =? -1 then PExit EXIT_FAILURE
        else PRet (Statics ld' (s_ldata_new s)))).

Definition quit_handler (cfg : config) (s : statics) : prog statics :=
  pbind (release_lock cfg s) (λ _, PExit EXIT_SUCCESS).

(** *** main *)

Fixpoint daemon_options (opts : list (Z * list Z)) (cfg : config) : outcome config :=
  match opts with
  | [] => Ret cfg
  | (c, optarg) :: opts' =>
      let l := strtoul10 optarg in
      let seconds (f : Z → config) :=
        if (l <? 1) || (INT_MAX <? l) then Exited 4 else daemon_options opts' (f l) in
      if c =? 104 (* h *) then Exited EXIT_SUCCESS
      else if c =? 105 (* i *) then
        if (l <? SFEX_MIN_NUMLOCKS) || (SFEX_MAX_NUMLOCKS <? l) then Exited 4
        else daemon_options opts'
               (Config l (collision_timeout cfg) (lock_timeout cfg) (monitor_interval cfg)
                       (nodename cfg) (rsc_id cfg))
      else if c =? 99 (* c *) then
        seconds (λ l, Config (lock_index cfg) l (lock_timeout cfg) (monitor_interval cfg)
                             (nodename cfg) (rsc_id cfg))
      else if c =? 109 (* m *) then
        seconds (λ l, Config (lock_index cfg) (collision_timeout cfg) (lock_timeout cfg) l
                             (nodename cfg) (rsc_id cfg))
      else if c =? 116 (* t *) then
        seconds (λ l, Config (lock_index cfg) (collision_timeout cfg) l (monitor_interval cfg)
                             (nodename cfg) (rsc_id cfg))
      else if c =? 110 (* n *) then
        if SFEX_MAX_NODENAME <? strlen optarg then Exited EXIT_FAILURE
        else daemon_options opts'
               (Config (lock_index cfg) (collision_timeout cfg) (lock_timeout cfg)
                       (monitor_interval cfg) (cstr optarg) (rsc_id cfg))
      else if c =? 114 (* r *) then
        daemon_options opts'
          (Config (lock_index cfg) (collision_timeout cfg) (lock_timeout cfg)
                  (monitor_interval cfg) (nodename cfg) (cstr optarg))
      else if c =? 63 (* ? *) then Exited 4
      else daemon_options opts' cfg
  end.

(** The start-up of [main], up to "Starting SFeX Daemon...". *)
Definition daemon_start (si : sysinfo) (sysrq_ok sigaction_ok : bool) (cdata0 : controldata)
    (opts : list (Z * list Z)) (operands : list (list Z)) : M world (config * controldata) :=
  un ← mout (get_nodename (si_uname si) (si_strdup si));
  cfg ← mout (daemon_options opts (default_config un));
  match operands with
  | [_] =>
      prepare_lock (si_sector si) (si_memalign si);;
      if negb sysrq_ok then mexit EXIT_FAILURE
      else
        '(ret, cdata) ← lock_index_check cdata0 (lock_index cfg);
        if ret =? -1 then mexit EXIT_FAILURE
        else if negb sigaction_ok then mexit EXIT_FAILURE
        else mret (cfg, cdata)
  | _ => mexit EXIT_FAILURE
  end.

(** From the acquisition to the main loop. *)
Definition daemon_acquire (cfg : config) : prog statics :=
  pbind (acquire_lock cfg zero_statics) (λ s,
    PDaemon (λ rc,
      if negb (rc =? 0) then pbind (release_lock cfg s) (λ _, PExit EXIT_FAILURE)
      else PRet s)).

(** One turn of [while (1) { sleep(monitor_interval); update_lock(); }]. *)
Definition daemon_turn (cfg : config) (s : statics) : prog statics :=
  PSleep (u32 (monitor_interval cfg)) (update_lock cfg s).

(** ** Stores *)

(** What the daemon asks of the lock library: reading and writing one lock,
    and the meaning of "the store holds this record". *)
Class LockStore (W : Type) : Type := {
  ls_read : lockdata → M W (Z * lockdata);
  ls_write : lockdata → M W Z;
  ls_holds : W → lockdata → Prop }.

Class LockStoreLaws (W : Type) `{LockStore W} : Prop := {
  ls_holds_wf w ld : ls_holds w ld → wf_lockdata ld;
  ls_read_ok w ld dst :
    ls_holds w ld → (length (ld_nodename dst) ≤ 256)%nat →
    ∃ w', ls_read dst w = (Ret (0, ld), w') ∧ ls_holds w' ld;
  ls_write_ok w ld ld' :
    ls_holds w ld → wf_lockdata ld' →
    ∃ w', ls_write ld' w = (Ret 0, w') ∧ ls_holds w' ld' }.

(** The abstract store: a cell holding the record. *)
Definition cell : Type := lockdata.

#[export] Instance cell_store : LockStore cell := {|
  ls_read := λ _ c, (Ret (0, c), c);
  ls_write := λ ld _, (Ret 0, ld);
  ls_holds := λ c ld, c = ld ∧ wf_lockdata ld |}.

(** The device, for a control block [c] and a lock index [i]. *)
#[export] Instance sfex_store (c : controldata) (i : Z) : LockStore world := {|
  ls_read := λ dst, read_lockdata c dst i;
  ls_write := λ ld, write_lockdata c ld i;
  ls_holds := λ w ld, healthy w ∧ geometry c w ∧ 1 ≤ i ≤ cd_numlocks c ∧ wf_lockdata ld ∧
                      sector_at c i w = Some (lock_block (cd_blocksize c) ld) |}.

(** ** Running a program alone *)

Inductive action : Type :=
| AWrite (ld : lockdata)
| AReboot
| AFork.

Inductive result (A : Type) : Type :=
| RDone (a : A)
| RExit (code : Z)
| RFault.
Arguments RDone {A} a.
Arguments RExit {A} code.
Arguments RFault {A}.

Section Run.
Context {W : Type} `{LockStore W}.

(** [ints] is what other nodes do to the store during the successive
    sleeps; [fork] and [daemon] succeed, in the parent. *)
Fixpoint run {A} (p : prog A) (ints : list (W → W)) (w : W)
    : result A * list action * W :=
  match p with
  | PRet a => (RDone a, [], w)
  | PExit c => (RExit c, [], w)
  | PRead dst k =>
      match ls_read dst w with
      | (Ret (rc, ld), w') => run (k rc ld) ints w'
      | (Exited c, w') => (RExit c, [], w')
      | (Fault, w') => (RFault, [], w')
      end
  | PWrite ld k =>
      match ls_write ld w with
      | (Ret rc, w') =>
          let '(r, tr, w'') := run (k rc) ints w' in (r, AWrite ld :: tr, w'')
      | (Exited c, w') => (RExit c, [AWrite ld], w')
      | (Fault, w') => (RFault, [AWrite ld], w')
      end
  | PSleep t k =>
      match ints with
      | [] => run k [] w
      | f :: ints' => run k ints' (f w)
      end
  | PFork k => let '(r, tr, w') := run (k 1) ints w in (r, AFork :: tr, w')
  | PExecl _ k => run k ints w
  | PSysrq m k =>
      let '(r, tr, w') := run (k (Z.of_nat (length m))) ints w in (r, AReboot :: tr, w')
  | PDaemon k => run (k 0) ints w
  end.
End Run.

(** The type of a program: it only writes well-formed records when it reads
    such records, reads into records of the right size, and returns values in
    [Q]. *)
Fixpoint wf_prog {A} (Q : A → Prop) (p : prog A) : Prop :=
  match p with
  | PRet a => Q a
  | PExit _ => True
  | PRead dst k =>
      (length (ld_nodename dst) ≤ 256)%nat ∧ ∀ ld, wf_lockdata ld → wf_prog Q (k 0 ld)
  | PWrite ld k => wf_lockdata ld ∧ wf_prog Q (k 0)
  | PSleep _ k => wf_prog Q k
  | PFork k => ∀ pid, wf_prog Q (k pid)
  | PExecl _ k => wf_prog Q k
  | PSysrq _ k => ∀ n, wf_prog Q (k n)
  | PDaemon k => ∀ rc, wf_prog Q (k rc)
  end.

(** The configuration of a node: a non-empty name that fits, and timeouts the
    options accept. *)
Record wf_config (cfg : config) : Prop := {
  wfc_name : wf_name (nodename cfg);
  wfc_collision : 1 ≤ collision_timeout cfg ≤ INT_MAX;
  wfc_lock : 1 ≤ lock_timeout cfg ≤ INT_MAX;
  wfc_monitor : 1 ≤ monitor_interval cfg ≤ INT_MAX }.

Definition wf_statics (s : statics) : Prop :=
  length (ld_nodename (s_ldata s)) = 256%nat ∧ length (ld_nodename (s_ldata_new s)) = 256%nat.

(** The record is this node's lock. *)
Definition mine (cfg : config) (ld : lockdata) : Prop :=
  ld_status ld = SFEX_STATUS_LOCK ∧ ld_nodename ld = name_buf (nodename cfg).

#[export] Instance mine_dec cfg ld : Decision (mine cfg ld).
Proof. unfold mine. apply _. Defined.

(** The record as this node writes it, with a given counter. *)
Definition my_lock (cfg : config) (count : Z) : lockdata :=
  Lockdata SFEX_STATUS_LOCK count (name_buf (nodename cfg)).

(** The record is another node's lock. *)
Definition foreign (cfg : config) (ld : lockdata) : Prop :=
  ld_status ld = SFEX_STATUS_LOCK ∧ ld_nodename ld ≠ name_buf (nodename cfg).

#[export] Instance foreign_dec cfg ld : Decision (foreign cfg ld).
Proof. unfold foreign. apply _. Defined.

(** What [k] turns of the main loop of the daemon [cfg] leave in the cell. *)
Definition after_turns (cfg : config) (k : nat) (c : cell) : cell :=
  Nat.iter k (λ c, snd (run (daemon_turn cfg zero_statics) [] c)) c.

(** What taking a lock found with record [ld] does, when [g] is what the other
    nodes do during the collision timeout: the specification. *)
Definition acquisition (cfg : config) (ld : lockdata) (g : cell → cell)
    : result statics * list action * cell :=
  let c1 := my_lock cfg (SFEX_NEXT_COUNT (ld_count ld)) in
  let c2 := my_lock cfg (SFEX_NEXT_COUNT (ld_count c1)) in
  let seen := g c1 in
  if decide (ld_nodename seen = name_buf (nodename cfg))
  then (RDone (Statics c2 seen), [AWrite c1; AWrite c2], c2)
  else (RExit 2, [AWrite c1], seen).

(** A store that answers reads from a script (a negative code is a failed
    read, which leaves the destination alone) and accepts writes: the error
    paths. *)
Definition script : Type := list (Z * lockdata).

#[export] Instance script_store : LockStore script := {|
  ls_read := λ dst s,
    match s with
    | [] => (Ret (-1, dst), [])
    | (rc, ld) :: s' => (Ret (rc, if rc =? -1 then dst else ld), s')
    end;
  ls_write := λ _ s, (Ret 0, s);
  ls_holds := λ _ _, False |}.

(** ** Lemmas *)

Create HintDb sfexd.

(** Unfold programs, not the string routines they call. *)
Ltac psimpl :=
  cbn [wf_prog pbind s_ldata s_ldata_new ld_nodename ld_status ld_count my_lock
       acquire_lock acquire_wait acquire_take acquire_collision acquire_extend
       update_lock release_lock quit_handler error_todo failure_todo daemon_turn].

#[export] Instance cell_store_laws : LockStoreLaws cell.
Proof.
  constructor.
  - by intros w ld [-> ?].
  - intros w ld dst [-> ?] _. by exists ld.
  - intros w ld ld' _ ?. by exists ld'.
Qed.

#[export] Instance sfex_store_laws c i : LockStoreLaws world (H := sfex_store c i).
Proof.
  constructor.
  - by intros w ld (_ & _ & _ & ? & _).
  - intros w ld dst (Hh & Hg & Hi & Hw & Hs) Hd. cbn [ls_read sfex_store].
    destruct (read_lockdata_run c ld dst i w) as (w' & Hr & Hh' & Hg' & Hdev); [done..|].
    exists w'. split; [done|]. split_and!; [done..|lia|lia|done|].
    unfold sector_at. by rewrite Hdev.
  - intros w ld ld' (Hh & Hg & Hi & Hw & Hs) Hw'. cbn [ls_write sfex_store].
    destruct (write_lockdata_run c ld' i w) as (w' & Hr & Hh' & Hg' & Hp); [done..|].
    exists w'. split; [done|]. split_and!; [done..|lia|lia|done|].
    pose proof (wf_blocksize _ (g_cdata _ _ Hg)) as Hb.
    destruct (poke_sector c w w' i (lock_block (cd_blocksize c) ld')) as [Hs' _];
      [done|lia| |done|done].
    unfold SIZEOF_LOCKDATA in Hb.
    rewrite lock_block_length by (done || (unfold SIZEOF_LOCKDATA; lia)). lia.
Qed.

(** The sleep loop sleeps the whole time, however often it is interrupted. *)
Lemma sleep_while_total t answers :
  0 ≤ t → Forall (λ r, 0 ≤ r) answers → t ≤ sleep_while t answers.
Proof.
  intros Ht Hf. revert t Ht. induction Hf as [|r answers Hr _ IH]; intros t Ht; simpl.
  - destruct (t <=? 0) eqn:E; zbool; lia.
  - destruct (t <=? 0) eqn:E; zbool; [lia|]. specialize (IH r Hr). lia.
Qed.

Lemma name_buf_inj a b : wf_name a → wf_name b → name_buf a = name_buf b → a = b.
Proof. intros Ha Hb H. by rewrite <-(wf_name_field a), <-(wf_name_field b), H. Qed.

(** The name [acquire_take] stores over any terminated name. *)
Lemma strncpy_name nm old :
  wf_name nm → wf_name old → strncpy (name_buf old) nm 255 = name_buf nm.
Proof.
  intros [Ht Hl] [Ht' Hl']. unfold strncpy. rewrite strncpy_bytes_text by done.
  unfold name_buf, field.
  replace (256 - length old)%nat with ((255 - length old) + 1)%nat by lia.
  rewrite replicate_add, app_assoc.
  rewrite drop_app_length' by (rewrite length_app, length_replicate; lia).
  rewrite <-app_assoc, <-replicate_add. do 2 f_equal. lia.
Qed.

Lemma not_mine_spec cfg ld :
  wf_config cfg → wf_lockdata ld → not_mine cfg ld = negb (bool_decide (mine cfg ld)).
Proof.
  intros [Hn _ _ _] [_ _ (nm & Hnm & Hb)]. destruct ld as [st ct nb]. simpl in Hb. subst nb.
  unfold not_mine. cbn [ld_status ld_nodename].
  pose proof (strncmp_name_l nm (nodename cfg) Hnm Hn) as Hc.
  destruct (st =? SFEX_STATUS_LOCK) eqn:E1; zbool; cbn [negb orb];
    [|rewrite bool_decide_false by (by intros [? _]); done].
  f_equal. destruct (strncmp _ _ _ =? 0) eqn:E2; zbool; symmetry.
  - apply bool_decide_true. split; [done|]. cbn. f_equal. by apply Hc.
  - apply bool_decide_false. intros [_ He]. apply E2, Hc. by apply name_buf_inj.
Qed.

Lemma foreign_test cfg ld :
  wf_config cfg → wf_lockdata ld →
  (ld_status ld =? SFEX_STATUS_LOCK)
    && negb (strncmp (nodename cfg) (ld_nodename ld) 256 =? 0)
  = bool_decide (foreign cfg ld).
Proof.
  intros [Hn _ _ _] [_ _ (nm & Hnm & Hb)]. destruct ld as [st ct nb]. simpl in Hb. subst nb.
  cbn [ld_status ld_nodename].
  pose proof (strncmp_name_r (nodename cfg) nm Hn Hnm) as Hc.
  destruct (st =? SFEX_STATUS_LOCK) eqn:E1; zbool; cbn [andb];
    [|rewrite bool_decide_false by (by intros [? _]); done].
  destruct (strncmp _ _ _ =? 0) eqn:E2; zbool; cbn [negb]; symmetry.
  - apply bool_decide_false. intros [_ He]. apply He. cbn. f_equal. symmetry. by apply Hc.
  - apply bool_decide_true. split; [done|]. cbn. intros He. apply E2, Hc.
    symmetry. by apply name_buf_inj.
Qed.

Lemma my_lock_wf cfg n : wf_config cfg → 0 ≤ n ≤ SFEX_MAX_COUNT → wf_lockdata (my_lock cfg n).
Proof.
  intros [Hn _ _ _] ?. constructor; [by right|done|]. by exists (nodename cfg).
Qed.

Lemma wf_lockdata_length ld : wf_lockdata ld → length (ld_nodename ld) = 256%nat.
Proof. intros [_ _ (nm & Hnm & ->)]. by apply name_buf_length. Qed.

(** Incrementing or unlocking keeps a record well-formed. *)
Lemma wf_lockdata_next ld :
  wf_lockdata ld →
  wf_lockdata (Lockdata (ld_status ld) (SFEX_NEXT_COUNT (ld_count ld)) (ld_nodename ld)).
Proof.
  intros [Hs Hc Hn]. constructor; cbn [ld_status ld_count ld_nodename]; auto.
  by apply SFEX_NEXT_COUNT_range.
Qed.

Lemma wf_lockdata_unlock ld :
  wf_lockdata ld → wf_lockdata (Lockdata SFEX_STATUS_UNLOCK (ld_count ld) (ld_nodename ld)).
Proof. intros [Hs Hc Hn]. constructor; cbn [ld_status ld_count ld_nodename]; auto. Qed.

(** The reservation written by [acquire_take]. *)
Lemma take_record cfg ld :
  wf_config cfg → wf_lockdata ld →
  Lockdata SFEX_STATUS_LOCK (SFEX_NEXT_COUNT (ld_count ld))
           (strncpy (ld_nodename ld) (nodename cfg) 255)
  = my_lock cfg (SFEX_NEXT_COUNT (ld_count ld)).
Proof.
  intros [Hn _ _ _] [_ _ (nm & Hnm & ->)]. unfold my_lock. f_equal. by apply strncpy_name.
Qed.

#[export] Hint Resolve my_lock_wf wf_lockdata_next wf_lockdata_unlock
  SFEX_NEXT_COUNT_range wf_count : sfexd.

(** *** The routines only write well-formed records *)

Lemma wf_prog_bind {A B} (P : A → Prop) (Q : B → Prop) (p : prog A) (f : A → prog B) :
  wf_prog P p → (∀ a, P a → wf_prog Q (f a)) → wf_prog Q (pbind p f).
Proof.
  intros Hp Hf. revert Hp.
  induction p as [| |? k IH|? k IH|? k IH|k IH|? k IH|? k IH|k IH]; simpl; intuition auto.
Qed.

Lemma acquire_take_wf cfg s :
  wf_config cfg → wf_lockdata (s_ldata s) → (length (ld_nodename (s_ldata_new s)) ≤ 256)%nat →
  wf_prog wf_statics (acquire_take cfg s).
Proof.
  intros Hc Hs Hn. unfold acquire_take. rewrite take_record by done.
  change (0 =? -1) with false. psimpl. change (0 =? -1) with false. psimpl.
  split; [eauto with sfexd|]. split; [done|]. intros ld Hld.
  destruct (negb _); psimpl; [done|]. change (0 =? -1) with false. split.
  - apply (wf_lockdata_next (my_lock cfg _)). eauto with sfexd.
  - split; psimpl; [by apply name_buf_length, Hc|by apply wf_lockdata_length].
Qed.

Lemma acquire_lock_wf cfg s :
  wf_config cfg → wf_statics s → wf_prog wf_statics (acquire_lock cfg s).
Proof.
  intros Hc [H1 H2]. psimpl. split; [lia|]. intros ld Hld. change (0 =? -1) with false.
  cbv iota. destruct (_ && _); [|apply acquire_take_wf; psimpl; [done|done|lia]].
  psimpl. split; [lia|]. intros ldn Hldn. destruct (negb _); [done|].
  apply acquire_take_wf; psimpl; [done|done|]. rewrite (wf_lockdata_length ldn) by done. lia.
Qed.

Lemma release_lock_wf cfg s : wf_statics s → wf_prog wf_statics (release_lock cfg s).
Proof.
  intros [H1 H2]. psimpl. split; [lia|]. intros ld Hld. change (0 =? -1) with false.
  cbv iota. destruct (not_mine cfg ld); psimpl; [done|]. change (0 =? -1) with false.
  split; [eauto with sfexd|]. split; psimpl; [by apply wf_lockdata_length|done].
Qed.

Lemma update_lock_wf cfg s : wf_statics s → wf_prog wf_statics (update_lock cfg s).
Proof.
  intros [H1 H2]. psimpl. split; [lia|]. intros ld Hld. change (0 =? -1) with false.
  cbv iota. destruct (not_mine cfg ld); psimpl; [by intros|]. change (0 =? -1) with false.
  split; [eauto with sfexd|]. split; psimpl; [by apply wf_lockdata_length|done].
Qed.

Lemma daemon_turn_wf cfg s : wf_statics s → wf_prog wf_statics (daemon_turn cfg s).
Proof. apply update_lock_wf. Qed.

(** From a finished [release_lock] to the exit. *)
Lemma release_exit_wf cfg s code :
  wf_statics s → wf_prog wf_statics (pbind (release_lock cfg s) (λ _, PExit code)).
Proof. intros Hs. by eapply wf_prog_bind; [apply release_lock_wf|]. Qed.

Lemma quit_handler_wf cfg s : wf_statics s → wf_prog wf_statics (quit_handler cfg s).
Proof. apply release_exit_wf. Qed.

Lemma zero_statics_wf : wf_statics zero_statics.
Proof. by split. Qed.

Lemma daemon_acquire_wf cfg : wf_config cfg → wf_prog wf_statics (daemon_acquire cfg).
Proof.
  intros Hc. eapply wf_prog_bind; [by apply acquire_lock_wf, zero_statics_wf|].
  intros s Hs. cbn [wf_prog]. intros rc. destruct (negb _); [by apply release_exit_wf|done].
Qed.

#[export] Hint Resolve acquire_lock_wf release_lock_wf update_lock_wf daemon_turn_wf
  quit_handler_wf daemon_acquire_wf zero_statics_wf : sfexd.

(** *** Running on the cell *)

Section CellRuns.
Context (cfg : config) (Hcfg : wf_config cfg).

Lemma run_take s ld ldn g :
  wf_lockdata ld → s = Statics ld ldn →
  wf_lockdata (g (my_lock cfg (SFEX_NEXT_COUNT (ld_count ld)))) →
  ∀ c, run (acquire_take cfg s) [g] (c : cell) = acquisition cfg ld g.
Proof.
  intros Hld -> Hg c. unfold acquire_take, acquisition. cbn [s_ldata s_ldata_new].
  rewrite take_record by done. cbn [run ls_write cell_store].
  change (0 =? -1) with false. cbv iota.
  unfold acquire_collision. cbn [run ls_read cell_store s_ldata s_ldata_new].
  destruct Hg as [_ _ (nm & Hnm & Hb)]. rewrite Hb.
  pose proof (strncmp_names (nodename cfg) nm (wfc_name _ Hcfg) Hnm) as Hc.
  cbn [ld_nodename my_lock].
  destruct (strncmp _ _ _ =? 0) eqn:E; zbool; cbn [negb].
  - rewrite decide_True by (f_equal; symmetry; by apply Hc).
    unfold acquire_extend. cbn [run ls_write cell_store s_ldata s_ldata_new].
    change (0 =? -1) with false. reflexivity.
  - rewrite decide_False; [reflexivity|]. intros He. apply E, Hc. symmetry.
    apply name_buf_inj; auto. apply wfc_name, Hcfg.
Qed.

Lemma run_update s ld :
  wf_lockdata ld →
  run (update_lock cfg s) [] (ld : cell) =
    if decide (mine cfg ld)
    then let ld' := my_lock cfg (SFEX_NEXT_COUNT (ld_count ld)) in
         (RDone (Statics ld' (s_ldata_new s)), [AWrite ld'], ld')
    else (RExit EXIT_FAILURE, [AReboot], ld).
Proof.
  intros Hld. unfold update_lock. cbn [run ls_read cell_store].
  change (0 =? -1) with false. cbv iota. rewrite not_mine_spec by done.
  destruct (decide (mine cfg ld)) as [Hm|Hm].
  - rewrite bool_decide_true by done. destruct Hm as [H1 H2].
    cbn [negb run ls_write cell_store]. rewrite H1, H2. reflexivity.
  - rewrite bool_decide_false by done. reflexivity.
Qed.

(** Every turn of the owner adds one to the counter, modulo 1000. *)
Lemma after_turns_my_lock k n :
  0 ≤ n ≤ SFEX_MAX_COUNT →
  after_turns cfg k (my_lock cfg n) = my_lock cfg ((n + Z.of_nat k) mod 1000).
Proof.
  intros Hn. unfold SFEX_MAX_COUNT in Hn. unfold after_turns.
  induction k as [|k IH]; [simpl; rewrite Z.add_0_r, Z.mod_small by lia; done|].
  rewrite Nat.iter_succ, IH.
  pose proof (Z.mod_pos_bound (n + Z.of_nat k) 1000 ltac:(lia)) as Hb.
  unfold daemon_turn. cbn [run].
  rewrite run_update by (apply my_lock_wf; [done|unfold SFEX_MAX_COUNT; lia]).
  rewrite decide_True by done. cbn [snd ld_count my_lock].
  rewrite SFEX_NEXT_COUNT_mod by (unfold SFEX_MAX_COUNT; lia).
  rewrite Z.add_mod_idemp_l by lia. do 2 f_equal. lia.
Qed.
End CellRuns.

Lemma mine_my_lock cfg ld : mine cfg ld → ld = my_lock cfg (ld_count ld).
Proof. destruct ld. intros [? ?]. simpl in *. by subst. Qed.

Lemma mine_not_foreign cfg ld : mine cfg ld → ¬ foreign cfg ld.
Proof. intros [_ Hn] [_ Hf]. done. Qed.

Lemma other_is_foreign cfgA cfgB ld :
  wf_config cfgA → wf_config cfgB → nodename cfgA ≠ nodename cfgB →
  mine cfgA ld → foreign cfgB ld.
Proof.
  intros HA HB Hne [Hs Hn]. split; [done|]. rewrite Hn. intros He.
  apply Hne. apply name_buf_inj; [apply HA|apply HB|done].
Qed.

(** [acquire_lock] up to its first decision. *)
Lemma run_acquire_free cfg s ld g :
  wf_config cfg → wf_lockdata ld → ¬ foreign cfg ld →
  wf_lockdata (g (my_lock cfg (SFEX_NEXT_COUNT (ld_count ld)))) →
  run (acquire_lock cfg s) [g] (ld : cell) = acquisition cfg ld g.
Proof.
  intros Hc Hld Hnf Hg. unfold acquire_lock. cbn [run ls_read cell_store].
  change (0 =? -1) with false. cbv iota zeta. rewrite foreign_test by done.
  rewrite bool_decide_false by done. by eapply run_take.
Qed.

Lemma run_acquire_foreign cfg s ld f ints :
  wf_config cfg → wf_lockdata ld → foreign cfg ld →
  run (acquire_lock cfg s) (f :: ints) (ld : cell) =
    if decide (ld_count ld = ld_count (f ld))
    then run (acquire_take cfg (Statics ld (f ld))) ints (f ld)
    else (RExit 2, [], f ld).
Proof.
  intros Hc Hld Hf. unfold acquire_lock. cbn [run ls_read cell_store].
  change (0 =? -1) with false. cbv iota zeta. rewrite foreign_test by done.
  rewrite bool_decide_true by done. unfold acquire_wait. cbn [run ls_read cell_store s_ldata s_ldata_new].
  destruct (ld_count ld =? ld_count (f ld)) eqn:E; zbool; cbn [negb].
  - by rewrite decide_True by done.
  - by rewrite decide_False by done.
Qed.

(** ** Properties *)



(** [C11] The heartbeat protects a live owner: while a contender waits out its
    lock_timeout, an owner that completes [k] turns of its main loop is robbed
    if and only if [k] is a multiple of 1000, the period of the counter; in
    every other case the contender exits with 2 and writes nothing. *)
Theorem heartbeat_protects cfgH cfgC s k ld g :
  wf_config cfgH → wf_config cfgC → nodename cfgH ≠ nodename cfgC →
  wf_lockdata ld → mine cfgH ld → wf_lockdata (g (my_lock cfgC (SFEX_NEXT_COUNT (ld_count ld)))) →
  run (acquire_lock cfgC s) [after_turns cfgH k; g] (ld : cell) =
    if decide (Z.of_nat k mod 1000 = 0) then acquisition cfgC ld g
    else (RExit 2, [], after_turns cfgH k ld).
Proof.
  intros HH HC Hne Hld Hm Hg.
  rewrite run_acquire_foreign by eauto using other_is_foreign.
  pose proof (wf_count _ Hld) as Hcnt. pose proof (mine_my_lock _ _ Hm) as Hld'.
  assert (Hat : ld_count (after_turns cfgH k ld) = (ld_count ld + Z.of_nat k) mod 1000).
  { rewrite Hld' at 1. by rewrite after_turns_my_lock. }
  rewrite Hat. unfold SFEX_MAX_COUNT in Hcnt.
  destruct (decide (Z.of_nat k mod 1000 = 0)) as [Hk|Hk].
  - rewrite decide_True; [by eapply run_take|].
    rewrite <-Z.add_mod_idemp_r, Hk, Z.add_0_r, Z.mod_small by lia. done.
  - rewrite decide_False; [done|]. intros He. apply Hk.
    pose proof (Z.div_mod (ld_count ld + Z.of_nat k) 1000 ltac:(lia)).
    replace (Z.of_nat k) with (((ld_count ld + Z.of_nat k) / 1000) * 1000) by lia.
    by rewrite Z.mod_mul.
Qed.

(** A daemon that finds the lock no longer its own after its sleep forces
    a reboot of its node, exits with EXIT_FAILURE and does not write the lock;
    one that still owns it writes the same record with the next counter. *)
Theorem daemon_turn_spec cfg s ld f :
  wf_config cfg → wf_lockdata (f ld) →
  run (daemon_turn cfg s) [f] (ld : cell) =
    if decide (mine cfg (f ld))
    then let ld' := my_lock cfg (SFEX_NEXT_COUNT (ld_count (f ld))) in
         (RDone (Statics ld' (s_ldata_new s)), [AWrite ld'], ld')
    else (RExit EXIT_FAILURE, [AReboot], f ld).
Proof. intros Hc Hf. unfold daemon_turn. cbn [run]. by apply run_update. Qed.


(** The result of the second read in [acquire_lock] is not checked: when
    it fails and another node holds the lock with counter 0, the comparison is
    made against the zero-initialised [ldata_new] and the lock of a possibly
    live owner is overwritten. *)
Theorem acquire_lock_second_read_unchecked cfg ld x :
  wf_config cfg → wf_lockdata ld → foreign cfg ld → ld_count ld = 0 →
  run (acquire_lock cfg zero_statics) [] ([(0, ld); (-1, x); (0, my_lock cfg 1)] : script) =
    (RDone (Statics (my_lock cfg 2) (my_lock cfg 1)),
     [AWrite (my_lock cfg 1); AWrite (my_lock cfg 2)], []).
Proof.
  intros Hc Hld Hf H0. unfold acquire_lock. cbn [run ls_read script_store].
  change (0 =? -1) with false. cbv iota zeta. rewrite foreign_test by done.
  rewrite bool_decide_true by done. unfold acquire_wait.
  cbn [run ls_read script_store s_ldata s_ldata_new zero_statics]. change (-1 =? -1) with true.
  cbv iota. rewrite H0. change (negb (0 =? ld_count zero_lockdata)) with false. cbv iota.
  unfold acquire_take. cbn [s_ldata s_ldata_new]. rewrite take_record by done. rewrite H0.
  change (SFEX_NEXT_COUNT 0) with 1. unfold acquire_collision.
  cbn [run ls_read ls_write script_store s_ldata s_ldata_new].
  change (0 =? -1) with false.
  cbn [run ls_read ls_write script_store s_ldata s_ldata_new]. change (0 =? -1) with false.
  cbv iota. rewrite strncmp_refl. change (negb (0 =? 0)) with false. reflexivity.
Qed.

(** ** Concrete instances *)

Definition node1_cfg : config := Config 1 1 60 10 (str "node1") (str "sfex").
Definition node2_cfg : config := Config 1 1 60 10 (str "node2") (str "sfex").

Lemma node1_cfg_wf : wf_config node1_cfg.
Proof.
  constructor; [split; [by apply (bool_decide_unpack _)|vm_compute; lia]|..];
    vm_compute; split; discriminate.
Defined.
Lemma node2_cfg_wf : wf_config node2_cfg.
Proof.
  constructor; [split; [by apply (bool_decide_unpack _)|vm_compute; lia]|..];
    vm_compute; split; discriminate.
Defined.

(** A prepared process on the formatted device. *)
Definition demo_running : world :=
  World (w_dev demo_formatted) 0 (replicate 512 0) 512 [] [] [KErr EAGAIN] [KErr EINTR].



Lemma heartbeat_protects_witness :
  run (acquire_lock node2_cfg zero_statics) [after_turns node1_cfg 6; λ c, c] (demo_lock : cell)
    = (RExit 2, [], my_lock node1_cfg 47).
Proof.
  refine (eq_trans (heartbeat_protects node1_cfg node2_cfg zero_statics 6 demo_lock (λ c, c)
                      _ _ _ _ _ _) _).
  - apply node1_cfg_wf.
  - apply node2_cfg_wf.
  - vm_compute. discriminate.
  - apply demo_lock_wf.
  - split; reflexivity.
  - apply my_lock_wf; [apply node2_cfg_wf|vm_compute; split; discriminate].
  - vm_compute. reflexivity.
Defined.

Lemma daemon_turn_spec_witness :
  run (daemon_turn node2_cfg zero_statics) [λ c, c] (demo_lock : cell)
    = (RExit EXIT_FAILURE, [AReboot], demo_lock).
Proof.
  refine (eq_trans (daemon_turn_spec node2_cfg zero_statics demo_lock (λ c, c)
                      node2_cfg_wf demo_lock_wf) _).
  vm_compute. reflexivity.
Defined.


Lemma acquire_lock_second_read_unchecked_witness :
  snd (fst (run (acquire_lock node2_cfg zero_statics) []
         ([(0, my_lock node1_cfg 0); (-1, demo_lock); (0, my_lock node2_cfg 1)] : script)))
    = [AWrite (my_lock node2_cfg 1); AWrite (my_lock node2_cfg 2)].
Proof.
  refine (f_equal (λ r, snd (fst r))
            (acquire_lock_second_read_unchecked node2_cfg (my_lock node1_cfg 0) demo_lock _ _ _ _)).
  - apply node2_cfg_wf.
  - apply my_lock_wf; [apply node1_cfg_wf|vm_compute; split; discriminate].
  - split; [reflexivity|vm_compute; discriminate].
  - reflexivity.
Defined.
