(* ===== verification/SfexMutex.v ===== *)
(** * sfex: mutual exclusion

    Several nodes run the daemon of SfexDaemon against one lock record.  Time
    is explicit: an operation that has no sleep before it comes within [delta]
    of the previous one, a sleep lasts at least its time and ends within
    [delta] after it.  Nodes may crash at any time, and be started again later;
    reads and writes of the record are atomic and do not fail.  Under bounds on
    the timeouts, at most one node is in the main loop of its daemon, and the
    record is that node's; and a daemon left alone gets there in time. *)

From stdpp Require Import fin functions.
From S2P Require Import Prelude CString SfexLib SfexTools SfexDaemon.
#[local] Open Scope Z_scope.

(** ** The machine *)

(** What a program does next: [c] is what fork, daemon or the write to sysrq
    answers. *)
Inductive effect (A : Type) : Type :=
| EGo (p : prog A) (d : cell) (wrote : bool) (sleep : Z)
| EEnd.
Arguments EGo {A} p d wrote sleep.
Arguments EEnd {A}.

Definition pstep {A} (p : prog A) (c : Z) (d : cell) : option (effect A) :=
  match p with
  | PRet _ => None
  | PExit _ => Some EEnd
  | PRead dst k => Some (EGo (k 0 d) d false 0)
  | PWrite ld k => Some (EGo (k 0) ld true 0)
  | PSleep t k => Some (EGo k d false t)
  | PFork k => Some (EGo (k c) d false 0)
  | PExecl _ k => Some (EGo k d false 0)
  | PSysrq _ k => Some (EGo (k c) d false 0)
  | PDaemon k => Some (EGo (k c) d false 0)
  end.

(** [Looping]: the lock has been acquired and SIGTERM has not come. *)
Inductive mode : Type := Acquiring | Looping | Leaving.

(** A node without daemon, since a time; or with one, whose next operation
    comes between [lo] and [hi]. *)
Inductive nstate : Type :=
| Off (since : Z)
| Live (m : mode) (p : prog statics) (lo hi : Z).

(** [writes] has the times of all writes so far. *)
Record mstate (n : nat) : Type := MState {
  now : Z;
  disk : cell;
  writes : list Z;
  node : fin n → nstate }.
Arguments MState {n} now disk writes node.
Arguments now {n} m.
Arguments disk {n} m.
Arguments writes {n} m.
Arguments node {n} m i.

(** What happens in a step; [answer] is what fork, daemon or the write to sysrq
    answers, [st] what the handler of the signal finds. *)
Inductive label (n : nat) : Type :=
| Tick (t : Z)
| Start (i : fin n)
| Crash (i : fin n)
| Term (i : fin n) (st : statics)
| Loop (i : fin n)
| End_ (i : fin n)
| Act (i : fin n) (answer : Z).
Arguments Tick {n} t.
Arguments Start {n} i.
Arguments Crash {n} i.
Arguments Term {n} i st.
Arguments Loop {n} i.
Arguments End_ {n} i.
Arguments Act {n} i answer.

(** The writes from the time [t] on. *)
Definition since (t : Z) (ws : list Z) : Z := Z.of_nat (length (filter (λ u, t ≤ u) ws)).

Section Machine.
Context {n : nat} (cfg : fin n → config) (hz delta window : Z) (early : bool).

Definition put (s : mstate n) (i : fin n) (ns : nstate) : mstate n :=
  MState (now s) (disk s) (writes s) (<[i := ns]> (node s)).

(** SIGTERM comes to daemons in their main loop and, if [early], also to those
    that acquire the lock; its handler is not interrupted. *)
Definition takes_sigterm (m : mode) : bool :=
  match m with Looping => true | Acquiring => early | Leaving => false end.

(** A step.  Time passes only while no operation is overdue.  A daemon that
    ended is not started again within [delta].  SIGTERM interrupts a daemon
    anywhere.  Within [window] the record is written less than 1000 times. *)
Inductive lstep (s : mstate n) : label n → mstate n → Prop :=
| m_tick t :
    now s ≤ t → (∀ i m p lo hi, node s i = Live m p lo hi → t ≤ hi) →
    lstep s (Tick t) (MState t (disk s) (writes s) (node s))
| m_start i t0 :
    node s i = Off t0 → t0 + delta < now s →
    lstep s (Start i) (put s i (Live Acquiring (daemon_acquire (cfg i)) (now s) (now s + delta)))
| m_crash i m p lo hi :
    node s i = Live m p lo hi → lstep s (Crash i) (put s i (Off (now s)))
| m_term i m p lo hi st :
    node s i = Live m p lo hi → takes_sigterm m = true →
    lstep s (Term i st) (put s i (Live Leaving (quit_handler (cfg i) st) (now s) (now s + delta)))
| m_loop i m st lo hi :
    node s i = Live m (PRet st) lo hi →
    lstep s (Loop i) (put s i (Live Looping (daemon_turn (cfg i) st) (now s) (now s + delta)))
| m_exit i m p lo hi c :
    node s i = Live m p lo hi → lo ≤ now s → pstep p c (disk s) = Some EEnd →
    lstep s (End_ i) (put s i (Off (now s)))
| m_act i m p lo hi c p' d wrote t :
    node s i = Live m p lo hi → lo ≤ now s → pstep p c (disk s) = Some (EGo p' d wrote t) →
    (wrote = true → since (now s - window) (writes s) < 999) →
    lstep s (Act i c)
      (MState (now s) d (if wrote then now s :: writes s else writes s)
              (<[i := Live m p' (now s + hz * t) (now s + hz * t + delta)]> (node s))).

Definition mstep (s s' : mstate n) : Prop := ∃ l, lstep s l s'.

(** The steps of one node that is not disturbed: no crash, no SIGTERM, [daemon]
    succeeds; and no other node's. *)
Definition quiet (i : fin n) (l : label n) : bool :=
  match l with
  | Tick _ => true
  | Loop j | End_ j => bool_decide (j = i)
  | Act j c => bool_decide (j = i) && (c =? 0)
  | _ => false
  end.

Definition solo (i : fin n) (s s' : mstate n) : Prop := ∃ l, quiet i l = true ∧ lstep s l s'.

(** No daemon runs; the record is any well-formed one. *)
Definition initial (s : mstate n) : Prop :=
  wf_lockdata (disk s) ∧ writes s = [] ∧ ∀ i, node s i = Off (now s).

Definition reachable (s : mstate n) : Prop := ∃ s0, initial s0 ∧ rtc mstep s0 s.

(** The node is in its main loop: it believes it owns the lock. *)
Definition holds (s : mstate n) (i : fin n) : Prop :=
  ∃ p lo hi, node s i = Live Looping p lo hi.

(** Distinct names and sufficient timeouts. *)
Record well_timed : Prop := {
  wt_cfg i : wf_config (cfg i);
  wt_names i j : nodename (cfg i) = nodename (cfg j) → i = j;
  wt_hz : 0 < hz;
  wt_delta : 0 ≤ delta;
  wt_collision i : delta < hz * collision_timeout (cfg i);
  wt_lock_collision i j : hz * collision_timeout (cfg i) + 4 * delta < hz * lock_timeout (cfg j);
  wt_lock_monitor i j : hz * monitor_interval (cfg i) + 7 * delta < hz * lock_timeout (cfg j);
  wt_window i : hz * lock_timeout (cfg i) + 2 * delta ≤ window }.

(** ** Phases

    Where a daemon is in its program, with what the argument needs to know of
    its past: [fv] and [ft] are the version of the record first read and the
    time, [b] and [r] the version a decision to take the lock is based on and
    its time, [w] the time the lock was taken. *)
Inductive phase : Type :=
| First
| WaitS (ld : lockdata) (fv ft : Z)
| WaitR (ld : lockdata) (fv ft : Z)
| Take (ld ldn : lockdata) (b r : Z)
| TakenS (ld ldn : lockdata) (w : Z)
| TakenR (ld ldn : lockdata) (w : Z)
| Ext (ld ldn : lockdata)
| Daem (st : statics)
| Fin (st : statics)
| TurnS (st : statics)
| UpdR (st : statics)
| UpdW (ld : lockdata) (st : statics)
| RelR (st : statics) (code : Z)
| RelW (ld : lockdata) (st : statics) (code : Z)
| Dead.

Definition after_sleep (p : prog statics) : prog statics :=
  match p with PSleep _ k => k | _ => p end.
Definition after_read (p : prog statics) (ld : lockdata) : prog statics :=
  match p with PRead _ k => k 0 ld | _ => p end.

(** The rest of [daemon_acquire] after [acquire_lock]. *)
Definition acquired (c : config) (st : statics) : prog statics :=
  PDaemon (λ rc,
    if negb (rc =? 0) then pbind (release_lock c st) (λ _, PExit EXIT_FAILURE) else PRet st).

(** The program of a phase; [Dead] is any exit. *)
Definition at_phase (c : config) (ph : phase) (p : prog statics) : Prop :=
  match ph with
  | First => p = daemon_acquire c
  | WaitS ld _ _ => p = pbind (acquire_wait c (Statics ld zero_lockdata)) (acquired c)
  | WaitR ld _ _ => p = after_sleep (pbind (acquire_wait c (Statics ld zero_lockdata)) (acquired c))
  | Take ld ldn _ _ => p = pbind (acquire_take c (Statics ld ldn)) (acquired c)
  | TakenS ld ldn _ => p = pbind (acquire_collision c (Statics ld ldn)) (acquired c)
  | TakenR ld ldn _ => p = after_sleep (pbind (acquire_collision c (Statics ld ldn)) (acquired c))
  | Ext ld ldn => p = pbind (acquire_extend (Statics ld ldn)) (acquired c)
  | Daem st => p = acquired c st
  | Fin st => p = PRet st
  | TurnS st => p = daemon_turn c st
  | UpdR st => p = update_lock c st
  | UpdW ld st => p = after_read (update_lock c st) ld
  | RelR st code => p = pbind (release_lock c st) (λ _, PExit code)
  | RelW ld st code => p = after_read (pbind (release_lock c st) (λ _, PExit code)) ld
  | Dead => ∃ code, p = PExit code
  end.

(** Between the decision that the lock is held and the end of its use. *)
Definition owner (ph : phase) : bool :=
  match ph with
  | Ext _ _ | Daem _ | Fin _ | TurnS _ | UpdR _ | UpdW _ _ | RelR _ _ | RelW _ _ _ => true
  | _ => false
  end.

Definition taken (ph : phase) : bool :=
  match ph with TakenS _ _ _ | TakenR _ _ _ => true | _ => false end.

Definition looping (ph : phase) : bool :=
  match ph with Fin _ | TurnS _ | UpdR _ | UpdW _ _ => true | _ => false end.

(** How long after the last new version an owner's next operation comes. *)
Definition slack (c : config) (ph : phase) : Z :=
  match ph with
  | Ext _ _ => hz * collision_timeout c + 4 * delta
  | Daem _ => delta
  | Fin _ => 2 * delta
  | TurnS _ => 3 * delta
  | UpdR _ => hz * monitor_interval c + 4 * delta
  | UpdW _ _ => hz * monitor_interval c + 5 * delta
  | RelR _ _ => hz * monitor_interval c + 6 * delta
  | _ => hz * monitor_interval c + 7 * delta
  end.

Definition named (i : fin n) (d : lockdata) : Prop := ld_nodename d = name_buf (nodename (cfg i)).
Definition locked (d : lockdata) : Prop := ld_status d = SFEX_STATUS_LOCK.

#[export] Instance named_dec i d : Decision (named i d).
Proof. unfold named. apply _. Defined.
#[export] Instance locked_dec d : Decision (locked d).
Proof. unfold locked. apply _. Defined.

Definition lists (ld : lockdata) (v : Z) : Prop := wf_lockdata ld ∧ ld_count ld = v mod 1000.

(** [ver] is the version of the record, its counter without wrap-around; [inc]
    the time it became that. *)
Definition waiting_ok (s : mstate n) (ver inc : Z) (ld : lockdata) (fv ft : Z) : Prop :=
  lists ld fv ∧ fv ≤ ver ≤ fv + since ft (writes s) ∧ (fv = ver → inc ≤ ft) ∧ ft ≤ now s.

Definition taken_ok (s : mstate n) (inc : Z) (i : fin n) (ld : lockdata) (w : Z) : Prop :=
  (∃ k, 0 ≤ k ≤ SFEX_MAX_COUNT ∧ ld = my_lock (cfg i) k) ∧ w ≤ now s ∧
  (named i (disk s) → disk s = ld ∧ inc ≤ w ≤ inc + delta).

Definition phase_ok (s : mstate n) (ver inc : Z) (i : fin n) (ph : phase) (lo hi : Z) : Prop :=
  match ph with
  | First => mine (cfg i) (disk s) → inc + delta < now s
  | WaitS ld fv ft => waiting_ok s ver inc ld fv ft ∧ hi ≤ ft + delta
  | WaitR ld fv ft =>
      waiting_ok s ver inc ld fv ft ∧ ft + hz * lock_timeout (cfg i) ≤ lo ∧
      hi ≤ ft + hz * lock_timeout (cfg i) + 2 * delta
  | Take ld ldn b r =>
      lists ld b ∧ r ≤ now s ∧ hi ≤ r + delta ∧
      (b = ver ∧ (¬ locked (disk s) ∨ inc + delta < r) ∨
       b = ver - 1 ∧ r ≤ inc ∧ locked (disk s))
  | TakenS ld _ w => taken_ok s inc i ld w ∧ hi ≤ w + delta
  | TakenR ld _ w =>
      taken_ok s inc i ld w ∧ w + hz * collision_timeout (cfg i) ≤ lo ∧
      hi ≤ w + hz * collision_timeout (cfg i) + 2 * delta
  | Ext ld _ => mine (cfg i) (disk s) ∧ disk s = ld ∧ hi ≤ inc + slack (cfg i) ph
  | UpdW ld _ | RelW ld _ _ => mine (cfg i) (disk s) ∧ disk s = ld ∧ hi ≤ inc + slack (cfg i) ph
  | Dead => True
  | _ => mine (cfg i) (disk s) ∧ hi ≤ inc + slack (cfg i) ph
  end.

Definition node_ok (s : mstate n) (ver inc : Z) (i : fin n) (ns : nstate) (ph : phase) : Prop :=
  match ns with
  | Off t0 => ph = Dead ∧ t0 ≤ now s ∧ (mine (cfg i) (disk s) → inc ≤ t0)
  | Live m p lo hi =>
      at_phase (cfg i) ph p ∧ now s ≤ hi ∧ (m = Looping → looping ph = true) ∧
      phase_ok s ver inc i ph lo hi
  end.

(** While a node is about to take the lock no node owns it, and none has just
    taken the version it saw. *)
Definition excl (s : mstate n) (ver : Z) (ph : fin n → phase) : Prop :=
  ∀ i j ld ldn b r, ph j = Take ld ldn b r →
    owner (ph i) = false ∧ (taken (ph i) = true → named i (disk s) → b ≠ ver).

Record inv (s : mstate n) (ver inc : Z) (ph : fin n → phase) : Prop := {
  i_disk : lists (disk s) ver;
  i_inc : inc ≤ now s;
  i_past : Forall (λ t, t ≤ now s) (writes s);
  i_rate : ∀ t, now s - window ≤ t → since t (writes s) ≤ 999;
  i_node : ∀ i, node_ok s ver inc i (node s i) (ph i);
  i_excl : excl s ver ph }.
End Machine.

(** ** Lemmas *)

Lemma since_nonneg t ws : 0 ≤ since t ws.
Proof. unfold since. lia. Qed.

Lemma since_cons t u ws : since t (u :: ws) = (if decide (t ≤ u) then 1 else 0) + since t ws.
Proof. unfold since. rewrite filter_cons. destruct (decide (t ≤ u)); cbn [length]; lia. Qed.

Lemma since_anti t t' ws : t ≤ t' → since t' ws ≤ since t ws.
Proof.
  intros Ht. induction ws as [|u ws IH]; [done|]. rewrite !since_cons.
  repeat case_decide; lia.
Qed.

Lemma mod_close a b k : 0 ≤ b - a < k → a mod k = b mod k → a = b.
Proof.
  intros Hd He. pose proof (Z.div_mod a k ltac:(lia)). pose proof (Z.div_mod b k ltac:(lia)).
  assert (b / k = a / k) by nia. lia.
Qed.

(** Unlike [injection], without comparing the programs. *)
Lemma go_inj {A} (p p' : prog A) d d' w w' t t' :
  Some (EGo p d w t) = Some (EGo p' d' w' t') → p' = p ∧ d' = d ∧ w' = w ∧ t' = t.
Proof. by intros [=]. Qed.

(** *** The programs, one operation at a time *)

Section Steps.
Context (c : config) (Hc : wf_config c).

Lemma step_first ch d :
  wf_lockdata d →
  pstep (daemon_acquire c) ch d =
    Some (EGo (if decide (foreign c d)
               then pbind (acquire_wait c (Statics d zero_lockdata)) (acquired c)
               else pbind (acquire_take c (Statics d zero_lockdata)) (acquired c)) d false 0).
Proof.
  intros Hd. unfold daemon_acquire, acquire_lock. cbn [pbind pstep].
  change (0 =? -1) with false. cbv iota zeta. rewrite foreign_test by done.
  destruct (decide (foreign c d)) as [H|H];
    [rewrite bool_decide_true by done|rewrite bool_decide_false by done]; reflexivity.
Qed.

Lemma step_wait_sleep ld ch d :
  let p := pbind (acquire_wait c (Statics ld zero_lockdata)) (acquired c) in
  pstep p ch d = Some (EGo (after_sleep p) d false (lock_timeout c)).
Proof.
  unfold acquire_wait. cbn [pbind pstep after_sleep]. rewrite u32_small; [done|]. destruct Hc as [_ _ [? ?] _]. unfold INT_MAX, UINT_MAX in *. lia.
Qed.

Lemma step_wait_read ld ch d :
  pstep (after_sleep (pbind (acquire_wait c (Statics ld zero_lockdata)) (acquired c))) ch d =
    Some (EGo (if ld_count ld =? ld_count d
               then pbind (acquire_take c (Statics ld d)) (acquired c) else PExit 2) d false 0).
Proof.
  unfold acquire_wait. cbn [pbind after_sleep pstep s_ldata s_ldata_new].
  by destruct (ld_count ld =? ld_count d).
Qed.

Lemma step_take ld ldn ch d :
  wf_lockdata ld →
  let ld' := my_lock c (SFEX_NEXT_COUNT (ld_count ld)) in
  pstep (pbind (acquire_take c (Statics ld ldn)) (acquired c)) ch d =
    Some (EGo (pbind (acquire_collision c (Statics ld' ldn)) (acquired c)) ld' true 0).
Proof.
  intros Hld. unfold acquire_take. cbn [pbind pstep s_ldata s_ldata_new].
  by rewrite take_record by done.
Qed.

Lemma step_taken_sleep ld ldn ch d :
  let p := pbind (acquire_collision c (Statics ld ldn)) (acquired c) in
  pstep p ch d = Some (EGo (after_sleep p) d false (collision_timeout c)).
Proof.
  unfold acquire_collision. cbn [pbind pstep after_sleep]. rewrite u32_small; [done|]. destruct Hc as [_ [? ?] _ _]. unfold INT_MAX, UINT_MAX in *. lia.
Qed.

Lemma step_taken_read k ldn ch d :
  wf_lockdata d →
  pstep (after_sleep (pbind (acquire_collision c (Statics (my_lock c k) ldn)) (acquired c))) ch d =
    Some (EGo (if decide (ld_nodename d = name_buf (nodename c))
               then pbind (acquire_extend (Statics (my_lock c k) d)) (acquired c)
               else PExit 2) d false 0).
Proof.
  intros [_ _ (nm & Hnm & Hb)]. unfold acquire_collision.
  cbn [pbind after_sleep pstep s_ldata s_ldata_new ld_nodename my_lock]. rewrite Hb.
  pose proof (strncmp_names (nodename c) nm (wfc_name _ Hc) Hnm) as He.
  destruct (strncmp _ _ _ =? 0) eqn:E; zbool; cbn [negb].
  - rewrite decide_True; [done|]. f_equal. symmetry. by apply He.
  - rewrite decide_False; [done|]. intros H. apply E, He. symmetry.
    apply name_buf_inj; [done|apply Hc|done].
Qed.

Lemma step_ext k ldn ch d :
  let ld' := my_lock c (SFEX_NEXT_COUNT k) in
  pstep (pbind (acquire_extend (Statics (my_lock c k) ldn)) (acquired c)) ch d =
    Some (EGo (acquired c (Statics ld' ldn)) ld' true 0).
Proof. reflexivity. Qed.

Lemma step_turn st ch d :
  pstep (daemon_turn c st) ch d = Some (EGo (update_lock c st) d false (monitor_interval c)).
Proof.
  cbn. rewrite u32_small; [done|]. destruct Hc as [_ _ _ [? ?]]. unfold INT_MAX, UINT_MAX in *. lia.
Qed.

Lemma step_update_read st ch d :
  pstep (update_lock c st) ch d = Some (EGo (after_read (update_lock c st) d) d false 0).
Proof. reflexivity. Qed.

Lemma step_update_write ld st ch d :
  wf_lockdata ld → mine c ld →
  let ld' := my_lock c (SFEX_NEXT_COUNT (ld_count ld)) in
  pstep (after_read (update_lock c st) ld) ch d =
    Some (EGo (PRet (Statics ld' (s_ldata_new st))) ld' true 0).
Proof.
  intros Hld Hm. unfold update_lock. cbn [after_read]. change (0 =? -1) with false. cbv iota.
  rewrite not_mine_spec, bool_decide_true by done. cbn [negb pstep]. destruct Hm as [H1 H2].
  by rewrite H1, H2.
Qed.

Lemma step_release_read st code ch d :
  let p := pbind (release_lock c st) (λ _, PExit code) in
  pstep p ch d = Some (EGo (after_read p d) d false 0).
Proof. reflexivity. Qed.

Lemma step_release_write ld st code ch d :
  wf_lockdata ld → mine c ld →
  pstep (after_read (pbind (release_lock c st) (λ _, PExit code)) ld) ch d =
    Some (EGo (PExit code) (Lockdata SFEX_STATUS_UNLOCK (ld_count ld) (ld_nodename ld)) true 0).
Proof.
  intros Hld Hm. unfold release_lock. cbn [after_read pbind]. change (0 =? -1) with false. cbv iota.
  rewrite not_mine_spec, bool_decide_true by done. reflexivity.
Qed.
End Steps.

(** *** Preservation *)

Section Preservation.
Context {n : nat} (cfg : fin n → config) (hz delta window : Z).
Context (Ht : well_timed cfg hz delta window).

#[local] Abbreviation inv := (inv cfg hz delta window).
#[local] Abbreviation node_ok := (node_ok cfg hz delta).
#[local] Abbreviation phase_ok := (phase_ok cfg hz delta).
#[local] Abbreviation excl := (excl cfg).
#[local] Abbreviation named := (named cfg).

Implicit Types (s : mstate n).

Lemma ticks_monitor i : 0 ≤ hz * monitor_interval (cfg i).
Proof. pose proof (wt_hz _ _ _ _ Ht). pose proof (wfc_monitor _ (wt_cfg _ _ _ _ Ht i)). nia. Qed.
Lemma ticks_lock i : 0 ≤ hz * lock_timeout (cfg i).
Proof. pose proof (wt_hz _ _ _ _ Ht). pose proof (wfc_lock _ (wt_cfg _ _ _ _ Ht i)). nia. Qed.
Lemma ticks_collision i : 0 ≤ hz * collision_timeout (cfg i).
Proof. pose proof (wt_hz _ _ _ _ Ht). pose proof (wfc_collision _ (wt_cfg _ _ _ _ Ht i)). nia. Qed.

Lemma named_inj i j d : named i d → named j d → i = j.
Proof.
  intros Hi Hj. apply (wt_names _ _ _ _ Ht).
  apply name_buf_inj; [apply (wt_cfg _ _ _ _ Ht)|apply (wt_cfg _ _ _ _ Ht)|].
  unfold SfexMutex.named in *. congruence.
Qed.

Lemma owner_ok s ver inc i ph lo hi :
  owner ph = true → phase_ok s ver inc i ph lo hi →
  mine (cfg i) (disk s) ∧ hi ≤ inc + slack hz delta (cfg i) ph.
Proof. destruct ph; try done; cbn [SfexMutex.phase_ok]; tauto. Qed.

Lemma taken_phase_ok s ver inc i ph lo hi :
  taken ph = true → phase_ok s ver inc i ph lo hi → named i (disk s) →
  locked (disk s) ∧ hi ≤ inc + hz * collision_timeout (cfg i) + 3 * delta.
Proof.
  pose proof (wt_collision _ _ _ _ Ht i). pose proof (wt_delta _ _ _ _ Ht).
  destruct ph; try done; intros _ [((k & _ & ->) & _ & Hn) Hw] Hi;
    destruct (Hn Hi) as [-> ?]; (split; [done|lia]).
Qed.

Lemma slack_bound i j ph : owner ph = true → slack hz delta (cfg i) ph < hz * lock_timeout (cfg j).
Proof.
  intros Ho. pose proof (wt_lock_collision _ _ _ _ Ht i j). pose proof (wt_lock_monitor _ _ _ _ Ht i j).
  pose proof (wt_delta _ _ _ _ Ht). pose proof (ticks_monitor i).
  destruct ph; try done; cbn [slack]; lia.
Qed.

(** An owner among the live nodes has the record. *)
Lemma owner_node s ver inc ph i :
  inv s ver inc ph → owner (ph i) = true →
  ∃ m p lo hi, node s i = Live m p lo hi ∧ mine (cfg i) (disk s) ∧
               now s ≤ hi ≤ inc + slack hz delta (cfg i) (ph i).
Proof.
  intros Hi Ho. pose proof (i_node _ _ _ _ _ _ _ _ Hi i) as Hn.
  destruct (node s i) as [t0|m p lo hi] eqn:E; cbn in Hn.
  - destruct Hn as [He _]. by rewrite He in Ho.
  - destruct Hn as (_ & Hh & _ & Hp). destruct (owner_ok _ _ _ _ _ _ _ Ho Hp). by exists m, p, lo, hi.
Qed.

Lemma taken_node s ver inc ph i :
  inv s ver inc ph → taken (ph i) = true → named i (disk s) →
  locked (disk s) ∧ now s ≤ inc + hz * collision_timeout (cfg i) + 3 * delta.
Proof.
  intros Hi Ho Hd. pose proof (i_node _ _ _ _ _ _ _ _ Hi i) as Hn.
  destruct (node s i) as [t0|m p lo hi] eqn:E; cbn in Hn.
  - destruct Hn as [He _]. by rewrite He in Ho.
  - destruct Hn as (_ & Hh & _ & Hp). destruct (taken_phase_ok _ _ _ _ _ _ _ Ho Hp Hd). split; [done|lia].
Qed.

Lemma take_node s ver inc ph j ld ldn b r :
  inv s ver inc ph → ph j = Take ld ldn b r →
  r ≤ now s ≤ r + delta ∧
  (b = ver ∧ (¬ locked (disk s) ∨ inc + delta < r) ∨ b = ver - 1 ∧ r ≤ inc ∧ locked (disk s)).
Proof.
  intros Hi Hp. pose proof (i_node _ _ _ _ _ _ _ _ Hi j) as Hn. rewrite Hp in Hn.
  destruct (node s j) as [t0|m p lo hi] eqn:E; cbn in Hn; [by destruct Hn|].
  destruct Hn as (_ & Hh & _ & _ & ? & ? & ?). split; [lia|done].
Qed.

(** A step of one node that does not write. *)
Lemma inv_quiet s ver inc ph i ns' ph' :
  inv s ver inc ph → node_ok s ver inc i ns' ph' →
  (∀ ld ldn b r k, ph' = Take ld ldn b r → k ≠ i →
     owner (ph k) = false ∧ (taken (ph k) = true → named k (disk s) → b ≠ ver)) →
  (∀ ld ldn b r j, ph j = Take ld ldn b r → j ≠ i →
     owner ph' = false ∧ (taken ph' = true → named i (disk s) → b ≠ ver)) →
  inv (put s i ns') ver inc (<[i := ph']> ph).
Proof.
  intros [] Hok H1 H2. constructor; try done.
  - intros k. destruct (decide (k = i)) as [->|Hk].
    + cbn [put node]. rewrite !fn_lookup_insert. exact Hok.
    + cbn [put node]. rewrite !fn_lookup_insert_ne by done. apply i_node0.
  - intros k j ld ldn b r Hj. cbn [put disk].
    destruct (decide (j = i)) as [->|Hji].
    + rewrite fn_lookup_insert in Hj. destruct (decide (k = i)) as [->|Hki].
      * rewrite fn_lookup_insert, Hj. done.
      * rewrite fn_lookup_insert_ne by done. by eapply H1.
    + rewrite fn_lookup_insert_ne in Hj by done. destruct (decide (k = i)) as [->|Hki].
      * rewrite fn_lookup_insert. by eapply H2.
      * rewrite fn_lookup_insert_ne by done. by eapply i_excl0.
Qed.

(** The common case: the node claims nothing new. *)
Lemma inv_tame s ver inc ph i ns' ph' :
  inv s ver inc ph → node_ok s ver inc i ns' ph' →
  match ph' with Take _ _ _ _ => False | _ => True end →
  (owner ph' = true → owner (ph i) = true) → (taken ph' = true → taken (ph i) = true) →
  inv (put s i ns') ver inc (<[i := ph']> ph).
Proof.
  intros Hi Hok Hnt Ho Hta. apply inv_quiet; [done|done|by intros ? ? ? ? ? ->|].
  intros ld ldn b r j Hj Hne. destruct (i_excl _ _ _ _ _ _ _ _ Hi i j _ _ _ _ Hj) as [E1 E2].
  split; [|auto]. destruct (owner ph') eqn:E; [|done]. by rewrite (Ho eq_refl) in E1.
Qed.

(** A write by node [i]: what it means for the others. *)
Lemma others_kept s ver inc ver' inc' d' i j ns ph ws node' :
  named i d' → j ≠ i → inc ≤ now s → owner ph = false → node_ok s ver inc j ns ph →
  ws = now s :: writes s →
  (ver' = ver ∧ inc' = inc ∨ ver' = ver + 1 ∧ inc' = now s) →
  (∀ ld ldn b r, ph = Take ld ldn b r → locked d' ∧ b = ver' - 1 ∧ r ≤ inc') →
  node_ok (MState (now s) d' ws node') ver' inc' j ns ph.
Proof.
  intros Hd Hne Hinc Ho Hok -> Hv Htk.
  assert (Hnn : ¬ named j d') by (intros H; by apply Hne, (named_inj j i d')).
  assert (Hnm : ¬ mine (cfg j) d') by (by intros [_ H]).
  destruct ns as [t0|m p lo hi]; cbn [SfexMutex.node_ok now disk] in *; [tauto|].
  destruct Hok as (Hat & Hh & Hm & Hp). split; [done|]. split; [done|]. split; [done|].
  assert (Hwait : ∀ ld fv ft, waiting_ok s ver inc ld fv ft →
    waiting_ok (MState (now s) d' (now s :: writes s) node') ver' inc' ld fv ft).
  { intros ld fv ft (Hl & Hf & Hi & Hft). unfold waiting_ok. cbn [writes now].
    rewrite since_cons, decide_True by done. split; [done|]. split; [lia|]. split; [|done]. lia. }
  destruct ph; try done; cbn [SfexMutex.phase_ok now disk] in *.
  - intros H. by destruct (Hnm H).
  - destruct Hp. split; [by apply Hwait|done].
  - destruct Hp. split; [by apply Hwait|done].
  - destruct (Htk _ _ _ _ eq_refl) as (? & ? & ?). destruct Hp as (? & ? & ? & _).
    split; [done|]. split; [done|]. split; [done|]. by right.
  - destruct Hp as [(? & ? & ?) ?]. by split.
  - destruct Hp as [(? & ? & ?) ?]. by split.
Qed.

(** A write by node [i], when no other node owns the lock. *)
Lemma inv_wrote s ver inc ver' inc' d' i ns' ph ph' :
  inv s ver inc ph → since (now s - window) (writes s) < 999 →
  named i d' → lists d' ver' →
  (ver' = ver ∧ inc' = inc ∨ ver' = ver + 1 ∧ inc' = now s) →
  (∀ j, j ≠ i → owner (ph j) = false) →
  (∀ j ld ldn b r, j ≠ i → ph j = Take ld ldn b r →
     locked d' ∧ b = ver' - 1 ∧ r ≤ inc' ∧ owner ph' = false) →
  match ph' with Take _ _ _ _ => False | _ => True end →
  let s' := MState (now s) d' (now s :: writes s) (<[i := ns']> (node s)) in
  node_ok s' ver' inc' i ns' ph' → inv s' ver' inc' (<[i := ph']> ph).
Proof.
  intros Hi Hr Hd Hl Hv Hoth Htk Hnt s' Hok.
  constructor; cbn [s' now disk writes node]; try done.
  - destruct Hi, Hv as [[_ ->]|[_ ->]]; [done|lia].
  - constructor; [done|by destruct Hi].
  - intros t Hw. rewrite since_cons. pose proof (since_anti _ _ (writes s) Hw). case_decide; lia.
  - intros k. destruct (decide (k = i)) as [->|Hk].
    + rewrite !fn_lookup_insert. exact Hok.
    + rewrite !fn_lookup_insert_ne by done.
      apply (others_kept s ver inc ver' inc' d' i); try done; [by destruct Hi|by apply Hoth|by apply Hi|].
      intros ld ldn b r Hk'. destruct (Htk k _ _ _ _ Hk Hk') as (? & ? & ? & ?). done.
  - intros k j ld ldn b r Hj. destruct (decide (j = i)) as [->|Hji].
    + rewrite fn_lookup_insert in Hj. by rewrite Hj in Hnt.
    + rewrite fn_lookup_insert_ne in Hj by done. destruct (Htk j _ _ _ _ Hji Hj) as (? & -> & ? & ?).
      destruct (decide (k = i)) as [->|Hki].
      * rewrite fn_lookup_insert. split; [done|lia].
      * rewrite fn_lookup_insert_ne by done. split; [by apply Hoth|lia].
Qed.
(** *** The steps that read, sleep or end *)

Lemma inv_tick s ver inc ph t :
  inv s ver inc ph → now s ≤ t → (∀ i m p lo hi, node s i = Live m p lo hi → t ≤ hi) →
  inv (MState t (disk s) (writes s) (node s)) ver inc ph.
Proof.
  intros Hi Hle Hdl. pose proof Hi as []. constructor; cbn [now disk writes node]; try done; [lia|..].
  - eapply Forall_impl; [|exact i_past0]. cbn. lia.
  - intros u Hu. apply i_rate0. lia.
  - intros i. specialize (i_node0 i). specialize (Hdl i). unfold SfexMutex.node_ok in *.
    destruct (node s i) as [t0|m p lo hi]; cbn [now disk]; [destruct i_node0 as (? & ? & ?); repeat split; auto; lia|].
    specialize (Hdl m p lo hi eq_refl). destruct i_node0 as (H1 & H2 & H3 & H4).
    split; [done|]. split; [lia|]. split; [done|].
    destruct (ph i); cbn [SfexMutex.phase_ok now disk] in *; try done;
      unfold waiting_ok, taken_ok in *; cbn [now disk writes] in *; intuition lia.
Qed.

Lemma inv_off s ver inc ph i :
  inv s ver inc ph → inv (put s i (Off (now s))) ver inc (<[i := Dead]> ph).
Proof.
  intros Hi. apply inv_tame; try done. split; [done|]. split; [done|]. intros _. apply Hi.
Qed.

Lemma inv_start s ver inc ph i t0 :
  inv s ver inc ph → node s i = Off t0 → t0 + delta < now s →
  inv (put s i (Live Acquiring (daemon_acquire (cfg i)) (now s) (now s + delta))) ver inc (<[i := First]> ph).
Proof.
  intros Hi He Hd. pose proof (wt_delta _ _ _ _ Ht). apply inv_tame; try done.
  pose proof (i_node _ _ _ _ _ _ _ _ Hi i) as Hn. rewrite He in Hn. destruct Hn as (_ & _ & Hn).
  split; [done|]. split; [lia|]. split; [done|]. cbn. intros Hm. specialize (Hn Hm). lia.
Qed.

(** A live node, its phase and its clock. *)
Lemma live_node s ver inc ph i m p lo hi :
  inv s ver inc ph → node s i = Live m p lo hi →
  at_phase (cfg i) (ph i) p ∧ now s ≤ hi ∧ (m = Looping → looping (ph i) = true) ∧
  phase_ok s ver inc i (ph i) lo hi.
Proof. intros Hi He. pose proof (i_node _ _ _ _ _ _ _ _ Hi i) as Hn. by rewrite He in Hn. Qed.

(** Going on within the use of the lock. *)
Lemma inv_owned s ver inc ph i m p' lo' ph' :
  inv s ver inc ph → owner (ph i) = true → owner ph' = true →
  at_phase (cfg i) ph' p' → (m = Looping → looping ph' = true) → now s ≤ lo' + delta →
  phase_ok s ver inc i ph' lo' (lo' + delta) →
  inv (put s i (Live m p' lo' (lo' + delta))) ver inc (<[i := ph']> ph).
Proof.
  intros Hi Ho Ho' Hat Hm Hl Hp. apply inv_tame; [done| | |done|by destruct ph'].
  - by split.
  - by destruct ph'.
Qed.

Lemma inv_term s ver inc ph i p lo hi st :
  inv s ver inc ph → node s i = Live Looping p lo hi →
  inv (put s i (Live Leaving (quit_handler (cfg i) st) (now s) (now s + delta))) ver inc
      (<[i := RelR st EXIT_SUCCESS]> ph).
Proof.
  intros Hi He. destruct (live_node _ _ _ _ _ _ _ _ _ Hi He) as (_ & Hh & Hm & Hp).
  specialize (Hm eq_refl). assert (Ho : owner (ph i) = true) by (by destruct (ph i)).
  destruct (owner_ok _ _ _ _ _ _ _ Ho Hp) as [Hmine Hhi]. pose proof (wt_delta _ _ _ _ Ht).
  apply inv_owned; try done; [lia|]. split; [done|].
  pose proof (ticks_monitor i). destruct (ph i); try done; cbn [slack] in *; lia.
Qed.

Lemma inv_loop s ver inc ph i m st lo hi :
  inv s ver inc ph → node s i = Live m (PRet st) lo hi →
  inv (put s i (Live Looping (daemon_turn (cfg i) st) (now s) (now s + delta))) ver inc
      (<[i := TurnS st]> ph).
Proof.
  intros Hi He. destruct (live_node _ _ _ _ _ _ _ _ _ Hi He) as (Hat & Hh & Hm & Hp).
  pose proof (wt_delta _ _ _ _ Ht).
  assert (Hfin : ∃ st', ph i = Fin st').
  { clear Hm. destruct (ph i) as [| | | | | | | |st'| | |ld st'|st' code|ld st' code|];
      cbn [at_phase] in Hat; try discriminate Hat; [by exists st'| | |by destruct Hat].
    - unfold SfexMutex.phase_ok in Hp. destruct Hp as (Hmi & <- & _).
      unfold update_lock in Hat. cbn [after_read] in Hat. change (0 =? -1) with false in Hat. cbv iota in Hat.
      rewrite not_mine_spec, bool_decide_true in Hat
        by (done || apply (wt_cfg _ _ _ _ Ht) || apply (i_disk _ _ _ _ _ _ _ _ Hi)). done.
    - unfold SfexMutex.phase_ok in Hp. destruct Hp as (Hmi & <- & _).
      unfold release_lock in Hat. cbn [after_read pbind] in Hat. change (0 =? -1) with false in Hat. cbv iota in Hat.
      rewrite not_mine_spec, bool_decide_true in Hat
        by (done || apply (wt_cfg _ _ _ _ Ht) || apply (i_disk _ _ _ _ _ _ _ _ Hi)). done. }
  destruct Hfin as [st' Hfin]. rewrite Hfin in Hp, Hat. cbn in Hat. injection Hat as <-.
  destruct Hp as [Hmi Hhi]. cbn [slack] in Hhi.
  apply inv_owned; try done; [by rewrite Hfin|lia|]. split; [done|]. cbn [slack]. lia.
Qed.
(** *** The decisions *)

(** Deciding to take the lock on first sight: it is free, or this node's from
    before a restart. *)
Lemma act_first s ver inc ph i m :
  inv s ver inc ph → (mine (cfg i) (disk s) → inc + delta < now s) →
  ¬ foreign (cfg i) (disk s) → m ≠ Looping →
  inv (put s i (Live m (pbind (acquire_take (cfg i) (Statics (disk s) zero_lockdata)) (acquired (cfg i)))
                  (now s) (now s + delta))) ver inc
      (<[i := Take (disk s) zero_lockdata ver (now s)]> ph).
Proof.
  intros Hi Hm Hf Hmode. pose proof (wt_delta _ _ _ _ Ht).
  assert (Hfree : locked (disk s) → named i (disk s)).
  { intros Hl. destruct (decide (named i (disk s))) as [Hn|Hn]; [done|]. by destruct Hf. }
  assert (Hlock : ∀ k, locked (disk s) → named k (disk s) → k = i)
    by (intros k H1 H2; apply (named_inj k i (disk s)); auto).
  apply inv_quiet; try done.
  - split; [done|]. split; [lia|]. split; [done|]. split; [apply Hi|]. split; [done|]. split; [done|].
    left. split; [done|]. destruct (decide (locked (disk s))) as [Hl|Hl]; [|by left].
    right. apply Hm. by split; [|apply Hfree].
  - intros ld ldn b r k _ Hk. split.
    + destruct (owner (ph k)) eqn:Eo; [|done].
      destruct (owner_node _ _ _ _ _ Hi Eo) as (_ & _ & _ & _ & _ & [H1 H2] & _). destruct Hk. by apply Hlock.
    + intros Etk Hnk. destruct (taken_node _ _ _ _ _ Hi Etk Hnk). destruct Hk. by apply Hlock.
Qed.

(** Deciding to take another node's lock, whose counter has not moved: nobody
    can own it, or have just taken it, as the wait was longer than that takes. *)
Lemma act_wait_read s ver inc ph i m ld fv ft lo hi :
  inv s ver inc ph → waiting_ok s ver inc ld fv ft →
  ft + hz * lock_timeout (cfg i) ≤ lo → hi ≤ ft + hz * lock_timeout (cfg i) + 2 * delta →
  lo ≤ now s ≤ hi → ld_count ld = ld_count (disk s) → m ≠ Looping →
  inv (put s i (Live m (pbind (acquire_take (cfg i) (Statics ld (disk s))) (acquired (cfg i)))
                  (now s) (now s + delta))) ver inc
      (<[i := Take ld (disk s) ver (now s)]> ph).
Proof.
  intros Hi ([Hwf Hc] & Hv & Hinc & Hft) Hlo Hhi Hnow Heq Hm.
  pose proof (wt_delta _ _ _ _ Ht). pose proof (wt_window _ _ _ _ Ht i).
  assert (fv = ver) as ->.
  { pose proof (i_rate _ _ _ _ _ _ _ _ Hi ft ltac:(lia)). apply (mod_close fv ver 1000); [lia|].
    rewrite <-Hc, Heq. apply Hi. }
  specialize (Hinc eq_refl). pose proof (wt_lock_collision _ _ _ _ Ht i i). pose proof (wt_collision _ _ _ _ Ht i).
  apply inv_quiet; try done.
  - split; [done|]. split; [lia|]. split; [done|]. split; [by split|]. split; [done|]. split; [done|].
    left. split; [done|]. right. lia.
  - intros ? ? ? ? k _ Hk. split.
    + destruct (owner (ph k)) eqn:Eo; [|done].
      destruct (owner_node _ _ _ _ _ Hi Eo) as (_ & _ & _ & ? & _ & _ & Hb).
      pose proof (slack_bound k i (ph k) Eo). lia.
    + intros Etk Hnk. destruct (taken_node _ _ _ _ _ Hi Etk Hnk) as [_ Hb].
      pose proof (wt_lock_collision _ _ _ _ Ht k i). lia.
Qed.

(** Taking the lock: either this is the first write since the version the
    decision was based on, or it overwrites that of a node that decided at the
    same time. *)
Lemma act_take s ver inc ph i ld ldn b r m lo hi :
  inv s ver inc ph → ph i = Take ld ldn b r → m ≠ Looping →
  node s i = Live m (pbind (acquire_take (cfg i) (Statics ld ldn)) (acquired (cfg i))) lo hi →
  since (now s - window) (writes s) < 999 →
  let ld' := my_lock (cfg i) (SFEX_NEXT_COUNT (ld_count ld)) in
  ∃ ver' inc', inv (MState (now s) ld' (now s :: writes s)
    (<[i := Live m (pbind (acquire_collision (cfg i) (Statics ld' ldn)) (acquired (cfg i)))
              (now s) (now s + delta)]> (node s)))
    ver' inc' (<[i := TakenS ld' ldn (now s)]> ph).
Proof.
  intros Hi Hp Hm He Hr ld'. pose proof (wt_delta _ _ _ _ Ht). pose proof (wt_cfg _ _ _ _ Ht i) as Hc.
  destruct (live_node _ _ _ _ _ _ _ _ _ Hi He) as (_ & Hh & _ & Hpo). rewrite Hp in Hpo.
  destruct Hpo as ([Hwf Hcnt] & Hrn & Hhi & Hcase).
  assert (Hcnt' : ld_count ld' = (b + 1) mod 1000).
  { cbn [ld' my_lock ld_count]. rewrite SFEX_NEXT_COUNT_mod by apply Hwf. by rewrite Hcnt, Z.add_mod_idemp_l. }
  assert (Hwf' : wf_lockdata ld') by (apply my_lock_wf; [done|apply SFEX_NEXT_COUNT_range, Hwf]).
  set (ver' := b + 1). set (inc' := if decide (b = ver) then now s else inc).
  exists ver', inc'. apply (inv_wrote s ver inc); try done.
  - unfold ver', inc'. destruct Hcase as [(-> & _)|(-> & ? & _)];
      [rewrite decide_True by done; by right|rewrite decide_False by lia; left; lia].
  - intros j _. by destruct (i_excl _ _ _ _ _ _ _ _ Hi j i _ _ _ _ Hp).
  - intros j ld1 ldn1 b1 r1 Hj Hpj. destruct (take_node _ _ _ _ _ _ _ _ _ Hi Hpj) as [Hr1 Hc1].
    assert (Hb1 : b1 = ver' - 1 ∧ r1 ≤ inc'); [|by destruct Hb1].
    unfold ver', inc'. destruct Hcase as [(-> & Hl)|(-> & Hri & Hl)].
    + rewrite decide_True by done.
      destruct Hc1 as [(-> & _)|(-> & ? & ?)]; [lia|]. destruct Hl as [Hl|Hl]; [done|lia].
    + rewrite decide_False by lia. destruct Hc1 as [(-> & [Hl1|Hl1])|(-> & ? & ?)]; [done|lia|lia].
  - split; [done|]. split; [cbn [now]; lia|]. split; [done|]. split; [|cbn [now]; lia].
    split; [|split; [cbn [now]; lia|]].
    + exists (SFEX_NEXT_COUNT (ld_count ld)). split; [apply SFEX_NEXT_COUNT_range, Hwf|done].
    + intros _. split; [done|]. pose proof (i_inc _ _ _ _ _ _ _ _ Hi). unfold inc'.
      case_decide; [lia|]. destruct Hcase as [[? _]|(_ & ? & _)]; [done|lia].
Qed.

(** Passing the collision check: every node that decided before this one wrote
    has written. *)
Lemma act_taken_read s ver inc ph i m k ldn w lo hi :
  inv s ver inc ph → ph i = TakenR (my_lock (cfg i) k) ldn w → m ≠ Looping →
  taken_ok cfg delta s inc i (my_lock (cfg i) k) w →
  w + hz * collision_timeout (cfg i) ≤ lo → hi ≤ w + hz * collision_timeout (cfg i) + 2 * delta →
  lo ≤ now s ≤ hi → named i (disk s) →
  inv (put s i (Live m (pbind (acquire_extend (Statics (my_lock (cfg i) k) (disk s))) (acquired (cfg i)))
                  (now s) (now s + delta))) ver inc
      (<[i := Ext (my_lock (cfg i) k) (disk s)]> ph).
Proof.
  intros Hi Hp Hm (_ & Hw & Hn) Hlo Hhi Hnow Hnm. destruct (Hn Hnm) as [Hd Hwi].
  pose proof (wt_delta _ _ _ _ Ht). pose proof (wt_collision _ _ _ _ Ht i).
  apply inv_quiet; try done.
  - split; [done|]. split; [lia|]. split; [done|]. cbn [SfexMutex.phase_ok slack].
    split; [rewrite Hd; by split|]. split; [done|]. lia.
  - intros ld1 ldn1 b1 r1 j Hpj Hj. exfalso.
    destruct (take_node _ _ _ _ _ _ _ _ _ Hi Hpj) as [Hr1 [(-> & _)|(-> & ? & _)]]; [|lia].
    destruct (i_excl _ _ _ _ _ _ _ _ Hi i j _ _ _ _ Hpj) as [_ Hx].
    apply Hx; [by rewrite Hp|done|done].
Qed.

(** The owner writes: the next version, or the free record. *)
Lemma act_owner_write s ver inc ver' inc' ph i d' ns' ph' :
  inv s ver inc ph → owner (ph i) = true → since (now s - window) (writes s) < 999 →
  named i d' → lists d' ver' →
  (ver' = ver ∧ inc' = inc ∨ ver' = ver + 1 ∧ inc' = now s) →
  match ph' with Take _ _ _ _ => False | _ => True end →
  let s' := MState (now s) d' (now s :: writes s) (<[i := ns']> (node s)) in
  node_ok s' ver' inc' i ns' ph' → inv s' ver' inc' (<[i := ph']> ph).
Proof.
  intros Hi Ho Hr Hd Hl Hv Hnt s' Hok.
  destruct (owner_node _ _ _ _ _ Hi Ho) as (_ & _ & _ & _ & _ & [_ Hni] & _).
  apply (inv_wrote s ver inc); try done.
  - intros j Hj. destruct (owner (ph j)) eqn:Eo; [|done].
    destruct (owner_node _ _ _ _ _ Hi Eo) as (_ & _ & _ & _ & _ & [_ Hnj] & _).
    destruct Hj. by apply (named_inj j i (disk s)).
  - intros j ld1 ldn1 b1 r1 _ Hpj. destruct (i_excl _ _ _ _ _ _ _ _ Hi i j _ _ _ _ Hpj) as [Hx _].
    by rewrite Ho in Hx.
Qed.
(** *** Every step *)

(** The record an owner writes next. *)
Lemma next_mine i d ver :
  lists d ver → mine (cfg i) d →
  let d' := my_lock (cfg i) (SFEX_NEXT_COUNT (ld_count d)) in
  lists d' (ver + 1) ∧ named i d' ∧ mine (cfg i) d'.
Proof.
  intros [Hwf Hc] Hm d'. split; [|by split].
  split; [apply my_lock_wf; [apply (wt_cfg _ _ _ _ Ht)|apply SFEX_NEXT_COUNT_range, Hwf]|].
  cbn [d' my_lock ld_count]. rewrite SFEX_NEXT_COUNT_mod by apply Hwf. by rewrite Hc, Z.add_mod_idemp_l.
Qed.

Definition next_inv (s s' : mstate n) (ph : fin n → phase) : Prop :=
  ∃ ver' inc' ph', inv s' ver' inc' ph'.

Lemma act_acquiring s ver inc ph i m p lo hi c p' d wrote t :
  inv s ver inc ph → node s i = Live m p lo hi → lo ≤ now s →
  owner (ph i) = false → ph i ≠ Dead →
  pstep p c (disk s) = Some (EGo p' d wrote t) →
  (wrote = true → since (now s - window) (writes s) < 999) →
  next_inv s (MState (now s) d (if wrote then now s :: writes s else writes s)
               (<[i := Live m p' (now s + hz * t) (now s + hz * t + delta)]> (node s))) ph.
Proof.
  intros Hi He Hlo Ho Hnd Hs Hr. destruct (live_node _ _ _ _ _ _ _ _ _ Hi He) as (Hat & Hh & Hm & Hp).
  pose proof (wt_cfg _ _ _ _ Ht i) as Hc. pose proof (wt_delta _ _ _ _ Ht).
  destruct (i_disk _ _ _ _ _ _ _ _ Hi) as [Hdwf Hdc].
  assert (Hml : m ≠ Looping) by (intros ->; specialize (Hm eq_refl); by destruct (ph i)).
  destruct (ph i) as [|ld fv ft|ld fv ft|ld ldn b r|ld ldn w|ld ldn w| | | | | | | | |] eqn:Eph;
    try done; clear Hm; cbn [at_phase] in Hat; subst p.
  - rewrite step_first in Hs by done. destruct (decide (foreign (cfg i) (disk s))) as [Hf|Hf];
      apply go_inj in Hs as (-> & -> & -> & ->); rewrite Z.mul_0_r, Z.add_0_r.
    + exists ver, inc, (<[i := WaitS (disk s) ver (now s)]> ph). apply inv_tame; try done.
      split; [done|]. split; [lia|]. split; [done|]. split; [|lia].
      split; [done|]. pose proof (since_nonneg (now s) (writes s)).
      split; [lia|]. split; [intros _; apply Hi|done].
    + exists ver, inc, (<[i := Take (disk s) zero_lockdata ver (now s)]> ph). by apply act_first.
  - rewrite step_wait_sleep in Hs by done. apply go_inj in Hs as (-> & -> & -> & ->). destruct Hp as [Hw Hhi].
    pose proof (ticks_lock i).
    exists ver, inc, (<[i := WaitR ld fv ft]> ph). apply inv_tame; try done.
    split; [done|]. split; [lia|]. split; [done|]. split; [done|]. destruct Hw as (_ & _ & _ & ?). lia.
  - rewrite step_wait_read in Hs by done. destruct Hp as (Hw & Hlo' & Hhi).
    destruct (ld_count ld =? ld_count (disk s)) eqn:Ec; zbool; apply go_inj in Hs as (-> & -> & -> & ->); rewrite Z.mul_0_r, Z.add_0_r.
    + exists ver, inc, (<[i := Take ld (disk s) ver (now s)]> ph). by eapply act_wait_read.
    + exists ver, inc, (<[i := Dead]> ph). apply inv_tame; try done.
      split; [by exists 2|]. split; [lia|done].
  - assert (Hwf : wf_lockdata ld) by apply Hp. rewrite step_take in Hs by done.
    apply go_inj in Hs as (-> & -> & -> & ->). rewrite Z.mul_0_r, Z.add_0_r.
    destruct (act_take s ver inc ph i ld ldn b r m lo hi) as (ver' & inc' & Hi'); try done; [by apply Hr|].
    by exists ver', inc', (<[i := TakenS (my_lock (cfg i) (SFEX_NEXT_COUNT (ld_count ld))) ldn (now s)]> ph).
  - rewrite step_taken_sleep in Hs by done. apply go_inj in Hs as (-> & -> & -> & ->). destruct Hp as [Hw Hhi].
    pose proof (ticks_collision i).
    exists ver, inc, (<[i := TakenR ld ldn w]> ph). apply inv_tame; try done; [|by rewrite Eph].
    split; [done|]. split; [lia|]. split; [done|]. split; [done|]. destruct Hw as (_ & ? & _). lia.
  - destruct Hp as (Hw & Hlo' & Hhi). pose proof Hw as ((k & Hk & ->) & _).
    rewrite step_taken_read in Hs by done.
    destruct (decide (ld_nodename (disk s) = name_buf (nodename (cfg i)))) as [Hn|Hn];
      apply go_inj in Hs as (-> & -> & -> & ->); rewrite Z.mul_0_r, Z.add_0_r.
    + exists ver, inc, (<[i := Ext (my_lock (cfg i) k) (disk s)]> ph). by eapply act_taken_read.
    + exists ver, inc, (<[i := Dead]> ph). apply inv_tame; try done.
      split; [by exists 2|]. split; [lia|done].
Qed.

Lemma act_owning s ver inc ph i m p lo hi c p' d wrote t :
  inv s ver inc ph → node s i = Live m p lo hi → lo ≤ now s → owner (ph i) = true →
  pstep p c (disk s) = Some (EGo p' d wrote t) →
  (wrote = true → since (now s - window) (writes s) < 999) →
  next_inv s (MState (now s) d (if wrote then now s :: writes s else writes s)
               (<[i := Live m p' (now s + hz * t) (now s + hz * t + delta)]> (node s))) ph.
Proof.
  intros Hi He Hlo Ho Hs Hr. destruct (live_node _ _ _ _ _ _ _ _ _ Hi He) as (Hat & Hh & Hm & Hp).
  destruct (owner_ok _ _ _ _ _ _ _ Ho Hp) as [Hmine Hsl].
  pose proof (wt_cfg _ _ _ _ Ht i) as Hc. pose proof (wt_delta _ _ _ _ Ht). pose proof (ticks_monitor i).
  pose proof (i_disk _ _ _ _ _ _ _ _ Hi) as Hd. pose proof (proj1 Hd) as Hdwf.
  destruct (next_mine i (disk s) ver Hd Hmine) as (Hl' & Hn' & Hm').
  destruct (ph i) as [| | | | | |ld ldn|st|st|st|st|ld st|st code|ld st code|] eqn:Eph;
    try done; cbn [at_phase] in Hat; subst p; cbn [slack] in Hsl.
  - destruct Hp as (_ & Hde & _). subst ld. rewrite (mine_my_lock _ _ Hmine) in Hs. rewrite step_ext in Hs.
    apply go_inj in Hs as (-> & -> & -> & ->). rewrite Z.mul_0_r, Z.add_0_r.
    eexists (ver + 1), (now s), (<[i := Daem _]> ph).
    apply (act_owner_write s ver inc); try done; [by rewrite Eph|by apply Hr|by right|].
    split; [reflexivity|]. split; [cbn [now]; lia|]. split; [intros ->; by specialize (Hm eq_refl)|].
    split; [done|]. cbn [slack]. lia.
  - apply go_inj in Hs as (-> & -> & -> & ->). rewrite Z.mul_0_r, Z.add_0_r.
    assert (Hml : m ≠ Looping) by (intros ->; by specialize (Hm eq_refl)).
    destruct (negb (c =? 0)).
    + exists ver, inc, (<[i := RelR st EXIT_FAILURE]> ph).
      apply inv_owned; try done; [by rewrite Eph|lia|]. split; [done|]. cbn [slack]. lia.
    + exists ver, inc, (<[i := Fin st]> ph).
      apply inv_owned; try done; [by rewrite Eph|lia|]. split; [done|]. cbn [slack]. lia.
  - done.
  - rewrite step_turn in Hs by done. apply go_inj in Hs as (-> & -> & -> & ->).
    exists ver, inc, (<[i := UpdR st]> ph).
    apply inv_owned; try done; [by rewrite Eph|lia|]. split; [done|]. cbn [slack]. lia.
  - apply go_inj in Hs as (-> & -> & -> & ->). rewrite Z.mul_0_r, Z.add_0_r.
    exists ver, inc, (<[i := UpdW (disk s) st]> ph).
    apply inv_owned; try done; [by rewrite Eph|lia|]. split; [done|]. split; [done|]. cbn [slack]. lia.
  - destruct Hp as (_ & Hde & _). subst ld. rewrite step_update_write in Hs by done.
    apply go_inj in Hs as (-> & -> & -> & ->). rewrite Z.mul_0_r, Z.add_0_r.
    eexists (ver + 1), (now s), (<[i := Fin _]> ph).
    apply (act_owner_write s ver inc); try done; [by rewrite Eph|by apply Hr|by right|].
    split; [reflexivity|]. split; [cbn [now]; lia|]. split; [done|]. split; [done|]. cbn [slack]. lia.
  - rewrite step_release_read in Hs. apply go_inj in Hs as (-> & -> & -> & ->). rewrite Z.mul_0_r, Z.add_0_r.
    exists ver, inc, (<[i := RelW (disk s) st code]> ph).
    apply inv_owned; try done; [by rewrite Eph|lia|]. split; [done|]. split; [done|]. cbn [slack]. lia.
  - destruct Hp as (_ & Hde & _). subst ld. rewrite step_release_write in Hs by done.
    apply go_inj in Hs as (-> & -> & -> & ->). rewrite Z.mul_0_r, Z.add_0_r.
    exists ver, inc, (<[i := Dead]> ph).
    apply (act_owner_write s ver inc); try done; [by rewrite Eph|by apply Hr|by destruct Hmine| |by left|].
    + destruct Hd as [Hw Hcn]. split; [by apply wf_lockdata_unlock|done].
    + split; [by exists code|]. split; [cbn [now]; lia|]. split; [intros ->; by specialize (Hm eq_refl)|done].
Qed.

Lemma inv_step s s' ver inc ph :
  inv s ver inc ph → mstep cfg hz delta window false s s' → next_inv s s' ph.
Proof.
  intros Hi [l Hs]. destruct Hs as [t Hle Hdl|i t0 He Hd|i m p lo hi He|i m p lo hi st He Hm|i m st lo hi He
                               |i m p lo hi c He Hlo Hp|i m p lo hi c p' d wrote t He Hlo Hp Hr].
  - exists ver, inc, ph. by apply inv_tick.
  - exists ver, inc, (<[i := First]> ph). by eapply inv_start.
  - exists ver, inc, (<[i := Dead]> ph). by apply inv_off.
  - destruct m; try done. exists ver, inc, (<[i := RelR st EXIT_SUCCESS]> ph). by eapply inv_term.
  - exists ver, inc, (<[i := TurnS st]> ph). by eapply inv_loop.
  - exists ver, inc, (<[i := Dead]> ph). by apply inv_off.
  - destruct (owner (ph i)) eqn:Eo; [by eapply act_owning|].
    eapply act_acquiring; try done. intros Ed.
    destruct (live_node _ _ _ _ _ _ _ _ _ Hi He) as (Hat & _). rewrite Ed in Hat.
    destruct Hat as [code ->]. done.
Qed.

Lemma inv_initial s :
  initial s → inv s (ld_count (disk s)) (now s) (λ _, Dead).
Proof.
  intros (Hd & Hw & Hn). constructor; try done.
  - split; [done|]. symmetry. apply Z.mod_small. pose proof (wf_count _ Hd). unfold SFEX_MAX_COUNT in *. lia.
  - by rewrite Hw.
  - intros t _. by rewrite Hw.
  - intros i. rewrite Hn. by split.
Qed.

Lemma reachable_inv s : reachable cfg hz delta window false s → ∃ ver inc ph, inv s ver inc ph.
Proof.
  intros (s0 & H0 & Hs). apply inv_initial in H0.
  revert H0. generalize (ld_count (disk s0)), (now s0), (λ _ : fin n, Dead).
  induction Hs as [s|s s1 s2 Hs _ IH]; intros ver inc ph Hi; [by exists ver, inc, ph|].
  destruct (inv_step s s1 ver inc ph Hi Hs) as (ver' & inc' & ph' & Hi'). by eapply IH.
Qed.
End Preservation.

(** *** A node alone *)

Section Alone.
Context {n : nat} (cfg : fin n → config) (hz delta window : Z) (early : bool).
Context (Ht : well_timed cfg hz delta window).

#[local] Abbreviation mstep := (mstep cfg hz delta window early).
#[local] Abbreviation solo := (solo cfg hz delta window early).

Lemma solo_mstep i s s' : solo i s s' → mstep s s'.
Proof. intros (l & _ & Hl). by exists l. Qed.

(** The steps of a node alone. *)
Lemma solo_inv_step i s s' :
  solo i s s' →
  (∃ t, now s ≤ t ∧ (∀ j m p lo hi, node s j = Live m p lo hi → t ≤ hi) ∧
        s' = MState t (disk s) (writes s) (node s)) ∨
  ∃ m p lo hi, node s i = Live m p lo hi ∧
    ((∃ st, p = PRet st ∧
        s' = put s i (Live Looping (daemon_turn (cfg i) st) (now s) (now s + delta))) ∨
     ((∃ c, pstep p c (disk s) = Some EEnd) ∧ s' = put s i (Off (now s))) ∨
     ∃ p' d wrote t, lo ≤ now s ∧ pstep p 0 (disk s) = Some (EGo p' d wrote t) ∧
        s' = MState (now s) d (if wrote then now s :: writes s else writes s)
               (<[i := Live m p' (now s + hz * t) (now s + hz * t + delta)]> (node s))).
Proof.
  intros (l & Hq & Hl). destruct Hl as [t ? ?|?|?|?|j m st lo hi ?|j m p lo hi c ? ? ?|j m p lo hi c p' d w t ? ? ? ?];
    try done; cbn [quiet] in Hq.
  - left. eauto.
  - apply bool_decide_eq_true in Hq as ->. right. eexists _, _, _, _. split; [done|]. left. eauto.
  - apply bool_decide_eq_true in Hq as ->. right. eexists _, _, _, _. split; [done|]. right. left. eauto.
  - apply andb_true_iff in Hq as [->%bool_decide_eq_true ->%Z.eqb_eq]. right. eexists _, _, _, _.
    split; [done|]. right. right. by eexists _, _, _, _.
Qed.

Definition alone (s : mstate n) (i : fin n) (ns : nstate) : Prop :=
  node s i = ns ∧ ∀ j, j ≠ i → ∃ t, node s j = Off t.

Lemma alone_insert s i ns ns' t d ws :
  alone s i ns → alone (MState t d ws (<[i := ns']> (node s))) i ns'.
Proof.
  intros [_ Ho]. split; cbn [node]; [apply fn_lookup_insert|].
  intros j Hj. rewrite fn_lookup_insert_ne by done. auto.
Qed.

(** The node's daemon has just been started. *)
Definition started (s : mstate n) (i : fin n) : mstate n :=
  put s i (Live Acquiring (daemon_acquire (cfg i)) (now s) (now s + delta)).

Lemma alone_act s i m p lo hi p' d wrote t :
  alone s i (Live m p lo hi) → lo ≤ now s → pstep p 0 (disk s) = Some (EGo p' d wrote t) →
  (wrote = true → since (now s - window) (writes s) < 999) →
  ∃ s', solo i s s' ∧ now s' = now s ∧ disk s' = d ∧
        writes s' = (if wrote then now s :: writes s else writes s) ∧
        alone s' i (Live m p' (now s + hz * t) (now s + hz * t + delta)).
Proof.
  intros Ha Hlo Hp Hr. eexists. split.
  - exists (Act i 0). split; [cbn; by rewrite bool_decide_true|]. eapply m_act; try done; apply Ha.
  - split; [done|]. split; [done|]. split; [done|]. by eapply alone_insert.
Qed.

(** It waits until its next operation is due. *)
Lemma alone_wait s i m p lo hi :
  alone s i (Live m p lo hi) → lo ≤ hi →
  ∃ s', rtc (solo i) s s' ∧ lo ≤ now s' ∧ now s ≤ now s' ∧ disk s' = disk s ∧ writes s' = writes s ∧
        alone s' i (Live m p lo hi).
Proof.
  intros Ha Hle. destruct (decide (lo ≤ now s)) as [Hl|Hl]; [exists s; by split_and!|].
  exists (MState lo (disk s) (writes s) (node s)). split_and!; cbn [now]; try done; [|lia].
  eapply rtc_once. exists (Tick lo). split; [done|]. apply m_tick; [lia|].
  intros j m' p' lo' hi' Hj. destruct Ha as [Hi Ho]. destruct (decide (j = i)) as [->|Hne].
  - rewrite Hi in Hj. injection Hj as <- <- <- <-. lia.
  - destruct (Ho j Hne) as [t Hoff]. by rewrite Hoff in Hj.
Qed.

(** How long the daemon waits for a record that is another node's. *)
Definition foreign_wait (i : fin n) (d : lockdata) : Z :=
  if decide (foreign (cfg i) d) then hz * lock_timeout (cfg i) + 2 * delta else 0.

(** By when, after its start on the record [d0], it is past a phase. *)
Definition due (i : fin n) (d0 : lockdata) (ph : phase) : Z :=
  match ph with
  | First => delta
  | WaitS _ _ _ => 2 * delta
  | WaitR _ _ _ => hz * lock_timeout (cfg i) + 3 * delta
  | Take _ _ _ _ => foreign_wait i d0 + 2 * delta
  | TakenS _ _ _ => foreign_wait i d0 + 3 * delta
  | TakenR _ _ _ => foreign_wait i d0 + hz * collision_timeout (cfg i) + 4 * delta
  | Ext _ _ => foreign_wait i d0 + hz * collision_timeout (cfg i) + 5 * delta
  | Daem _ => foreign_wait i d0 + hz * collision_timeout (cfg i) + 6 * delta
  | _ => foreign_wait i d0 + hz * collision_timeout (cfg i) + 7 * delta
  end.

(** The operations that are left before the main loop, and how many of them
    write. *)
Definition rank (ph : phase) : nat :=
  match ph with
  | First => 9 | WaitS _ _ _ => 8 | WaitR _ _ _ => 7 | Take _ _ _ _ => 6 | TakenS _ _ _ => 5
  | TakenR _ _ _ => 4 | Ext _ _ => 3 | Daem _ => 2 | Fin _ => 1 | _ => 0
  end.
Definition left (ph : phase) : Z :=
  match ph with
  | First | WaitS _ _ _ | WaitR _ _ _ | Take _ _ _ _ => 2
  | TakenS _ _ _ | TakenR _ _ _ | Ext _ _ => 1
  | _ => 0
  end.

Definition solo_ok (i : fin n) (d0 d : lockdata) (ph : phase) : Prop :=
  match ph with
  | First => d = d0
  | WaitS ld _ _ | WaitR ld _ _ => ld = d0 ∧ d = d0 ∧ foreign (cfg i) d0
  | Take ld _ _ _ => wf_lockdata ld
  | TakenS ld _ _ | TakenR ld _ _ | Ext ld _ =>
      d = ld ∧ ∃ k, 0 ≤ k ≤ SFEX_MAX_COUNT ∧ ld = my_lock (cfg i) k
  | UpdW ld _ => ld = d ∧ mine (cfg i) d
  | Daem _ | Fin _ | TurnS _ | UpdR _ => mine (cfg i) d
  | _ => False
  end.

(** The state of its run, [rare]: the record was written rarely before. *)
Definition solo_inv (i : fin n) (t0 : Z) (d0 : lockdata) (rare : Prop) (s : mstate n) : Prop :=
  wf_lockdata (disk s) ∧
  ∃ m p lo hi ph, node s i = Live m p lo hi ∧ at_phase (cfg i) ph p ∧ solo_ok i d0 (disk s) ph ∧
    (m = Acquiring ∧ lo ≤ hi ∧ now s ≤ hi ≤ t0 + due i d0 ph ∧ (looping ph = true → ∃ st, ph = Fin st) ∧
       (rare → since (now s - window) (writes s) + left ph ≤ 999)
     ∨ m = Looping ∧ looping ph = true).

(** What the daemon does next in a phase, when the record is as it left it. *)
Definition next_phase (i : fin n) (d0 d : lockdata) (ph : phase) (p : prog statics) : Prop :=
  ∃ p' d' w t ph', pstep p 0 d = Some (EGo p' d' w t) ∧ at_phase (cfg i) ph' p' ∧
    wf_lockdata d' ∧ solo_ok i d0 d' ph' ∧ 0 ≤ t ∧
    if looping ph then looping ph' = true
    else due i d0 ph + hz * t + delta ≤ due i d0 ph' ∧ (rank ph' < rank ph)%nat ∧
         left ph' + (if w then 1 else 0) ≤ left ph ∧ (looping ph' = true → ∃ st, ph' = Fin st).

(** The operation [Hp] leads to the phase [ph]. *)
#[local] Ltac enters ph Hp :=
  eexists _, _, _, _, ph; split; [exact Hp|]; split; [reflexivity|];
  cbn [due rank left looping solo_ok]; split_and!; try done; try lia; eauto.

Lemma solo_next_wait i d0 d ph p :
  wf_lockdata d → at_phase (cfg i) ph p → solo_ok i d0 d ph → (6 ≤ rank ph)%nat →
  next_phase i d0 d ph p.
Proof.
  intros Hd Hat Hok Hr. pose proof (wt_cfg _ _ _ _ Ht i) as Hc. pose proof (wt_delta _ _ _ _ Ht).
  destruct ph as [|ld fv ft|ld fv ft|ld ldn b r|?|?|?|?|?|?|?|?|?|?|]; cbn [rank] in Hr; try lia;
    cbn [at_phase solo_ok] in Hat, Hok; subst p.
  - pose proof (step_first (cfg i) Hc 0 d Hd) as Hp. subst d0. destruct (decide (foreign (cfg i) d)) as [Hf|Hf].
    + enters (WaitS d 0 0) Hp.
    + enters (Take d zero_lockdata 0 0) Hp. unfold foreign_wait. rewrite decide_False by done. lia.
  - pose proof (step_wait_sleep (cfg i) Hc ld 0 d) as Hp. pose proof (wfc_lock _ Hc).
    enters (WaitR ld fv ft) Hp; tauto.
  - pose proof (step_wait_read (cfg i) ld 0 d) as Hp. destruct Hok as (-> & -> & Hf).
    rewrite Z.eqb_refl in Hp. enters (Take d0 d0 0 0) Hp. unfold foreign_wait. rewrite decide_True by done. lia.
  - pose proof (step_take (cfg i) Hc ld ldn 0 d Hok) as Hp. cbv zeta in Hp.
    pose proof (SFEX_NEXT_COUNT_range _ (wf_count _ Hok)) as Hk.
    enters (TakenS (my_lock (cfg i) (SFEX_NEXT_COUNT (ld_count ld))) ldn 0) Hp. by apply my_lock_wf.
Qed.

Lemma solo_next_taken i d0 d ph p :
  wf_lockdata d → at_phase (cfg i) ph p → solo_ok i d0 d ph → (2 ≤ rank ph < 6)%nat →
  next_phase i d0 d ph p.
Proof.
  intros Hd Hat Hok Hr. pose proof (wt_cfg _ _ _ _ Ht i) as Hc. pose proof (wt_delta _ _ _ _ Ht).
  destruct ph as [|?|?|?|ld ldn w|ld ldn w|ld ldn|st|?|?|?|?|?|?|]; cbn [rank] in Hr; try lia;
    cbn [at_phase solo_ok] in Hat, Hok; subst p.
  - destruct Hok as (-> & k & Hk & ->). pose proof (wfc_collision _ Hc).
    pose proof (step_taken_sleep (cfg i) Hc (my_lock (cfg i) k) ldn 0 (my_lock (cfg i) k)) as Hp.
    enters (TakenR (my_lock (cfg i) k) ldn w) Hp.
  - destruct Hok as (-> & k & Hk & ->).
    pose proof (step_taken_read (cfg i) Hc k ldn 0 (my_lock (cfg i) k) Hd) as Hp.
    rewrite decide_True in Hp by done. enters (Ext (my_lock (cfg i) k) (my_lock (cfg i) k)) Hp.
  - destruct Hok as (-> & k & Hk & ->). pose proof (step_ext (cfg i) k ldn 0 (my_lock (cfg i) k)) as Hp.
    cbv zeta in Hp. eexists _, _, _, _, (Daem _). split; [exact Hp|]. split; [reflexivity|].
    cbn [due rank left looping solo_ok]. split_and!; try done; try lia. by apply my_lock_wf, SFEX_NEXT_COUNT_range.
  - pose proof (eq_refl : pstep (acquired (cfg i) st) 0 d = Some (EGo (PRet st) d false 0)) as Hp.
    enters (Fin st) Hp.
Qed.

Lemma solo_next_loop i d0 d ph p :
  wf_lockdata d → at_phase (cfg i) ph p → solo_ok i d0 d ph → rank ph = 0%nat →
  next_phase i d0 d ph p.
Proof.
  intros Hd Hat Hok Hr. pose proof (wt_cfg _ _ _ _ Ht i) as Hc.
  destruct ph as [|?|?|?|?|?|?|?|?|st|st|ld st|?|?|]; try done; cbn [at_phase solo_ok] in Hat, Hok; subst p.
  - pose proof (step_turn (cfg i) Hc st 0 d) as Hp. pose proof (wfc_monitor _ Hc). enters (UpdR st) Hp.
  - pose proof (eq_refl : pstep (update_lock (cfg i) st) 0 d
                = Some (EGo (after_read (update_lock (cfg i) st) d) d false 0)) as Hp.
    enters (UpdW d st) Hp.
  - destruct Hok as [-> Hm]. pose proof (step_update_write (cfg i) Hc d st 0 d Hd Hm) as Hp. cbv zeta in Hp.
    eexists _, _, _, _, (Fin _). split; [exact Hp|]. split; [reflexivity|].
    split; [apply my_lock_wf; [done|apply SFEX_NEXT_COUNT_range, Hd]|]. split; [done|]. by split.
Qed.

Lemma solo_next i d0 d ph p :
  wf_lockdata d → at_phase (cfg i) ph p → solo_ok i d0 d ph →
  (∃ st, p = PRet st ∧ ph = Fin st) ∨ next_phase i d0 d ph p.
Proof.
  intros Hd Hat Hok. destruct (decide (6 ≤ rank ph)%nat); [right; by apply solo_next_wait|].
  destruct (decide (2 ≤ rank ph)%nat); [right; apply solo_next_taken; (done || lia)|].
  destruct (decide (rank ph = 0%nat)); [right; by apply solo_next_loop|].
  destruct ph; cbn [rank] in *; try lia. left. by exists st.
Qed.

Lemma solo_started i s :
  wf_lockdata (disk s) →
  solo_inv i (now s) (disk s) (since (now s - window) (writes s) ≤ 997) (started s i).
Proof.
  intros Hd. split; [done|]. eexists _, _, _, _, First. split; [apply fn_lookup_insert|].
  split; [done|]. split; [done|]. left. cbn [started put now writes due looping left].
  pose proof (wt_delta _ _ _ _ Ht). split_and!; try done; lia.
Qed.

Lemma solo_others i j s s' : solo i s s' → j ≠ i → node s' j = node s j.
Proof.
  intros Hs Hj. destruct (solo_inv_step i s s' Hs) as [(t & _ & _ & ->)|(m & p & lo & hi & _ & Hc)]; [done|].
  by destruct Hc as [(st & _ & ->)|[(_ & ->)|(p' & d & w & t & _ & _ & ->)]]; apply fn_lookup_insert_ne.
Qed.

Lemma solo_step_inv i t0 d0 rare s s' :
  solo_inv i t0 d0 rare s → solo i s s' → solo_inv i t0 d0 rare s'.
Proof.
  intros (Hd & m & p & lo & hi & ph & He & Hat & Hok & Hm) Hs. pose proof (wt_delta _ _ _ _ Ht).
  pose proof (solo_next i d0 (disk s) ph p Hd Hat Hok) as Hnext.
  destruct (solo_inv_step i s s' Hs) as [(t & Hle & Hdl & ->)|(m1 & p1 & lo1 & hi1 & He1 & Hcase)].
  { split; [done|]. exists m, p, lo, hi, ph. split; [done|]. split; [done|]. split; [done|].
    destruct Hm as [(-> & Hlh & Hh & Hf & Hr)|Hm]; [left|by right]. specialize (Hdl _ _ _ _ _ He).
    cbn [now writes]. split_and!; try done; try lia. intros Hra. specialize (Hr Hra).
    pose proof (since_anti (now s - window) (t - window) (writes s) ltac:(lia)). lia. }
  rewrite He in He1. injection He1 as <- -> <- <-.
  destruct Hcase as [(st & -> & ->)|[((c & Hp) & _)|(p' & d & wrote & t & Hlo & Hp & ->)]].
  - split; [done|]. destruct Hnext as [(st' & [= <-] & ->)|(? & ? & ? & ? & ? & [=] & _)].
    eexists _, _, _, _, (TurnS st). split; [apply fn_lookup_insert|]. split; [done|]. split; [exact Hok|].
    right. by split.
  - destruct Hnext as [(st' & -> & _)|(? & ? & ? & ? & ? & Hp' & _)]; [done|]. by destruct p1.
  - destruct Hnext as [(st' & -> & _)|(p2 & d2 & w2 & t2 & ph' & Hp' & Hat' & Hd' & Hok' & Ht' & Hl)]; [done|].
    rewrite Hp' in Hp. apply go_inj in Hp as (-> & -> & -> & ->). split; [done|].
    eexists _, _, _, _, ph'. split; [apply fn_lookup_insert|]. split; [done|]. split; [done|].
    pose proof (wt_hz _ _ _ _ Ht). cbn [now writes].
    destruct Hm as [(-> & Hlh & Hh & Hf & Hr)|[-> Hlp]]; [left|right; rewrite Hlp in Hl; by split].
    split; [done|]. destruct (looping ph) eqn:El.
    { destruct (Hf eq_refl) as [st ->]. cbn [at_phase] in Hat. by rewrite Hat in Hp'. }
    destruct Hl as (Hdue & _ & Hlw & Hl). split_and!; [lia|nia|nia|done|]. intros Hra. specialize (Hr Hra).
    destruct w2; [rewrite since_cons; case_decide|]; lia.
Qed.

(** It gets there: from every phase before the main loop, as long as the record
    is not written too often, some steps lead to it. *)
Lemma solo_gets_there i d0 s p lo hi ph :
  alone s i (Live Acquiring p lo hi) → lo ≤ hi → wf_lockdata (disk s) → at_phase (cfg i) ph p →
  solo_ok i d0 (disk s) ph → (looping ph = true → ∃ st, ph = Fin st) →
  since (now s - window) (writes s) + left ph ≤ 999 →
  ∃ s', rtc (solo i) s s' ∧ alone s' i (node s' i) ∧ holds s' i.
Proof.
  pose proof (wt_delta _ _ _ _ Ht). pose proof (wt_hz _ _ _ _ Ht).
  remember (rank ph) as r eqn:Hr. revert s p lo hi ph Hr.
  induction (lt_wf r) as [r _ IH]; intros s p lo hi ph -> Ha Hle Hd Hat Hok Hf Hw.
  destruct (alone_wait s i _ _ _ _ Ha Hle) as (s1 & R1 & Hlo & Hnow & D1 & W1 & A1).
  pose proof (since_anti (now s - window) (now s1 - window) (writes s) ltac:(lia)) as Hs1.
  rewrite <-D1 in Hd, Hok.
  destruct (solo_next i d0 (disk s1) ph p Hd Hat Hok)
    as [(st & -> & ->)|(p' & d' & w & t & ph' & Hp & Hat' & Hd' & Hok' & Hnt & Hl)].
  - eexists (put s1 i (Live Looping (daemon_turn (cfg i) st) _ _)). split_and!.
    + etrans; [exact R1|]. eapply rtc_once. exists (Loop i). split; [cbn; by rewrite bool_decide_true|].
      eapply m_loop, A1.
    + eapply alone_insert in A1. split; [done|apply A1].
    + do 3 eexists. apply fn_lookup_insert.
  - destruct (looping ph) eqn:El.
    { destruct (Hf eq_refl) as [st ->]. cbn [at_phase] in Hat. by rewrite Hat in Hp. }
    destruct Hl as (_ & Hrk & Hlw & Hf'). assert (Hleft : 0 ≤ left ph') by (destruct ph'; cbn; lia).
    destruct (alone_act s1 i _ _ _ _ _ _ _ _ A1 Hlo Hp) as (s2 & R2 & N2 & D2 & W2 & A2).
    { intros ->. rewrite W1. lia. }
    rewrite <-D2 in Hd', Hok'.
    destruct (IH (rank ph') Hrk s2 p' _ _ ph' eq_refl A2 ltac:(lia) Hd' Hat' Hok' Hf') as (s3 & R3 & H3).
    { rewrite N2, W2, W1. destruct w; [rewrite since_cons; case_decide|]; lia. }
    exists s3. split; [|exact H3]. etrans; [exact R1|]. by eapply rtc_l.
Qed.

Lemma solo_run_inv i s s' :
  wf_lockdata (disk s) → rtc (solo i) (started s i) s' →
  solo_inv i (now s) (disk s) (since (now s - window) (writes s) ≤ 997) s' ∧
  ∀ j, j ≠ i → node s' j = node s j.
Proof.
  intros Hd Hr. pose proof (solo_started i s Hd) as H0.
  assert (Ho : ∀ j, j ≠ i → node (started s i) j = node s j) by (intros j Hj; by apply fn_lookup_insert_ne).
  revert H0 Ho. generalize (started s i) Hr. clear Hr.
  induction 1 as [s1|s1 s2 s3 H1 _ IH]; intros H0 Ho; [by split|]. apply IH; [by eapply solo_step_inv|].
  intros j Hj. rewrite (solo_others i j s1 s2) by done. auto.
Qed.

(** In such a run the node has the lock in time, and never gets stuck before. *)
Lemma solo_run_holds i t0 s s' :
  alone s i (Off t0) → wf_lockdata (disk s) → since (now s - window) (writes s) ≤ 997 →
  rtc (solo i) (started s i) s' → ∃ s2, rtc (solo i) s' s2 ∧ holds s2 i.
Proof.
  intros [_ Ha] Hd Hw Hr.
  destruct (solo_run_inv i s s' Hd Hr) as [(Hd' & m & p & lo & hi & ph & He & Hat & Hok & Hm) Ho].
  destruct Hm as [(-> & Hlh & _ & Hf & Hrt)|[-> Hlp]]; [|exists s'; split; [done|by do 3 eexists]].
  destruct (solo_gets_there i (disk s) s' p lo hi ph) as (s2 & Hs2 & _ & Hh); try done; [|by auto|by exists s2].
  split; [done|]. intros j Hj. rewrite Ho by done. by apply Ha.
Qed.
End Alone.

(** ** Properties *)

(** Mutual exclusion: in every reachable state at most one node is in the
    main loop of its daemon, the record on the disk is that node's lock, and
    what it does next is never the reboot of a daemon that lost its lock. *)
Theorem mutual_exclusion {n} (cfg : fin n → config) hz delta window s i :
  well_timed cfg hz delta window → reachable cfg hz delta window false s → holds s i →
  mine (cfg i) (disk s) ∧ (∀ j, holds s j → j = i) ∧
  (∀ m p lo hi msg k, node s i = Live m p lo hi → p ≠ PSysrq msg k).
Proof.
  intros Ht Hs (p & lo & hi & Hi). destruct (reachable_inv cfg hz delta window Ht s Hs) as (ver & inc & ph & Hinv).
  assert (Hown : ∀ j p lo hi, node s j = Live Looping p lo hi →
            looping (ph j) = true ∧ at_phase (cfg j) (ph j) p ∧ phase_ok cfg hz delta s ver inc j (ph j) lo hi).
  { intros j q l h Hj. by destruct (live_node _ _ _ _ _ _ _ _ _ _ _ _ _ Hinv Hj) as (H1 & _ & H2 & H3); auto. }
  assert (Hmine : ∀ j p lo hi, node s j = Live Looping p lo hi → mine (cfg j) (disk s)).
  { intros j q l h Hj. destruct (Hown _ _ _ _ Hj) as (H1 & _ & H2). by destruct (ph j); try done; destruct H2. }
  pose proof (Hmine _ _ _ _ Hi) as Hm. split; [done|]. split.
  - intros j (q & l & h & Hj). destruct (Hmine _ _ _ _ Hj) as [_ H2]. destruct Hm as [_ H1].
    by apply (named_inj cfg hz delta window Ht j i (disk s)).
  - intros m q l h msg k Hq ->. rewrite Hi in Hq. injection Hq as <- -> <- <-.
    destruct (Hown _ _ _ _ Hi) as (H1 & H2 & H3). destruct (ph i); try done; cbn in H2.
    destruct H3 as (_ & <- & _). unfold update_lock in H2. cbn [after_read] in H2.
    change (0 =? -1) with false in H2. cbv iota in H2.
    rewrite not_mine_spec, bool_decide_true in H2
      by (done || apply (wt_cfg _ _ _ _ Ht) || apply (i_disk _ _ _ _ _ _ _ _ Hinv)). done.
Qed.

(** Progress: a daemon that no other node disturbs (no crash, no SIGTERM)
    never ends by itself, and it holds the lock once its waits are over, which is
    collision_timeout after its start, and lock_timeout later when the record
    was the lock of a node that has died, up to the time of seven operations
    (nine when it waited). *)
Theorem lone_daemon_acquires {n} (cfg : fin n → config) hz delta window early i s s' :
  well_timed cfg hz delta window → wf_lockdata (disk s) →
  rtc (solo cfg hz delta window early i) (started cfg delta s i) s' →
  ∃ m p lo hi, node s' i = Live m p lo hi ∧
    (now s + foreign_wait cfg hz delta i (disk s) + hz * collision_timeout (cfg i) + 7 * delta < now s' →
     m = Looping ∧ mine (cfg i) (disk s')).
Proof.
  intros Ht Hd Hr. destruct (solo_run_inv cfg hz delta window early Ht i s s' Hd Hr)
    as [(_ & m & p & lo & hi & ph & He & _ & Hok & Hm) _]. exists m, p, lo, hi. split; [done|].
  intros Hlate. destruct Hm as [(-> & _ & Hh & Hf & _)|[-> Hlp]].
  - exfalso. pose proof (wt_delta _ _ _ _ Ht). pose proof (ticks_collision cfg hz delta window Ht i).
    pose proof (ticks_lock cfg hz delta window Ht i).
    assert (due cfg hz delta i (disk s) ph ≤ foreign_wait cfg hz delta i (disk s) + hz * collision_timeout (cfg i) + 7 * delta); [|lia].
    destruct ph; cbn [due] in *; try lia; unfold foreign_wait; try (case_decide; lia).
    cbn [solo_ok] in Hok. destruct Hok as (_ & _ & Hfo). rewrite decide_True by done. lia.
  - split; [done|]. destruct ph; try done; by destruct Hok.
Qed.

(** ** A concrete cluster

    Two nodes with the default timeouts; a tick is a millisecond, and an
    operation takes at most 400. *)

Definition two_nodes (i : fin 2) : config := match i with Fin.F1 => node1_cfg | Fin.FS _ => node2_cfg end.

Lemma fin2_cases (i : fin 2) : i = 0%fin ∨ i = 1%fin.
Proof. inv_fin i; [by left|]. intros i. inv_fin i; [by right|]. intros i. inv_fin i. Qed.

Lemma two_nodes_timed : well_timed two_nodes 1000 400 60800.
Proof.
  constructor; try lia; intros i; destruct (fin2_cases i) as [-> | ->];
    try (apply node1_cfg_wf || apply node2_cfg_wf || (cbn; lia));
    intros j; destruct (fin2_cases j) as [-> | ->]; try done; cbn; lia.
Qed.

Definition free_disk : mstate 2 :=
  MState 0 (Lockdata SFEX_STATUS_UNLOCK 7 (name_buf (str "node1"))) [] (λ _, Off 0).

Lemma free_disk_wf : wf_lockdata (disk free_disk).
Proof.
  constructor; [by left|by vm_compute|]. exists (str "node1"). split; [apply node1_cfg_wf|done].
Qed.

(** Node 0 finds the free lock of [free_disk] and enters its main loop. *)
Lemma node0_acquires :
  ∃ s, reachable two_nodes 1000 400 60800 false s ∧ holds s 0%fin.
Proof.
  destruct (solo_run_holds two_nodes 1000 400 60800 false two_nodes_timed 0%fin 0
              (MState 401 (disk free_disk) [] (node free_disk))
              (started two_nodes 400 (MState 401 (disk free_disk) [] (node free_disk)) 0%fin)) as (s & Hs & Hh).
  - split; [done|]. intros j _. by exists 0.
  - apply free_disk_wf.
  - vm_compute. discriminate.
  - apply rtc_refl.
  - exists s. split; [|done]. exists free_disk. split; [split; [apply free_disk_wf|done]|].
    eapply rtc_l; [exists (Tick 401); by apply (m_tick _ _ _ _ _ free_disk 401)|].
    eapply rtc_l; [exists (Start 0%fin); by apply (m_start _ _ _ _ _ _ 0%fin 0)|].
    eapply rtc_subrel; [apply solo_mstep|exact Hs].
Qed.

Lemma mutual_exclusion_witness :
  ∃ s : mstate 2, reachable two_nodes 1000 400 60800 false s ∧ holds s 0%fin ∧
    mine node1_cfg (disk s) ∧ ∀ j, holds s j → j = 0%fin.
Proof.
  destruct node0_acquires as (s & Hr & Hh). exists s. split; [exact Hr|]. split; [exact Hh|].
  destruct (mutual_exclusion two_nodes 1000 400 60800 s 0%fin two_nodes_timed Hr Hh) as (H1 & H2 & _).
  split; [exact H1|exact H2].
Defined.
