(* ===== verification/SfexCluster.v ===== *)
(** * sfex: the daemons on one device

    The nodes of SfexMutex, but every process has its own copy of the control
    block, its own sector buffer and file offset, and reads and writes the
    lock through sfex_lib.c on the bytes of one shared device.  A daemon begins
    with the start-up of main, its system calls may be interrupted, and
    meanwhile the daemons of the other locks write their sectors.  The machine
    of SfexMutex simulates this one, so its theorems hold of the device. *)

From stdpp Require Import fin functions.
From S2P Require Import Prelude CString SfexLib SfexTools SfexDaemon SfexMutex.
#[local] Open Scope Z_scope.

(** ** One operation of a program on a store *)

Inductive seffect (W A : Type) : Type :=
| SGo (p : prog A) (w : W) (wrote : bool) (sleep : Z)
| SEnd (w : W)
| SFault.
Arguments SGo {W A} p w wrote sleep.
Arguments SEnd {W A} w.
Arguments SFault {W A}.

(** [c] is what fork, daemon or the write to sysrq answers. *)
Definition sstep {W A} `{LockStore W} (p : prog A) (c : Z) (w : W) : option (seffect W A) :=
  match p with
  | PRet _ => None
  | PExit _ => Some (SEnd w)
  | PRead dst k =>
      Some (match ls_read dst w with
            | (Ret (rc, ld), w') => SGo (k rc ld) w' false 0
            | (Exited _, w') => SEnd w'
            | (Fault, _) => SFault
            end)
  | PWrite ld k =>
      Some (match ls_write ld w with
            | (Ret rc, w') => SGo (k rc) w' true 0
            | (Exited _, w') => SEnd w'
            | (Fault, _) => SFault
            end)
  | PSleep t k => Some (SGo k w false t)
  | PFork k => Some (SGo (k c) w false 0)
  | PExecl _ k => Some (SGo k w false 0)
  | PSysrq _ k => Some (SGo (k c) w false 0)
  | PDaemon k => Some (SGo (k c) w false 0)
  end.

(** ** The machine *)

(** A process has its control block and what the library keeps for it; the
    device in [w] is the one of its last operation. *)
Inductive cnode : Type :=
| COff (since : Z)
| CLive (m : mode) (p : prog statics) (lo hi : Z) (cd : controldata) (w : world).

Record cstate (n : nat) : Type := CState {
  c_now : Z;
  c_dev : list Z;
  c_writes : list Z;
  c_node : fin n → cnode }.
Arguments CState {n} c_now c_dev c_writes c_node.
Arguments c_now {n} c.
Arguments c_dev {n} c.
Arguments c_writes {n} c.
Arguments c_node {n} c i.

(** The process at its next operation: the device as it is now, and the
    answers [read] and [write] give. *)
Definition attach (dev : list Z) (kr kw : list kres) (w : world) : world :=
  World dev (w_pos w) (w_mem w) (w_sector w) (w_kopen w) [] kr kw.

Definition transients (ks : list kres) : Prop := Forall (λ k, transient k = true) ks.

(** Block [i] of a device formatted with the control block [c]. *)
Definition block_at (c : controldata) (i : Z) (dev : list Z) : option (list Z) :=
  peek (Z.to_nat (cd_blocksize c * i)) (Z.to_nat (cd_blocksize c)) dev.

Section Cluster.
Context {n : nat} (ctl : controldata) (lock : Z) (cfg : fin n → config) (hz delta window : Z)
  (early : bool).

Definition cput (s : cstate n) (i : fin n) (ns : cnode) : cstate n :=
  CState (c_now s) (c_dev s) (c_writes s) (<[i := ns]> (c_node s)).

(** As [lstep], with [daemon_start] before the acquisition (the sector size is
    the device's, as it was for sfex_init), and with a write to another lock by
    a process outside, whatever the kernel answers it; its label is [None]. *)
Inductive clstep (s : cstate n) : option (label n) → cstate n → Prop :=
| c_tick t :
    c_now s ≤ t → (∀ i m p lo hi cd w, c_node s i = CLive m p lo hi cd w → t ≤ hi) →
    clstep s (Some (Tick t)) (CState t (c_dev s) (c_writes s) (c_node s))
| c_start i t0 si cdata0 opts d w cd w' :
    c_node s i = COff t0 → t0 + delta < c_now s →
    w_dev w = c_dev s → healthy w → transients (w_kopen w) → si_sector si = cd_blocksize ctl →
    daemon_start si true true cdata0 opts [d] w = (Ret (cfg i, cd), w') →
    clstep s (Some (Start i))
      (cput s i (CLive Acquiring (daemon_acquire (cfg i)) (c_now s) (c_now s + delta) cd w'))
| c_crash i m p lo hi cd w :
    c_node s i = CLive m p lo hi cd w → clstep s (Some (Crash i)) (cput s i (COff (c_now s)))
| c_term i m p lo hi cd w st :
    c_node s i = CLive m p lo hi cd w → takes_sigterm early m = true → wf_statics st →
    clstep s (Some (Term i st))
      (cput s i (CLive Leaving (quit_handler (cfg i) st) (c_now s) (c_now s + delta) cd w))
| c_loop i m st lo hi cd w :
    c_node s i = CLive m (PRet st) lo hi cd w →
    clstep s (Some (Loop i))
      (cput s i (CLive Looping (daemon_turn (cfg i) st) (c_now s) (c_now s + delta) cd w))
| c_exit i m p lo hi cd w c w' :
    c_node s i = CLive m p lo hi cd w → lo ≤ c_now s →
    sstep (H := sfex_store cd (lock_index (cfg i))) p c (attach (c_dev s) [] [] w) = Some (SEnd w') →
    clstep s (Some (End_ i)) (CState (c_now s) (w_dev w') (c_writes s) (<[i := COff (c_now s)]> (c_node s)))
| c_act i m p lo hi cd w c kr kw p' w' wrote t :
    c_node s i = CLive m p lo hi cd w → lo ≤ c_now s → transients kr → transients kw →
    sstep (H := sfex_store cd (lock_index (cfg i))) p c (attach (c_dev s) kr kw w)
      = Some (SGo p' w' wrote t) →
    (wrote = true → since (c_now s - window) (c_writes s) < 999) →
    clstep s (Some (Act i c))
      (CState (c_now s) (w_dev w') (if wrote then c_now s :: c_writes s else c_writes s)
              (<[i := CLive m p' (c_now s + hz * t) (c_now s + hz * t + delta) cd w']> (c_node s)))
| c_other j ld w rc w' :
    w_dev w = c_dev s → geometry ctl w → wf_lockdata ld → 1 ≤ j ≤ cd_numlocks ctl → j ≠ lock →
    write_lockdata ctl ld j w = (Ret rc, w') →
    clstep s None (CState (c_now s) (w_dev w') (c_writes s) (c_node s)).

Definition cstep (s s' : cstate n) : Prop := ∃ l, clstep s l s'.

(** Only this node's daemon takes steps, undisturbed; the other locks are
    written meanwhile. *)
Definition csolo (i : fin n) (s s' : cstate n) : Prop :=
  ∃ l, match l with Some l => quiet i l = true | None => True end ∧ clstep s l s'.

(** No daemon of the lock runs; the device is formatted, and the lock's sector
    holds any well-formed record. *)
Definition cinitial (s : cstate n) : Prop :=
  block_at ctl 0 (c_dev s) = Some (control_block ctl) ∧
  cd_blocksize ctl * (1 + cd_numlocks ctl) ≤ Z.of_nat (length (c_dev s)) ∧
  (∃ ld, wf_lockdata ld ∧ block_at ctl lock (c_dev s) = Some (lock_block (cd_blocksize ctl) ld)) ∧
  c_writes s = [] ∧ ∀ i, c_node s i = COff (c_now s).

Definition creachable (s : cstate n) : Prop := ∃ s0, cinitial s0 ∧ rtc cstep s0 s.

(** The node is in its main loop. *)
Definition cholds (s : cstate n) (i : fin n) : Prop :=
  ∃ p lo hi cd w, c_node s i = CLive Looping p lo hi cd w.

(** The nodes contend for one lock of the device. *)
Record same_lock : Prop := {
  sl_ctl : wf_controldata ctl;
  sl_lock : 1 ≤ lock ≤ cd_numlocks ctl;
  sl_index i : lock_index (cfg i) = lock }.
End Cluster.

(** ** The simulation *)

(** The device for the daemons of one lock: as [sfex_store], and the control
    block is in its place. *)
#[export] Instance formatted_store (c : controldata) (i : Z) : LockStore world := {|
  ls_read := λ dst, read_lockdata c dst i;
  ls_write := λ ld, write_lockdata c ld i;
  ls_holds := λ w ld, ls_holds (LockStore := sfex_store c i) w ld ∧
                      sector_at c 0 w = Some (control_block c) |}.

(** What a process is to a node. *)
Definition node_sim (ctl : controldata) (cn : cnode) (ns : nstate) : Prop :=
  match cn, ns with
  | COff t, Off t' => t = t'
  | CLive m p lo hi cd w, Live m' p' lo' hi' =>
      m = m' ∧ p = p' ∧ lo = lo' ∧ hi = hi' ∧ cd = ctl ∧ wf_prog wf_statics p ∧
      w_sector w = cd_blocksize ctl ∧ Z.of_nat (length (w_mem w)) = cd_blocksize ctl
  | _, _ => False
  end.

Record sim {n} (ctl : controldata) (lock : Z) (cs : cstate n) (ms : mstate n) : Prop := {
  sim_now : c_now cs = now ms;
  sim_writes : c_writes cs = writes ms;
  sim_size : cd_blocksize ctl * (1 + cd_numlocks ctl) ≤ Z.of_nat (length (c_dev cs));
  sim_control : block_at ctl 0 (c_dev cs) = Some (control_block ctl);
  sim_wf : wf_lockdata (disk ms);
  sim_disk : block_at ctl lock (c_dev cs) = Some (lock_block (cd_blocksize ctl) (disk ms));
  sim_node i : node_sim ctl (c_node cs i) (node ms i) }.

(** ** Lemmas *)

#[export] Instance formatted_store_laws c i : LockStoreLaws world (H := formatted_store c i).
Proof.
  constructor.
  - by intros w ld [H _]; apply (ls_holds_wf (H := sfex_store c i)) in H.
  - intros w ld dst [(Hh & Hg & Hi & Hw & Hs) Hc] Hd. cbn [ls_read formatted_store].
    destruct (read_lockdata_run c ld dst i w) as (w' & Hr & Hh' & Hg' & Hdev); [done..|].
    exists w'. split; [done|]. unfold sector_at in *. cbn [ls_holds formatted_store sfex_store].
    unfold sector_at. rewrite Hdev. repeat (split; [done|]). done.
  - intros w ld ld' [(Hh & Hg & Hi & Hw & Hs) Hc] Hw'. cbn [ls_write formatted_store].
    destruct (write_lockdata_run c ld' i w) as (w' & Hr & Hh' & Hg' & Hp); [done..|].
    exists w'. split; [done|]. pose proof (wf_blocksize _ (g_cdata _ _ Hg)) as Hb.
    destruct (poke_sector c w w' i (lock_block (cd_blocksize c) ld')) as [Hs' Ho];
      [done|lia| |done|].
    { unfold SIZEOF_LOCKDATA in Hb.
      rewrite lock_block_length by (done || (unfold SIZEOF_LOCKDATA; lia)). lia. }
    cbn [ls_holds formatted_store sfex_store]. repeat (split; [done|]).
    rewrite Ho by lia. done.
Qed.

(** A typed program does on any store what it does on the cell, and stays
    typed. *)
Lemma sstep_refines {W A} `{LockStoreLaws W} (Q : A → Prop) (p : prog A) c w ld :
  wf_prog Q p → ls_holds w ld →
  match pstep p c ld with
  | None => sstep p c w = None ∧ ∃ a, p = PRet a ∧ Q a
  | Some EEnd => sstep p c w = Some (SEnd w)
  | Some (EGo p' d wrote t) =>
      ∃ w', sstep p c w = Some (SGo p' w' wrote t) ∧ ls_holds w' d ∧ wf_prog Q p'
  end.
Proof.
  intros Hp Hw. destruct p as [a|code|dst k|ld' k|t k|k|argv k|msg k|k]; cbn [pstep sstep wf_prog] in *;
    try (by eexists).
  - split; [done|]. by exists a.
  - destruct Hp as [Hd Hp]. destruct (ls_read_ok w ld dst Hw Hd) as (w' & -> & Hw').
    exists w'. split; [done|]. split; [done|]. apply Hp. by eapply ls_holds_wf.
  - destruct Hp as [Hl Hp]. destruct (ls_write_ok w ld ld' Hw Hl) as (w' & -> & Hw').
    by exists w'.
Qed.

(** [mout] in a run. *)
Lemma mout_bind {W A B} (o : outcome A) (f : A → M W B) w :
  (mout o ≫= f) w = match o with Ret a => f a w | Exited c => (Exited c, w) | Fault => (Fault, w) end.
Proof. by destruct o. Qed.

(** The start-up of main on a formatted device: what it answers, and what the
    process then has. *)
Lemma daemon_start_run si cdata0 opts d w ctl un cfg :
  wf_controldata ctl → si_sector si = cd_blocksize ctl → si_memalign si = true →
  get_nodename (si_uname si) (si_strdup si) = Ret un →
  daemon_options opts (default_config un) = Ret cfg →
  healthy w → transients (w_kopen w) → sector_at ctl 0 w = Some (control_block ctl) →
  cd_blocksize ctl * (1 + cd_numlocks ctl) ≤ Z.of_nat (length (w_dev w)) →
  ∃ w', daemon_start si true true cdata0 opts [d] w =
          (if cd_numlocks ctl <? lock_index cfg then Exited EXIT_FAILURE else Ret (cfg, ctl), w') ∧
    geometry ctl w' ∧ w_dev w' = w_dev w.
Proof.
  intros Hc Hsec Hma Hun Hopt Hh Hk Hs Hd. pose proof (wf_blocksize _ Hc) as Hb.
  pose proof (prepare_lock_geometry ctl w Hc Hd) as Hg.
  set (w1 := set_mem _ _) in Hg.
  assert (Hp : prepare_lock (si_sector si) (si_memalign si) w = (Ret 0, w1)).
  { rewrite Hma, Hsec. apply prepare_lock_run; [done|]. unfold SIZEOF_LOCKDATA, INT_MAX in *. lia. }
  assert (Hh1 : healthy w1) by (destruct Hh; by constructor).
  destruct (lock_index_check_run ctl cdata0 (lock_index cfg) w1 Hh1 Hg Hs) as (w' & Hl & _ & Hg' & Hd').
  exists w'. split; [|by rewrite Hd']. unfold daemon_start.
  rewrite mout_bind, Hun, mout_bind, Hopt. cbv iota beta.
  rewrite (bind_run _ _ _ _ _ Hp). cbn [negb]. rewrite (bind_run _ _ _ _ _ Hl). cbn beta iota.
  by destruct (cd_numlocks ctl <? lock_index cfg).
Qed.

Lemma daemon_start_ret si cdata0 opts d w ctl cfg cd w' :
  wf_controldata ctl → si_sector si = cd_blocksize ctl →
  healthy w → transients (w_kopen w) → sector_at ctl 0 w = Some (control_block ctl) →
  cd_blocksize ctl * (1 + cd_numlocks ctl) ≤ Z.of_nat (length (w_dev w)) →
  daemon_start si true true cdata0 opts [d] w = (Ret (cfg, cd), w') →
  cd = ctl ∧ geometry ctl w' ∧ w_dev w' = w_dev w ∧ lock_index cfg ≤ cd_numlocks ctl.
Proof.
  intros Hc Hsec Hh Hk Hs Hd Hrun.
  destruct (get_nodename (si_uname si) (si_strdup si)) as [un| |] eqn:Hun;
    [|by unfold daemon_start in Hrun; rewrite mout_bind, Hun in Hrun..].
  destruct (daemon_options opts (default_config un)) as [c| |] eqn:Hopt;
    [|by unfold daemon_start in Hrun; rewrite mout_bind, Hun, mout_bind, Hopt in Hrun..].
  destruct (si_memalign si) eqn:Hma.
  - destruct (daemon_start_run si cdata0 opts d w ctl un c) as (w1 & Hrun' & Hg & Hd1); [done..|].
    rewrite Hrun in Hrun'. destruct (cd_numlocks ctl <? lock_index c) eqn:E; [done|]. zbool.
    injection Hrun' as -> -> ->. done.
  - exfalso. unfold daemon_start in Hrun. rewrite mout_bind, Hun, mout_bind, Hopt in Hrun. cbv iota beta in Hrun.
    unfold prepare_lock, mbind, M_bind in Hrun. rewrite retry_transient, Hma in Hrun by done. wsimpl in Hrun.
    by destruct (u64 (si_sector si) =? 0).
Qed.

(** *** Steps *)

Section Simulation.
Context {n : nat} (ctl : controldata) (lock : Z) (cfg : fin n → config) (hz delta window : Z)
  (early : bool).
Context (Hsl : same_lock ctl lock cfg) (Hcfg : ∀ i, wf_config (cfg i)).

Implicit Types (cs : cstate n) (ms : mstate n).

(** A process attached to the device holds the record of the machine. *)
Lemma attach_holds cs ms m p lo hi cd w m' p' lo' hi' kr kw :
  sim ctl lock cs ms → node_sim ctl (CLive m p lo hi cd w) (Live m' p' lo' hi') →
  transients kr → transients kw →
  ls_holds (LockStore := formatted_store ctl lock) (attach (c_dev cs) kr kw w) (disk ms).
Proof.
  intros [] (_ & _ & _ & _ & _ & _ & Hsec & Hmem) Hr Hw.
  split; [|done]. split; [by constructor|]. split; [|split; [apply Hsl|by split]].
  constructor; [apply Hsl|done..].
Qed.

(** One operation of a process. *)
Lemma process_step cs ms i m p lo hi cd w c kr kw :
  sim ctl lock cs ms → c_node cs i = CLive m p lo hi cd w → transients kr → transients kw →
  node ms i = Live m p lo hi ∧ cd = ctl ∧
  match pstep p c (disk ms) with
  | None => sstep (H := sfex_store cd (lock_index (cfg i))) p c (attach (c_dev cs) kr kw w) = None ∧
            ∃ a, p = PRet a ∧ wf_statics a
  | Some EEnd => sstep (H := sfex_store cd (lock_index (cfg i))) p c (attach (c_dev cs) kr kw w) =
                   Some (SEnd (attach (c_dev cs) kr kw w))
  | Some (EGo p' d wrote t) =>
      ∃ w', sstep (H := sfex_store cd (lock_index (cfg i))) p c (attach (c_dev cs) kr kw w) =
              Some (SGo p' w' wrote t) ∧
            ls_holds (LockStore := formatted_store ctl lock) w' d ∧ wf_prog wf_statics p'
  end.
Proof.
  intros Hs Hn Hr Hw. pose proof (sim_node _ _ _ _ Hs i) as Hi. rewrite Hn in Hi.
  destruct (node ms i) as [t|m' p' lo' hi'] eqn:E; [done|].
  pose proof Hi as (<- & <- & <- & <- & -> & Hp & _). split; [done|]. split; [done|].
  pose proof (attach_holds _ _ _ _ _ _ _ _ _ _ _ _ kr kw Hs Hi Hr Hw) as Hh.
  rewrite (sl_index _ _ _ Hsl i). exact (sstep_refines _ p c _ _ Hp Hh).
Qed.

(** Another program in the same process. *)
Lemma live_sim cs ms i m p lo hi cd w m' p' lo' hi' :
  sim ctl lock cs ms → c_node cs i = CLive m p lo hi cd w → wf_prog wf_statics p' →
  node_sim ctl (CLive m' p' lo' hi' cd w) (Live m' p' lo' hi').
Proof.
  intros Hs Hn Hp. pose proof (sim_node _ _ _ _ Hs i) as Hi. rewrite Hn in Hi.
  destruct (node ms i) as [|m1 p1 lo1 hi1]; [done|]. cbn in *. tauto.
Qed.

(** Replacing one node on both sides. *)
Lemma sim_put cs ms i ns ns' :
  sim ctl lock cs ms → node_sim ctl ns ns' → sim ctl lock (cput cs i ns) (put ms i ns').
Proof.
  intros [] Hn. constructor; try done. intros j. cbn [cput put c_node node].
  destruct (decide (j = i)) as [->|Hj]; [by rewrite !fn_lookup_insert|by rewrite !fn_lookup_insert_ne].
Qed.

(** A process has operated on the device. *)
Lemma sim_act cs ms i m p lo hi w d (wrote : bool) :
  sim ctl lock cs ms → ls_holds (LockStore := formatted_store ctl lock) w d →
  wf_prog wf_statics p →
  sim ctl lock
    (CState (c_now cs) (w_dev w) (if wrote then c_now cs :: c_writes cs else c_writes cs)
       (<[i := CLive m p lo hi ctl w]> (c_node cs)))
    (MState (now ms) d (if wrote then now ms :: writes ms else writes ms)
       (<[i := Live m p lo hi]> (node ms))).
Proof.
  intros [] [(_ & [_ Hsec Hm Hd] & _ & Hwf & Hs) Hc] Hp.
  constructor; cbn [c_now c_dev c_writes c_node now disk writes node]; try done.
  - by rewrite sim_now0, sim_writes0.
  - intros j. destruct (decide (j = i)) as [->|Hj]; [by rewrite !fn_lookup_insert|].
    rewrite !fn_lookup_insert_ne by done. apply sim_node0.
Qed.

(** A write to another lock. *)
Lemma sim_other cs ms j ld w rc w' :
  sim ctl lock cs ms → w_dev w = c_dev cs → geometry ctl w → wf_lockdata ld →
  1 ≤ j ≤ cd_numlocks ctl → j ≠ lock → write_lockdata ctl ld j w = (Ret rc, w') →
  sim ctl lock (CState (c_now cs) (w_dev w') (c_writes cs) (c_node cs)) ms.
Proof.
  intros [] Hd Hg Hld Hj Hne Hw.
  destruct (write_lockdata_any ctl ld j w Hg Hld Hj) as (rc' & w1 & Hw' & Hg' & Hcase).
  rewrite Hw in Hw'. injection Hw' as <- <-.
  assert (Hb : ∀ k, 0 ≤ k ≤ cd_numlocks ctl → k ≠ j → block_at ctl k (w_dev w') = block_at ctl k (c_dev cs)).
  { intros k Hk Hkj. rewrite <-Hd. destruct Hcase as [[-> _]|(s & Hp & _)]; [done|].
    pose proof (wf_blocksize _ (g_cdata _ _ Hg)) as Hbs. unfold SIZEOF_LOCKDATA in Hbs.
    eapply peek_poke_ne; [exact Hp|]. rewrite length_take, lock_block_length
      by (done || (unfold SIZEOF_LOCKDATA; lia)). nia. }
  pose proof (sl_lock _ _ _ Hsl) as Hl.
  constructor; cbn [c_now c_dev c_writes c_node]; try done.
  - apply (g_dev _ _ Hg').
  - by rewrite Hb by lia.
  - by rewrite Hb by lia.
Qed.

Lemma live_of_sim cs ms i m p lo hi cd w :
  sim ctl lock cs ms → c_node cs i = CLive m p lo hi cd w → node ms i = Live m p lo hi.
Proof.
  intros Hs Hn. destruct (process_step cs ms i _ _ _ _ _ _ 0 [] [] Hs Hn) as (H & _); [constructor..|exact H].
Qed.

Lemma sim_of_live cs ms i m p lo hi :
  sim ctl lock cs ms → node ms i = Live m p lo hi → ∃ cd w, c_node cs i = CLive m p lo hi cd w.
Proof.
  intros Hs Hn. pose proof (sim_node _ _ _ _ Hs i) as Hi. rewrite Hn in Hi.
  destruct (c_node cs i) as [|m' p' lo' hi' cd w]; [done|]. destruct Hi as (-> & -> & -> & -> & _). by exists cd, w.
Qed.

(** An operation that the machine makes, and one that the device makes. *)
Lemma sim_exit cs ms i m p lo hi cd w c w' :
  sim ctl lock cs ms → c_node cs i = CLive m p lo hi cd w →
  sstep (H := sfex_store cd (lock_index (cfg i))) p c (attach (c_dev cs) [] [] w) = Some (SEnd w') →
  pstep p c (disk ms) = Some EEnd ∧
  sim ctl lock (CState (c_now cs) (w_dev w') (c_writes cs) (<[i := COff (c_now cs)]> (c_node cs)))
    (put ms i (Off (now ms))).
Proof.
  intros Hs Hn Hst. destruct (process_step cs ms i _ _ _ _ _ _ c [] [] Hs Hn) as (Hm & -> & Hp); [constructor..|].
  destruct (pstep p c (disk ms)) as [[p1 d1 wr1 t1|]|] eqn:E.
  - destruct Hp as (w1 & Hp & _). by rewrite Hst in Hp.
  - rewrite Hst in Hp. injection Hp as ->. split; [done|]. cbn [attach w_dev].
    exact (sim_put cs ms i (COff (c_now cs)) (Off (now ms)) Hs (sim_now _ _ _ _ Hs)).
  - destruct Hp as [Hp _]. by rewrite Hst in Hp.
Qed.

(** A step of the cluster is a step of the machine with the same label; writes
    to the other locks are not seen. *)
Lemma clstep_sim cs l cs' ms :
  sim ctl lock cs ms → clstep ctl lock cfg hz delta window early cs l cs' →
  match l with
  | Some l => ∃ ms', lstep cfg hz delta window early ms l ms' ∧ sim ctl lock cs' ms'
  | None => sim ctl lock cs' ms
  end.
Proof.
  intros Hs Hc. pose proof Hs as [Hnow Hwr Hsize Hctl Hwf Hdisk Hnode].
  pose proof (λ i m p lo hi cd w, live_of_sim cs ms i m p lo hi cd w Hs) as Hlive.
  destruct Hc as [t Ht Hdl|i t0 si cdata0 opts d w cd w' Hn Hlt Hd Hh Hk Hsec Hst|i m p lo hi cd w Hn
    |i m p lo hi cd w st Hn Hm Hst|i m st lo hi cd w Hn|i m p lo hi cd w c w' Hn Hlo Hst
    |i m p lo hi cd w c kr kw p' w' wrote t Hn Hlo Hr Hw Hst Hrate|j ld w rc w' Hd Hg Hld Hj Hne Hw].
  - eexists. split; [apply (m_tick _ _ _ _ _ _ t)|by constructor]; [by rewrite <-Hnow|].
    intros i m p lo hi Hm. destruct (sim_of_live cs ms i _ _ _ _ Hs Hm) as (cd & w & Hi). by eapply Hdl.
  - destruct (daemon_start_ret si cdata0 opts d w ctl (cfg i) cd w') as (-> & Hg & Hd' & _);
      try done; [apply Hsl|by unfold sector_at; rewrite Hd|by rewrite Hd|].
    pose proof (Hnode i) as Hi. rewrite Hn in Hi. destruct (node ms i) as [t1|] eqn:E; [|done].
    cbn in Hi. subst t1. eexists. split; [apply (m_start _ _ _ _ _ _ i t0); [done|by rewrite <-Hnow]|].
    rewrite Hnow. apply sim_put; [done|]. destruct Hg. repeat (split; [done|]). by split; [apply daemon_acquire_wf|].
  - eexists. split; [by eapply (m_crash _ _ _ _ _ _ i), Hlive|]. rewrite Hnow. by apply sim_put.
  - eexists. split; [by eapply (m_term _ _ _ _ _ _ i m p lo hi st); [eapply Hlive|]|].
    rewrite Hnow. apply sim_put; [done|]. by eapply live_sim, quit_handler_wf.
  - eexists. split; [by eapply (m_loop _ _ _ _ _ _ i), Hlive|]. rewrite Hnow. apply sim_put; [done|].
    eapply live_sim; [done|done|]. apply daemon_turn_wf.
    destruct (process_step cs ms i _ _ _ _ _ _ 0 [] [] Hs Hn) as (_ & _ & _ & st' & [= <-] & Hst);
      [constructor..|done].
  - destruct (sim_exit cs ms i _ _ _ _ _ _ _ _ Hs Hn Hst) as [E Hx]. eexists. split; [|exact Hx].
    eapply (m_exit _ _ _ _ _ _ i); [by eapply Hlive|by rewrite <-Hnow|exact E].
  - destruct (process_step cs ms i _ _ _ _ _ _ c kr kw Hs Hn) as (Hm & -> & Hp); [done..|].
    destruct (pstep p c (disk ms)) as [[p1 d1 wr1 t1|]|] eqn:E.
    + destruct Hp as (w1 & Hp & Hh & Hty). rewrite Hst in Hp. injection Hp as <- <- <- <-. eexists. split.
      * eapply (m_act _ _ _ _ _ _ i); [done|by rewrite <-Hnow|exact E|by rewrite <-Hnow, <-Hwr].
      * rewrite Hnow at 3 4. by apply sim_act.
    + by rewrite Hst in Hp.
    + destruct Hp as [Hp _]. by rewrite Hst in Hp.
  - exact (sim_other _ _ _ _ _ _ _ Hs Hd Hg Hld Hj Hne Hw).
Qed.

Lemma cstep_sim cs cs' ms :
  sim ctl lock cs ms → cstep ctl lock cfg hz delta window early cs cs' →
  ∃ ms', rtc (mstep cfg hz delta window early) ms ms' ∧ sim ctl lock cs' ms'.
Proof.
  intros Hs [l Hl]. pose proof (clstep_sim cs l cs' ms Hs Hl) as H. destruct l as [l|]; [|by exists ms].
  destruct H as (ms' & Hm & Hs'). exists ms'. split; [|done]. apply rtc_once. by exists l.
Qed.

Lemma csolo_sim i cs cs' ms :
  sim ctl lock cs ms → csolo ctl lock cfg hz delta window early i cs cs' →
  ∃ ms', rtc (solo cfg hz delta window early i) ms ms' ∧ sim ctl lock cs' ms'.
Proof.
  intros Hs (l & Hq & Hl). pose proof (clstep_sim cs l cs' ms Hs Hl) as H. destruct l as [l|]; [|by exists ms].
  destruct H as (ms' & Hm & Hs'). exists ms'. split; [|done]. apply rtc_once. by exists l.
Qed.

Lemma csolo_run_sim i cs cs' ms :
  sim ctl lock cs ms → rtc (csolo ctl lock cfg hz delta window early i) cs cs' →
  ∃ ms', rtc (solo cfg hz delta window early i) ms ms' ∧ sim ctl lock cs' ms'.
Proof.
  intros Hs Hr. revert ms Hs. induction Hr as [|s1 s2 s3 H _ IH]; intros ms Hs; [by exists ms|].
  destruct (csolo_sim i s1 s2 ms Hs H) as (m2 & Hm & Hs2). destruct (IH m2 Hs2) as (m3 & Hm3 & Hs3).
  exists m3. split; [by etrans|done].
Qed.

Lemma creachable_sim cs :
  creachable ctl lock cfg hz delta window early cs →
  ∃ ms, reachable cfg hz delta window early ms ∧ sim ctl lock cs ms.
Proof.
  intros (s0 & (Hc & Hd & (ld & Hld & Hl) & Hw & Ho) & Hr).
  set (ms0 := MState (c_now s0) ld [] (λ _, Off (c_now s0)) : mstate n).
  assert (H0 : sim ctl lock s0 ms0).
  { constructor; try done. intros i. by rewrite Ho. }
  assert (Hi : reachable cfg hz delta window early ms0) by (by exists ms0).
  clearbody ms0. clear Hc Hd Hld Hl Hw Ho. revert ms0 H0 Hi.
  induction Hr as [|s1 s2 s3 Hs _ IH]; intros ms H0 Hi; [by exists ms|].
  destruct (cstep_sim s1 s2 ms H0 Hs) as (ms' & Hm & Hs'). eapply IH; [exact Hs'|].
  destruct Hi as (m0 & Hi0 & Hm0). exists m0. split; [done|]. by etrans.
Qed.

(** A holder in the device is a holder in the machine. *)
Lemma cholds_holds cs ms i : sim ctl lock cs ms → cholds cs i → holds ms i.
Proof.
  intros Hs (p & lo & hi & cd & w & Hn). exists p, lo, hi.
  destruct (process_step cs ms i _ _ _ _ _ _ 0 [] [] Hs Hn) as (H & _); [constructor..|exact H].
Qed.

(** *** Running a lone node on the device *)

Lemma solo_lift cs ms ms' i :
  sim ctl lock cs ms → solo cfg hz delta window early i ms ms' →
  ∃ cs', csolo ctl lock cfg hz delta window early i cs cs' ∧ sim ctl lock cs' ms'.
Proof.
  intros Hs (l & Hq & Hm). pose proof Hs as [Hnow Hwr Hsize Hctl Hwf Hdisk Hnode].
  cut (∃ cs', clstep ctl lock cfg hz delta window early cs (Some l) cs' ∧ sim ctl lock cs' ms').
  { intros (cs' & Hc & Hs'). exists cs'. split; [|done]. by exists (Some l). }
  destruct Hm as [t Ht Hdl|?|?|?|j m st lo hi Hn|j m p lo hi c Hn Hlo Hp|j m p lo hi c p' d wrote t Hn Hlo Hp Hr];
    try done; [|destruct (sim_of_live cs ms j _ _ _ _ Hs Hn) as (cd & w & Hc)..].
  - eexists. split; [apply (c_tick _ _ _ _ _ _ _ cs t); [by rewrite Hnow|]|by constructor].
    intros j m p lo hi cd w Hj. eapply (Hdl j), live_of_sim; done.
  - eexists. split; [by eapply c_loop|].
    rewrite Hnow. apply sim_put; [done|]. eapply live_sim; [done|done|]. apply daemon_turn_wf.
    destruct (process_step cs ms j _ _ _ _ _ _ 0 [] [] Hs Hc) as (_ & _ & _ & st' & [= <-] & Hst);
      [constructor..|done].
  - destruct (process_step cs ms j _ _ _ _ _ _ c [] [] Hs Hc) as (_ & _ & He); [constructor..|].
    rewrite Hp in He. eexists. split; [eapply c_exit; [done|by rewrite Hnow|exact He]|]. by eapply sim_exit.
  - destruct (process_step cs ms j _ _ _ _ _ _ c [] [] Hs Hc) as (_ & -> & He); [constructor..|].
    rewrite Hp in He. destruct He as (w' & He & Hh & Hty). eexists. split.
    + eapply c_act; [exact Hc|by rewrite Hnow| | |exact He|]; [constructor..|by rewrite Hnow, Hwr].
    + rewrite Hnow at 3 4. by apply sim_act.
Qed.

(** A node that is off starts: the options give its configuration. *)
Lemma start_lift cs ms i t0 si opts un :
  sim ctl lock cs ms → node ms i = Off t0 → t0 + delta < now ms →
  si_sector si = cd_blocksize ctl → si_memalign si = true →
  get_nodename (si_uname si) (si_strdup si) = Ret un →
  daemon_options opts (default_config un) = Ret (cfg i) →
  ∃ cs', clstep ctl lock cfg hz delta window early cs (Some (Start i)) cs' ∧
         sim ctl lock cs' (started cfg delta ms i).
Proof.
  intros Hs Hn Ht Hsec Hma Hun Hopt. pose proof Hs as [Hnow Hwr Hsize Hctl Hwf Hdisk Hnode].
  set (w := World (c_dev cs) 0 [] 0 [] [] [] []).
  assert (Hh : healthy w) by (by constructor). assert (Hk : transients (w_kopen w)) by constructor.
  destruct (daemon_start_run si ctl opts [] w ctl un (cfg i)) as (w' & Hrun & Hg & _); try done;
    [apply Hsl|].
  rewrite (sl_index _ _ _ Hsl i) in Hrun. destruct (sl_lock _ _ _ Hsl) as [_ Hle].
  rewrite (proj2 (Z.ltb_ge _ _)) in Hrun by done.
  pose proof (Hnode i) as Hi. rewrite Hn in Hi. destruct (c_node cs i) as [t1|] eqn:E; [|done]. cbn in Hi. subst t1.
  eexists. split; [apply (c_start _ _ _ _ _ _ _ cs i t0 si ctl opts [] w ctl w'); try done|].
  - by rewrite Hnow.
  - rewrite Hnow. apply sim_put; [done|]. destruct Hg. repeat (split; [done|]). by split; [apply daemon_acquire_wf|].
Qed.

(** A start on the device is one in the machine. *)
Lemma start_sim cs ms i cs' :
  sim ctl lock cs ms → clstep ctl lock cfg hz delta window early cs (Some (Start i)) cs' →
  sim ctl lock cs' (started cfg delta ms i).
Proof.
  intros Hs Hc. destruct (clstep_sim cs _ cs' ms Hs Hc) as (ms' & Hm & Hs').
  inversion Hm; subst. exact Hs'.
Qed.

Lemma solo_run_lift cs ms ms' i :
  sim ctl lock cs ms → rtc (solo cfg hz delta window early i) ms ms' →
  ∃ cs', rtc (csolo ctl lock cfg hz delta window early i) cs cs' ∧ sim ctl lock cs' ms'.
Proof.
  intros Hs Hr. revert cs Hs. induction Hr as [|m1 m2 m3 Hm _ IH]; intros cs Hs; [by exists cs|].
  destruct (solo_lift cs m1 m2 i Hs Hm) as (cs1 & Hc & Hs1).
  destruct (IH cs1 Hs1) as (cs2 & Hc2 & Hs2). exists cs2. split; [by eapply rtc_l|done].
Qed.

Lemma holds_cholds cs ms i : sim ctl lock cs ms → holds ms i → cholds cs i.
Proof.
  intros Hs (p & lo & hi & Hn). destruct (sim_of_live cs ms i _ _ _ _ Hs Hn) as (cd & w & Hc).
  by exists p, lo, hi, cd, w.
Qed.
End Simulation.

(** What sfex_init leaves is a device on which daemons can start, for every
    lock it has. *)
Lemma sfex_init_cinitial {n} si garbage opts k d w t lock :
  init_options opts 1 = Ret k → si_memalign si = true →
  (∃ nm, get_nodename (si_uname si) (si_strdup si) = Ret nm) → (0 < length garbage)%nat →
  Z.of_nat SIZEOF_LOCKDATA ≤ si_sector si ≤ 9999999 →
  si_sector si * (1 + k) ≤ Z.of_nat (length (w_dev w)) →
  healthy w → transients (w_kopen w) → 1 ≤ lock ≤ k →
  ∃ w', sfex_init_main si garbage opts [d] w = (Exited 0, w') ∧
    cinitial (init_controldata (si_sector si) k) lock
      (CState t (w_dev w') [] (λ _, COff t) : cstate n).
Proof.
  intros Ho Hm Hn Hg Hs Hd Hh Hk Hl.
  destruct (sfex_init_run si garbage opts k d w Ho Hm Hn Hg Hs Hd Hh Hk) as (w' & Hr & Hgeo & H0 & Hi).
  exists w'. split; [done|]. split; [exact H0|]. split; [exact (g_dev _ _ Hgeo)|].
  split; [|done]. exists fresh_lock. split; [apply fresh_lock_wf|by apply Hi].
Qed.

(** The same run decides the status sfex_stat reports. *)
Lemma holder_record {n} ctl lock (cfg : fin n → config) hz delta window cs i :
  same_lock ctl lock cfg → well_timed cfg hz delta window →
  creachable ctl lock cfg hz delta window false cs → cholds cs i →
  ∃ ms, sim ctl lock cs ms ∧ mine (cfg i) (disk ms) ∧ (∀ j, cholds cs j → j = i) ∧
    (∀ m p lo hi msg k, node ms i = Live m p lo hi → p ≠ PSysrq msg k).
Proof.
  intros Hsl Ht Hr Hh. pose proof (wt_cfg _ _ _ _ Ht) as Hcfg.
  destruct (creachable_sim ctl lock cfg hz delta window false Hsl Hcfg cs Hr) as (ms & Hm & Hs).
  pose proof (cholds_holds ctl lock cfg Hsl cs ms i Hs Hh) as Hi.
  destruct (mutual_exclusion cfg hz delta window ms i Ht Hm Hi) as (H1 & H2 & H3).
  exists ms. split; [done|]. split; [done|]. split; [|done]. intros j Hj. apply H2. by apply (cholds_holds ctl lock cfg Hsl cs).
Qed.

(** ** Properties *)


(** [C2] The format and the types survive every run, whatever the timeouts,
    however many nodes fight and whenever SIGTERM comes: the control block stays in place and the lock's
    sector is always a well-formed record; every process has the control block
    of the device and a sector buffer of its size, its program goes on reading
    into records of the right size and writing well-formed records only, and
    its next operation is never an access outside the buffer. *)
Theorem device_well_formed {n} ctl lock (cfg : fin n → config) hz delta window early cs :
  same_lock ctl lock cfg → (∀ i, wf_config (cfg i)) → creachable ctl lock cfg hz delta window early cs →
  block_at ctl 0 (c_dev cs) = Some (control_block ctl) ∧
  (∃ ld, wf_lockdata ld ∧ block_at ctl lock (c_dev cs) = Some (lock_block (cd_blocksize ctl) ld)) ∧
  ∀ j m p lo hi cd w, c_node cs j = CLive m p lo hi cd w →
    cd = ctl ∧ Z.of_nat (length (w_mem w)) = cd_blocksize ctl ∧ wf_prog wf_statics p ∧
    ∀ c kr kw, transients kr → transients kw →
      sstep (H := sfex_store cd (lock_index (cfg j))) p c (attach (c_dev cs) kr kw w) ≠ Some SFault.
Proof.
  intros Hsl Hcfg Hr.
  destruct (creachable_sim ctl lock cfg hz delta window early Hsl Hcfg cs Hr) as (ms & Hm & Hs).
  split; [apply Hs|]. split; [exists (disk ms); split; apply Hs|]. intros j m p lo hi cd w Hn.
  pose proof (sim_node _ _ _ _ Hs j) as Hj. rewrite Hn in Hj. destruct (node ms j) as [|m' p' lo' hi']; [done|].
  destruct Hj as (_ & _ & _ & _ & Hcd & Hp & _ & Hmem). split; [done|]. split; [done|]. split; [done|].
  intros c kr kw Hkr Hkw He.
  destruct (process_step ctl lock cfg Hsl cs ms j _ _ _ _ _ _ c kr kw Hs Hn) as (_ & _ & H); [done..|].
  destruct (pstep p c (disk ms)) as [[]|].
  - destruct H as (w' & H & _). by rewrite He in H.
  - by rewrite He in H.
  - destruct H as [H _]. by rewrite He in H.
Qed.

(** What a node was off before a start, in the machine. *)
Definition off_nodes {n} (cs : cstate n) (i : fin n) : nstate :=
  match c_node cs i with COff t => Off t | CLive _ _ _ _ _ _ => Off 0 end.

(** [C3] Progress on the disk.  On a formatted device where no daemon runs, one
    is started, and is not disturbed: no crash, no SIGTERM, no other daemon of
    the lock, but interrupted system calls and writes to the other locks.  Then
    it never ends by itself, and holds the lock once its waits are over, which is
    collision_timeout after its start, and lock_timeout later when the record
    was the lock of a node that has died, up to the time of seven operations
    (nine when it waited).  And unless the record had just been written a
    thousand times it is never stuck on its way: from every state of such a run
    one that holds the lock can be reached. *)
Theorem device_daemon_acquires {n} ctl lock (cfg : fin n → config) hz delta window early cs ld i cs1 cs2 :
  same_lock ctl lock cfg → well_timed cfg hz delta window →
  block_at ctl 0 (c_dev cs) = Some (control_block ctl) →
  cd_blocksize ctl * (1 + cd_numlocks ctl) ≤ Z.of_nat (length (c_dev cs)) →
  wf_lockdata ld → block_at ctl lock (c_dev cs) = Some (lock_block (cd_blocksize ctl) ld) →
  (∀ j, ∃ t, c_node cs j = COff t) →
  clstep ctl lock cfg hz delta window early cs (Some (Start i)) cs1 →
  rtc (csolo ctl lock cfg hz delta window early i) cs1 cs2 →
  (∃ m p lo hi cd w, c_node cs2 i = CLive m p lo hi cd w ∧
     (c_now cs + foreign_wait cfg hz delta i ld + hz * collision_timeout (cfg i) + 7 * delta < c_now cs2 →
      m = Looping ∧ ∃ k, 0 ≤ k ≤ SFEX_MAX_COUNT ∧
        block_at ctl lock (c_dev cs2) = Some (lock_block (cd_blocksize ctl) (my_lock (cfg i) k)))) ∧
  (since (c_now cs - window) (c_writes cs) ≤ 997 →
   ∃ cs3, rtc (csolo ctl lock cfg hz delta window early i) cs2 cs3 ∧ cholds cs3 i).
Proof.
  intros Hsl Ht H0 Hsz Hld Hl Hoff Hst Hr. pose proof (wt_cfg _ _ _ _ Ht) as Hcfg.
  set (ms := MState (c_now cs) ld (c_writes cs) (off_nodes cs)).
  assert (Hs : sim ctl lock cs ms).
  { constructor; try done. intros j. cbn [ms node]. unfold off_nodes. by destruct (Hoff j) as [t ->]. }
  assert (Hal : ∃ t0, alone ms i (Off t0)).
  { destruct (Hoff i) as [t0 Hi]. exists t0. split; cbn [ms node]; unfold off_nodes; [by rewrite Hi|].
    intros j _. destruct (Hoff j) as [t ->]. by exists t. }
  destruct Hal as [t0 Hal]. pose proof (start_sim ctl lock cfg hz delta window early Hsl Hcfg cs ms i cs1 Hs Hst) as Hs1.
  destruct (csolo_run_sim ctl lock cfg hz delta window early Hsl Hcfg i cs1 cs2 _ Hs1 Hr) as (ms2 & Hr2 & Hs2).
  split.
  - destruct (lone_daemon_acquires cfg hz delta window early i ms ms2 Ht Hld Hr2) as (m & p & lo & hi & Hn & Hlate).
    destruct (sim_of_live ctl lock cs2 ms2 i _ _ _ _ Hs2 Hn) as (cd & w & Hc). exists m, p, lo, hi, cd, w.
    split; [done|]. rewrite (sim_now _ _ _ _ Hs2). intros Hl2. destruct (Hlate Hl2) as [Hm Hmine]. split; [done|].
    exists (ld_count (disk ms2)). split; [apply (sim_wf _ _ _ _ Hs2)|].
    rewrite <-mine_my_lock by done. apply (sim_disk _ _ _ _ Hs2).
  - intros Hw. destruct (solo_run_holds cfg hz delta window early Ht i t0 ms ms2 Hal Hld Hw Hr2) as (ms3 & Hr3 & Hh).
    destruct (solo_run_lift ctl lock cfg hz delta window early Hsl cs2 ms2 ms3 i Hs2 Hr3) as (cs3 & Hc3 & Hs3).
    exists cs3. split; [done|]. exact (holds_cholds ctl lock cs3 ms3 i Hs3 Hh).
Qed.


(** ** A concrete run

    sfex_init formats a device for two locks; then the daemon of the first node
    starts with its default options and acquires lock 1. *)

Definition demo_ctl : controldata := init_controldata 512 2.

Lemma two_nodes_same_lock : same_lock demo_ctl 1 two_nodes.
Proof.
  constructor; [by apply demo_cdata_wf|by vm_compute|]. intros i. by destruct (fin2_cases i) as [-> | ->].
Qed.

(** The device after sfex_init, a little later. *)
Lemma formatted_device :
  ∃ dev, cinitial demo_ctl 1 (CState 0 dev [] (λ _, COff 0) : cstate 2) ∧
    block_at demo_ctl 1 dev = Some (lock_block (cd_blocksize demo_ctl) fresh_lock).
Proof.
  destruct (sfex_init_run demo_si (replicate 256 170) [(110, str "2")] 2 (str "/dev/sdb1") demo_world)
    as (w' & _ & Hg & H0 & Hl);
    [done|done|by exists (str "node1")|by vm_compute; lia|by vm_compute|by vm_compute|
     apply demo_world_healthy|repeat constructor|].
  cbv zeta in *. change (init_controldata (si_sector demo_si) 2) with demo_ctl in *.
  exists (w_dev w'). split; [|by apply Hl].
  split; [done|]. split; [apply Hg|]. split; [|done]. exists fresh_lock. split; [apply fresh_lock_wf|by apply Hl].
Qed.

(** Node 0 starts on it. *)
Lemma node0_starts :
  ∃ dev cs1, let cs := CState 401 dev [] (λ _, COff 0) : cstate 2 in
    creachable demo_ctl 1 two_nodes 1000 400 60800 false cs ∧
    block_at demo_ctl 0 dev = Some (control_block demo_ctl) ∧
    cd_blocksize demo_ctl * (1 + cd_numlocks demo_ctl) ≤ Z.of_nat (length dev) ∧
    block_at demo_ctl 1 dev = Some (lock_block (cd_blocksize demo_ctl) fresh_lock) ∧
    clstep demo_ctl 1 two_nodes 1000 400 60800 false cs (Some (Start 0%fin)) cs1 ∧
    sim demo_ctl 1 cs1 (started two_nodes 400 (MState 401 fresh_lock [] (λ _, Off 0)) 0%fin).
Proof.
  destruct formatted_device as (dev & Hi & Hb). pose proof two_nodes_timed as Ht.
  pose proof Hi as (H0 & Hsz & _). set (cs := CState 401 dev [] (λ _, COff 0) : cstate 2).
  set (ms := MState 401 fresh_lock [] (λ _, Off 0) : mstate 2).
  assert (Hs : sim demo_ctl 1 cs ms) by (constructor; try done; apply fresh_lock_wf).
  destruct (start_lift demo_ctl 1 two_nodes 1000 400 60800 false two_nodes_same_lock (wt_cfg _ _ _ _ Ht)
              cs ms 0%fin 0 demo_si [] (str "node1")) as (cs1 & Hc & Hs1); [done..|].
  exists dev, cs1. cbv zeta. split; [|done]. eexists. split; [exact Hi|]. apply rtc_once.
  exists (Some (Tick 401)). by apply (c_tick _ _ _ _ _ _ _ (CState 0 dev [] (λ _, COff 0)) 401).
Qed.

Lemma device_daemon_acquires_witness :
  ∃ cs cs3 : cstate 2, creachable demo_ctl 1 two_nodes 1000 400 60800 false cs ∧
    rtc (cstep demo_ctl 1 two_nodes 1000 400 60800 false) cs cs3 ∧ cholds cs3 0%fin.
Proof.
  destruct node0_starts as (dev & cs1 & Hr & H0 & Hsz & Hb & Hst & _).
  destruct (device_daemon_acquires demo_ctl 1 two_nodes 1000 400 60800 false
              (CState 401 dev [] (λ _, COff 0)) fresh_lock 0%fin cs1 cs1
              two_nodes_same_lock two_nodes_timed H0 Hsz fresh_lock_wf Hb
              (λ _, ex_intro _ 0 eq_refl) Hst (rtc_refl _ _)) as [_ Hh].
  destruct (Hh ltac:(vm_compute; discriminate)) as (cs3 & Hr3 & H3).
  eexists _, cs3. split; [exact Hr|]. split; [|exact H3]. eapply rtc_l; [exists (Some (Start 0%fin)); exact Hst|].
  eapply rtc_subrel; [|exact Hr3]. intros x y (l & _ & Hl). by exists l.
Defined.

Lemma node0_holds_device :
  ∃ cs : cstate 2, creachable demo_ctl 1 two_nodes 1000 400 60800 false cs ∧ cholds cs 0%fin.
Proof.
  destruct node0_starts as (dev & cs1 & (cs0 & Hi & Hr) & _ & _ & _ & Hst & Hs1).
  destruct (solo_run_holds two_nodes 1000 400 60800 false two_nodes_timed 0%fin 0
              (MState 401 fresh_lock [] (λ _, Off 0))
              (started two_nodes 400 (MState 401 fresh_lock [] (λ _, Off 0)) 0%fin)) as (ms & Hm & Hh);
    [by split; [|intros j _; exists 0]|apply fresh_lock_wf|by vm_compute|apply rtc_refl|].
  destruct (solo_run_lift demo_ctl 1 two_nodes 1000 400 60800 false two_nodes_same_lock cs1 _ ms 0%fin Hs1 Hm)
    as (cs & Hc & Hs). exists cs. split; [|by eapply holds_cholds].
  exists cs0. split; [exact Hi|]. etrans; [exact Hr|]. eapply rtc_l; [exists (Some (Start 0%fin)); exact Hst|].
  eapply rtc_subrel; [|exact Hc]. intros x y (l & _ & Hl). by exists l.
Qed.



Lemma device_well_formed_witness :
  ∃ cs : cstate 2, cholds cs 0%fin ∧ block_at demo_ctl 0 (c_dev cs) = Some (control_block demo_ctl).
Proof.
  destruct node0_holds_device as (cs & Hr & Hh). exists cs. split; [exact Hh|].
  destruct (device_well_formed demo_ctl 1 two_nodes 1000 400 60800 false cs
              two_nodes_same_lock (wt_cfg _ _ _ _ two_nodes_timed) Hr) as (H & _).
  exact H.
Defined.
