(* ===== verification/SfexEarly.v ===== *)
(** * sfex: SIGTERM before the lock is held

    main installs the handler of SIGTERM before the acquisition.  The machine
    of SfexMutex is run by an executable scheduler on a sequence of steps that
    ends with two holders: mutual exclusion needs that SIGTERM comes only to
    daemons that hold the lock. *)

From stdpp Require Import fin functions fin_sets finite.
From S2P Require Import Prelude CString SfexLib SfexTools SfexDaemon SfexMutex.
#[local] Open Scope Z_scope.

(** ** The scheduler *)

Section scheduler.
Context {n : nat} (cfg : fin n → config) (hz delta window : Z) (early : bool).

Definition in_time (t : Z) (ns : nstate) : bool :=
  match ns with Live _ _ _ hi => t <=? hi | Off _ => true end.

(** The step of a label, if it can be made. *)
Definition exec (ch : label n) (s : mstate n) : option (mstate n) :=
  match ch with
  | Tick t =>
      if (now s <=? t) && forallb (λ i, in_time t (node s i)) (enum (fin n))
      then Some (MState t (disk s) (writes s) (node s)) else None
  | Start i =>
      match node s i with
      | Off t0 => if t0 + delta <? now s then Some (started cfg delta s i) else None
      | _ => None
      end
  | Crash i =>
      match node s i with
      | Live _ _ _ _ => Some (put s i (Off (now s)))
      | _ => None
      end
  | Term i st =>
      match node s i with
      | Live m _ _ _ =>
          if takes_sigterm early m
          then Some (put s i (Live Leaving (quit_handler (cfg i) st) (now s) (now s + delta)))
          else None
      | _ => None
      end
  | Loop i =>
      match node s i with
      | Live _ (PRet st) _ _ =>
          Some (put s i (Live Looping (daemon_turn (cfg i) st) (now s) (now s + delta)))
      | _ => None
      end
  | End_ i =>
      match node s i with
      | Live _ p lo _ =>
          if lo <=? now s then
            match pstep p 0 (disk s) with
            | Some EEnd => Some (put s i (Off (now s)))
            | _ => None
            end
          else None
      | _ => None
      end
  | Act i c =>
      match node s i with
      | Live m p lo _ =>
          if lo <=? now s then
            match pstep p c (disk s) with
            | Some (EGo p' d wrote t) =>
                if negb wrote || (since (now s - window) (writes s) <? 999)
                then Some (MState (now s) d (if wrote then now s :: writes s else writes s)
                       (<[i := Live m p' (now s + hz * t) (now s + hz * t + delta)]> (node s)))
                else None
            | _ => None
            end
          else None
      | _ => None
      end
  end.

Fixpoint execs (chs : list (label n)) (s : mstate n) : option (mstate n) :=
  match chs with
  | [] => Some s
  | ch :: chs' => s' ← exec ch s; execs chs' s'
  end.

Lemma pstep_end {A} (p : prog A) c c' d : pstep p c d = Some EEnd → pstep p c' d = Some EEnd.
Proof. by destruct p. Qed.

Lemma in_time_spec t (s : mstate n) :
  forallb (λ i, in_time t (node s i)) (enum (fin n)) = true ↔
  ∀ i m p lo hi, node s i = Live m p lo hi → t ≤ hi.
Proof.
  rewrite forallb_forall. split.
  - intros H i m p lo hi Hi. assert (Ht : in_time t (node s i) = true)
      by (apply H, list_elem_of_In, elem_of_enum). rewrite Hi in Ht. cbn [in_time] in Ht. lia.
  - intros H i _. unfold in_time. destruct (node s i) as [|m p lo hi] eqn:Hi; [done|]. specialize (H _ _ _ _ _ Hi). lia.
Qed.

(** The scheduler makes exactly the steps of the machine. *)
Lemma exec_lstep l s s' : exec l s = Some s' ↔ lstep cfg hz delta window early s l s'.
Proof.
  split.
  - destruct l as [t|i|i|i st|i|i|i c]; cbn [exec].
    + destruct (_ && _) eqn:E; [|done]. intros [= <-]. apply andb_true_iff in E as [E1 E2].
      apply m_tick; [lia|]. by apply in_time_spec.
    + destruct (node s i) eqn:En; [|done]. destruct (_ <? _) eqn:E; [|done]. intros [= <-].
      eapply m_start; [done|lia].
    + destruct (node s i) eqn:En; [done|]. intros [= <-]. by eapply m_crash.
    + destruct (node s i) eqn:En; [done|]. destruct (takes_sigterm early m) eqn:E; [|done].
      intros [= <-]. by eapply m_term.
    + destruct (node s i) as [|m p lo hi] eqn:En; [done|]. destruct p; try done. intros [= <-]. by eapply m_loop.
    + destruct (node s i) as [|m p lo hi] eqn:En; [done|]. destruct (lo <=? now s) eqn:E; [|done].
      destruct (pstep p 0 (disk s)) as [[]|] eqn:Ep; try done. intros [= <-]. eapply m_exit; [done|lia|done].
    + destruct (node s i) as [|m p lo hi] eqn:En; [done|]. destruct (lo <=? now s) eqn:E; [|done].
      destruct (pstep p c (disk s)) as [[p' d wrote t|]|] eqn:Ep; try done.
      destruct (_ || _) eqn:Er; [|done]. intros [= <-].
      eapply m_act; [done|lia|done|]. intros ->. cbn in Er. lia.
  - intros [t H1 H2|i t0 Hn H1|i m p lo hi Hn|i m p lo hi st Hn H1|i m st lo hi Hn|i m p lo hi c Hn H1 H2
           |i m p lo hi c p' d wrote t Hn H1 H2 H3]; cbn [exec]; rewrite ?Hn; try done.
    + apply in_time_spec in H2. rewrite H2. by rewrite (proj2 (Z.leb_le _ _)) by done.
    + by rewrite (proj2 (Z.ltb_lt _ _)) by done.
    + by rewrite H1.
    + rewrite (proj2 (Z.leb_le _ _)) by done. by rewrite (pstep_end p c 0).
    + rewrite (proj2 (Z.leb_le _ _)) by done. rewrite H2. destruct wrote; [|done].
      rewrite (proj2 (Z.ltb_lt _ _)) by auto. done.
Qed.

(** What the scheduler reaches is reachable. *)
Lemma execs_rtc chs s s' : execs chs s = Some s' → rtc (mstep cfg hz delta window early) s s'.
Proof.
  revert s. induction chs as [|ch chs IH]; intros s; [intros [= <-]; apply rtc_refl|].
  cbn [execs]. destruct (exec ch s) as [s1|] eqn:E; [|done]. intros Hr.
  eapply rtc_l; [|by apply IH]. exists ch. by apply exec_lstep.
Qed.
End scheduler.

(** ** Two holders *)

(** The default timeouts, as in [two_nodes]. *)
Definition three_nodes (i : fin 3) : config :=
  Config 1 1 60 10 (str (match i with
                         | Fin.F1 => "node1"
                         | Fin.FS Fin.F1 => "node2"
                         | _ => "node3"
                         end)) (str "sfex").

Lemma fin3_cases (i : fin 3) : i = 0%fin ∨ i = 1%fin ∨ i = 2%fin.
Proof. inv_fin i; [by left|]. intros i. destruct (fin2_cases i) as [-> | ->]; auto. Qed.

Lemma three_nodes_timed : well_timed three_nodes 1000 400 60800.
Proof.
  constructor; try lia; intros i; destruct (fin3_cases i) as [-> | [-> | ->]];
    try (cbn; lia);
    try (constructor; [split; [by apply (bool_decide_unpack _)|vm_compute; lia]|..];
         vm_compute; split; discriminate);
    intros j; destruct (fin3_cases j) as [-> | [-> | ->]]; try done; cbn; lia.
Qed.

(** Node 1 died with the lock. *)
Definition stale_disk : mstate 3 :=
  MState 0 (my_lock (three_nodes 0%fin) 7) [] (λ _, Off 0).

(** Node 2 has waited lock_timeout and decides to take the lock; node 1 has
    started again, and SIGTERM comes before it has read the record.  Its handler
    reads its old record; node 2 takes the lock, with counter 8, which node 3
    reads; then the handler writes the old record, unlocked.  Node 2 sees the
    collision and ends. *)
Definition rewound : list (label 3) :=
  [Tick 401; Start 1%fin; Act 1%fin 0; Act 1%fin 0;
   Tick 60401; Start 0%fin; Term 0%fin zero_statics; Act 1%fin 0; Act 0%fin 0; Act 1%fin 0; Act 1%fin 0;
   Start 2%fin; Act 2%fin 0; Act 2%fin 0; Act 0%fin 0; End_ 0%fin;
   Tick 61401; Act 1%fin 0; End_ 1%fin].

(** A minute later node 2 starts again and takes the free lock, with counter 8:
    node 3, back from lock_timeout, finds the counter it had read. *)
Definition stolen : list (label 3) :=
  [Tick 119401; Start 1%fin; Act 1%fin 0; Act 1%fin 0; Act 1%fin 0;
   Tick 120401; Act 1%fin 0; Act 2%fin 0; Act 1%fin 0; Act 1%fin 0; Loop 1%fin;
   Act 2%fin 0; Act 2%fin 0; Act 1%fin 0;
   Tick 121401; Act 2%fin 0; Act 2%fin 0; Act 2%fin 0; Loop 2%fin].

Definition is_looping (ns : nstate) : bool :=
  match ns with Live Looping _ _ _ => true | _ => false end.

Lemma is_looping_spec {n} (s : mstate n) i : is_looping (node s i) = true → holds s i.
Proof.
  unfold holds. destruct (node s i) as [t|[] p lo hi]; try done. intros _. by exists p, lo, hi.
Qed.

Lemma stale_disk_initial : initial stale_disk.
Proof.
  split; [|split; [reflexivity|reflexivity]].
  apply my_lock_wf; [apply (wt_cfg _ _ _ _ three_nodes_timed)|unfold SFEX_MAX_COUNT; lia].
Qed.

(** Evaluated once; the rest only uses the two bits. *)
Lemma both_looping :
  match execs three_nodes 1000 400 60800 true (rewound ++ stolen) stale_disk with
  | Some s => is_looping (node s 1%fin) && is_looping (node s 2%fin)
  | None => false
  end = true.
Proof. vm_compute. reflexivity. Qed.

(** SIGTERM during the acquisition breaks mutual exclusion: with timeouts that
    suffice otherwise, a run ends with two nodes in their main loops.  The
    handler unlocks a record that its daemon has not acquired, and sets its
    counter back, so that a version of the record comes twice. *)
Theorem early_sigterm_two_holders :
  well_timed three_nodes 1000 400 60800 ∧
  ∃ s, reachable three_nodes 1000 400 60800 true s ∧ holds s 1%fin ∧ holds s 2%fin.
Proof.
  split; [apply three_nodes_timed|]. pose proof both_looping as Hl.
  pose proof (λ s, execs_rtc three_nodes 1000 400 60800 true (rewound ++ stolen) stale_disk s) as Hr.
  revert Hl Hr. generalize (execs three_nodes 1000 400 60800 true (rewound ++ stolen) stale_disk).
  intros [s|]; [|discriminate]. intros [H1 H2]%andb_true_iff Hr. exists s.
  split; [exists stale_disk; split; [exact stale_disk_initial|by apply Hr]|].
  split; by apply is_looping_spec.
Qed.
