(* ===== verification/FindIf.v ===== *)
(** * findif: choosing an interface for an IPv4 address (tools/findif.c)

    The tool reads its parameters from the environment, looks the address up
    in [/proc/net/route] (or asks the [route] command), and prints interface,
    netmask and broadcast address.  Everything it asks of the system is a
    field of [sysenv]; messages on stderr are not modelled.  Fixed-size
    buffers are lists of bytes, and an access outside one is [Fault]. *)

From S2P Require Import Prelude CString Inet.
#[local] Open Scope Z_scope.

(** ** Definitions *)

Definition OCF_SUCCESS : Z := 0.
Definition OCF_ERR_GENERIC : Z := 1.
Definition OCF_ERR_ARGS : Z := 2.
Definition OCF_ERR_CONFIGURED : Z := 6.
Definition MAXSTR : nat := 128.
Definition IFNAMSIZ : nat := 16.
Definition IFF_LOOPBACK : Z := 8.

(** What the program asks of its environment: variables, the two files, the
    output of a command, and the interface flags the kernel knows. *)
Record sysenv : Type := Sysenv {
  getenv : list Z → option (list Z);
  proc_net_route : option (list Z);
  proc_net_dev : option (list Z);
  popen : list Z → option (list Z);
  ROUTE : list Z;
  socket_ok : bool;
  siocgifflags : list Z → option Z }.

(** *** stdio and string routines used only here *)

Fixpoint is_prefix (p l : list Z) : bool :=
  match p, l with
  | [], _ => true
  | x :: p', y :: l' => (x =? y) && is_prefix p' l'
  | _ :: _, [] => false
  end.

(** Whether [strstr(l, p)] finds something. *)
Fixpoint strstr (l p : list Z) : bool :=
  is_prefix p l || match l with [] => false | _ :: l' => strstr l' p end.

Fixpoint skip_delims (c : Z) (l : list Z) : list Z :=
  match l with
  | x :: l' => if x =? c then skip_delims c l' else l
  | [] => []
  end.

(** [strtok] with one delimiter: the token and where the next call starts. *)
Definition strtok (l : list Z) (c : Z) : option (list Z * list Z) :=
  match skip_delims c l with
  | [] => None
  | l1 => let t := until c l1 in Some (t, drop (S (length t)) l1)
  end.

(** What is left of the buffer of the first call: the string up to the end of
    its first token. *)
Definition strtok_cut (l : list Z) (c : Z) : list Z :=
  let l1 := skip_delims c l in
  take (length l - length l1) l ++ until c l1.

(** [%lx] of [sscanf]: the stored [unsigned long] and the rest. *)
Definition scan_lx (l : list Z) : option (Z * list Z) :=
  let '(neg, l1) := scan_sign (skip_spaces l) in
  let conv (ds : list Z) (r : list Z) :=
    let v := digits_val 16 ds in
    Some (if ULONG_MAX <? v then ULONG_MAX else if neg : bool then u64 (- v) else v, r) in
  let plain :=
    let '(ds, r) := span_digits 16 l1 in
    match ds with [] => None | _ => conv ds r end in
  match l1 with
  | c :: x :: l2 =>
      if (c =? 48) && ((x =? 120) || (x =? 88))
      then let '(ds, r) := span_digits 16 l2 in conv ds r
      else plain
  | _ => plain
  end.

(** *** SearchUsingProcRoute *)

Record route : Type := Route {
  r_interface : list Z;
  r_dest : Z; r_gw : Z; r_flags : Z; r_refcnt : Z; r_use : Z;
  r_metric : Z; r_mask : Z }.

(** The [sscanf] call: [None] when it does not convert 8 fields, and a fault
    when the interface does not fit its [MAXSTR] bytes. *)
Definition scan_route (buf : list Z) : outcome (option route) :=
  let s := cstr buf in
  let interface := until 9 s in
  let rest := drop (length interface) s in
  if (length interface =? 0)%nat then Ret None
  else if (MAXSTR <=? length interface)%nat then Fault
  else Ret (
    '(dest, l) ← scan_lx rest;
    '(gw, l) ← scan_lx l;
    '(flags, l) ← scan_lx l;
    '(refcnt, l) ← scan_lx l;
    '(use, l) ← scan_lx l;
    '(metric, l) ← scan_lx l;
    '(mask, l) ← scan_lx l;
    Some (Route interface dest gw flags refcnt use (s64 metric) mask)).

(** The variables a search mechanism leaves in its caller. *)
Record search : Type := Search { best_if : list Z; best_netmask : Z }.

Definition route_matches (s_addr : Z) (r : route) : bool :=
  Z.land s_addr (r_mask r) =? u32 (Z.land (r_dest r) (r_mask r)).

(** The loop over the table: result code, best metric and variables. *)
Fixpoint proc_route_loop (s_addr : Z) (lines : list (list Z)) (best_metric : Z) (s : search)
    : outcome (Z * Z * search) :=
  match lines with
  | [] => Ret (OCF_SUCCESS, best_metric, s)
  | buf :: lines' =>
      o ← scan_route buf;
      match o with
      | Some r =>
          if route_matches s_addr r && (r_metric r <=? best_metric)
             && (best_netmask s <=? r_mask r)
          then proc_route_loop s_addr lines' (r_metric r)
                 (Search (strncpy (best_if s) (r_interface r) MAXSTR) (r_mask r))
          else proc_route_loop s_addr lines' best_metric s
      | None => Ret (OCF_ERR_GENERIC, best_metric, s)
      end
  end.

Definition SearchUsingProcRoute (e : sysenv) (address : list Z) (s_addr : Z) (s : search)
    : outcome (Z * search) :=
  match proc_net_route e with
  | None => Ret (OCF_ERR_GENERIC, s)
  | Some file =>
      match fgets_lines 2048 file with
      | [] => Ret (OCF_ERR_GENERIC, s)
      | _ :: lines =>
          '(rc, best_metric, s') ← proc_route_loop s_addr lines LONG_MAX (Search (best_if s) 0);
          Ret (if negb (rc =? OCF_SUCCESS) then rc
               else if best_metric =? LONG_MAX then OCF_ERR_GENERIC else OCF_SUCCESS, s')
      end
  end.

(** *** SearchUsingRouteCmd *)

Definition strip_trailing (l : list Z) : list Z :=
  rev (skip_spaces (rev (cstr l))).

(** One of the two tests of the loop: when the key is in the buffer, the part
    after the first colon less its first byte, cut to the variable. *)
Definition route_field (key : string) (size : nat) (st : list Z * list Z * Z)
    : list Z * list Z * Z :=
  let '(buf, var, done) := st in
  if strstr buf (str key) then
    let rest := match strtok buf 58 with Some (_, r) => r | None => [] end in
    match strtok rest 58 with
    | Some (cp, _) => (strtok_cut buf 58, take (size - 1) (drop 1 cp), done + 1)
    | None => (strtok_cut buf 58, var, done)
    end
  else st.

Fixpoint route_cmd_loop (lines : list (list Z)) (mask interface : list Z) (done : Z)
    : list Z * list Z :=
  match lines with
  | [] => (mask, interface)
  | line :: lines' =>
      if done <? 3 then
        let '(buf, mask', done) := route_field "mask:" 20 (strip_trailing line, mask, done) in
        let '(_, interface', done) := route_field "interface:" MAXSTR (buf, interface, done) in
        route_cmd_loop lines' mask' interface' done
      else (mask, interface)
  end.

Definition SearchUsingRouteCmd (e : sysenv) (address : list Z) (s_addr : Z) (s : search)
    : outcome (Z * search) :=
  let routecmd := take 127 (ROUTE e ++ [32] ++ str "-n get" ++ [32] ++ address) in
  match popen e routecmd with
  | None => Ret (OCF_ERR_GENERIC, s)
  | Some out =>
      let '(mask, interface) := route_cmd_loop (fgets_lines 2048 out) [] [] 0 in
      let mask := match mask with [] => str "255.255.255.255" | _ => mask end in
      let mask := if strncmp mask (str "default") 8 =? 0 then str "0.0.0.0" else mask in
      match inet_pton4 mask, inet_pton4 address with
      | Some mb, Some ab =>
          let maskbits := le_combine mb in
          if Z.land s_addr maskbits =? Z.land (le_combine ab) maskbits then
            match interface with
            | [] => Ret (OCF_ERR_GENERIC, s)
            | _ => Ret (OCF_SUCCESS, Search (strncpy (best_if s) interface MAXSTR) maskbits)
            end
          else Ret (OCF_ERR_GENERIC, s)
      | _, _ => Ret (OCF_ERR_CONFIGURED, s)
      end
  end.

(** *** Parameters and masks *)

Definition nonempty (o : option (list Z)) : bool :=
  match o with Some s => negb (hd 0 s =? 0) | None => false end.

(** [address], [netmaskbits], [bcast_arg] and [if_specified]. *)
Definition GetAddress (e : sysenv)
    : option (list Z) * option (list Z) * option (list Z) * option (list Z) :=
  let netmaskbits := getenv e (str "OCF_RESKEY_cidr_netmask") in
  (getenv e (str "OCF_RESKEY_ip"),
   if nonempty netmaskbits then netmaskbits else getenv e (str "OCF_RESKEY_netmask"),
   getenv e (str "OCF_RESKEY_broadcast"),
   getenv e (str "OCF_RESKEY_nic")).

(** [strspn(s, "0123456789")] *)
Fixpoint strspn_digits (s : list Z) : Z :=
  match s with
  | c :: s' => if isdigit c then 1 + strspn_digits s' else 0
  | [] => 0
  end.

Definition ConvertNetmaskBitsToInt (netmaskbits : list Z) : Z :=
  let nmblen := Z.min 3 (strlen netmaskbits) in
  if (2 <? nmblen) || (nmblen =? 0) || negb (strspn_digits (cstr netmaskbits) =? nmblen)
  then -1 else atoi netmaskbits.

(** [usage(ec)] ends the process. *)
Definition usage {A} (ec : Z) : outcome A := Exited ec.

Definition ValidateNetmaskBits (bits : Z) : outcome Z :=
  if (bits <? 1) || (32 <? bits) then usage OCF_ERR_CONFIGURED
  else
    let netmask := Z.shiftl 1 (32 - bits) - 1 in
    let netmask := Z.land (Z.lnot netmask) 4294967295 in
    Ret (htonl netmask).

(** The loop [for (j = 0; j <= 32; ++j)], with [n] values of [j] left. *)
Fixpoint lowest_bit (n : nat) (j netmask : Z) : Z :=
  match n with
  | O => j
  | S n' => if Z.testbit netmask j then j else lowest_bit n' (j + 1) netmask
  end.

Definition netmask_bits (netmask : Z) : Z :=
  32 - lowest_bit 33 0 (Z.land netmask 4294967295).

Definition ConvertQuadToInt (dest : list Z) : Z :=
  match inet_pton4 dest with
  | None => -1
  | Some bs => netmask_bits (ntohl (le_combine bs))
  end.

(** *** Interfaces *)

Record ifreq : Type := Ifreq { ifr_name : list Z; ifr_flags : Z }.

(** [strchr] over a buffer: leaving it is an error. *)
Definition strchr_buf (buf : list Z) (c : Z) : outcome (option (list Z)) :=
  match strchr (cstr buf) c with
  | Some r => Ret (Some r)
  | None => if bool_decide (0 ∈ buf) then Ret None else Fault
  end.

(** [ifname] is the buffer holding the name. *)
Definition ValidateIFName (e : sysenv) (ifname : list Z) (ifr : ifreq) : outcome (Z * ifreq) :=
  if negb (socket_ok e) then Ret (-2, ifr)
  else
    let name := take 15 (strncpy (ifr_name ifr) ifname 15) ++ [0] in
    _ ← strchr_buf ifname 58;
    match siocgifflags e (cstr name) with
    | None => Ret (-1, Ifreq name (ifr_flags ifr))
    | Some fl => Ret (0, Ifreq name fl)
    end.

Definition zero_ifreq : ifreq := Ifreq (replicate 16 0) 0.

Definition is_loopback_interface (e : sysenv) (ifname : list Z) : outcome bool :=
  '(rc, ifr) ← ValidateIFName e ifname zero_ifreq;
  Ret (if rc <? 0 then false else negb (Z.land (ifr_flags ifr) IFF_LOOPBACK =? 0)).

(** The 16 bytes stored in [ifname], from the line in [buf]. *)
Definition get_ifname (buf : list Z) : option (list Z) :=
  let start := skip_spaces (cstr buf) in
  match start, strchr start 58 with
  | [], _ | _, None => None
  | _, Some _ => Some (strncpy_bytes (until 58 start) IFNAMSIZ)
  end.

Fixpoint loopback_loop (e : sysenv) (lines : list (list Z)) (output : list Z)
    : outcome (option (list Z)) :=
  match lines with
  | [] => Ret None
  | buf :: lines' =>
      match get_ifname buf with
      | None => loopback_loop e lines' output
      | Some name =>
          lo ← is_loopback_interface e name;
          if lo : bool then Ret (Some (strncpy output name IFNAMSIZ))
          else loopback_loop e lines' output
      end
  end.

(** [None] is the NULL result; otherwise the buffer [output]. *)
Definition get_first_loopback_netdev (e : sysenv) (output : list Z) : outcome (option (list Z)) :=
  match proc_net_dev e with
  | None => Ret None
  | Some file =>
      match fgets_lines 512 file with
      | _ :: _ :: lines => loopback_loop e lines output
      | _ => Ret None
      end
  end.

(** *** main *)

(** The bytes the program prints, most significant first. *)
Definition octets (x : Z) : list Z :=
  [Z.land (Z.shiftr x 24) 255; Z.land (Z.shiftr x 16) 255;
   Z.land (Z.shiftr x 8) 255; Z.land x 255].

(** Lines 695 to 758: the output. *)
Definition print_result (OutputInCIDR : bool) (s : search) (s_addr : Z)
    (bcast_arg : option (list Z)) : outcome (Z * list Z) :=
  let nm := htonl (best_netmask s) in
  let head := cstr (best_if s) ++ [9] ++ str "netmask " ++
              (if OutputInCIDR then dec_d (netmask_bits nm) else dotted (octets nm)) ++
              [9] ++ str "broadcast " in
  match bcast_arg with
  | Some b =>
      if negb (hd 0 b =? 0) then
        match inet_pton4 b with
        | None => usage OCF_ERR_CONFIGURED
        | Some _ => Ret (0, head ++ cstr b ++ [10])
        end
      else Ret (0, head ++ dotted (octets (htonl (Z.lor s_addr (Z.lnot (best_netmask s))))) ++ [10])
  | None => Ret (0, head ++ dotted (octets (htonl (Z.lor s_addr (Z.lnot (best_netmask s))))) ++ [10])
  end.

(** Lines 672 to 693: the netmask. *)
Definition choose_netmask (e : sysenv) (address : list Z) (given : option Z) (s : search)
    : outcome (Z + search) :=
  match given with
  | Some netmask => Ret (inr (Search (best_if s) netmask))
  | None =>
      if best_netmask s =? 0 then
        if strncmp address (str "127") 3 =? 0 then
          o ← get_first_loopback_netdev e (best_if s);
          Ret (match o with
               | Some out => inr (Search out 255)
               | None => inl OCF_ERR_GENERIC
               end)
        else Ret (inl OCF_ERR_GENERIC)
      else Ret (inr s)
  end.

(** Lines 640 to 670: the interface. *)
Definition choose_interface (e : sysenv) (address : list Z) (s_addr : Z)
    (if_specified : option (list Z)) (s : search) : outcome (Z + search) :=
  if nonempty if_specified then
    let name := default [] if_specified ++ [0] in
    '(rc, _) ← ValidateIFName e name zero_ifreq;
    if rc <? 0 then usage OCF_ERR_CONFIGURED
    else Ret (inr (Search (take 127 (strncpy (best_if s) name 127) ++ [0]) (best_netmask s)))
  else
    let s := Search (strncpy (best_if s) (str "UNKNOWN") 8) (best_netmask s) in
    '(rc, s) ← SearchUsingProcRoute e address s_addr s;
    if rc =? 0 then Ret (inr s)
    else
      '(rc, s) ← SearchUsingRouteCmd e address s_addr s;
      Ret (if rc =? 0 then inr s else inl rc).

(** Lines 620 to 637. *)
Definition given_netmask (netmaskbits : option (list Z)) : outcome (option Z) :=
  match netmaskbits with
  | Some nb =>
      if hd 0 nb =? 0 then Ret None
      else
        let nmbits := match strchr (cstr nb) 46 with
                      | Some _ => ConvertQuadToInt nb
                      | None => ConvertNetmaskBitsToInt nb
                      end in
        if nmbits <? 0 then usage OCF_ERR_CONFIGURED
        else m ← ValidateNetmaskBits nmbits; Ret (Some m)
  | None => Ret None
  end.

(** [main] after its arguments: the return code and the standard output;
    [garbage] is the initial content of the local [best_if]. *)
Definition findif_run (e : sysenv) (OutputInCIDR : bool) (garbage : list Z)
    : outcome (Z * list Z) :=
  let '(address, netmaskbits, bcast_arg, if_specified) := GetAddress e in
  match address with
  | None => usage OCF_ERR_CONFIGURED
  | Some address =>
      if hd 0 address =? 0 then usage OCF_ERR_CONFIGURED
      else match inet_pton4 address with
      | None => usage OCF_ERR_CONFIGURED
      | Some inb =>
          given ← given_netmask netmaskbits;
          o ← choose_interface e address (le_combine inb) if_specified (Search garbage UINT_MAX);
          match o with
          | inl rc => Ret (rc, [])
          | inr s =>
              o ← choose_netmask e address given s;
              match o with
              | inl rc => Ret (rc, [])
              | inr s => print_result OutputInCIDR s (le_combine inb) bcast_arg
              end
          end
      end
  end.

Definition findif_main (e : sysenv) (argv : list (list Z)) (garbage : list Z)
    : outcome (Z * list Z) :=
  match argv with
  | [_] => findif_run e false garbage
  | [_; a] =>
      if strncmp a (str "-C") 3 =? 0 then findif_run e true garbage else usage OCF_ERR_ARGS
  | _ => usage OCF_ERR_ARGS
  end.

(** ** Specifications *)

(** The netmask of a prefix length, in host order, and what it means for two
    addresses to agree on a prefix. *)
Definition prefix_mask (p : Z) : Z := 4294967296 - 2 ^ (32 - p).
Definition in_prefix (addr dest p : Z) : Prop := addr / 2 ^ (32 - p) = dest / 2 ^ (32 - p).

(** The lines of a routing table and the routes they read as. *)
Definition table (lines : list (list Z)) (rs : list route) : Prop :=
  Forall2 (λ l r, scan_route l = Ret (Some r)) lines rs.

(** A file whose lines after the header are [lines]. *)
Definition route_file (e : sysenv) (lines : list (list Z)) : Prop :=
  ∃ file hdr, proc_net_route e = Some file ∧ fgets_lines 2048 file = hdr :: lines.

(** ** Lemmas *)

Lemma ValidateNetmaskBits_run b :
  1 ≤ b ≤ 32 → ValidateNetmaskBits b = Ret (htonl (prefix_mask b)).
Proof.
  intros Hb. unfold ValidateNetmaskBits. ztest. cbn [orb]. do 2 f_equal. apply Z.eqb_eq.
  apply (range_forallb (λ b, Z.land (Z.lnot (Z.shiftl 1 (32 - b) - 1)) 4294967295
                             =? prefix_mask b) 1 32); [reflexivity|lia].
Qed.

Lemma prefix_mask_range p : 0 ≤ p ≤ 32 → 0 ≤ prefix_mask p < 4294967296.
Proof.
  intros Hp. unfold prefix_mask.
  pose proof (Z.pow_pos_nonneg 2 (32 - p) ltac:(lia) ltac:(lia)).
  pose proof (Z.pow_le_mono_r 2 (32 - p) 32 ltac:(lia) ltac:(lia)).
  change (2 ^ 32) with 4294967296 in *. lia.
Qed.

(** In network byte order, longer prefixes are still larger numbers. *)
Lemma prefix_mask_order p q :
  0 ≤ p ≤ 32 → 0 ≤ q ≤ 32 → htonl (prefix_mask p) ≤ htonl (prefix_mask q) ↔ p ≤ q.
Proof.
  intros Hp Hq.
  assert (H : forallb (λ p, forallb (λ q,
            Bool.eqb (htonl (prefix_mask p) <=? htonl (prefix_mask q)) (p <=? q)) (seqZ 0 33))
            (seqZ 0 33) = true) by (vm_compute; reflexivity).
  apply (range_forallb _ 0 33 p) in H; [|lia]. apply (range_forallb _ 0 33 q) in H; [|lia].
  apply eqb_prop in H. rewrite <-!Z.leb_le, H. done.
Qed.

Lemma lowest_bit_spec n j z :
  0 ≤ j →
  let k := lowest_bit n j z in
  j ≤ k ≤ j + Z.of_nat n ∧ (∀ i, j ≤ i < k → Z.testbit z i = false) ∧
  (k < j + Z.of_nat n → Z.testbit z k = true).
Proof.
  revert j. induction n as [|n IH]; intros j Hj; cbn [lowest_bit].
  - split_and!; [lia|lia|intros; lia|lia].
  - destruct (Z.testbit z j) eqn:E; [split_and!; [lia|lia|intros; lia|done]|].
    destruct (IH (j + 1)) as (H1 & H2 & H3); [lia|]. split_and!; [lia|lia| |].
    + intros i Hi. destruct (decide (i = j)) as [->|]; [done|]. apply H2. lia.
    + intros. apply H3. lia.
Qed.

Lemma u32_octets x : octets x = be_split 4 x.
Proof.
  assert (H : ∀ z, Z.land z 255 = z mod 256).
  { intros z. change 255 with (Z.ones 8). by rewrite Z.land_ones by lia. }
  unfold octets, be_split. rewrite !H, !Z.shiftr_div_pow2 by lia.
  cbn [le_split rev app].
  rewrite !Z.div_div by lia. done.
Qed.

Lemma dec_u_hd x : 0 ≤ x < 10 ^ 20 → ∃ c l, dec_u x = c :: l ∧ isdigit c = true.
Proof.
  intros Hx. destruct (dec_u_spec x Hx) as (ds & -> & Hds & Hne & _).
  destruct Hds as [|d ds Hd _]; [done|]. exists (48 + d), ((λ d, 48 + d) <$> ds).
  split; [done|]. unfold isdigit. by ztest.
Qed.

Lemma dotted_text bs : Forall is_byte bs → c_text (dotted bs).
Proof.
  intros H. destruct bs as [|a [|b [|c [|d [|]]]]]; try (constructor; fail).
  apply Forall_cons_1 in H as [Ha H]. apply Forall_cons_1 in H as [Hb H].
  apply Forall_cons_1 in H as [Hc H]. apply Forall_cons_1 in H as [Hd _].
  unfold dotted. rewrite !c_text_app. unfold is_byte in *.
  assert (c_text [46]) by (repeat constructor). auto 10 using dec_u_text_byte.
Qed.

Lemma dotted_has_dot bs r :
  Forall is_byte bs → length bs = 4%nat → is_Some (strchr (dotted bs ++ r) 46).
Proof.
  intros _ Hl. destruct bs as [|a [|b [|c [|d [|]]]]]; try done. unfold dotted.
  rewrite <-!app_assoc. generalize (dec_u a). intros l. induction l as [|x l IH]; simpl; [eauto|].
  destruct (x =? 46); eauto.
Qed.

(** *** The routing table *)

Lemma until_cstr c l : Forall (λ x, x ≠ 0) (until c (cstr l)).
Proof.
  induction l as [|x l IH]; simpl; [constructor|].
  destruct (x =? 0) eqn:E; zbool; simpl; [constructor|].
  destruct (x =? c); constructor; auto.
Qed.

Lemma cstr_nonzero l r : Forall (λ x, x ≠ 0) l → cstr (l ++ 0 :: r) = l.
Proof.
  induction 1 as [|x l Hx _ IH]; simpl; [done|]. ztest. by rewrite IH.
Qed.

Lemma cstr_idemp l : cstr (cstr l) = cstr l.
Proof.
  induction l as [|x l IH]; simpl; [done|]. destruct (x =? 0) eqn:E; simpl; [done|].
  by rewrite E, IH.
Qed.

(** The string [strncpy] leaves when the source is shorter than the bound. *)
Lemma strncpy_cstr dst src n :
  (length (cstr src) < n)%nat → cstr (strncpy dst src n) = cstr src.
Proof.
  intros H. unfold strncpy, strncpy_bytes. rewrite take_ge by lia.
  destruct (n - length (cstr src))%nat as [|k] eqn:E; [lia|]. cbn [replicate].
  rewrite <-!app_assoc. cbn [app]. rewrite cstr_nonzero; [done|].
  clear. induction src as [|x l IH]; simpl; [constructor|].
  destruct (x =? 0) eqn:E; zbool; constructor; auto.
Qed.

Lemma scan_route_interface l r :
  scan_route l = Ret (Some r) →
  cstr (r_interface r) = r_interface r ∧ (length (r_interface r) < MAXSTR)%nat.
Proof.
  unfold scan_route. destruct (_ =? 0)%nat; [done|].
  destruct (MAXSTR <=? _)%nat eqn:E; [done|]. apply Nat.leb_gt in E. intros [= H].
  repeat (apply bind_Some in H as ([? ?] & _ & H)). injection H as <-. cbn [r_interface].
  split; [|done]. pose proof (until_cstr 9 l) as Hz. revert Hz. clear.
  generalize (until 9 (cstr l)). intros k. induction 1 as [|x k Hx _ IH]; simpl; [done|].
  ztest. by rewrite IH.
Qed.

(** [r] is at least as good as [r'] in both orders of the search. *)
Definition covers (r r' : route) : Prop := r_metric r ≤ r_metric r' ∧ r_mask r' ≤ r_mask r.

(** What the loop selects: the last entry that no later or better entry
    replaces. *)
Definition selected (s_addr : Z) (rs : list route) (i : nat) (r : route) : Prop :=
  rs !! i = Some r ∧ route_matches s_addr r = true ∧
  ∀ j r', rs !! j = Some r' → route_matches s_addr r' = true → covers r' r →
          covers r r' ∧ (j ≤ i)%nat.

Lemma proc_route_loop_spec s_addr lines rs bm s :
  table lines rs →
  ∃ bm' s', proc_route_loop s_addr lines bm s = Ret (OCF_SUCCESS, bm', s') ∧
    ((bm' = bm ∧ s' = s ∧
      ∀ r', r' ∈ rs → route_matches s_addr r' = true →
            ¬ (r_metric r' ≤ bm ∧ best_netmask s ≤ r_mask r')) ∨
     ∃ i r, selected s_addr rs i r ∧ bm' = r_metric r ∧ best_netmask s' = r_mask r ∧
            cstr (best_if s') = r_interface r ∧ r_metric r ≤ bm ∧ best_netmask s ≤ r_mask r).
Proof.
  intros Ht. revert bm s. induction Ht as [|l r0 lines rs Hl _ IH]; intros bm s.
  { do 2 eexists. split; [reflexivity|]. left. split_and!; [done|done|].
    intros r' []%not_elem_of_nil. }
  cbn [proc_route_loop]. rewrite Hl. cbn [mbind outcome_bind].
  destruct (_ && _) eqn:E.
  - apply andb_true_iff in E as [E Hm]. apply andb_true_iff in E as [Hmat Hmet]. zbool.
    destruct (IH (r_metric r0) (Search (strncpy (best_if s) (r_interface r0) MAXSTR) (r_mask r0)))
      as (bm' & s' & -> & [(-> & -> & Hno)|(i & r & (Hi & Hr & Hsel) & -> & Hbn & Hbi & H1 & H2)]);
      cbn [best_netmask best_if] in *.
    + do 2 eexists. split; [reflexivity|]. right. exists 0%nat, r0. split_and!; try done.
      * split_and!; [done|done|]. intros [|j] r' Hj Hr' [Hc1 Hc2].
        { simplify_eq/=. by split_and!. }
        exfalso. apply (Hno r'); [by eapply list_elem_of_lookup_2|done|done].
      * destruct (scan_route_interface _ _ Hl) as [Hc Hlen].
        cbn [best_if]. rewrite strncpy_cstr by (rewrite Hc; done). done.
    + do 2 eexists. split; [reflexivity|]. right. exists (S i), r. split_and!; try done; [|lia|lia].
      split_and!; [done|done|]. intros [|j] r' Hj Hr' [Hc1 Hc2].
      { simplify_eq/=. split; [split; lia|lia]. }
      destruct (Hsel j r') as [? ?]; [done..|by split|]. split; [done|lia].
  - destruct (IH bm s) as (bm' & s' & -> & [(-> & -> & Hno)|(i & r & (Hi & Hr & Hsel) & -> & Hbn & Hbi & H1 & H2)]).
    + do 2 eexists. split; [reflexivity|]. left. split_and!; [done|done|].
      intros r' [->|Hin]%elem_of_cons Hr' [Hc1 Hc2]; [|by apply (Hno r')].
      rewrite Hr' in E. cbn [andb] in E. zbool; lia.
    + do 2 eexists. split; [reflexivity|]. right. exists (S i), r. split_and!; try done.
      split_and!; [done|done|]. intros [|j] r' Hj Hr' [Hc1 Hc2].
      { simplify_eq/=. rewrite Hr' in E. cbn [andb] in E. zbool; lia. }
      destruct (Hsel j r') as [? ?]; [done..|by split|]. split; [done|lia].
Qed.

(** A table that is read without error: the result of the whole search. *)
Lemma proc_route_search e address s_addr s lines rs :
  route_file e lines → table lines rs →
  (∀ r, r ∈ rs → route_matches s_addr r = true → r_metric r < LONG_MAX ∧ 0 ≤ r_mask r) →
  ∃ rc s', SearchUsingProcRoute e address s_addr s = Ret (rc, s') ∧
    ((rc = OCF_ERR_GENERIC ∧ ∀ r, r ∈ rs → route_matches s_addr r = false) ∨
     (rc = OCF_SUCCESS ∧ ∃ i r, selected s_addr rs i r ∧ cstr (best_if s') = r_interface r ∧
        best_netmask s' = r_mask r)).
Proof.
  intros (file & hdr & Hf & Hg) Ht Hr. unfold SearchUsingProcRoute. rewrite Hf, Hg.
  destruct (proc_route_loop_spec s_addr lines rs LONG_MAX (Search (best_if s) 0) Ht)
    as (bm' & s' & -> & Hcase). cbn [mbind outcome_bind best_netmask] in *.
  change (negb (OCF_SUCCESS =? OCF_SUCCESS)) with false. cbv iota.
  do 2 eexists. split; [reflexivity|].
  destruct Hcase as [(-> & -> & Hno)|(i & r & Hsel & -> & Hbn & Hbi & _)].
  - left. split; [by rewrite Z.eqb_refl|]. intros r Hin.
    destruct (route_matches s_addr r) eqn:E; [|done]. exfalso.
    destruct (Hr r Hin E). apply (Hno r Hin E). lia.
  - right. destruct Hsel as (Hi & Hm & Hsel).
    destruct (Hr r) as [Hlt _]; [by eapply list_elem_of_lookup_2|done|].
    split; [by ztest|]. exists i, r. split_and!; try done.
Qed.

(** A route matches when the addresses agree on the prefix of its mask. *)
Lemma route_matches_prefix s_addr r p :
  0 ≤ s_addr < 4294967296 → 0 ≤ r_dest r < 4294967296 → 0 ≤ p ≤ 32 →
  r_mask r = htonl (prefix_mask p) →
  route_matches s_addr r = true ↔ in_prefix (ntohl s_addr) (ntohl (r_dest r)) p.
Proof.
  intros Hs Hd Hp Hm. unfold route_matches, in_prefix. rewrite Z.eqb_eq, Hm.
  pose proof (htonl_range (prefix_mask p)) as Hh. pose proof (prefix_mask_range p Hp) as Hpm.
  assert (Hland : ∀ x, 0 ≤ x < 4294967296 →
    0 ≤ Z.land x (htonl (prefix_mask p)) < 4294967296) by (intros; apply (land_range _ _ 32); lia).
  assert (Heq : ∀ x, 0 ≤ x < 4294967296 →
    htonl (Z.land x (htonl (prefix_mask p))) = ntohl x / 2 ^ (32 - p) * 2 ^ (32 - p)).
  { intros x Hx. rewrite htonl_land, htonl_involutive, (Z.mod_small (prefix_mask p)) by done.
    apply land_high; [apply htonl_range|lia]. }
  assert (0 < 2 ^ (32 - p)) by (apply Z.pow_pos_nonneg; lia).
  unfold u32. rewrite (Z.mod_small (Z.land (r_dest r) _)) by auto. split.
  - intros He%(f_equal htonl). rewrite !Heq in He by done.
    eapply Z.mul_reg_r; [|exact He]. lia.
  - intros He. apply htonl_inj; auto. rewrite !Heq by done. by rewrite He.
Qed.

(** *** What the kernel prints *)

Definition hexdig (d : Z) : Z := if d <? 10 then 48 + d else 55 + d.
(** [%08X] and [%04X] of values that fit. *)
Definition hexX (n : nat) (z : Z) : list Z := hexdig <$> hex_digits_be n z.

(** A line of [/proc/net/route]: ["%s\t%08X\t%08X\t%04X\t%d\t%u\t%d\t%08X\t..."]. *)
Definition kernel_line (iface : list Z) (dest gw flags refcnt use metric mask : Z)
    (tail : list Z) : list Z :=
  iface ++ [9] ++ hexX 8 dest ++ [9] ++ hexX 8 gw ++ [9] ++ hexX 4 flags ++ [9] ++
  dec_u refcnt ++ [9] ++ dec_u use ++ [9] ++ dec_u metric ++ [9] ++ hexX 8 mask ++ [9] ++ tail.

(** A decimal numeral read as a hexadecimal one. *)
Fixpoint as_hex_fuel (fuel : nat) (n : Z) : Z :=
  match fuel with
  | O => 0
  | S f => if n <? 10 then n else 16 * as_hex_fuel f (n / 10) + n mod 10
  end.
Definition as_hex (n : Z) : Z := as_hex_fuel 20 n.

Lemma hexdig_digit d : 0 ≤ d < 16 → digit_of 16 (hexdig d) = Some d.
Proof.
  intros Hd.
  assert (H : forallb (λ d, bool_decide (digit_of 16 (hexdig d) = Some d)) (seqZ 0 16) = true)
    by (vm_compute; reflexivity).
  apply (range_forallb _ 0 16 d) in H; [|lia]. by apply bool_decide_eq_true in H.
Qed.

Lemma hexdig_char d : 0 ≤ d < 16 → 48 ≤ hexdig d ≤ 57 ∨ 65 ≤ hexdig d ≤ 70.
Proof. intros Hd. unfold hexdig. destruct (d <? 10) eqn:E; zbool; lia. Qed.

Lemma span_hexdig ds r :
  Forall (λ d, 0 ≤ d < 16) ds → (∀ c l, r = c :: l → digit_of 16 c = None) →
  span_digits 16 ((hexdig <$> ds) ++ r) = (ds, r).
Proof.
  intros Hds Hr. induction Hds as [|d ds Hd _ IH].
  - destruct r as [|c r]; [done|]. cbn [fmap list_fmap app span_digits].
    by rewrite (Hr c r eq_refl).
  - rewrite fmap_cons. cbn [app span_digits]. rewrite hexdig_digit by done. by rewrite IH.
Qed.

(** One field of the line. *)
Lemma scan_lx_field ds r :
  Forall (λ d, 0 ≤ d < 16) ds → ds ≠ [] → 0 ≤ digits_val 16 ds ≤ ULONG_MAX →
  scan_lx (9 :: (hexdig <$> ds) ++ 9 :: r) = Some (digits_val 16 ds, 9 :: r).
Proof.
  intros Hds Hne Hv.
  assert (Hspan : span_digits 16 ((hexdig <$> ds) ++ 9 :: r) = (ds, 9 :: r)).
  { apply span_hexdig; [done|]. by intros c l [= <- <-]. }
  revert Hspan.
  destruct ds as [|d ds]; [done|]. pose proof Hds as [Hd Hds']%Forall_cons_1.
  rewrite fmap_cons. cbn [app]. intros Hspan. unfold scan_lx. cbn [skip_spaces].
  change (isspace 9) with true. cbv iota.
  pose proof (hexdig_char d Hd) as Hc.
  assert (Hsp : isspace (hexdig d) = false) by (unfold isspace; ztest; by destruct Hc; ztest).
  rewrite Hsp. remember (hexdig d) as c eqn:Ec in *.
  rewrite scan_sign_cons. ztest. cbv iota beta zeta.
  assert (H0x : ∀ x, (x =? 120) || (x =? 88) = false → (c =? 48) && ((x =? 120) || (x =? 88)) = false)
    by (intros x ->; apply andb_false_r).
  rewrite Hspan. ztest.
  destruct ds as [|d2 ds]; cbn [fmap list_fmap app].
  - rewrite H0x by done. reflexivity.
  - apply Forall_cons_1 in Hds' as [Hd2 _]. pose proof (hexdig_char d2 Hd2).
    rewrite H0x by (by ztest). reflexivity.
Qed.

Lemma dec_digits_hex f n acc :
  0 ≤ n < 10 ^ Z.of_nat f → (0 < f)%nat →
  ∃ ds, dec_digits f n acc = (hexdig <$> ds) ++ acc ∧ Forall (λ d, 0 ≤ d < 16) ds ∧ ds ≠ [] ∧
        digits_val 16 ds = as_hex_fuel f n.
Proof.
  revert n acc. induction f as [|f IH]; intros n acc Hn Hf; [lia|].
  cbn [dec_digits as_hex_fuel]. pose proof (Z.mod_pos_bound n 10 ltac:(lia)).
  assert (Hd : 48 + n mod 10 = hexdig (n mod 10)) by (unfold hexdig; by ztest).
  destruct (n <? 10) eqn:E; zbool.
  - exists [n]. rewrite Z.mod_small in * by lia. rewrite Hd. split_and!; [done| |done|].
    + repeat constructor; lia.
    + unfold digits_val. cbn. lia.
  - rewrite Nat2Z.inj_succ, Z.pow_succ_r in Hn by lia.
    assert (f ≠ O) by (intros ->; simpl in Hn; lia).
    destruct (IH (n / 10) ((48 + n mod 10) :: acc)) as (ds & -> & Hds & Hne & Hv).
    { split; [apply Z.div_pos; lia|]. apply Z.div_lt_upper_bound; lia. }
    { lia. }
    exists (ds ++ [n mod 10]). split_and!.
    + by rewrite fmap_app, <-app_assoc, Hd.
    + apply Forall_app. split; [done|]. repeat constructor; lia.
    + by destruct ds.
    + rewrite digits_val_snoc, Hv. lia.
Qed.

(** The hexadecimal reading of decimal numerals keeps their order. *)
Lemma as_hex_fuel_mono f n m :
  0 ≤ n → n < m → m < 10 ^ Z.of_nat f → as_hex_fuel f n < as_hex_fuel f m.
Proof.
  revert n m. induction f as [|f IH]; intros n m Hn Hnm Hm; [simpl in Hm; lia|].
  cbn [as_hex_fuel]. rewrite Nat2Z.inj_succ, Z.pow_succ_r in Hm by lia.
  assert (Hnonneg : ∀ k, 0 ≤ k → 0 ≤ as_hex_fuel f k).
  { clear. induction f as [|f IH]; intros k Hk; cbn [as_hex_fuel]; [lia|].
    destruct (k <? 10) eqn:E; zbool; [lia|].
    pose proof (IH (k / 10) ltac:(apply Z.div_pos; lia)).
    pose proof (Z.mod_pos_bound k 10 ltac:(lia)). lia. }
  pose proof (Z.div_mod n 10 ltac:(lia)). pose proof (Z.div_mod m 10 ltac:(lia)).
  pose proof (Z.mod_pos_bound n 10 ltac:(lia)). pose proof (Z.mod_pos_bound m 10 ltac:(lia)).
  destruct (n <? 10) eqn:E1, (m <? 10) eqn:E2; zbool; [lia| |lia|].
  - assert (0 < as_hex_fuel f (m / 10)); [|lia].
    apply Z.le_lt_trans with (as_hex_fuel f 0); [apply Hnonneg; lia|]. apply IH; lia.
  - destruct (decide (n / 10 = m / 10)) as [He|]; [rewrite He; lia|].
    pose proof (IH (n / 10) (m / 10) ltac:(lia) ltac:(lia) ltac:(lia)). lia.
Qed.

Lemma as_hex_le n m :
  0 ≤ n < 10 ^ 10 → 0 ≤ m < 10 ^ 10 → n ≤ m ↔ as_hex n ≤ as_hex m.
Proof.
  intros Hn Hm. unfold as_hex.
  assert (10 ^ 10 < 10 ^ Z.of_nat 20) by (vm_compute; reflexivity).
  pose proof (as_hex_fuel_mono 20 n m). pose proof (as_hex_fuel_mono 20 m n).
  destruct (Z.lt_trichotomy n m) as [?|[->|?]]; lia.
Qed.

Lemma as_hex_bound n : 0 ≤ n < 10 ^ 10 → 0 ≤ as_hex n ≤ 16 ^ 10.
Proof.
  intros Hn. split.
  - apply (proj1 (as_hex_le 0 n ltac:(lia) ltac:(lia))). lia.
  - transitivity (as_hex (10 ^ 10 - 1)); [|vm_compute; discriminate].
    apply (proj1 (as_hex_le n (10 ^ 10 - 1) ltac:(lia) ltac:(lia))). lia.
Qed.

Lemma scan_lx_dec n r :
  0 ≤ n < 10 ^ 10 → scan_lx (9 :: dec_u n ++ 9 :: r) = Some (as_hex n, 9 :: r).
Proof.
  intros Hn. pose proof (as_hex_bound n Hn) as Hb.
  destruct (dec_digits_hex 20 n []) as (ds & Hd & Hds & Hne & Hv);
    [assert (10 ^ 10 < 10 ^ Z.of_nat 20) by (vm_compute; reflexivity); lia|lia|].
  unfold dec_u. rewrite Hd, app_nil_r. fold (as_hex n) in Hv. rewrite <-Hv.
  apply scan_lx_field; [done|done|]. rewrite Hv. unfold ULONG_MAX. lia.
Qed.

Lemma scan_lx_hexX n z r :
  (0 < n ≤ 8)%nat → 0 ≤ z < 16 ^ Z.of_nat n →
  scan_lx (9 :: hexX n z ++ 9 :: r) = Some (z, 9 :: r).
Proof.
  intros Hn Hz. destruct (hex_digits_be_spec n z) as [Hds Hv]. rewrite Z.mod_small in Hv by done.
  unfold hexX. rewrite <-Hv at 2. apply scan_lx_field; [done| |].
  - unfold hex_digits_be. destruct n; [lia|]. cbn. by destruct (rev _).
  - rewrite Hv. pose proof (Z.pow_le_mono_r 16 (Z.of_nat n) 8 ltac:(lia) ltac:(lia)).
    change (16 ^ 8) with 4294967296 in *. unfold ULONG_MAX. lia.
Qed.

(** The words of [net_mask] arithmetic used by the output. *)
Lemma broadcast_word x b :
  0 ≤ b ≤ 32 → 0 ≤ x < 4294967296 →
  htonl (Z.lor x (Z.lnot (htonl (prefix_mask b)))) =
    ntohl x / 2 ^ (32 - b) * 2 ^ (32 - b) + (2 ^ (32 - b) - 1).
Proof.
  intros Hb Hx. rewrite htonl_lor.
  replace (htonl (Z.lnot (htonl (prefix_mask b)))) with (2 ^ (32 - b) - 1).
  { apply lor_low; [apply htonl_range|lia]. }
  symmetry. apply Z.eqb_eq.
  apply (range_forallb (λ b, htonl (Z.lnot (htonl (prefix_mask b))) =? 2 ^ (32 - b) - 1) 0 33);
    [vm_compute; reflexivity|lia].
Qed.

Lemma netmask_bits_prefix b : 0 ≤ b ≤ 32 → netmask_bits (prefix_mask b) = if b =? 0 then -1 else b.
Proof.
  intros Hb. apply Z.eqb_eq.
  apply (range_forallb (λ b, netmask_bits (prefix_mask b) =? if b =? 0 then -1 else b) 0 33);
    [vm_compute; reflexivity|lia].
Qed.

Lemma htonl_prefix_mask b : 0 ≤ b ≤ 32 → htonl (htonl (prefix_mask b)) = prefix_mask b.
Proof.
  intros Hb. rewrite htonl_involutive, Z.mod_small; [done|by apply prefix_mask_range].
Qed.

Lemma ConvertNetmaskBitsToInt_dec b : 1 ≤ b ≤ 32 → ConvertNetmaskBitsToInt (dec_u b) = b.
Proof.
  intros Hb. apply Z.eqb_eq.
  apply (range_forallb (λ b, ConvertNetmaskBitsToInt (dec_u b) =? b) 1 32);
    [vm_compute; reflexivity|lia].
Qed.

(** ** Properties *)

(** [C16] Netmasks: a prefix length is accepted exactly from 1 to 32; the mask it
    becomes has, in host order, its [b] most significant bits set and no
    other, and every way of writing it (the word, the dotted quad the program
    prints, the decimal number) converts back to [b]. *)
Theorem netmask_roundtrip b :
  if decide (1 ≤ b ≤ 32) then
    ∃ m, ValidateNetmaskBits b = Ret m ∧
      (∀ i, 0 ≤ i → Z.testbit (ntohl m) i = bool_decide (32 - b ≤ i < 32)) ∧
      netmask_bits (ntohl m) = b ∧
      ConvertQuadToInt (dotted (octets (ntohl m))) = b ∧
      ConvertNetmaskBitsToInt (dec_u b) = b
  else ValidateNetmaskBits b = Exited OCF_ERR_CONFIGURED.
Proof.
  destruct (decide _) as [Hb|Hb].
  2:{ unfold ValidateNetmaskBits, usage.
      destruct (b <? 1) eqn:E1, (32 <? b) eqn:E2; zbool; try done. lia. }
  exists (htonl (prefix_mask b)). unfold ntohl. rewrite htonl_prefix_mask by lia.
  pose proof (netmask_bits_prefix b ltac:(lia)) as Hbits.
  destruct (b =? 0) eqn:E; zbool; [lia|]. split_and!.
  - by apply ValidateNetmaskBits_run.
  - intros i Hi. unfold prefix_mask.
    replace (4294967296 - 2 ^ (32 - b)) with (Z.shiftl (Z.ones b) (32 - b)).
    2:{ rewrite Z.shiftl_mul_pow2, Z.ones_equiv by lia.
        rewrite <-Z.sub_1_r, Z.mul_sub_distr_r, <-Z.pow_add_r by lia.
        replace (b + (32 - b)) with 32 by lia. change (2 ^ 32) with 4294967296. lia. }
    rewrite Z.shiftl_spec by done. destruct (decide (i < 32 - b)).
    + rewrite Z.testbit_neg_r by lia. symmetry. apply bool_decide_false. lia.
    + rewrite Z.testbit_ones_nonneg by lia. apply eq_true_iff_eq.
      rewrite Z.ltb_lt, bool_decide_eq_true. lia.
  - done.
  - unfold ConvertQuadToInt. rewrite u32_octets.
    rewrite inet_pton4_quad by (apply be_split_bytes || apply be_split_length).
    change (le_combine (be_split 4 (prefix_mask b))) with (htonl (prefix_mask b)).
    unfold ntohl. by rewrite htonl_prefix_mask by lia.
  - by apply ConvertNetmaskBitsToInt_dec.
Qed.

(** A netmask given as a dotted quad is replaced by the mask of its lowest
    set bit: whatever the other bits are, also when they are not contiguous
    (255.0.255.0 is taken as /24), the accepted mask covers every bit from the
    lowest set one up, and only 0.0.0.0 is refused. *)
Theorem quad_netmask_contiguous bs :
  Forall is_byte bs → length bs = 4%nat →
  if decide (be_combine bs = 0) then given_netmask (Some (dotted bs)) = Exited OCF_ERR_CONFIGURED
  else ∃ k, 0 ≤ k < 32 ∧ Z.testbit (be_combine bs) k = true ∧
        (∀ i, 0 ≤ i < k → Z.testbit (be_combine bs) i = false) ∧
        given_netmask (Some (dotted bs)) = Ret (Some (htonl (prefix_mask (32 - k)))).
Proof.
  intros Hb Hl.
  assert (Hbe : 0 ≤ be_combine bs < 2 ^ 32).
  { pose proof (le_combine_bound (rev bs)) as H. rewrite length_rev, Hl in H.
    apply H. by apply Forall_rev. }
  assert (Hhd : (hd 0 (dotted bs) =? 0) = false).
  { destruct bs as [|a [|b [|c [|d [|]]]]]; try done. unfold dotted.
    apply Forall_cons_1 in Hb as [Ha _]. unfold is_byte in Ha.
    destruct (dec_u_hd a) as (x & r & -> & Hx); [lia|]. cbn. unfold isdigit in Hx. zbool.
    by ztest. }
  assert (Hdot : is_Some (strchr (cstr (dotted bs)) 46)).
  { rewrite cstr_text_nil by (by apply dotted_text).
    rewrite <-(app_nil_r (dotted bs)). by apply dotted_has_dot. }
  destruct Hdot as [x Hdot]. unfold given_netmask. rewrite Hhd, Hdot. unfold ConvertQuadToInt.
  rewrite inet_pton4_quad by done. unfold ntohl. rewrite htonl_bytes by done.
  unfold netmask_bits. change 4294967295 with (Z.ones 32).
  rewrite Z.land_ones, Z.mod_small by lia.
  destruct (lowest_bit_spec 33 0 (be_combine bs) ltac:(lia)) as (H1 & H2 & H3).
  set (k := lowest_bit 33 0 (be_combine bs)) in *. clearbody k.
  destruct (decide (be_combine bs = 0)) as [Hz|Hz].
  - rewrite Hz in H3. rewrite Z.bits_0 in H3.
    assert (k = 33) as -> by (destruct (decide (k < 33)); [exfalso; specialize (H3 ltac:(lia)); done|lia]).
    done.
  - assert (Hk : k < 32).
    { destruct (decide (k < 32)); [done|]. exfalso. apply Hz. apply Z.bits_inj'. intros i Hi.
      rewrite Z.bits_0. destruct (decide (i < 32)); [apply H2; lia|].
      apply Z.bits_above_log2; [lia|].
      destruct (decide (be_combine bs = 0)) as [->|]; [simpl; lia|].
      pose proof (proj1 (Z.log2_lt_pow2 (be_combine bs) 32 ltac:(lia)) ltac:(lia)). lia. }
    exists k. split_and!; [lia|done|apply H3; lia|exact H2|].
    ztest. by rewrite ValidateNetmaskBits_run by lia.
Qed.

(** The search in /proc/net/route.  On a table that reads without error the
    search reports "no route" exactly when no entry matches; otherwise it
    leaves in its variables the interface and mask of a matching entry that
    no other matching entry beats: one with a metric as small and a mask as
    large has the same metric and mask and comes no later. *)
Theorem proc_route_selects e address s_addr s lines rs :
  route_file e lines → table lines rs →
  (∀ r, r ∈ rs → route_matches s_addr r = true → r_metric r < LONG_MAX ∧ 0 ≤ r_mask r) →
  ∃ rc s', SearchUsingProcRoute e address s_addr s = Ret (rc, s') ∧
    ((rc = OCF_ERR_GENERIC ∧ ∀ r, r ∈ rs → route_matches s_addr r = false) ∨
     (rc = OCF_SUCCESS ∧ ∃ i r, rs !! i = Some r ∧ route_matches s_addr r = true ∧
        cstr (best_if s') = r_interface r ∧ best_netmask s' = r_mask r ∧
        ∀ j r', rs !! j = Some r' → route_matches s_addr r' = true →
                r_metric r' ≤ r_metric r → r_mask r ≤ r_mask r' →
                r_metric r' = r_metric r ∧ r_mask r' = r_mask r ∧ (j ≤ i)%nat)).
Proof.
  intros Hf Ht Hr. destruct (proc_route_search e address s_addr s lines rs Hf Ht Hr)
    as (rc & s' & Hrun & [[? ?]|[? (i & r & (Hi & Hm & Hsel) & Hbi & Hbn)]]);
    exists rc, s'; (split; [done|]); [by left|right].
  split; [done|]. exists i, r. split_and!; try done.
  intros j r' Hj Hr' H1 H2. destruct (Hsel j r' Hj Hr') as [[H3 H4] H5]; [by split|].
  split_and!; [lia|lia|done].
Qed.

(** [C13] Longest prefix match.  When the masks of the table are those of prefix
    lengths and the metrics are equal, the search finds a route if and only if
    one covers the address, and the one it reports has the longest prefix
    among those that do: comparing masks as network-order words is comparing
    prefix lengths. *)
Theorem longest_prefix_match e address s_addr s lines rs (plen : route → Z) m :
  route_file e lines → table lines rs → 0 ≤ s_addr < 4294967296 → m < LONG_MAX →
  (∀ r, r ∈ rs → 0 ≤ plen r ≤ 32 ∧ r_mask r = htonl (prefix_mask (plen r)) ∧
                 0 ≤ r_dest r < 4294967296 ∧ r_metric r = m) →
  ∃ rc s', SearchUsingProcRoute e address s_addr s = Ret (rc, s') ∧
    ((rc = OCF_ERR_GENERIC ∧
      ∀ r, r ∈ rs → ¬ in_prefix (ntohl s_addr) (ntohl (r_dest r)) (plen r)) ∨
     (rc = OCF_SUCCESS ∧ ∃ r, r ∈ rs ∧
        in_prefix (ntohl s_addr) (ntohl (r_dest r)) (plen r) ∧
        cstr (best_if s') = r_interface r ∧ best_netmask s' = htonl (prefix_mask (plen r)) ∧
        ∀ r', r' ∈ rs → in_prefix (ntohl s_addr) (ntohl (r_dest r')) (plen r') →
              plen r' ≤ plen r)).
Proof.
  intros Hf Ht Hs Hm Hr.
  assert (Hmatch : ∀ r, r ∈ rs → route_matches s_addr r = true ↔
                        in_prefix (ntohl s_addr) (ntohl (r_dest r)) (plen r)).
  { intros r Hin. destruct (Hr r Hin) as (? & ? & ? & ?). by apply route_matches_prefix. }
  destruct (proc_route_search e address s_addr s lines rs Hf Ht)
    as (rc & s' & Hrun & [[? Hno]|[? (i & r & (Hi & Hmt & Hsel) & Hbi & Hbn)]]).
  { intros r Hin _. destruct (Hr r Hin) as (? & Hmask & ? & ->). split; [done|].
    rewrite Hmask. apply htonl_range. }
  - exists rc, s'. split; [done|]. left. split; [done|]. intros r Hin Hp.
    apply (Hmatch r Hin) in Hp. by rewrite Hno in Hp.
  - exists rc, s'. split; [done|]. right. split; [done|].
    assert (Hin : r ∈ rs) by (by eapply list_elem_of_lookup_2).
    destruct (Hr r Hin) as (Hp & Hmask & Hd & Hmet).
    exists r. split_and!; [done|by apply Hmatch|done|by rewrite Hbn|].
    intros r' Hin' Hp'. destruct (Hr r' Hin') as (Hpl & Hmask' & Hd' & Hmet').
    apply list_elem_of_lookup_1 in Hin' as Hj. destruct Hj as [j Hj].
    destruct (decide (plen r' ≤ plen r)); [done|].
    apply (Hmatch r' Hin') in Hp'.
    destruct (Hsel j r' Hj Hp') as [[_ Hge] _].
    { split; [lia|]. rewrite Hmask, Hmask'. apply prefix_mask_order; lia. }
    rewrite Hmask, Hmask' in Hge. exact (proj1 (prefix_mask_order (plen r') (plen r) Hpl Hp) Hge).
Qed.

(** [C17] A line as the kernel prints it is read back field by field, except that
    the decimal RefCnt, Use and Metric are read as hexadecimal; that reading
    keeps the order of metrics, so the search compares them as it should. *)
Theorem kernel_line_read iface dest gw flags refcnt use metric mask tail :
  c_text iface → 9 ∉ iface → (0 < length iface < MAXSTR)%nat → c_text tail →
  0 ≤ dest < 4294967296 → 0 ≤ gw < 4294967296 → 0 ≤ flags < 65536 →
  0 ≤ refcnt ≤ INT_MAX → 0 ≤ use ≤ UINT_MAX → 0 ≤ metric ≤ INT_MAX → 0 ≤ mask < 4294967296 →
  scan_route (kernel_line iface dest gw flags refcnt use metric mask tail) =
    Ret (Some (Route iface dest gw flags (as_hex refcnt) (as_hex use) (as_hex metric) mask)) ∧
  ∀ metric', 0 ≤ metric' ≤ INT_MAX → metric ≤ metric' ↔ as_hex metric ≤ as_hex metric'.
Proof.
  unfold INT_MAX, UINT_MAX. intros Hi Ht Hl Htl Hd Hg Hfl Hrc Hu Hm Hmk.
  split; [|intros; apply as_hex_le; lia].
  assert (Hx : ∀ n z, c_text (hexX n z)).
  { intros n z. unfold hexX. apply Forall_fmap.
    eapply Forall_impl; [|exact (proj1 (hex_digits_be_spec n z))]. intros d H. cbn in *.
    pose proof (hexdig_char d H). lia. }
  assert (Hdec : ∀ z, 0 ≤ z ≤ 4294967295 → c_text (dec_u z)) by (intros; apply dec_u_text; lia).
  assert (Htab : c_text [9]) by (repeat constructor).
  unfold scan_route. rewrite cstr_text_nil.
  2:{ unfold kernel_line. rewrite !c_text_app. split_and!; first [done|apply Hx|apply Hdec; lia]. }
  assert (Huntil : until 9 (kernel_line iface dest gw flags refcnt use metric mask tail) = iface).
  { by apply until_app. }
  rewrite Huntil. rewrite (proj2 (Nat.eqb_neq _ _)) by lia.
  rewrite (proj2 (Nat.leb_gt _ _)) by lia. unfold kernel_line at 1. rewrite drop_app_length.
  cbn [app]. rewrite scan_lx_hexX by (cbn; lia). cbn [mbind option_bind].
  rewrite scan_lx_hexX by (cbn; lia). cbn [mbind option_bind].
  rewrite scan_lx_hexX by (cbn; lia). cbn [mbind option_bind].
  rewrite scan_lx_dec by lia. cbn [mbind option_bind].
  rewrite scan_lx_dec by lia. cbn [mbind option_bind].
  rewrite scan_lx_dec by lia. cbn [mbind option_bind].
  rewrite scan_lx_hexX by (cbn; lia). cbn [mbind option_bind].
  do 3 f_equal. pose proof (as_hex_bound metric ltac:(lia)) as Hb.
  unfold s64. rewrite Z.mod_small; lia.
Qed.

Lemma hd_dotted bs : Forall is_byte bs → length bs = 4%nat → (hd 0 (dotted bs) =? 0) = false.
Proof.
  intros Hb Hl. destruct bs as [|a [|b [|c [|d [|]]]]]; try done. unfold dotted.
  apply Forall_cons_1 in Hb as [Ha _]. unfold is_byte in Ha.
  destruct (dec_u_hd a) as (x & r & -> & Hx); [lia|]. cbn. unfold isdigit in Hx. zbool.
  by ztest.
Qed.

Lemma given_netmask_dec b :
  1 ≤ b ≤ 32 → given_netmask (Some (dec_u b)) = Ret (Some (htonl (prefix_mask b))).
Proof.
  intros Hb. unfold given_netmask.
  assert (H : forallb (λ b, negb (hd 0 (dec_u b) =? 0) &&
                            negb (bool_decide (is_Some (strchr (cstr (dec_u b)) 46)))) (seqZ 1 32)
              = true) by (vm_compute; reflexivity).
  apply (range_forallb _ 1 32 b) in H; [|lia]. apply andb_true_iff in H as [H1 H2].
  apply negb_true_iff in H1, H2. rewrite H1. apply bool_decide_eq_false in H2.
  destruct (strchr _ 46) eqn:E; [exfalso; apply H2; eauto|].
  rewrite ConvertNetmaskBitsToInt_dec by done. ztest.
  by rewrite ValidateNetmaskBits_run by done.
Qed.

Lemma strchr_buf_terminated s c : ∃ o, strchr_buf (s ++ [0]) c = Ret o.
Proof.
  unfold strchr_buf. destruct (strchr _ c); [eauto|].
  rewrite bool_decide_true by set_solver. eauto.
Qed.

(** Copying a name that fits, then terminating the buffer. *)
Lemma strncpy_name_buf nm old n :
  c_text nm → (length nm ≤ n)%nat → (n < length old)%nat →
  cstr (take n (strncpy old (nm ++ [0]) n) ++ [0]) = nm.
Proof.
  intros Ht Hl Ho. unfold strncpy.
  rewrite take_app_length' by (by rewrite strncpy_bytes_length).
  unfold strncpy_bytes. rewrite (cstr_text nm []) by done. rewrite take_ge by lia.
  rewrite <-app_assoc.
  destruct (n - length nm)%nat; cbn [replicate app]; by apply cstr_text.
Qed.

Lemma ValidateIFName_known e nm fl :
  socket_ok e = true → siocgifflags e nm = Some fl → c_text nm → (length nm ≤ 15)%nat →
  ∃ ifr, ValidateIFName e (nm ++ [0]) zero_ifreq = Ret (0, ifr) ∧ ifr_flags ifr = fl.
Proof.
  intros Hs Hf Ht Hl. unfold ValidateIFName. rewrite Hs. cbn [negb].
  destruct (strchr_buf_terminated nm 58) as [o ->]. cbn [mbind outcome_bind].
  rewrite strncpy_name_buf by (done || (cbn; lia)). rewrite Hf. by eexists.
Qed.


(** *** No access outside a buffer *)

(** The first fields of the routing table and the device names fit. *)
Definition short_routes (e : sysenv) : Prop :=
  ∀ file, proc_net_route e = Some file →
    Forall (λ l, (length (until 9 (cstr l)) < MAXSTR)%nat) (drop 1 (fgets_lines 2048 file)).
Definition short_devs (e : sysenv) : Prop :=
  ∀ file, proc_net_dev e = Some file →
    Forall (λ l, (length (until 58 (skip_spaces (cstr l))) < IFNAMSIZ)%nat)
           (fgets_lines 512 file).

Definition exit_codes : list Z := [OCF_ERR_ARGS; OCF_ERR_CONFIGURED].

Lemma scan_route_safe l :
  (length (until 9 (cstr l)) < MAXSTR)%nat → safe exit_codes (λ _, True) (scan_route l).
Proof.
  intros H. unfold scan_route. destruct (_ =? 0)%nat; [done|].
  by rewrite (proj2 (Nat.leb_gt _ _)) by lia.
Qed.

Lemma proc_route_loop_safe s_addr lines bm s :
  Forall (λ l, (length (until 9 (cstr l)) < MAXSTR)%nat) lines →
  safe exit_codes (λ '(rc, _, _), rc = OCF_SUCCESS ∨ rc = OCF_ERR_GENERIC)
       (proc_route_loop s_addr lines bm s).
Proof.
  intros H. revert bm s. induction H as [|l lines Hl _ IH]; intros bm s; cbn [proc_route_loop].
  - by left.
  - eapply safe_bind; [by apply scan_route_safe|]. intros [r|] _; [|by right].
    case_match; apply IH.
Qed.

Lemma SearchUsingProcRoute_safe e address s_addr s :
  short_routes e →
  safe exit_codes (λ '(rc, _), rc = OCF_SUCCESS ∨ rc = OCF_ERR_GENERIC)
       (SearchUsingProcRoute e address s_addr s).
Proof.
  intros Hs. unfold SearchUsingProcRoute. destruct (proc_net_route e) as [file|] eqn:E; [|by right].
  specialize (Hs file E). destruct (fgets_lines 2048 file) as [|hdr lines]; [by right|].
  eapply safe_bind; [by apply proc_route_loop_safe|]. intros [[rc bm] s'] [H|H]; subst rc; cbn; [|by right].
  destruct (bm =? LONG_MAX); auto.
Qed.

Lemma SearchUsingRouteCmd_safe e address s_addr s :
  safe exit_codes (λ '(rc, _), rc = OCF_SUCCESS ∨ rc = OCF_ERR_GENERIC ∨ rc = OCF_ERR_CONFIGURED)
       (SearchUsingRouteCmd e address s_addr s).
Proof.
  unfold SearchUsingRouteCmd. destruct (popen e _); [|cbn; auto].
  destruct (route_cmd_loop _ _ _ _) as [mask interface].
  repeat (case_match; try (cbn; auto; fail)).
Qed.

Lemma ValidateIFName_safe e name ifr :
  0 ∈ name → safe exit_codes (λ _, True) (ValidateIFName e name ifr).
Proof.
  intros H. unfold ValidateIFName. destruct (socket_ok e); [|done].
  unfold strchr_buf. destruct (strchr _ 58); cbn; [by case_match|].
  rewrite bool_decide_true by done. cbn. by case_match.
Qed.

Lemma get_ifname_terminated buf name :
  (length (until 58 (skip_spaces (cstr buf))) < IFNAMSIZ)%nat →
  get_ifname buf = Some name → 0 ∈ name.
Proof.
  unfold get_ifname, IFNAMSIZ. intros Hl.
  destruct (skip_spaces (cstr buf)) as [|c l]; [done|].
  destruct (strchr (c :: l) 58); [|done]. revert Hl. generalize (until 58 (c :: l)).
  intros nm Hl [= <-]. unfold strncpy_bytes.
  apply elem_of_app. right. pose proof (cstr_length nm) as Hc.
  rewrite length_take, Nat.min_r by lia. apply elem_of_replicate. split; [done|]. lia.
Qed.

Lemma loopback_loop_safe e lines out :
  Forall (λ l, (length (until 58 (skip_spaces (cstr l))) < IFNAMSIZ)%nat) lines →
  safe exit_codes (λ _, True) (loopback_loop e lines out).
Proof.
  induction 1 as [|l lines Hl _ IH]; cbn [loopback_loop]; [done|].
  destruct (get_ifname l) as [name|] eqn:E; [|done]. eapply safe_bind with (P := λ _, True).
  - unfold is_loopback_interface. eapply safe_bind.
    + by eapply ValidateIFName_safe, get_ifname_terminated.
    + by intros [rc ifr] _.
  - intros [] _; [done|apply IH].
Qed.

Lemma get_first_loopback_safe e out :
  short_devs e → safe exit_codes (λ _, True) (get_first_loopback_netdev e out).
Proof.
  intros Hs. unfold get_first_loopback_netdev.
  destruct (proc_net_dev e) as [file|] eqn:E; [|done]. specialize (Hs file E).
  destruct (fgets_lines 512 file) as [|l1 [|l2 lines]]; [done..|].
  apply loopback_loop_safe. apply Forall_cons_1 in Hs as [_ Hs]. by apply Forall_cons_1 in Hs as [_ Hs].
Qed.

Lemma given_netmask_safe o : safe exit_codes (λ _, True) (given_netmask o).
Proof.
  assert (H6 : OCF_ERR_CONFIGURED ∈ exit_codes) by set_solver.
  unfold given_netmask. destruct o as [nb|]; [|done]. destruct (_ =? 0); [done|]. cbv zeta.
  generalize (match strchr (cstr nb) 46 with
              | Some _ => ConvertQuadToInt nb | None => ConvertNetmaskBitsToInt nb end).
  intros nm. destruct (nm <? 0); [done|]. unfold ValidateNetmaskBits.
  by destruct ((nm <? 1) || (32 <? nm)).
Qed.

Lemma choose_interface_safe e address s_addr spec s :
  short_routes e →
  safe exit_codes (λ o, ∀ rc, o = inl rc → rc = OCF_ERR_GENERIC ∨ rc = OCF_ERR_CONFIGURED)
       (choose_interface e address s_addr spec s).
Proof.
  assert (H6 : OCF_ERR_CONFIGURED ∈ exit_codes) by set_solver.
  intros Hs. unfold choose_interface. destruct (nonempty spec).
  - eapply safe_bind; [apply ValidateIFName_safe; set_solver|]. intros [rc ifr] _.
    by destruct (rc <? 0).
  - eapply safe_bind; [by apply SearchUsingProcRoute_safe|]. intros [rc s'] _.
    destruct (rc =? 0); [done|].
    eapply safe_bind; [apply SearchUsingRouteCmd_safe|]. intros [rc' s''] H. cbn.
    destruct (rc' =? 0) eqn:E; [done|]. zbool. intros x [= ->].
    unfold OCF_SUCCESS, OCF_ERR_GENERIC, OCF_ERR_CONFIGURED in *. lia.
Qed.

Lemma choose_netmask_safe e address given s :
  short_devs e →
  safe exit_codes (λ o, ∀ rc, o = inl rc → rc = OCF_ERR_GENERIC) (choose_netmask e address given s).
Proof.
  intros Hs. unfold choose_netmask. destruct given; [done|].
  destruct (best_netmask s =? 0); [|done]. destruct (strncmp _ _ _ =? 0).
  - eapply safe_bind; [by apply get_first_loopback_safe|]. intros [out|] _; cbn; [done|].
    by intros rc [= ->].
  - by intros rc [= ->].
Qed.

Lemma print_result_safe cidr s s_addr bc :
  safe exit_codes (λ '(rc, _), rc = 0) (print_result cidr s s_addr bc).
Proof.
  assert (H6 : OCF_ERR_CONFIGURED ∈ exit_codes) by set_solver.
  unfold print_result. destruct bc as [b|]; [|done]. destruct (negb _); [|done].
  by destruct (inet_pton4 b).
Qed.


(** The limit is real: the unbounded %[^\t] conversion writes past the end
    of [interface] when a line of the table that is reached has a first field
    of 128 bytes or more. *)
Theorem interface_overflow e address s_addr s lines rs bad more :
  route_file e (lines ++ bad :: more) → table lines rs →
  (MAXSTR ≤ length (until 9 (cstr bad)))%nat →
  SearchUsingProcRoute e address s_addr s = Fault.
Proof.
  intros (file & hdr & Hf & Hg) Ht Hlen. unfold SearchUsingProcRoute. rewrite Hf, Hg.
  assert (Hloop : ∀ bm s, proc_route_loop s_addr (lines ++ bad :: more) bm s = Fault).
  { clear Hg. induction Ht as [|l r lines rs Hl _ IH]; intros bm s'; cbn [app proc_route_loop].
    - unfold scan_route. unfold MAXSTR in *.
      rewrite (proj2 (Nat.eqb_neq _ _)) by lia. by rewrite (proj2 (Nat.leb_le _ _)) by lia.
    - rewrite Hl. cbn [mbind outcome_bind]. case_match; apply IH. }
  by rewrite Hloop.
Qed.

(** ** Concrete instances *)

Definition demo_lines : list (list Z) :=
  [kernel_line (str "eth0") 0 4261926410 3 0 0 0 0 [10];
   kernel_line (str "eth0") 43200 0 1 0 0 0 65535 [10];
   kernel_line (str "eth1") 108736 0 1 0 0 0 16777215 [10]].
Definition demo_routes : list route :=
  [Route (str "eth0") 0 4261926410 3 0 0 0 0;
   Route (str "eth0") 43200 0 1 0 0 0 65535;
   Route (str "eth1") 108736 0 1 0 0 0 16777215].
Definition demo_plen (r : route) : Z := netmask_bits (ntohl (r_mask r)) `max` 0.
Definition demo_file : list Z := str "Iface" ++ [10] ++ concat demo_lines.
Definition demo_vars (v : list Z) : option (list Z) :=
  if bool_decide (v = str "OCF_RESKEY_ip") then Some (dotted [192; 168; 1; 17])
  else if bool_decide (v = str "OCF_RESKEY_cidr_netmask") then Some (dec_u 20)
  else if bool_decide (v = str "OCF_RESKEY_nic") then Some (str "eth1")
  else None.
Definition demo_env : sysenv :=
  Sysenv demo_vars (Some demo_file) None (λ _, None) (str "/sbin/route") true (λ _, Some 0).
(** 192.168.1.17 *)
Definition demo_addr : Z := le_combine [192; 168; 1; 17].
Definition demo_search : search := Search (replicate 128 170) UINT_MAX.

Lemma demo_route_file : route_file demo_env demo_lines.
Proof. exists demo_file, (str "Iface" ++ [10]). split; vm_compute; reflexivity. Defined.
Lemma demo_table : table demo_lines demo_routes.
Proof. repeat constructor. Defined.

Lemma quad_netmask_contiguous_witness :
  ∃ k, given_netmask (Some (dotted [255; 0; 255; 0])) = Ret (Some (htonl (prefix_mask (32 - k)))).
Proof.
  assert (H := quad_netmask_contiguous [255; 0; 255; 0]
                 ltac:(repeat constructor; discriminate) eq_refl).
  rewrite decide_False in H by (vm_compute; discriminate).
  destruct H as (k & _ & _ & _ & H). exists k. exact H.
Defined.

Lemma proc_route_selects_witness :
  ∃ rc s', SearchUsingProcRoute demo_env (str "192.168.1.17") demo_addr demo_search = Ret (rc, s').
Proof.
  destruct (proc_route_selects demo_env (str "192.168.1.17") demo_addr demo_search demo_lines
              demo_routes) as (rc & s' & H & _).
  - apply demo_route_file.
  - apply demo_table.
  - intros r Hr _. repeat (apply elem_of_cons in Hr as [->|Hr]; [vm_compute; split; [reflexivity|discriminate]|]).
    by apply not_elem_of_nil in Hr.
  - exists rc, s'. exact H.
Defined.

Lemma longest_prefix_match_witness :
  ∃ rc s', SearchUsingProcRoute demo_env (str "192.168.1.17") demo_addr demo_search = Ret (rc, s').
Proof.
  destruct (longest_prefix_match demo_env (str "192.168.1.17") demo_addr demo_search demo_lines
              demo_routes demo_plen 0) as (rc & s' & H & _).
  - apply demo_route_file.
  - apply demo_table.
  - vm_compute. split; [discriminate|reflexivity].
  - reflexivity.
  - intros r Hr. repeat (apply elem_of_cons in Hr as [->|Hr]; [vm_compute; repeat split; discriminate|]).
    by apply not_elem_of_nil in Hr.
  - exists rc, s'. exact H.
Defined.

Lemma kernel_line_read_witness :
  ∃ r, scan_route (kernel_line (str "eth0") 43200 0 1 0 0 100 65535 [10]) = Ret (Some r) ∧
    r_metric r = 256.
Proof.
  destruct (kernel_line_read (str "eth0") 43200 0 1 0 0 100 65535 [10]) as [H _];
    try (vm_compute; split; (discriminate || reflexivity)).
  - by apply (bool_decide_unpack _).
  - by apply (bool_decide_unpack _).
  - vm_compute. lia.
  - by apply (bool_decide_unpack _).
  - eexists. split; [exact H|reflexivity].
Defined.


Lemma demo_short_routes : short_routes demo_env.
Proof.
  intros file [= <-]. apply (bool_decide_unpack _). vm_compute. exact I.
Defined.
Lemma demo_short_devs : short_devs demo_env.
Proof. intros file Hf. discriminate Hf. Defined.


Lemma interface_overflow_witness :
  SearchUsingProcRoute
    (Sysenv demo_vars (Some (str "Iface" ++ [10] ++ replicate 128 97 ++ [10])) None (λ _, None)
            (str "/sbin/route") true (λ _, Some 0))
    (str "192.168.1.17") demo_addr demo_search = Fault.
Proof.
  apply (interface_overflow _ _ _ _ [] [] (replicate 128 97 ++ [10]) []).
  - eexists _, (str "Iface" ++ [10]). split; vm_compute; reflexivity.
  - constructor.
  - vm_compute. lia.
Defined.
