(* ===== verification/Tickle.v ===== *)
(** * tickle_tcp: TCP "tickle" ACKs (tools/tickle_tcp.c)

    Socket addresses are the 28 bytes of the [sock_addr] union, so that the
    IPv4 and IPv6 views overlay as they do in C; packets are byte lists.  The
    kernel is a script of answers to [socket], [setsockopt] and [sendto], and
    a log of the calls of [sendto]. *)

From S2P Require Import Prelude CString Inet.
#[local] Open Scope Z_scope.

(** ** Definitions *)

(** *** Checksums *)

(** The loop of [uint16_checksum] over [n] bytes, from a partial sum. *)
Fixpoint checksum_loop (data : list Z) (sum : Z) : Z :=
  match data with
  | a :: b :: data' => checksum_loop data' (u32 (sum + ntohs (a + 256 * b)))
  | [a] => u32 (sum + ntohs a)
  | [] => sum
  end.

Definition uint16_checksum (data : list Z) : Z := checksum_loop data 0.

(** The end of both checksum functions: fold twice, swap, complement. *)
Definition checksum_finish (sum : Z) : Z :=
  let sum := u32 (Z.land sum 65535 + Z.shiftr sum 16) in
  let sum := u32 (Z.land sum 65535 + Z.shiftr sum 16) in
  let sum2 := htons (u16 sum) in
  let sum2 := u16 (Z.lnot sum2) in
  if sum2 =? 0 then 65535 else sum2.

Definition IPPROTO_TCP : Z := 6.

Definition tcp_checksum (data saddr daddr : list Z) (protocol : Z) : Z :=
  let sum := uint16_checksum data in
  let sum := u32 (sum + uint16_checksum saddr) in
  let sum := u32 (sum + uint16_checksum daddr) in
  let sum := u32 (sum + (protocol + Z.of_nat (length data))) in
  checksum_finish sum.

Definition tcp_checksum6 (data ip6_src ip6_dst : list Z) (ip6_nxt : Z) : Z :=
  let phdr := be_split 4 (Z.of_nat (length data)) ++ be_split 4 ip6_nxt in
  let sum := u32 (0 + uint16_checksum ip6_src) in
  let sum := u32 (sum + uint16_checksum ip6_dst) in
  let sum := u32 (sum + uint16_checksum phdr) in
  let sum := u32 (sum + uint16_checksum data) in
  checksum_finish sum.

(** *** Socket addresses *)

Definition AF_INET : Z := 2.
Definition AF_INET6 : Z := 10.

Definition splice (off : nat) (bs m : list Z) : list Z :=
  take off m ++ bs ++ drop (off + length bs) m.
Definition slice (off n : nat) (m : list Z) : list Z := take n (drop off m).

Definition sa_family (sa : list Z) : Z := le_combine (slice 0 2 sa).
Definition sa_port (sa : list Z) : list Z := slice 2 2 sa.
Definition sin_addr (sa : list Z) : list Z := slice 4 4 sa.
Definition sin6_addr (sa : list Z) : list Z := slice 8 16 sa.

(** The address is stored by [inet_pton] only when it is valid. *)
Definition parse_ipv4 (s : list Z) (port : Z) (sin : list Z) : Z * list Z :=
  let sin := splice 0 (le_split 2 AF_INET) sin in
  let sin := splice 2 (le_split 2 (htons (u16 port))) sin in
  match inet_pton4 s with
  | Some bs => (0, splice 4 bs sin)
  | None => (-1, sin)
  end.

(** [iface] is the result of [if_nametoindex] when an interface is given. *)
Definition parse_ipv6 (s : list Z) (iface : option Z) (port : Z) (saddr : list Z) : Z * list Z :=
  let saddr := splice 0 (le_split 2 AF_INET6) saddr in
  let saddr := splice 2 (le_split 2 (htons (u16 port))) saddr in
  let saddr := splice 4 [0; 0; 0; 0] saddr in
  let saddr := splice 24 [0; 0; 0; 0] saddr in
  match inet_pton6 s with
  | Some bs =>
      let saddr := splice 8 bs saddr in
      match iface with
      | Some index =>
          if (nth 0 bs 0 =? 254) && (Z.land (nth 1 bs 0) 192 =? 128)
          then (0, splice 24 (le_split 4 index) saddr)
          else (0, saddr)
      | None => (0, saddr)
      end
  | None => (-1, saddr)
  end.

Definition parse_ip (addr : list Z) (iface : option Z) (port : Z) (saddr : list Z) : Z * list Z :=
  match strchr addr 58 with
  | None => parse_ipv4 addr port saddr
  | Some _ => parse_ipv6 addr iface port saddr
  end.

(** [addr] is the string; [strdup] is assumed to succeed. *)
Definition parse_ip_port (addr : list Z) (saddr : list Z) : Z * list Z :=
  match strrchr addr 58 with
  | None => (-1, saddr)
  | Some p =>
      let '(l, endp, _) := strtoul 10 (tl p) in
      let port := u32 l in
      match endp with
      | _ :: _ => (-1, saddr)
      | [] => parse_ip (take (length addr - length p) addr) None port saddr
      end
  end.

(** *** Sending *)

(** One call of [sendto]: packet and destination. *)
Record sent : Type := Sent { pkt : list Z; dest : list Z }.

Record kern : Type := Kern {
  k_socket : list bool;       (* successive results of socket(); then success *)
  k_setsockopt : list bool;
  k_sendto : list Z;          (* successive results of sendto(); then all bytes *)
  k_log : list sent }.

Definition next_bool (l : list bool) : bool := match l with [] => true | b :: _ => b end.

Definition sys_socket : M kern bool := λ k,
  (Ret (next_bool (k_socket k)), Kern (tl (k_socket k)) (k_setsockopt k) (k_sendto k) (k_log k)).
Definition sys_setsockopt : M kern bool := λ k,
  (Ret (next_bool (k_setsockopt k)), Kern (k_socket k) (tl (k_setsockopt k)) (k_sendto k) (k_log k)).
Definition sys_sendto (p d : list Z) : M kern Z := λ k,
  (Ret (match k_sendto k with [] => Z.of_nat (length p) | r :: _ => r end),
   Kern (k_socket k) (k_setsockopt k) (tl (k_sendto k)) (k_log k ++ [Sent p d])).

(** The TCP header, with its checksum field. *)
Definition tcp_header (source dst : list Z) (seq ack : Z) (rst : bool) (check : Z) : list Z :=
  source ++ dst ++ le_split 4 seq ++ le_split 4 ack ++
  [80; if rst then 20 else 16] ++ le_split 2 (htons 1234) ++ le_split 2 check ++ [0; 0].

Definition ip_header (saddr daddr : list Z) : list Z :=
  [69; 0] ++ le_split 2 (htons 40) ++ [0; 0; 0; 0; 255; IPPROTO_TCP; 0; 0] ++ saddr ++ daddr.

Definition ip6_header (src dst : list Z) : list Z :=
  [96; 0; 0; 0] ++ le_split 2 (htons 20) ++ [IPPROTO_TCP; 64] ++ src ++ dst.

Definition ip4_packet (src dst : list Z) (seq ack : Z) (rst : bool) : list Z :=
  let tcp := tcp_header (sa_port src) (sa_port dst) seq ack rst in
  ip_header (sin_addr src) (sin_addr dst) ++
  tcp (tcp_checksum (tcp 0) (sin_addr src) (sin_addr dst) IPPROTO_TCP).

Definition ip6_packet (src dst : list Z) (seq ack : Z) (rst : bool) : list Z :=
  let tcp := tcp_header (sa_port src) (sa_port dst) seq ack rst in
  ip6_header (sin6_addr src) (sin6_addr dst) ++
  tcp (tcp_checksum6 (tcp 0) (sin6_addr src) (sin6_addr dst) IPPROTO_TCP).

Definition send_tickle_ack (dst src : list Z) (seq ack : Z) (rst : bool) : M kern Z :=
  if sa_family src =? AF_INET then
    let p := ip4_packet src dst seq ack rst in
    s ← sys_socket;
    if negb s then mret (-1)
    else
      ok ← sys_setsockopt;
      if negb ok then mret (-1)
      else
        ret ← sys_sendto p (take 16 dst);
        mret (if negb (ret =? Z.of_nat (length p)) then -1 else 0)
  else if sa_family src =? AF_INET6 then
    let p := ip6_packet src dst seq ack rst in
    s ← sys_socket;
    if negb s then mret (-1)
    else
      ret ← sys_sendto p (splice 2 [0; 0] dst);
      mret (if negb (ret =? Z.of_nat (length p)) then -1 else 0)
  else mret (-1).

(** *** main *)

Fixpoint tickle_options (opts : list (Z * list Z)) (num : Z) : outcome Z :=
  match opts with
  | [] => Ret num
  | (c, optarg) :: opts' =>
      if c =? 110 (* n *) then tickle_options opts' (atoi optarg)
      else if c =? 104 (* h *) then Exited 1
      else Exited EXIT_FAILURE
  end.

Fixpoint word (l : list Z) : list Z :=
  match l with
  | c :: l' => if isspace c then [] else c :: word l'
  | [] => []
  end.

(** [%s] into a buffer: [None] when the input is exhausted. *)
Definition scan_word (l buf : list Z) : outcome (option (list Z * list Z)) :=
  match skip_spaces l with
  | [] => Ret None
  | l1 =>
      let w := word l1 in
      if (length w <? length buf)%nat
      then Ret (Some (splice 0 (w ++ [0]) buf, drop (length w) l1))
      else Fault
  end.

(** [sscanf(addrline, "%s %s", addr1, addr2)], whose result is not used. *)
Definition scan_addrs (addrline addr1 addr2 : list Z) : outcome (list Z * list Z) :=
  o ← scan_word (cstr addrline) addr1;
  match o with
  | None => Ret (addr1, addr2)
  | Some (addr1, l) =>
      o ← scan_word l addr2;
      match o with
      | None => Ret (addr1, addr2)
      | Some (addr2, _) => Ret (addr1, addr2)
      end
  end.

(** [for (i = 1; i <= num; i++)]: whether all were sent. *)
Fixpoint send_times (n : nat) (dst src : list Z) : M kern bool :=
  match n with
  | O => mret true
  | S n' =>
      rc ← send_tickle_ack dst src 0 0 false;
      if negb (rc =? 0) then mret false else send_times n' dst src
  end.

(** The string in a local buffer, which must be terminated. *)
Definition buf_string (buf : list Z) : M kern (list Z) :=
  if bool_decide (0 ∈ buf) then mret (cstr buf) else mfault.

Fixpoint tickle_loop (lines : list (list Z)) (num : Z) (addr1 addr2 src dst : list Z)
    : M kern Z :=
  match lines with
  | [] => mret 0
  | addrline :: lines' =>
      '(addr1, addr2) ← (λ k, (scan_addrs addrline addr1 addr2, k));
      s1 ← buf_string addr1;
      let '(rc1, src) := parse_ip_port s1 src in
      if negb (rc1 =? 0) then mret (-1)
      else
        s2 ← buf_string addr2;
        let '(rc2, dst) := parse_ip_port s2 dst in
        if negb (rc2 =? 0) then mret (-1)
        else
          ok ← send_times (Z.to_nat num) dst src;
          if negb ok then mret (-1) else tickle_loop lines' num addr1 addr2 src dst
  end.

(** The locals of [main], uninitialised. *)
Record locals : Type := Locals { l_addr1 : list Z; l_addr2 : list Z; l_src : list Z; l_dst : list Z }.

Definition tickle_main (opts : list (Z * list Z)) (stdin : list Z) (loc : locals) : M kern Z :=
  num ← (λ k, (tickle_options opts 1, k));
  tickle_loop (fgets_lines 128 stdin) num (l_addr1 loc) (l_addr2 loc) (l_src loc) (l_dst loc).

(** ** Specifications *)

(** Sum of the big-endian 16-bit words of a byte string. *)
Fixpoint word_sum (l : list Z) : Z :=
  match l with
  | a :: b :: l' => a * 256 + b + word_sum l'
  | [a] => a * 256
  | [] => 0
  end.

(** What a receiver checks (RFC 1071): the ones' complement sum is zero. *)
Definition checksum_ok (l : list Z) : Prop := word_sum l mod 65535 = 0 ∧ 0 < word_sum l.

(** The socket address of an IPv4 endpoint, and its text. *)
Definition endpoint : Type := list Z * Z.
Definition wf_endpoint (e : endpoint) : Prop :=
  Forall is_byte e.1 ∧ length e.1 = 4%nat ∧ 0 ≤ e.2 < 65536.
Definition mk_sin (e : endpoint) : list Z :=
  le_split 2 AF_INET ++ be_split 2 e.2 ++ e.1 ++ replicate 20 0.
Definition ep_text (e : endpoint) : list Z := dotted e.1 ++ [58] ++ dec_u e.2.
Definition line_of (p : endpoint * endpoint) : list Z := ep_text p.1 ++ [32] ++ ep_text p.2 ++ [10].

(** A call of [sendto] that carries the tickle for a pair of endpoints. *)
Definition tickles (s : sent) (p : endpoint * endpoint) : Prop :=
  pkt s = ip4_packet (mk_sin p.1) (mk_sin p.2) 0 0 false ∧
  slice 0 8 (dest s) = slice 0 8 (mk_sin p.2).

(** A kernel that answers every call with success. *)
Definition kernel_ok (log : list sent) : kern := Kern [] [] [] log.

(** ** Lemmas *)

Lemma pair_ind {A} (P : list A → Prop) :
  P [] → (∀ a, P [a]) → (∀ a b l, P l → P (a :: b :: l)) → ∀ l, P l.
Proof.
  intros H0 H1 H2 l.
  assert (H : P l ∧ ∀ a, P (a :: l)); [|apply H].
  induction l as [|x l [IH1 IH2]]; [by split|]. split; [apply IH2|]. intros a. by apply H2.
Qed.

Lemma word_sum_bound l : Forall is_byte l → 0 ≤ word_sum l ≤ 65535 * Z.of_nat (length l).
Proof.
  induction l as [|a|a b l IH] using pair_ind; intros H.
  - simpl. lia.
  - apply Forall_cons_1 in H as [Ha _]. unfold is_byte in Ha. cbn. lia.
  - apply Forall_cons_1 in H as [Ha H]. apply Forall_cons_1 in H as [Hb H].
    specialize (IH H). unfold is_byte in *. cbn [word_sum length]. lia.
Qed.

Lemma word_sum_app l k : Nat.even (length l) = true → word_sum (l ++ k) = word_sum l + word_sum k.
Proof.
  induction l as [|a|a b l IH] using pair_ind; intros H; [done|done|].
  cbn [app word_sum]. rewrite IH by done. lia.
Qed.

Lemma htons_word a b : 0 ≤ a < 256 → 0 ≤ b < 256 → ntohs (a + 256 * b) = a * 256 + b.
Proof.
  intros Ha Hb. unfold ntohs, htons, be_split. cbn [le_split rev app le_combine].
  rewrite <-(Z.div_unique (a + 256 * b) 256 b a), <-(Z.mod_unique (a + 256 * b) 256 b a) by lia.
  rewrite Z.mod_small by lia. lia.
Qed.

Lemma htons_byte a : 0 ≤ a < 256 → ntohs a = a * 256.
Proof.
  intros Ha. rewrite <-(Z.add_0_r (a * 256)), <-(htons_word a 0) by lia. f_equal. lia.
Qed.

Lemma checksum_loop_sum data sum :
  Forall is_byte data → 0 ≤ sum → sum + 65535 * Z.of_nat (length data) ≤ UINT_MAX →
  checksum_loop data sum = sum + word_sum data.
Proof.
  unfold UINT_MAX. revert sum.
  induction data as [|a|a b l IH] using pair_ind; intros sum H Hs Hb.
  - simpl. lia.
  - apply Forall_cons_1 in H as [Ha _]. unfold is_byte in Ha. cbn [length] in Hb.
    cbn [checksum_loop word_sum]. rewrite htons_byte, u32_small by (unfold UINT_MAX; lia). lia.
  - apply Forall_cons_1 in H as [Ha H]. apply Forall_cons_1 in H as [Hbb H].
    unfold is_byte in *. cbn [length] in Hb. cbn [checksum_loop word_sum].
    rewrite htons_word, u32_small by (unfold UINT_MAX; lia). rewrite IH by (done || lia). lia.
Qed.

Lemma uint16_checksum_sum data :
  Forall is_byte data → (length data ≤ 64)%nat → uint16_checksum data = word_sum data.
Proof.
  intros H Hl. unfold uint16_checksum.
  rewrite checksum_loop_sum by (done || unfold UINT_MAX; lia). lia.
Qed.

(** One folding step keeps the sum modulo 65535. *)
Lemma fold_step s :
  0 ≤ s < 4294967296 →
  let s' := u32 (Z.land s 65535 + Z.shiftr s 16) in
  0 ≤ s' ≤ 131070 ∧ s' mod 65535 = s mod 65535 ∧ (s ≤ 131070 → s' ≤ 65535) ∧ (0 < s → 0 < s').
Proof.
  intros Hs s'. assert (Hs' : s' = s mod 65536 + s / 65536).
  { unfold s'. change 65535 with (Z.ones 16) at 1. rewrite Z.land_ones, Z.shiftr_div_pow2 by lia.
    change (2 ^ 16) with 65536. apply u32_small. unfold UINT_MAX.
    pose proof (Z.mod_pos_bound s 65536 ltac:(lia)).
    pose proof (Z.div_lt_upper_bound s 65536 65536 ltac:(lia) ltac:(lia)).
    pose proof (Z.div_pos s 65536 ltac:(lia) ltac:(lia)). lia. }
  pose proof (Z.div_mod s 65536 ltac:(lia)) as Hdm.
  pose proof (Z.mod_pos_bound s 65536 ltac:(lia)).
  rewrite Hs'. clear Hs'. clearbody s'. clear s'.
  set (q := s / 65536) in *. set (r := s mod 65536) in *. clearbody q r.
  split_and!; [lia|lia| |lia|lia].
  rewrite Hdm. replace (65536 * q + r) with (r + q + q * 65535) by lia.
  by rewrite Z.mod_add by lia.
Qed.

(** The complement, in the byte order it is stored in. *)
Lemma complement_word s :
  0 ≤ s ≤ 65535 →
  let c := if u16 (Z.lnot (htons s)) =? 0 then 65535 else u16 (Z.lnot (htons s)) in
  0 ≤ c ≤ 65535 ∧ (word_sum (le_split 2 c) + s) mod 65535 = 0.
Proof.
  intros Hs. pose proof (Z.div_mod s 256 ltac:(lia)).
  pose proof (Z.mod_pos_bound s 256 ltac:(lia)).
  assert (Hh : htons s = s mod 256 * 256 + s / 256).
  { rewrite <-(htons_word (s mod 256) (s / 256)) by lia. unfold ntohs. f_equal. lia. }
  rewrite Hh. set (q := s / 256) in *. set (r := s mod 256) in *. clearbody q r.
  assert (Hc : u16 (Z.lnot (r * 256 + q)) = (255 - r) * 256 + (255 - q)).
  { unfold u16, Z.lnot. rewrite <-(Z.mod_add _ 1) by lia. rewrite Z.mod_small; lia. }
  rewrite Hc. cbv zeta. destruct (_ =? 0) eqn:E; zbool.
  - split; [lia|]. cbn. assert (s = 65535) as -> by lia. reflexivity.
  - split; [lia|]. cbn [le_split word_sum]. set (c := (255 - r) * 256 + (255 - q)) in *.
    rewrite <-(Z.div_unique c 256 (255 - r) (255 - q)), <-(Z.mod_unique c 256 (255 - r) (255 - q))
      by (unfold c; lia).
    rewrite (Z.mod_small (255 - r)) by lia.
    replace (_ + s) with (1 * 65535) by lia. apply Z.mod_mul. lia.
Qed.

Lemma checksum_finish_spec s :
  0 ≤ s < 4294967296 →
  0 ≤ checksum_finish s ≤ 65535 ∧ (word_sum (le_split 2 (checksum_finish s)) + s) mod 65535 = 0.
Proof.
  intros Hs. unfold checksum_finish.
  destruct (fold_step s Hs) as (H1 & H2 & _ & _). cbv zeta in *.
  set (s1 := u32 (Z.land s 65535 + Z.shiftr s 16)) in *. clearbody s1.
  destruct (fold_step s1 ltac:(lia)) as (H3 & H4 & H5 & _). cbv zeta in *.
  set (s2 := u32 (Z.land s1 65535 + Z.shiftr s1 16)) in *. clearbody s2.
  rewrite (u16_small s2) by lia. destruct (complement_word s2 ltac:(lia)) as [H6 H7]. cbv zeta in H6, H7.
  split; [done|]. rewrite <-Z.add_mod_idemp_r, <-H2, <-H4, Z.add_mod_idemp_r by lia. exact H7.
Qed.

(** *** Packets *)

(** Remove wrap-arounds from the innermost outwards. *)
Ltac u32_norm :=
  repeat match goal with
  | |- context [u32 ?x] =>
      lazymatch x with
      | context [u32 _] => fail
      | _ => rewrite (u32_small x) by (unfold UINT_MAX; lia)
      end
  end.

Lemma slice_length off n m : (off + n ≤ length m)%nat → length (slice off n m) = n.
Proof. intros. unfold slice. rewrite length_take, length_drop. lia. Qed.

Lemma slice_bytes off n m : Forall is_byte m → Forall is_byte (slice off n m).
Proof. intros. by apply Forall_take, Forall_drop. Qed.

Lemma tcp_header_length sp dp seq ack rst c :
  length sp = 2%nat → length dp = 2%nat → length (tcp_header sp dp seq ack rst c) = 20%nat.
Proof. intros H1 H2. unfold tcp_header. rewrite !length_app, !le_split_length. simpl. lia. Qed.

Lemma tcp_header_bytes sp dp seq ack rst c :
  Forall is_byte sp → Forall is_byte dp → Forall is_byte (tcp_header sp dp seq ack rst c).
Proof.
  intros H1 H2. unfold tcp_header. rewrite !Forall_app. split_and!; try done;
    try apply le_split_bytes; destruct rst; repeat constructor; done.
Qed.

(** Storing the checksum adds its word to the sum. *)
Lemma tcp_header_sum sp dp seq ack rst c :
  length sp = 2%nat → length dp = 2%nat →
  word_sum (tcp_header sp dp seq ack rst c) =
    word_sum (tcp_header sp dp seq ack rst 0) + word_sum (le_split 2 c).
Proof.
  intros H1 H2. unfold tcp_header.
  rewrite !(word_sum_app sp), !(word_sum_app dp) by (by rewrite ?H1, ?H2).
  rewrite !(word_sum_app (le_split 4 _)) by (by rewrite le_split_length).
  rewrite !(word_sum_app [_; _]) by done.
  rewrite !(word_sum_app (le_split 2 _)) by (by rewrite le_split_length).
  change (word_sum (le_split 2 0)) with 0. lia.
Qed.

Lemma tcp_header_positive sp dp seq ack rst c :
  length sp = 2%nat → length dp = 2%nat → Forall is_byte sp → Forall is_byte dp →
  0 < word_sum (tcp_header sp dp seq ack rst c).
Proof.
  intros H1 H2 Hs Hd. unfold tcp_header.
  rewrite (word_sum_app sp), (word_sum_app dp) by (by rewrite ?H1, ?H2).
  rewrite !(word_sum_app (le_split 4 _)) by (by rewrite le_split_length).
  rewrite (word_sum_app [_; _]) by done.
  rewrite !(word_sum_app (le_split 2 _)) by (by rewrite le_split_length).
  pose proof (word_sum_bound sp Hs). pose proof (word_sum_bound dp Hd).
  pose proof (word_sum_bound _ (le_split_bytes 4 seq)).
  pose proof (word_sum_bound _ (le_split_bytes 4 ack)).
  pose proof (word_sum_bound _ (le_split_bytes 2 (htons 1234))).
  pose proof (word_sum_bound _ (le_split_bytes 2 c)).
  assert (20480 ≤ word_sum [80; if rst then 20 else 16]) by (destruct rst; cbn; lia).
  change (word_sum [0; 0]) with 0. lia.
Qed.

(** The common end of both checksums: a sum of disjoint parts, then stored. *)
Lemma stored_checksum_ok sp dp seq ack rst pseudo sum :
  length sp = 2%nat → length dp = 2%nat → Forall is_byte sp → Forall is_byte dp →
  Nat.even (length pseudo) = true → Forall is_byte pseudo →
  sum = word_sum pseudo + word_sum (tcp_header sp dp seq ack rst 0) →
  0 ≤ sum < 4294967296 →
  checksum_ok (pseudo ++ tcp_header sp dp seq ack rst (checksum_finish sum)).
Proof.
  intros H1 H2 Hs Hd He Hp Hsum Hr. destruct (checksum_finish_spec sum Hr) as [_ Hf].
  unfold checksum_ok. rewrite word_sum_app by done. split.
  - rewrite tcp_header_sum by done.
    replace (_ + _) with (word_sum (le_split 2 (checksum_finish sum)) + sum) by lia. done.
  - pose proof (word_sum_bound pseudo Hp).
    pose proof (tcp_header_positive sp dp seq ack rst (checksum_finish sum) H1 H2 Hs Hd). lia.
Qed.

Lemma word_sum_le l n : Forall is_byte l → length l = n → 0 ≤ word_sum l ≤ 65535 * Z.of_nat n.
Proof. intros H <-. by apply word_sum_bound. Qed.

Lemma ip4_packet_run src dst seq ack rst :
  length src = 28%nat → length dst = 28%nat → Forall is_byte src → Forall is_byte dst →
  length (ip4_packet src dst seq ack rst) = 40%nat ∧
  checksum_ok ((sin_addr src ++ sin_addr dst ++ [0; IPPROTO_TCP; 0; 20]) ++
               drop 20 (ip4_packet src dst seq ack rst)).
Proof.
  intros Hs Hd Bs Bd.
  assert (Lsp : length (sa_port src) = 2%nat) by (apply slice_length; lia).
  assert (Ldp : length (sa_port dst) = 2%nat) by (apply slice_length; lia).
  assert (Lsa : length (sin_addr src) = 4%nat) by (apply slice_length; lia).
  assert (Lda : length (sin_addr dst) = 4%nat) by (apply slice_length; lia).
  assert (Bsp : Forall is_byte (sa_port src)) by (by apply slice_bytes).
  assert (Bdp : Forall is_byte (sa_port dst)) by (by apply slice_bytes).
  assert (Bsa : Forall is_byte (sin_addr src)) by (by apply slice_bytes).
  assert (Bda : Forall is_byte (sin_addr dst)) by (by apply slice_bytes).
  assert (Lip : length (ip_header (sin_addr src) (sin_addr dst)) = 20%nat).
  { unfold ip_header. rewrite !length_app, le_split_length, Lsa, Lda. done. }
  unfold ip4_packet. cbv zeta. split.
  { rewrite length_app, Lip, tcp_header_length by done. done. }
  rewrite drop_app_length' by done.
  set (hdr := tcp_header (sa_port src) (sa_port dst) seq ack rst).
  assert (Bh : Forall is_byte (hdr 0)) by (by apply tcp_header_bytes).
  assert (Lh : length (hdr 0) = 20%nat) by (by apply tcp_header_length).
  pose proof (word_sum_le _ _ Bh Lh) as Wh. pose proof (word_sum_le _ _ Bsa Lsa) as Wsa.
  pose proof (word_sum_le _ _ Bda Lda) as Wda.
  unfold tcp_checksum. cbv zeta. rewrite !uint16_checksum_sum by (done || lia). rewrite Lh.
  unfold IPPROTO_TCP. u32_norm.
  apply stored_checksum_ok; try done.
  - rewrite !length_app, Lsa, Lda. done.
  - rewrite !Forall_app. split_and!; [done|done|]. repeat constructor; done.
  - rewrite !word_sum_app by (by rewrite ?Lsa, ?Lda). fold hdr. cbn [word_sum]. lia.
  - lia.
Qed.

Lemma ip6_packet_run src dst seq ack rst :
  length src = 28%nat → length dst = 28%nat → Forall is_byte src → Forall is_byte dst →
  length (ip6_packet src dst seq ack rst) = 60%nat ∧
  checksum_ok ((sin6_addr src ++ sin6_addr dst ++ [0; 0; 0; 20; 0; 0; 0; IPPROTO_TCP]) ++
               drop 40 (ip6_packet src dst seq ack rst)).
Proof.
  intros Hs Hd Bs Bd.
  assert (Lsp : length (sa_port src) = 2%nat) by (apply slice_length; lia).
  assert (Ldp : length (sa_port dst) = 2%nat) by (apply slice_length; lia).
  assert (Lsa : length (sin6_addr src) = 16%nat) by (apply slice_length; lia).
  assert (Lda : length (sin6_addr dst) = 16%nat) by (apply slice_length; lia).
  assert (Bsp : Forall is_byte (sa_port src)) by (by apply slice_bytes).
  assert (Bdp : Forall is_byte (sa_port dst)) by (by apply slice_bytes).
  assert (Bsa : Forall is_byte (sin6_addr src)) by (by apply slice_bytes).
  assert (Bda : Forall is_byte (sin6_addr dst)) by (by apply slice_bytes).
  assert (Lip : length (ip6_header (sin6_addr src) (sin6_addr dst)) = 40%nat).
  { unfold ip6_header. rewrite !length_app, le_split_length, Lsa, Lda. done. }
  unfold ip6_packet. cbv zeta. split.
  { rewrite length_app, Lip, tcp_header_length by done. done. }
  rewrite drop_app_length' by done.
  set (hdr := tcp_header (sa_port src) (sa_port dst) seq ack rst).
  assert (Bh : Forall is_byte (hdr 0)) by (by apply tcp_header_bytes).
  assert (Lh : length (hdr 0) = 20%nat) by (by apply tcp_header_length).
  pose proof (word_sum_le _ _ Bh Lh) as Wh. pose proof (word_sum_le _ _ Bsa Lsa) as Wsa.
  pose proof (word_sum_le _ _ Bda Lda) as Wda.
  unfold tcp_checksum6. cbv zeta. rewrite Lh.
  assert (Hph : uint16_checksum (be_split 4 (Z.of_nat 20) ++ be_split 4 IPPROTO_TCP) = 26)
    by reflexivity.
  rewrite Hph, !uint16_checksum_sum by (done || lia).
  u32_norm.
  apply stored_checksum_ok; try done.
  - rewrite !length_app, Lsa, Lda. done.
  - rewrite !Forall_app. split_and!; [done|done|]. repeat constructor; done.
  - rewrite !word_sum_app by (by rewrite ?Lsa, ?Lda). fold hdr. cbn [word_sum].
    unfold IPPROTO_TCP. lia.
  - lia.
Qed.

(** *** Endpoints *)

Lemma dec_u_digits n : 0 ≤ n < 10 ^ 20 → Forall (λ c, 48 ≤ c ≤ 57) (dec_u n).
Proof.
  intros Hn. destruct (dec_u_spec n Hn) as (ds & -> & Hds & _).
  apply Forall_fmap. eapply Forall_impl; [|exact Hds]. simpl. lia.
Qed.

Lemma dotted_chars bs :
  Forall is_byte bs → length bs = 4%nat → Forall (λ c, 46 ≤ c ≤ 57) (dotted bs).
Proof.
  intros H Hl. destruct bs as [|a [|b [|c [|d [|]]]]]; try done. unfold dotted.
  assert (Hd : ∀ x, is_byte x → Forall (λ c, 46 ≤ c ≤ 57) (dec_u x)).
  { intros x Hx. unfold is_byte in Hx. eapply Forall_impl; [|apply (dec_u_digits x); lia].
    simpl. lia. }
  apply Forall_cons_1 in H as [Ha H]. apply Forall_cons_1 in H as [Hb H].
  apply Forall_cons_1 in H as [Hc H]. apply Forall_cons_1 in H as [Hdd _].
  rewrite !Forall_app. split_and!; auto; repeat constructor; lia.
Qed.

Lemma strchr_none l c : c ∉ l → strchr l c = None.
Proof.
  induction l as [|x l IH]; intros H; [done|]. apply not_elem_of_cons in H as [Hx H].
  cbn [strchr]. ztest. auto.
Qed.

Lemma strrchr_none l c : c ∉ l → strrchr l c = None.
Proof.
  induction l as [|x l IH]; intros H; [done|]. apply not_elem_of_cons in H as [Hx H].
  cbn [strrchr]. rewrite IH by done. by ztest.
Qed.

Lemma strrchr_last l c r : c ∉ r → strrchr (l ++ c :: r) c = Some (c :: r).
Proof.
  intros H. induction l as [|x l IH]; cbn [app strrchr].
  - rewrite strrchr_none by done. by rewrite Z.eqb_refl.
  - by rewrite IH.
Qed.

Lemma strtoul_dec p : 0 ≤ p ≤ ULONG_MAX → strtoul 10 (dec_u p) = (p, [], false).
Proof.
  unfold ULONG_MAX. intros Hp. unfold strtoul.
  rewrite <-(app_nil_r (dec_u p)), scan_number_dec_u by (done || lia).
  unfold ULONG_MAX. by ztest.
Qed.

Lemma splice_length off bs m :
  (off + length bs ≤ length m)%nat → length (splice off bs m) = length m.
Proof. intros. unfold splice. rewrite !length_app, length_take, length_drop. lia. Qed.

Lemma splice_at k off bs a m :
  length a = k → splice (k + off) bs (a ++ m) = a ++ splice off bs m.
Proof.
  intros <-. unfold splice. rewrite take_app_add, <-app_assoc, <-Nat.add_assoc, drop_app_add. done.
Qed.

Lemma splice_0 bs m : splice 0 bs m = bs ++ drop (length bs) m.
Proof. done. Qed.

Lemma parse_ipv4_run bs port sa :
  Forall is_byte bs → length bs = 4%nat → (8 ≤ length sa)%nat →
  parse_ipv4 (dotted bs) port sa =
    (0, le_split 2 AF_INET ++ le_split 2 (htons (u16 port)) ++ bs ++ drop 8 sa).
Proof.
  intros Hb Hl Hsa. unfold parse_ipv4. cbv zeta.
  rewrite (inet_pton4_quad bs Hb Hl). rewrite splice_0.
  rewrite (splice_at 2 0) by apply le_split_length. rewrite splice_0.
  rewrite app_assoc, (splice_at 4 0) by (by rewrite length_app, !le_split_length).
  rewrite splice_0, <-app_assoc, !drop_drop, !le_split_length, Hl. done.
Qed.

Lemma le_split_htons x : le_split 2 (htons x) = be_split 2 x.
Proof.
  unfold htons. rewrite <-(be_split_length 2 x) at 1. apply le_split_combine, be_split_bytes.
Qed.

Lemma parse_ip_port_run bs p sa :
  Forall is_byte bs → length bs = 4%nat → 0 ≤ p ≤ ULONG_MAX → (8 ≤ length sa)%nat →
  parse_ip_port (dotted bs ++ [58] ++ dec_u p) sa =
    (0, le_split 2 AF_INET ++ be_split 2 (p mod 65536) ++ bs ++ drop 8 sa).
Proof.
  intros Hb Hl Hp Hsa. unfold ULONG_MAX in Hp.
  assert (Hnd : 58 ∉ dotted bs).
  { eapply Forall_not_elem; [by apply dotted_chars|]. cbn. lia. }
  assert (Hnp : 58 ∉ dec_u p).
  { eapply Forall_not_elem; [apply dec_u_digits; lia|]. cbn. lia. }
  unfold parse_ip_port. cbn [app]. rewrite strrchr_last by done. cbn [tl].
  rewrite strtoul_dec by (unfold ULONG_MAX; lia). cbv iota zeta.
  rewrite length_app, Nat.add_sub, take_app_length. unfold parse_ip.
  rewrite strchr_none by done. rewrite parse_ipv4_run by done. rewrite le_split_htons.
  do 3 f_equal. f_equal. unfold u16, u32.
  change 4294967296 with (65536 * 65536). rewrite Z.rem_mul_r by lia.
  by rewrite (Z.mul_comm 65536 (_ mod _)), Z.mod_add, Z.mod_mod by lia.
Qed.

(** *** Reading a line *)

Lemma ep_text_chars e :
  wf_endpoint e → Forall (λ c, 46 ≤ c ≤ 58) (ep_text e) ∧ (0 < length (ep_text e) ≤ 21)%nat.
Proof.
  intros (Hb & Hl & Hp). unfold ep_text. split.
  - rewrite !Forall_app. split_and!.
    + eapply Forall_impl; [|by apply dotted_chars]. cbn. lia.
    + repeat constructor; lia.
    + eapply Forall_impl; [|apply dec_u_digits; lia]. cbn. lia.
  - destruct e as [bs p]. cbn [fst snd] in *.
    destruct bs as [|a [|b [|c [|d [|]]]]]; try done.
    apply Forall_cons_1 in Hb as [Ha Hb]. apply Forall_cons_1 in Hb as [Hb' Hb].
    apply Forall_cons_1 in Hb as [Hc Hb]. apply Forall_cons_1 in Hb as [Hd _].
    unfold is_byte in *. unfold dotted. rewrite !length_app. cbn [length].
    pose proof (dec_u_length a 3 ltac:(lia) ltac:(lia) ltac:(lia)).
    pose proof (dec_u_length b 3 ltac:(lia) ltac:(lia) ltac:(lia)).
    pose proof (dec_u_length c 3 ltac:(lia) ltac:(lia) ltac:(lia)).
    pose proof (dec_u_length d 3 ltac:(lia) ltac:(lia) ltac:(lia)).
    pose proof (dec_u_length p 5 ltac:(lia) ltac:(lia) ltac:(lia)). lia.
Qed.

Lemma word_app w c r :
  Forall (λ c, 46 ≤ c ≤ 58) w → isspace c = true → word (w ++ c :: r) = w.
Proof.
  intros Hw Hc. induction Hw as [|x w Hx _ IH]; cbn [app word]; [by rewrite Hc|].
  replace (isspace x) with false by (unfold isspace; by ztest). by rewrite IH.
Qed.

Lemma skip_spaces_word w r :
  Forall (λ c, 46 ≤ c ≤ 58) w → (0 < length w)%nat → skip_spaces (w ++ r) = w ++ r.
Proof.
  intros Hw Hl. destruct Hw as [|x w Hx _]; [cbn in Hl; lia|]. cbn [app skip_spaces].
  replace (isspace x) with false by (unfold isspace; by ztest). done.
Qed.

Lemma scan_word_run w c r buf :
  Forall (λ c, 46 ≤ c ≤ 58) w → (0 < length w < length buf)%nat → isspace c = true →
  scan_word (w ++ c :: r) buf = Ret (Some (splice 0 (w ++ [0]) buf, c :: r)).
Proof.
  intros Hw Hl Hc. unfold scan_word. rewrite skip_spaces_word by (done || lia).
  destruct (w ++ c :: r) as [|x l] eqn:E; [by destruct w|]. rewrite <-E.
  rewrite word_app by done. rewrite (proj2 (Nat.ltb_lt _ _)) by lia.
  by rewrite drop_app_length.
Qed.

Lemma ep_text_c e : wf_endpoint e → c_text (ep_text e).
Proof.
  intros H. eapply Forall_impl; [|apply ep_text_chars, H]. cbn. lia.
Qed.

(** A word copied into a buffer is read back from it. *)
Lemma buf_string_word w buf k :
  c_text w → buf_string (splice 0 (w ++ [0]) buf) k = (Ret w, k).
Proof.
  intros Hw. unfold buf_string. rewrite splice_0.
  rewrite bool_decide_true by (rewrite <-app_assoc; set_solver).
  rewrite <-app_assoc. cbn [app]. by rewrite cstr_text.
Qed.

(** The socket address of an endpoint, in any buffer. *)
Definition sockaddr_of (e : endpoint) (tail : list Z) : list Z :=
  le_split 2 AF_INET ++ be_split 2 e.2 ++ e.1 ++ tail.

Lemma parse_ep e sa :
  wf_endpoint e → (8 ≤ length sa)%nat → parse_ip_port (ep_text e) sa = (0, sockaddr_of e (drop 8 sa)).
Proof.
  intros (Hb & Hl & Hp) Hsa. unfold ep_text.
  rewrite parse_ip_port_run by (done || unfold ULONG_MAX; lia).
  by rewrite Z.mod_small by lia.
Qed.

Lemma sockaddr_fields e t :
  length e.1 = 4%nat →
  sa_family (sockaddr_of e t) = AF_INET ∧ sa_port (sockaddr_of e t) = be_split 2 e.2 ∧
  sin_addr (sockaddr_of e t) = e.1 ∧ length (sockaddr_of e t) = (8 + length t)%nat ∧
  slice 0 8 (take 16 (sockaddr_of e t)) = sockaddr_of e [].
Proof.
  destruct e as [bs p]. cbn [fst snd]. intros Hl.
  destruct bs as [|a [|b [|c [|d [|]]]]]; done.
Qed.

Lemma ip4_packet_fields e1 e2 t1 t2 u1 u2 seq ack rst :
  length e1.1 = 4%nat → length e2.1 = 4%nat →
  ip4_packet (sockaddr_of e1 t1) (sockaddr_of e2 t2) seq ack rst =
  ip4_packet (sockaddr_of e1 u1) (sockaddr_of e2 u2) seq ack rst.
Proof.
  intros H1 H2. unfold ip4_packet.
  destruct (sockaddr_fields e1 t1 H1) as (_ & -> & -> & _).
  destruct (sockaddr_fields e2 t2 H2) as (_ & -> & -> & _).
  destruct (sockaddr_fields e1 u1 H1) as (_ & -> & -> & _).
  by destruct (sockaddr_fields e2 u2 H2) as (_ & -> & -> & _).
Qed.

Lemma send_tickle_ack_ok dst src seq ack rst log :
  sa_family src = AF_INET →
  send_tickle_ack dst src seq ack rst (kernel_ok log) =
    (Ret 0, kernel_ok (log ++ [Sent (ip4_packet src dst seq ack rst) (take 16 dst)])).
Proof.
  intros Hf. unfold send_tickle_ack. rewrite Hf, Z.eqb_refl.
  generalize (ip4_packet src dst seq ack rst). intros p.
  cbv [mbind M_bind mret M_ret sys_socket sys_setsockopt sys_sendto kernel_ok k_socket
       k_setsockopt k_sendto k_log next_bool negb tl].
  by rewrite Z.eqb_refl.
Qed.

Lemma send_times_run n e1 e2 t1 t2 log :
  length e1.1 = 4%nat → length e2.1 = 4%nat →
  ∃ s, send_times n (sockaddr_of e2 t2) (sockaddr_of e1 t1) (kernel_ok log) =
    (Ret true, kernel_ok (log ++ replicate n s)) ∧ tickles s (e1, e2).
Proof.
  intros H1 H2.
  exists (Sent (ip4_packet (sockaddr_of e1 t1) (sockaddr_of e2 t2) 0 0 false)
               (take 16 (sockaddr_of e2 t2))). split.
  - revert log. induction n as [|n IH]; intros log; cbn [send_times replicate].
    { by rewrite app_nil_r. }
    erewrite bind_run by (apply send_tickle_ack_ok, sockaddr_fields, H1).
    change (negb (0 =? 0)) with false. cbv iota.
    rewrite IH, <-app_assoc. done.
  - split; cbn [pkt dest].
    + by apply ip4_packet_fields.
    + unfold mk_sin. fold (sockaddr_of e2 (replicate 20 0)).
      destruct (sockaddr_fields e2 t2 H2) as (_ & _ & _ & _ & ->).
      destruct e2 as [bs p]. cbn [fst snd] in *.
      destruct bs as [|a [|b [|c [|d [|]]]]]; done.
Qed.

Lemma scan_first e a1 a2 r :
  wf_endpoint e → length a1 = 64%nat → c_text r →
  scan_addrs (ep_text e ++ 32 :: r) a1 a2 =
    (o ← scan_word r a2;
     match o with
     | None => Ret (splice 0 (ep_text e ++ [0]) a1, a2)
     | Some (a2', _) => Ret (splice 0 (ep_text e ++ [0]) a1, a2')
     end).
Proof.
  intros He H1 Hr. destruct (ep_text_chars e He) as [Hc Hl]. unfold scan_addrs.
  rewrite cstr_text_nil.
  2:{ rewrite c_text_app. split; [by apply ep_text_c|]. constructor; [lia|done]. }
  by rewrite scan_word_run by (done || lia).
Qed.

Lemma scan_addrs_line e1 e2 a1 a2 :
  wf_endpoint e1 → wf_endpoint e2 → length a1 = 64%nat → length a2 = 64%nat →
  scan_addrs (line_of (e1, e2)) a1 a2 =
    Ret (splice 0 (ep_text e1 ++ [0]) a1, splice 0 (ep_text e2 ++ [0]) a2).
Proof.
  intros He1 He2 H1 H2. destruct (ep_text_chars e2 He2) as [Hc Hl].
  unfold line_of. cbn [fst snd app]. rewrite scan_first; [|done|done|].
  2:{ rewrite c_text_app. split; [by apply ep_text_c|]. repeat constructor. }
  by rewrite scan_word_run by (done || lia).
Qed.

(** A line with one word only leaves the second buffer as it was. *)
Lemma scan_addrs_one_word e a1 a2 :
  wf_endpoint e → length a1 = 64%nat →
  scan_addrs (ep_text e ++ [10]) a1 a2 = Ret (splice 0 (ep_text e ++ [0]) a1, a2).
Proof.
  intros He H1. destruct (ep_text_chars e He) as [Hc Hl]. unfold scan_addrs.
  rewrite cstr_text_nil.
  2:{ rewrite c_text_app. split; [by apply ep_text_c|]. repeat constructor. }
  by rewrite scan_word_run by (done || lia).
Qed.

Lemma word_buf_length e buf :
  wf_endpoint e → length buf = 64%nat → length (splice 0 (ep_text e ++ [0]) buf) = 64%nat.
Proof.
  intros He H. destruct (ep_text_chars e He) as [_ Hl].
  rewrite splice_length; [done|]. rewrite length_app. cbn. lia.
Qed.

(** One turn of the loop, once the buffers hold two endpoints. *)
Lemma tickle_turn line lines num a1 a2 e1 e2 b1 b2 src dst log :
  wf_endpoint e1 → wf_endpoint e2 → length src = 28%nat → length dst = 28%nat →
  scan_addrs line a1 a2 = Ret (splice 0 (ep_text e1 ++ [0]) b1, splice 0 (ep_text e2 ++ [0]) b2) →
  ∃ s, tickles s (e1, e2) ∧
    tickle_loop (line :: lines) num a1 a2 src dst (kernel_ok log) =
    tickle_loop lines num (splice 0 (ep_text e1 ++ [0]) b1) (splice 0 (ep_text e2 ++ [0]) b2)
      (sockaddr_of e1 (drop 8 src)) (sockaddr_of e2 (drop 8 dst))
      (kernel_ok (log ++ replicate (Z.to_nat num) s)).
Proof.
  intros He1 He2 Hs Hd Hscan.
  destruct (send_times_run (Z.to_nat num) e1 e2 (drop 8 src) (drop 8 dst) log)
    as (s & Hrun & Ht); [apply He1|apply He2|].
  exists s. split; [done|]. cbn [tickle_loop].
  erewrite bind_run by (by rewrite Hscan). cbv beta iota.
  erewrite bind_run by (apply buf_string_word; by apply ep_text_c).
  rewrite parse_ep by (done || lia). cbv iota. change (negb (0 =? 0)) with false. cbv iota.
  erewrite bind_run by (apply buf_string_word; by apply ep_text_c).
  rewrite parse_ep by (done || lia). cbv iota. change (negb (0 =? 0)) with false. cbv iota.
  by erewrite bind_run by exact Hrun.
Qed.

Lemma sockaddr_length e sa :
  wf_endpoint e → length sa = 28%nat → length (sockaddr_of e (drop 8 sa)) = 28%nat.
Proof.
  intros (_ & Hl & _) H. destruct (sockaddr_fields e (drop 8 sa) Hl) as (_ & _ & _ & -> & _).
  rewrite length_drop. lia.
Qed.

Lemma Forall2_replicate_tickles s p n : tickles s p → Forall2 tickles (replicate n s) (replicate n p).
Proof. intros H. induction n; cbn; by constructor. Qed.

Lemma tickle_loop_run ps num a1 a2 src dst log :
  Forall (λ p, wf_endpoint p.1 ∧ wf_endpoint p.2) ps →
  length a1 = 64%nat → length a2 = 64%nat → length src = 28%nat → length dst = 28%nat →
  ∃ log', tickle_loop (line_of <$> ps) num a1 a2 src dst (kernel_ok log)
            = (Ret 0, kernel_ok (log ++ log')) ∧
    Forall2 tickles log' (concat (replicate (Z.to_nat num) <$> ps)).
Proof.
  intros H. revert a1 a2 src dst log. induction H as [|[e1 e2] ps [He1 He2] _ IH];
    intros a1 a2 src dst log H1 H2 Hs Hd.
  { exists []. rewrite app_nil_r. by split; [|constructor]. }
  cbn [fst snd] in *. rewrite !fmap_cons. cbn [concat].
  destruct (tickle_turn (line_of (e1, e2)) (line_of <$> ps) num a1 a2 e1 e2 a1 a2 src dst log)
    as (s & Ht & ->); [done..|by apply scan_addrs_line|].
  destruct (IH (splice 0 (ep_text e1 ++ [0]) a1) (splice 0 (ep_text e2 ++ [0]) a2)
              (sockaddr_of e1 (drop 8 src)) (sockaddr_of e2 (drop 8 dst))
              (log ++ replicate (Z.to_nat num) s)) as (log' & -> & Hf);
    [by apply word_buf_length|by apply word_buf_length|by apply sockaddr_length..|].
  exists (replicate (Z.to_nat num) s ++ log'). rewrite app_assoc. split; [done|].
  apply Forall2_app; [by apply Forall2_replicate_tickles|done].
Qed.

Lemma ep_no_newline e : wf_endpoint e → 10 ∉ ep_text e.
Proof. intros H. eapply Forall_not_elem; [by apply ep_text_chars|]. cbn. lia. Qed.

Lemma stdin_lines ps :
  Forall (λ p, wf_endpoint p.1 ∧ wf_endpoint p.2) ps →
  fgets_lines 128 (concat (line_of <$> ps)) = line_of <$> ps.
Proof.
  induction 1 as [|[e1 e2] ps [He1 He2] _ IH]; [done|]. cbn [fst snd] in *.
  rewrite fmap_cons. cbn [concat]. unfold line_of at 1 3. cbn [fst snd].
  rewrite !app_assoc, <-(app_assoc _ [10]). cbn [app].
  destruct (ep_text_chars e1 He1) as [_ Hl1]. destruct (ep_text_chars e2 He2) as [_ Hl2].
  rewrite fgets_lines_line.
  - by rewrite IH.
  - rewrite !not_elem_of_app. split_and!; [by apply ep_no_newline| |by apply ep_no_newline].
    by apply not_elem_of_cons; split; [|apply not_elem_of_nil].
  - rewrite !length_app. cbn. lia.
Qed.

(** ** Properties *)

(** [C18] The packets are ones a receiver accepts: whatever the addresses, ports,
    sequence numbers and RST flag, the IPv4 packet has 40 bytes and the IPv6
    packet 60, and in both the ones' complement sum of pseudo-header and TCP
    segment, stored checksum included, is zero. *)
Theorem tickle_checksums_valid src dst seq ack rst :
  length src = 28%nat → length dst = 28%nat → Forall is_byte src → Forall is_byte dst →
  let p4 := ip4_packet src dst seq ack rst in
  let p6 := ip6_packet src dst seq ack rst in
  length p4 = 40%nat ∧
  checksum_ok ((sin_addr src ++ sin_addr dst ++ [0; IPPROTO_TCP; 0; 20]) ++ drop 20 p4) ∧
  length p6 = 60%nat ∧
  checksum_ok ((sin6_addr src ++ sin6_addr dst ++ [0; 0; 0; 20; 0; 0; 0; IPPROTO_TCP]) ++
               drop 40 p6).
Proof.
  intros Hs Hd Bs Bd p4 p6.
  destruct (ip4_packet_run src dst seq ack rst) as [? ?]; [done..|].
  by destruct (ip6_packet_run src dst seq ack rst) as [? ?].
Qed.

(** Parsing "a.b.c.d:port" stores family, port in network order and
    address, and nothing else; the port is not checked against 65535 but
    silently reduced modulo 65536. *)
Theorem parse_ip_port_truncates bs p sa :
  Forall is_byte bs → length bs = 4%nat → 0 ≤ p ≤ ULONG_MAX → (8 ≤ length sa)%nat →
  parse_ip_port (dotted bs ++ [58] ++ dec_u p) sa =
    (0, le_split 2 AF_INET ++ be_split 2 (p mod 65536) ++ bs ++ drop 8 sa).
Proof. apply parse_ip_port_run. Qed.


(** The result of [sscanf] is not checked: a line with a single endpoint is
    not rejected, and its tickle goes to the destination of the line before. *)
Theorem one_word_line_reuses_destination e1 e2 e3 loc :
  wf_endpoint e1 → wf_endpoint e2 → wf_endpoint e3 →
  length (l_addr1 loc) = 64%nat → length (l_addr2 loc) = 64%nat →
  length (l_src loc) = 28%nat → length (l_dst loc) = 28%nat →
  ∃ s1 s2, tickle_main [] (line_of (e1, e2) ++ ep_text e3 ++ [10]) loc (kernel_ok [])
             = (Ret 0, kernel_ok [s1; s2]) ∧
    tickles s1 (e1, e2) ∧ tickles s2 (e3, e2).
Proof.
  intros He1 He2 He3 H1 H2 Hs Hd. unfold tickle_main. erewrite bind_run by reflexivity.
  cbv beta.
  destruct (ep_text_chars e1 He1) as [_ Hl1]. destruct (ep_text_chars e2 He2) as [_ Hl2].
  destruct (ep_text_chars e3 He3) as [_ Hl3].
  assert (Hlines : fgets_lines 128 (line_of (e1, e2) ++ ep_text e3 ++ [10])
                   = [line_of (e1, e2); ep_text e3 ++ [10]]).
  { unfold line_of. cbn [fst snd].
    rewrite !app_assoc, <-(app_assoc _ (ep_text e3) [10]), <-(app_assoc _ [10]). cbn [app].
    rewrite fgets_lines_line.
    - f_equal. rewrite fgets_lines_line; [done|by apply ep_no_newline|lia].
    - rewrite !not_elem_of_app. split_and!; [by apply ep_no_newline| |by apply ep_no_newline].
      by apply not_elem_of_cons; split; [|apply not_elem_of_nil].
    - rewrite !length_app. cbn. lia. }
  rewrite Hlines.
  destruct (tickle_turn (line_of (e1, e2)) [ep_text e3 ++ [10]] 1 (l_addr1 loc) (l_addr2 loc)
              e1 e2 (l_addr1 loc) (l_addr2 loc) (l_src loc) (l_dst loc) []) as (s1 & Ht1 & ->);
    [done..|by apply scan_addrs_line|].
  destruct (tickle_turn (ep_text e3 ++ [10]) [] 1 (splice 0 (ep_text e1 ++ [0]) (l_addr1 loc))
              (splice 0 (ep_text e2 ++ [0]) (l_addr2 loc)) e3 e2
              (splice 0 (ep_text e1 ++ [0]) (l_addr1 loc)) (l_addr2 loc)
              (sockaddr_of e1 (drop 8 (l_src loc))) (sockaddr_of e2 (drop 8 (l_dst loc)))
              ([] ++ replicate (Z.to_nat 1) s1)) as (s2 & Ht2 & ->);
    [done..|by apply sockaddr_length|by apply sockaddr_length| |].
  { apply scan_addrs_one_word; [done|]. by apply word_buf_length. }
  exists s1, s2. by split_and!.
Qed.

(** ** Concrete instances *)

Definition demo_client : endpoint := ([10; 0; 0; 7], 40000).
Definition demo_server : endpoint := ([192; 168; 1; 17], 80).
Definition demo_locals : locals :=
  Locals (replicate 64 170) (replicate 64 170) (replicate 28 170) (replicate 28 170).

Lemma demo_client_wf : wf_endpoint demo_client.
Proof.
  split; [by apply (bool_decide_unpack _)|]. split; [done|]. vm_compute. by split.
Defined.
Lemma demo_server_wf : wf_endpoint demo_server.
Proof.
  split; [by apply (bool_decide_unpack _)|]. split; [done|]. vm_compute. by split.
Defined.

Lemma tickle_checksums_valid_witness :
  length (ip4_packet (mk_sin demo_server) (mk_sin demo_client) 0 0 true) = 40%nat.
Proof.
  apply (tickle_checksums_valid (mk_sin demo_server) (mk_sin demo_client) 0 0 true);
    [done|done|by apply (bool_decide_unpack _)..].
Defined.

Lemma parse_ip_port_truncates_witness :
  parse_ip_port (str "10.0.0.7:65616") (replicate 28 170) =
    (0, [2; 0; 0; 80; 10; 0; 0; 7] ++ replicate 20 170).
Proof.
  refine (eq_trans (parse_ip_port_truncates [10; 0; 0; 7] 65616 (replicate 28 170) _ _ _ _) _).
  - by apply (bool_decide_unpack _).
  - done.
  - vm_compute. split; discriminate.
  - vm_compute. lia.
  - reflexivity.
Defined.


Lemma one_word_line_reuses_destination_witness :
  ∃ s1 s2, tickle_main [] (str "192.168.1.17:80 10.0.0.7:40000" ++ [10] ++ str "10.0.0.7:40000" ++ [10])
             demo_locals (kernel_ok []) = (Ret 0, kernel_ok [s1; s2]).
Proof.
  destruct (one_word_line_reuses_destination demo_server demo_client demo_client demo_locals)
    as (s1 & s2 & H & _);
    [apply demo_server_wf|apply demo_client_wf|apply demo_client_wf|done..|].
  exists s1, s2. exact H.
Defined.
