(* ===== verification/StorageMon.v ===== *)
(** * storage_mon: testing block devices (tools/storage_mon.c)

    [test_device] is what a child process does with one device, as a function
    of the kernel's answers.  The daemon is a state machine: a record of its
    global variables and one function per callback of its event loop.  The
    event loop, its timers and the IPC transport belong to libqb and are not
    modelled: the loop's choice of callback is the event, what the callback
    learns from it (whether the expiry timer is still running) is an argument,
    and what the callback asks of it is a list of commands. *)

From S2P Require Import Prelude CString.
#[local] Open Scope Z_scope.

(** ** Definitions *)

Definition MAX_DEVICES : nat := 25.
Definition DEFAULT_TIMEOUT : Z := 10.
Definition DEFAULT_INTERVAL : Z := 30.
Definition SMON_GET_RESULT_COMMAND : list Z := str "get_check_value".
Definition SMON_MAX_MSGSIZE : nat := 128.
Definition SMON_MAX_RESP_SIZE : nat := 100.

(** *** Testing one device (in a child process) *)

Inductive open_res : Type := OpenOk | OpenEinval | OpenErr.

(** The answers of the kernel and of [rand] to one run of [test_device];
    [read_res] is the return value of [read], for the size it is asked for. *)
Record probe : Type := Probe {
  open_direct : open_res;
  open_plain : open_res;
  blkgetsize64 : option Z;
  rand1 : Z;
  lseek_res : Z → Z;
  blksszget : option Z;
  memalign_ok : bool;
  read_res : Z → Z;
  rand2 : Z;
  close_ok : bool }.

(** [(rand() % (devsize-1024)) & 0xFFFFFFFFFFFFFE00], in 64 bits; dividing by
    zero is a fault. *)
Definition seek_spot (rand devsize : Z) : outcome Z :=
  let m := u64 (devsize - 1024) in
  if m =? 0 then Fault
  else Ret (Z.land (rand mod m) 18446744073709551104).

(** The exit status of the child: [exit(0)] or [exit(-1)]. *)
Definition test_device (p : probe) (inject_error_percent : Z) : outcome Z :=
  let after_open (direct : bool) : outcome Z :=
    match blkgetsize64 p with
    | None => Ret 255
    | Some devsize =>
        spot ← seek_spot (rand1 p) devsize;
        if s32 (lseek_res p spot) <? 0 then Ret 255
        else
          let after_read : outcome Z :=
            if negb (inject_error_percent =? 0) && (rand2 p mod 100 <? inject_error_percent)
            then Ret 255
            else if close_ok p then Ret 0 else Ret 255 in
          if direct then
            match blksszget p with
            | None => Ret 255
            | Some sec_size =>
                if negb (memalign_ok p) then Ret 255
                else
                  let res := s32 (read_res p sec_size) in
                  if res <? 0 then Ret 255
                  else if res <? sec_size then Ret 255
                  else after_read
            end
          else
            let res := s32 (read_res p 512) in
            if res <? 0 then Ret 255
            else if res <? 512 then Ret 255
            else after_read
    end in
  match open_direct p with
  | OpenOk => after_open true
  | OpenErr => Ret 255
  | OpenEinval =>
      match open_plain p with
      | OpenOk => after_open false
      | _ => Ret 255
      end
  end.

(** *** The daemon's variables *)

Record smcfg : Type := Smcfg {
  devices : list (list Z);
  scores : list Z;           (* MAX_DEVICES entries *)
  timeout : Z;
  interval : Z;
  inject_error_percent : Z }.

Definition device_count (c : smcfg) : nat := length (devices c).

Record smon : Type := Smon {
  test_forks : list Z;       (* MAX_DEVICES entries *)
  final_score : Z;
  response_final_score : Z;
  finished_count : Z;
  daemon_check_first_all_devices : bool;
  shutting_down : bool }.

(** Static storage. *)
Definition smon_init : smon := Smon (replicate MAX_DEVICES 0) 0 0 0 false false.

(** What the callbacks ask of the event loop and of the kernel. *)
Inductive cmd : Type :=
| CFork (pid : Z)            (* a child was created for a device *)
| CKill (pid : Z)
| CTimerDel                  (* qb_loop_timer_del(timer_handle) *)
| CTimer (secs : Z) (data : bool)  (* main timer; [data] is not NULL *)
| CExpire (secs : Z)         (* the expiry timer *)
| CStop.

(** A status [waitpid] reports. *)
Inductive wstatus : Type :=
| WExited (code : Z)
| WSignaled.

(** *** Callbacks *)

Definition is_child_runnning (c : smcfg) (s : smon) : bool :=
  existsb (λ p, negb (p =? 0)) (take (device_count c) (test_forks s)).

Definition sigterm_handler (c : smcfg) (s : smon) : smon * list cmd :=
  let s' := Smon (test_forks s) (final_score s) (response_final_score s) (finished_count s)
                 (daemon_check_first_all_devices s) true in
  let kills :=
    if is_child_runnning c s'
    then CKill <$> filter (λ p, 0 < p) (take (device_count c) (test_forks s'))
    else [] in
  (s', CTimerDel :: kills ++ [CTimer 0 false]).

(** The index as a [size_t]: -1 is the largest one. *)
Fixpoint find_child_loop (forks : list Z) (pid : Z) (i : nat) : Z :=
  match forks with
  | [] => ULONG_MAX
  | p :: forks' =>
      if (0 <? p) && (p =? pid) then Z.of_nat i else find_child_loop forks' pid (S i)
  end.

Definition find_child_pid (c : smcfg) (s : smon) (pid : Z) : Z :=
  find_child_loop (take (device_count c) (test_forks s)) pid 0.

(** Array access by a [size_t]: outside the array is a fault. *)
Definition array_get {A} (l : list A) (i : Z) : outcome A :=
  if i <? Z.of_nat (length l)
  then match l !! Z.to_nat i with Some x => Ret x | None => Fault end
  else Fault.
Definition array_set {A} (l : list A) (i : Z) (x : A) : outcome (list A) :=
  if i <? Z.of_nat (length l) then Ret (<[Z.to_nat i := x]> l) else Fault.

(** A failure is added to the score, and to the response at once. *)
Definition add_failure (score : Z) (s : smon) : smon :=
  let f := s32 (final_score s + score) in
  Smon (test_forks s) f f (finished_count s) true (shutting_down s).

(** Lines 321 to 330: the child is done. *)
Definition finish_child (c : smcfg) (index : Z) (s : smon) : outcome smon :=
  forks ← array_set (test_forks s) index 0;
  let finished := finished_count s + 1 in
  if Z.of_nat (device_count c) =? finished
  then Ret (Smon forks (final_score s) (final_score s) finished true (shutting_down s))
  else Ret (Smon forks (final_score s) (response_final_score s) finished
                 (daemon_check_first_all_devices s) (shutting_down s)).

(** One turn of the [waitpid] loop; [running] is the answer of
    [qb_loop_timer_is_running] for the expiry timer. *)
Definition reap (c : smcfg) (running : bool) (pid : Z) (status : wstatus) (s : smon)
    : outcome smon :=
  match status with
  | WSignaled => Ret s
  | WExited code =>
      let index := find_child_pid c s pid in
      if 0 <=? index then
        s ← (if running && negb (code =? 0)
             then score ← array_get (scores c) index; Ret (add_failure score s)
             else Ret s);
        finish_child c index s
      else Ret s
  end.

Fixpoint reap_all (c : smcfg) (running : bool) (l : list (Z * wstatus)) (s : smon) : outcome smon :=
  match l with
  | [] => Ret s
  | (pid, st) :: l' => s ← reap c running pid st s; reap_all c running l' s
  end.

(** [reaped] is what successive calls of [waitpid] return before 0 or -1. *)
Definition sigchld_handler (c : smcfg) (running : bool) (reaped : list (Z * wstatus)) (s : smon)
    : outcome smon :=
  if is_child_runnning c s then reap_all c running reaped s else Ret s.

Fixpoint timeout_loop (forks sc : list Z) (s : smon) : smon :=
  match forks, sc with
  | p :: forks', score :: sc' =>
      timeout_loop forks' sc' (if 0 <? p then add_failure score s else s)
  | _, _ => s
  end.

Definition child_timeout_handler (c : smcfg) (s : smon) : smon :=
  if is_child_runnning c s
  then timeout_loop (take (device_count c) (test_forks s)) (scores c) s
  else s.

(** The forks of a check: [i] devices are done, [n] are left; [answers] are the
    results of [fork] in the parent, -1 when it fails or they run out. *)
Fixpoint fork_loop (n i : nat) (answers forks : list Z) : list Z * list cmd :=
  match n with
  | O => (forks, [])
  | S n' =>
      let pid := hd (-1) answers in
      let forks := <[i := pid]> forks in
      if pid <? 0 then (forks, [])
      else let '(forks, cmds) := fork_loop n' (S i) (tl answers) forks in
           (forks, CFork pid :: cmds)
  end.

(** Line 454 on: a new check. *)
Definition start_check (c : smcfg) (answers : list Z) (s : smon) : smon * list cmd :=
  let '(forks, cmds) := fork_loop (device_count c) 0 answers (replicate MAX_DEVICES 0) in
  (Smon forks 0 (response_final_score s) 0 (daemon_check_first_all_devices s) (shutting_down s),
   cmds).

(** [test_device_main] in the daemon; [data] is not NULL. *)
Definition test_device_main (c : smcfg) (data : bool) (answers : list Z) (s : smon)
    : smon * list cmd :=
  if shutting_down s then (s, [CStop])
  else
    let '(s, cmds) :=
      if is_child_runnning c s then (s, [])
      else let '(s, cmds) := start_check c answers s in (s, cmds ++ [CExpire (timeout c)]) in
    (s, cmds ++ if data then [CTimer (interval c) true] else []).

(** The score sent to a client. *)
Definition send_score (s : smon) (message : list Z) : Z :=
  if negb (strcmp message SMON_GET_RESULT_COMMAND =? 0) then -1
  else if negb (daemon_check_first_all_devices s) then -2
  else response_final_score s.

(** The text of the response: [snprintf(resp, 100, "%d", send_score)]. *)
Definition storage_mon_ipcs_msg_process_fn (s : smon) (message : list Z) : list Z :=
  snprintf_bytes SMON_MAX_RESP_SIZE (dec_d (send_score s message)).

(** The client, for the answers of the IPC library: [None] for a failed
    connection, the result of the send, and the message received. *)
Definition storage_mon_client (connected : bool) (send_rc recv_rc : Z) (message : list Z) : Z :=
  if negb connected then -1
  else if send_rc <? 0 then -1
  else if (0 <? send_rc) && (recv_rc <? 0) then -1
  else
    let response := if 0 <? send_rc then message else replicate SMON_MAX_MSGSIZE 0 in
    if negb (hd 0 response =? 0) then atoi (cstr response) else -1.

(** *** Events *)

Inductive event : Type :=
| EvTimer (data : bool) (answers : list Z)
| EvChld (running : bool) (reaped : list (Z * wstatus))
| EvExpire
| EvTerm.

Definition dispatch (c : smcfg) (e : event) (s : smon) : outcome (smon * list cmd) :=
  match e with
  | EvTimer data answers => Ret (test_device_main c data answers s)
  | EvChld running reaped => s ← sigchld_handler c running reaped s; Ret (s, [])
  | EvExpire => Ret (child_timeout_handler c s, [])
  | EvTerm => Ret (sigterm_handler c s)
  end.

Fixpoint run_events (c : smcfg) (es : list event) (s : smon) : outcome (smon * list cmd) :=
  match es with
  | [] => Ret (s, [])
  | e :: es' =>
      '(s, cmds) ← dispatch c e s;
      '(s, cmds') ← run_events c es' s;
      Ret (s, cmds ++ cmds')
  end.

(** *** The one-shot check *)

(** What [waitpid(test_forks[i], _, WUNTRACED|WNOHANG|WCONTINUED)] reports:
    nothing, an error, or a change of state, with the exit status if it is
    an exit. *)
Inductive wait_res : Type :=
| WNone
| WErr
| WChanged (exit_status : option Z).

(** The inner [for]: [None] is the early [return -1]. *)
Fixpoint poll_devices (forks sc : list Z) (answers : list wait_res) (final finished : Z)
    : option (list Z * Z * Z) :=
  match forks, sc with
  | p :: forks', score :: sc' =>
      let go p final finished :=
        '(fs, final, finished) ← poll_devices forks' sc' (tl answers) final finished;
        Some (p :: fs, final, finished) in
      if 0 <? p then
        match hd WNone answers with
        | WErr => None
        | WChanged (Some code) =>
            go 0 (if negb (code =? 0) then s32 (final + score) else final) (finished + 1)
        | WNone | WChanged None => go p final finished
        end
      else go p final finished
  | _, _ => Some (forks, final, finished)
  end.

Inductive loop_res (A : Type) : Type :=
| LDone (a : A)
| LError          (* return -1 *)
| LWaiting.       (* the script of polls ended before the loop did *)
Arguments LDone {A} a.
Arguments LError {A}.
Arguments LWaiting {A}.

(** The [while]; a poll is the answers for the devices and the clock after it. *)
Fixpoint wait_loop (n deadline : Z) (sc : list Z) (polls : list (list wait_res * Z))
    (forks : list Z) (final finished ts : Z) : loop_res (list Z * Z) :=
  if (finished <? n) && (ts <? deadline) then
    match polls with
    | [] => LWaiting
    | (answers, ts') :: polls' =>
        match poll_devices forks sc answers final finished with
        | None => LError
        | Some (forks, final, finished) =>
            wait_loop n deadline sc polls' forks final finished ts'
        end
    end
  else LDone (forks, final).

(** The devices that have not finished. *)
Fixpoint add_unfinished (forks sc : list Z) (final : Z) : Z :=
  match forks, sc with
  | p :: forks', score :: sc' =>
      add_unfinished forks' sc' (if negb (p =? 0) then s32 (final + score) else final)
  | _, _ => final
  end.

(** [test_device_main(NULL)] outside the daemon. *)
Definition test_device_once (c : smcfg) (answers : list Z) (start_time : Z)
    (polls : list (list wait_res * Z)) : loop_res Z :=
  let n := device_count c in
  let forks := take n (fork_loop n 0 answers (replicate MAX_DEVICES 0)).1 in
  match wait_loop (Z.of_nat n) (start_time + timeout c) (scores c) polls forks 0 0 start_time with
  | LDone (forks, final) => LDone (add_unfinished forks (scores c) final)
  | LError => LError
  | LWaiting => LWaiting
  end.

(** *** The PID file *)

Fixpoint drop_slashes (l : list Z) : list Z :=
  match l with
  | c :: l' => if c =? 47 then drop_slashes l' else l
  | [] => []
  end.

Fixpoint drop_component (l : list Z) : list Z :=
  match l with
  | c :: l' => if c =? 47 then l else drop_component l'
  | [] => []
  end.

(** [dirname(3)] *)
Definition dirname (s : list Z) : list Z :=
  match rev s with
  | [] => str "."
  | r =>
      match drop_slashes r with
      | [] => str "/"
      | r1 =>
          match drop_component r1 with
          | [] => str "."
          | r2 => match drop_slashes r2 with [] => str "/" | r3 => rev r3 end
          end
      end
  end.

(** The directories the loop makes: the prefixes that end before a slash. *)
Fixpoint dir_prefixes (n i : nat) (dir : list Z) : list (list Z) :=
  match n with
  | O => []
  | S n' =>
      if nth i dir 0 =? 47 then take i dir :: dir_prefixes n' (S i) dir
      else dir_prefixes n' (S i) dir
  end.

(** [mkdir] until one fails other than with EEXIST. *)
Fixpoint mkdirs (mkdir_ok : list Z → bool) (dirs : list (list Z)) : list (list Z) * bool :=
  match dirs with
  | [] => ([], true)
  | d :: dirs' =>
      if mkdir_ok d then let '(l, ok) := mkdirs mkdir_ok dirs' in (d :: l, ok) else ([d], false)
  end.

(** Writing [n] bytes of [text] at the start of a file that holds [old]. *)
Definition overwrite (n : nat) (text old : list Z) : list Z := take n text ++ drop n old.

(** Result, directories tried, and the contents of the file, which is opened
    without O_TRUNC; [written] is the result of [write]. *)
Definition write_pid_file (mkdir_ok : list Z → bool) (open_ok : bool) (written pid : Z)
    (old pidfile : list Z) : Z * list (list Z) * list Z :=
  let text := dec_d pid in
  let dir := dirname pidfile in
  let '(tried, ok) := mkdirs mkdir_ok (dir_prefixes (length dir - 1) 1 dir ++ [dir]) in
  if negb ok then (-1, tried, old)
  else if negb open_ok then (-1, tried, old)
  else
    let contents := overwrite (Z.to_nat written) text old in
    if negb (written =? Z.of_nat (length text)) then (-1, tried, contents)
    else (0, tried, contents).

(** *** The daemon *)

(** The event loop, until a callback stops it. *)
Fixpoint run_loop (c : smcfg) (es : list event) (s : smon) : outcome (option smon * list cmd) :=
  match es with
  | [] => Ret (None, [])
  | e :: es' =>
      '(s, cmds) ← dispatch c e s;
      if existsb (λ x, match x with CStop => true | _ => false end) cmds
      then Ret (Some s, cmds)
      else '(r, cmds') ← run_loop c es' s; Ret (r, cmds ++ cmds')
  end.

(** What the system and libqb answer to [storage_mon_daemon]. *)
Record daemon_env : Type := DaemonEnv {
  daemon_ok : bool;
  mkdir_ok : list Z → bool;
  open_ok : bool;
  written : Z;
  daemon_pid : Z;
  old_pid_file : list Z;
  ipcs_created : bool;
  ipcs_run_rc : Z;
  loop_events : list event }.

(** The result, [None] while the loop runs, and what was asked of the loop,
    beginning with the first timer; the PID file is removed on a normal end. *)
Definition storage_mon_daemon (c : smcfg) (pidfile : list Z) (env : daemon_env)
    : outcome (option Z * list cmd) :=
  if negb (daemon_ok env) then Ret (Some (-1), [])
  else
    let '(rc, _, _) := write_pid_file (mkdir_ok env) (open_ok env) (written env) (daemon_pid env)
                         (old_pid_file env) pidfile in
    if rc <? 0 then Ret (Some (-1), [])
    else if negb (ipcs_created env) then Ret (Some (-1), [])
    else if negb (ipcs_run_rc env =? 0) then Ret (Some (-1), [])
    else
      '(r, cmds) ← run_loop c (loop_events env) smon_init;
      Ret (match r with Some _ => Some 0 | None => None end, CTimer 0 true :: cmds).

(** *** main *)

Record options : Type := Options {
  o_devices : list (list Z);
  o_scores : list Z;
  o_timeout : Z;
  o_interval : Z;
  o_inject : Z;
  o_verbose : Z;
  o_daemonize : bool;
  o_client : bool;
  o_pidfile : list Z;
  o_attrname : list Z }.

Definition default_options (pidfile : list Z) : options :=
  Options [] [] DEFAULT_TIMEOUT DEFAULT_INTERVAL 0 0 false false pidfile (str "#health-storage_mon").

(** One result of [getopt_long]: the option character (0 for a long-only
    option, whose name follows) and its argument.  [return -1] is exit status
    255. *)
Definition main_option (opt : Z * list Z * list Z) (o : options) : outcome options :=
  let '(c, name, optarg) := opt in
  let '(Options dv sc tm iv ij vb dm cl pf an) := o in
  if c =? 0 then
    if strcmp name (str "inject-errors-percent") =? 0 then
      if (atoi optarg <? 1) || (100 <? atoi optarg) then Exited 255
      else if dm && cl then Exited 255
      else Ret (Options dv sc tm iv (atoi optarg) vb dm cl pf an)
    else
      let dm := dm || (strcmp name (str "daemonize") =? 0) in
      let cl := cl || (strcmp name (str "client") =? 0) in
      if dm && cl then Exited 255 else Ret (Options dv sc tm iv ij vb dm cl pf an)
  else if c =? 100 (* d *) then
    if (length dv <? MAX_DEVICES)%nat
    then Ret (Options (dv ++ [optarg]) sc tm iv ij vb dm cl pf an)
    else Exited 255
  else if c =? 115 (* s *) then
    if (length sc <? MAX_DEVICES)%nat then
      if (atoi optarg <? 1) || (10 <? atoi optarg) then Exited 255
      else Ret (Options dv (sc ++ [atoi optarg]) tm iv ij vb dm cl pf an)
    else Exited 255
  else if c =? 118 (* v *) then Ret (Options dv sc tm iv ij (vb + 1) dm cl pf an)
  else if c =? 116 (* t *) then
    if atoi optarg <? 1 then Exited 255
    else Ret (Options dv sc (atoi optarg) iv ij vb dm cl pf an)
  else if c =? 104 (* h *) then Exited 0
  else if c =? 105 (* i *) then
    if atoi optarg <? 1 then Exited 255
    else Ret (Options dv sc tm (atoi optarg) ij vb dm cl pf an)
  else if c =? 112 (* p *) then Ret (Options dv sc tm iv ij vb dm cl optarg an)
  else if c =? 97 (* a *) then Ret (Options dv sc tm iv ij vb dm cl pf optarg)
  else Exited 255.

Fixpoint main_options (opts : list (Z * list Z * list Z)) (o : options) : outcome options :=
  match opts with
  | [] => Ret o
  | opt :: opts' => o ← main_option opt o; main_options opts' o
  end.

(** The configuration [main] ends up with: the client, or a check. *)
Definition main_config (opts : list (Z * list Z * list Z)) (pidfile : list Z)
    : outcome (options * option smcfg) :=
  o ← main_options opts (default_options pidfile);
  if o_client o then Ret (o, None)
  else if (length (o_devices o) =? 0)%nat then Exited 255
  else if negb (length (o_devices o) =? length (o_scores o))%nat then Exited 255
  else Ret (o, Some (Smcfg (o_devices o)
                           (o_scores o ++ replicate (MAX_DEVICES - length (o_scores o)) 0)
                           (o_timeout o) (o_interval o) (o_inject o))).

(** The whole of [main]: the options, then the client, the one-shot check or
    the daemon; the return value is the exit status modulo 256, and [None] is a
    run that has not ended. *)
Definition storage_mon_main (opts : list (Z * list Z * list Z)) (pidfile : list Z)
    (client_connected : bool) (send_rc recv_rc : Z) (message : list Z)
    (forks : list Z) (start_time : Z) (polls : list (list wait_res * Z)) (env : daemon_env)
    : outcome (option Z) :=
  '(o, oc) ← main_config opts pidfile;
  match oc with
  | None => Ret (Some (storage_mon_client client_connected send_rc recv_rc message mod 256))
  | Some c =>
      if o_daemonize o then
        '(r, _) ← storage_mon_daemon c (o_pidfile o) env;
        Ret (option_map (λ rc, rc mod 256) r)
      else
        match test_device_once c forks start_time polls with
        | LDone score => Ret (Some (score mod 256))
        | LError => Ret (Some 255)
        | LWaiting => Ret None
        end
  end.

(** ** Specifications *)

(** What [main] accepts: 1 to 25 devices, a score from 1 to 10 for each. *)
Record wf_smcfg (c : smcfg) : Prop := {
  wf_devices : (1 ≤ device_count c ≤ MAX_DEVICES)%nat;
  wf_scores : length (scores c) = MAX_DEVICES;
  wf_scores_range : Forall (λ x, 0 ≤ x ≤ 10) (scores c);
  wf_timeout : 1 ≤ timeout c;
  wf_interval : 1 ≤ interval c }.

(** The processes the kernel has created and not yet handed to [waitpid], and
    the events it can produce with them. *)
Definition valid_event (kids : list Z) (e : event) : Prop :=
  match e with
  | EvTimer _ answers => Forall (λ p, p = -1 ∨ 0 < p) answers
  | EvChld _ reaped => NoDup reaped.*1 ∧ ∀ p, p ∈ reaped.*1 → p ∈ kids
  | EvExpire | EvTerm => True
  end.

Definition forked (cmds : list cmd) : list Z :=
  omap (λ x, match x with CFork p => Some p | _ => None end) cmds.

Definition next_kids (kids : list Z) (e : event) (cmds : list cmd) : list Z :=
  match e with
  | EvChld _ reaped => filter (λ p, p ∉ reaped.*1) kids
  | _ => kids ++ forked cmds
  end.

Inductive trace (c : smcfg) : list event → smon → list Z → Prop :=
| trace_init : trace c [] smon_init []
| trace_step es s kids e s' cmds :
    trace c es s kids → valid_event kids e → dispatch c e s = Ret (s', cmds) →
    trace c (es ++ [e]) s' (next_kids kids e cmds).

(** The events of one round of checks: exits of children with their status,
    and the expiry of the timeout. *)
Inductive rev : Type :=
| RExit (pid code : Z)
| RExpire.

Fixpoint round_events (expired : bool) (l : list rev) : list event :=
  match l with
  | [] => []
  | RExit pid code :: l' => EvChld (negb expired) [(pid, WExited code)] :: round_events expired l'
  | RExpire :: l' => EvExpire :: round_events true l'
  end.

(** A device has failed when its child exits with an error before the expiry,
    or has not exited at the expiry. *)
Fixpoint failed (l : list rev) (pid : Z) : bool :=
  match l with
  | [] => false
  | RExit p code :: l' => if p =? pid then negb (code =? 0) else failed l' pid
  | RExpire :: _ => true
  end.

Definition exits (l : list rev) : list Z :=
  omap (λ x, match x with RExit p _ => Some p | RExpire => None end) l.
Fixpoint expiries (l : list rev) : nat :=
  match l with
  | [] => 0
  | RExpire :: l' => S (expiries l')
  | RExit _ _ :: l' => expiries l'
  end.

(** The score of the devices whose child satisfies [f]. *)
Fixpoint score_of (f : Z → bool) (pids sc : list Z) : Z :=
  match pids, sc with
  | p :: pids', score :: sc' =>
      (if (0 <? p) && f p then score else 0) + score_of f pids' sc'
  | _, _ => 0
  end.

(** ** Lemmas *)

Lemma array_get_Some {A} (l : list A) i x : l !! i = Some x → array_get l (Z.of_nat i) = Ret x.
Proof.
  intros H. unfold array_get. pose proof (lookup_lt_Some _ _ _ H).
  rewrite (proj2 (Z.ltb_lt _ _)) by lia. by rewrite Nat2Z.id, H.
Qed.

Lemma array_set_run {A} (l : list A) i x :
  (i < length l)%nat → array_set l (Z.of_nat i) x = Ret (<[i := x]> l).
Proof.
  intros H. unfold array_set. rewrite (proj2 (Z.ltb_lt _ _)) by lia. by rewrite Nat2Z.id.
Qed.

(** A process that is recorded is found, at an index that holds it. *)
Lemma find_child_loop_found forks pid k :
  0 < pid → pid ∈ forks →
  ∃ i, find_child_loop forks pid k = Z.of_nat (k + i) ∧ forks !! i = Some pid.
Proof.
  intros Hp. revert k. induction forks as [|p forks IH]; intros k Hin; [by apply elem_of_nil in Hin|].
  cbn [find_child_loop]. destruct (decide (p = pid)) as [->|Hne].
  - ztest. cbn [andb]. exists 0%nat. split; [f_equal; lia|done].
  - apply elem_of_cons in Hin as [->|Hin]; [done|].
    rewrite (proj2 (Z.eqb_neq p pid)) by done. rewrite andb_false_r.
    destruct (IH (S k) Hin) as (i & -> & Hi). exists (S i). split; [f_equal; lia|done].
Qed.

Lemma is_child_runnning_spec c s :
  is_child_runnning c s = true ↔ ∃ p, p ∈ take (device_count c) (test_forks s) ∧ p ≠ 0.
Proof.
  unfold is_child_runnning. rewrite existsb_exists. split.
  - intros (p & Hp & H). exists p. split; [by apply list_elem_of_In|]. zbool. done.
  - intros (p & Hp & H). exists p. split; [by apply list_elem_of_In|]. by ztest.
Qed.

Lemma not_running_zero c s p :
  is_child_runnning c s = false → p ∈ take (device_count c) (test_forks s) → p = 0.
Proof.
  intros H Hp. destruct (decide (p = 0)); [done|].
  assert (is_child_runnning c s = true); [|congruence].
  apply is_child_runnning_spec. eauto.
Qed.

(** *** Forking *)

Lemma fork_loop_length n i answers forks :
  length (fork_loop n i answers forks).1 = length forks.
Proof.
  revert i answers forks. induction n as [|n IH]; intros i answers forks; cbn [fork_loop]; [done|].
  destruct (_ <? 0); cbn [fst]; [by rewrite length_insert|].
  specialize (IH (S i) (tl answers) (<[i:=hd (-1) answers]> forks)).
  destruct (fork_loop _ _ _ _) as [f cs]. cbn [fst] in *. by rewrite IH, length_insert.
Qed.

(** Entries below [i] stay. *)
Lemma fork_loop_below n i answers forks j :
  (j < i)%nat → (fork_loop n i answers forks).1 !! j = forks !! j.
Proof.
  revert i answers forks. induction n as [|n IH]; intros i answers forks Hj; cbn [fork_loop]; [done|].
  destruct (_ <? 0); cbn [fst]; [by rewrite list_lookup_insert_ne by lia|].
  specialize (IH (S i) (tl answers) (<[i:=hd (-1) answers]> forks) ltac:(lia)).
  destruct (fork_loop _ _ _ _) as [f cs]. cbn [fst] in *.
  by rewrite IH, list_lookup_insert_ne by lia.
Qed.

(** Every child that was created is recorded among the first entries. *)
Lemma fork_loop_recorded n i answers forks p :
  (i + n ≤ length forks)%nat → p ∈ forked (fork_loop n i answers forks).2 →
  0 ≤ p ∧ p ∈ take (i + n) (fork_loop n i answers forks).1.
Proof.
  revert i answers forks. induction n as [|n IH]; intros i answers forks Hl Hin; cbn [fork_loop] in *.
  { by apply elem_of_nil in Hin. }
  destruct (hd (-1) answers <? 0) eqn:E; cbn [snd fst] in *; [by apply elem_of_nil in Hin|].
  pose proof (fork_loop_below n (S i) (tl answers) (<[i:=hd (-1) answers]> forks) i ltac:(lia)) as Hb.
  specialize (IH (S i) (tl answers) (<[i:=hd (-1) answers]> forks)).
  rewrite length_insert in IH. specialize (IH ltac:(lia)).
  destruct (fork_loop n _ _ _) as [f cs]. cbn [fst snd] in *. zbool.
  change (p ∈ hd (-1) answers :: forked cs) in Hin. apply elem_of_cons in Hin as [->|Hin].
  - split; [done|]. rewrite list_lookup_insert_eq in Hb by lia.
    apply list_elem_of_lookup_2 with i. rewrite lookup_take_lt by lia. exact Hb.
  - replace (i + S n)%nat with (S i + n)%nat by lia. by apply IH.
Qed.

Lemma start_check_spec c answers s s' cmds :
  wf_smcfg c → start_check c answers s = (s', cmds) →
  length (test_forks s') = MAX_DEVICES ∧ final_score s' = 0 ∧
  response_final_score s' = response_final_score s ∧
  shutting_down s' = shutting_down s ∧
  ∀ p, p ∈ forked cmds → 0 ≤ p ∧ p ∈ take (device_count c) (test_forks s').
Proof.
  intros Hc. unfold start_check.
  pose proof (fork_loop_length (device_count c) 0 answers (replicate MAX_DEVICES 0)) as Hl.
  pose proof (fork_loop_recorded (device_count c) 0 answers (replicate MAX_DEVICES 0)) as Hr.
  rewrite length_replicate in Hl, Hr.
  destruct (fork_loop _ _ _ _) as [f cs]. intros [= <- <-]. cbn [fst snd test_forks final_score] in *.
  split_and!; try done. intros p Hp. apply Hr; [apply wf_devices in Hc; lia|done].
Qed.

(** *** Reaping *)

Lemma reap_exit c running pid code s :
  wf_smcfg c → length (test_forks s) = MAX_DEVICES → 0 < pid →
  pid ∈ take (device_count c) (test_forks s) →
  ∃ i score s', reap c running pid (WExited code) s = Ret s' ∧
    take (device_count c) (test_forks s) !! i = Some pid ∧ scores c !! i = Some score ∧
    test_forks s' = <[i := 0]> (test_forks s) ∧
    final_score s' = (if running && negb (code =? 0) then s32 (final_score s + score)
                      else final_score s) ∧
    finished_count s' = finished_count s + 1 ∧ shutting_down s' = shutting_down s ∧
    (finished_count s' = Z.of_nat (device_count c) →
     response_final_score s' = final_score s' ∧ daemon_check_first_all_devices s' = true).
Proof.
  intros Hc Hl Hp Hin. pose proof (wf_devices _ Hc) as Hn.
  destruct (find_child_loop_found _ pid 0 Hp Hin) as (i & Hf & Hi).
  assert (Hin' : (i < device_count c)%nat).
  { apply lookup_lt_Some in Hi. rewrite length_take in Hi. lia. }
  destruct (lookup_lt_is_Some_2 (scores c) i) as [score Hs].
  { rewrite (wf_scores _ Hc). lia. }
  exists i, score. unfold reap, find_child_pid. rewrite Hf. cbn [Nat.add].
  rewrite (proj2 (Z.leb_le 0 _)) by lia.
  assert (Hset : ∀ s0, test_forks s0 = test_forks s →
            array_set (test_forks s0) (Z.of_nat i) 0 = Ret (<[i:=0]> (test_forks s))).
  { intros s0 ->. apply array_set_run. lia. }
  unfold finish_child. destruct (running && negb (code =? 0)).
  - rewrite (array_get_Some _ _ _ Hs). cbn [mbind outcome_bind]. rewrite Hset by done.
    cbn [add_failure finished_count final_score].
    destruct (Z.of_nat (device_count c) =? _) eqn:E; zbool; eexists; split_and!;
      try reflexivity; try done; cbn; intros; lia.
  - cbn [mbind outcome_bind]. rewrite Hset by done.
    destruct (Z.of_nat (device_count c) =? _) eqn:E; zbool; eexists; split_and!;
      try reflexivity; try done; cbn; intros; lia.
Qed.

Lemma take_insert_zero n i (l : list Z) p :
  take n l !! i = Some p → take n (<[i := 0]> l) = <[i := 0]> (take n l).
Proof.
  intros H. apply lookup_lt_Some in H. rewrite length_take in H.
  by rewrite take_insert_lt by lia.
Qed.

(** Another process stays recorded. *)
Lemma recorded_insert (l : list Z) i p q :
  l !! i = Some p → q ≠ p → q ∈ l → q ∈ <[i := 0]> l.
Proof.
  intros Hi Hne Hq. apply list_elem_of_lookup_1 in Hq as [j Hj].
  apply list_elem_of_lookup_2 with j. rewrite list_lookup_insert_ne; [done|].
  intros ->. congruence.
Qed.

(** *** The invariant: no process is lost, so no index is out of range *)

Record smon_inv (c : smcfg) (s : smon) (kids : list Z) : Prop := {
  inv_length : length (test_forks s) = MAX_DEVICES;
  inv_kids : ∀ p, p ∈ kids → 0 < p ∧ p ∈ take (device_count c) (test_forks s) }.

Lemma reap_all_safe c running reaped s kids :
  wf_smcfg c → smon_inv c s kids → NoDup reaped.*1 → (∀ p, p ∈ reaped.*1 → p ∈ kids) →
  ∃ s', reap_all c running reaped s = Ret s' ∧
        smon_inv c s' (filter (λ p, p ∉ reaped.*1) kids).
Proof.
  intros Hc. revert s kids. induction reaped as [|[pid st] reaped IH]; intros s kids Hinv Hnd Hsub.
  - exists s. split; [done|]. destruct Hinv as [H1 H2]. constructor; [done|].
    intros p [_ Hp]%list_elem_of_filter. auto.
  - rewrite fmap_cons in Hnd, Hsub. cbn [fst] in *. apply list.NoDup_cons in Hnd as [Hni Hnd].
    destruct (inv_kids _ _ _ Hinv pid) as [Hpos Hrec]; [apply Hsub; set_solver|].
    assert (Hstep : ∃ s1, reap c running pid st s = Ret s1 ∧
              smon_inv c s1 (filter (λ p, p ≠ pid) kids)).
    { destruct st as [code|].
      - destruct (reap_exit c running pid code s Hc (inv_length _ _ _ Hinv) Hpos Hrec)
          as (i & score & s1 & Hr & Hi & _ & Hf & _).
        exists s1. split; [done|]. constructor.
        + by rewrite Hf, length_insert, (inv_length _ _ _ Hinv).
        + intros p [Hne Hp]%list_elem_of_filter. destruct (inv_kids _ _ _ Hinv p Hp) as [? Hin].
          split; [done|]. rewrite Hf, (take_insert_zero _ _ _ pid) by done.
          by apply recorded_insert with pid.
      - exists s. split; [done|]. constructor; [apply Hinv|].
        intros p [_ Hp]%list_elem_of_filter. by apply (inv_kids _ _ _ Hinv). }
    destruct Hstep as (s1 & Hr & Hinv1). cbn [reap_all]. rewrite Hr. cbn [mbind outcome_bind].
    destruct (IH s1 (filter (λ p, p ≠ pid) kids) Hinv1 Hnd) as (s' & Hr' & [H1 H2]).
    { intros p Hp. apply list_elem_of_filter. split; [set_solver|]. apply Hsub. set_solver. }
    exists s'. split; [done|]. constructor; [done|]. intros p [Hnp Hp]%list_elem_of_filter.
    rewrite fmap_cons in Hnp. cbn [fst] in Hnp. apply not_elem_of_cons in Hnp as [Hne Hnp].
    apply H2. apply list_elem_of_filter. split; [done|]. by apply list_elem_of_filter.
Qed.

Lemma timeout_loop_forks forks sc s :
  test_forks (timeout_loop forks sc s) = test_forks s ∧
  finished_count (timeout_loop forks sc s) = finished_count s ∧
  shutting_down (timeout_loop forks sc s) = shutting_down s.
Proof.
  revert sc s. induction forks as [|p forks IH]; intros [|x sc] s; try done.
  cbn [timeout_loop]. destruct (IH sc (if 0 <? p then add_failure x s else s)) as (-> & -> & ->).
  by destruct (0 <? p).
Qed.

Lemma forked_app a b : forked (a ++ b) = forked a ++ forked b.
Proof. apply omap_app. Qed.

Lemma test_device_main_inv c data answers s kids :
  wf_smcfg c → smon_inv c s kids → Forall (λ p, p = -1 ∨ 0 < p) answers →
  smon_inv c (test_device_main c data answers s).1
             (kids ++ forked (test_device_main c data answers s).2).
Proof.
  intros Hc Hinv Hans. unfold test_device_main. destruct (shutting_down s).
  { cbn. by rewrite app_nil_r. }
  assert (Hdata : ∀ cs : list cmd, forked (cs ++ (if data then [CTimer (interval c) true] else []))
                                   = forked cs).
  { intros cs. rewrite forked_app. destruct data; apply app_nil_r. }
  destruct (is_child_runnning c s) eqn:E.
  { cbn [fst snd]. rewrite Hdata. cbn. by rewrite app_nil_r. }
  destruct (start_check c answers s) as [s1 cs] eqn:Es.
  destruct (start_check_spec c answers s s1 cs Hc Es) as (H1 & _ & _ & _ & Hf).
  cbn [fst snd]. rewrite Hdata, forked_app. cbn [forked omap list_omap]. rewrite app_nil_r.
  constructor; [done|]. intros p [Hp|Hp]%elem_of_app.
  - exfalso. destruct (inv_kids _ _ _ Hinv p Hp) as [Hpos Hin].
    pose proof (not_running_zero c s p E Hin). lia.
  - destruct (Hf p Hp) as [Hge Hin]. split; [|done].
    assert (Hne : p ∈ answers).
    { clear -Hp Es. unfold start_check in Es.
      destruct (fork_loop _ _ _ _) as [f cs'] eqn:Ef. injection Es as <- <-.
      assert (H : ∀ n i ans fk, p ∈ forked (fork_loop n i ans fk).2 → p ∈ ans).
      { induction n as [|n IH]; intros i ans fk Hin; cbn [fork_loop] in Hin.
        - by apply elem_of_nil in Hin.
        - destruct (hd (-1) ans <? 0) eqn:E; cbn [snd] in Hin; [by apply elem_of_nil in Hin|].
          zbool. specialize (IH (S i) (tl ans) (<[i:=hd (-1) ans]> fk)).
          destruct (fork_loop n _ _ _) as [f2 cs2]. cbn [snd] in *.
          change (p ∈ hd (-1) ans :: forked cs2) in Hin.
          destruct ans as [|a ans]; [cbn in E; lia|]. cbn [hd tl] in *.
          apply elem_of_cons in Hin as [->|Hin]; [by apply elem_of_cons; left|].
          apply elem_of_cons. right. auto. }
      apply (H (device_count c) 0%nat answers (replicate MAX_DEVICES 0)). by rewrite Ef. }
    rewrite list.Forall_forall in Hans. specialize (Hans p Hne). lia.
Qed.

Lemma forked_kills l : forked (CKill <$> l) = [].
Proof. induction l as [|x l IH]; [done|exact IH]. Qed.

Lemma sigterm_forks_nothing c s : forked (sigterm_handler c s).2 = [].
Proof.
  unfold sigterm_handler. cbn [snd].
  change (forked (CTimerDel :: ?l)) with (forked l).
  rewrite forked_app, app_nil_r.
  destruct (is_child_runnning _ _); [|done]. apply forked_kills.
Qed.

Lemma dispatch_safe c e s kids :
  wf_smcfg c → smon_inv c s kids → valid_event kids e →
  ∃ s' cmds, dispatch c e s = Ret (s', cmds) ∧ smon_inv c s' (next_kids kids e cmds).
Proof.
  intros Hc Hinv Hv. destruct e as [data answers|running reaped| |]; cbn [dispatch valid_event] in *.
  - pose proof (test_device_main_inv c data answers s kids Hc Hinv Hv) as H.
    destruct (test_device_main c data answers s) as [s' cmds]. by exists s', cmds.
  - destruct Hv as [Hnd Hsub]. unfold sigchld_handler. destruct (is_child_runnning c s) eqn:E.
    + destruct (reap_all_safe c running reaped s kids Hc Hinv Hnd Hsub) as (s' & -> & H).
      by exists s', [].
    + exists s, []. split; [done|]. constructor; [apply Hinv|].
      intros p [_ Hp]%list_elem_of_filter. by apply (inv_kids _ _ _ Hinv).
  - eexists _, []. split; [done|]. cbn. rewrite app_nil_r. unfold child_timeout_handler.
    destruct (is_child_runnning c s); [|done]. destruct Hinv as [H1 H2].
    destruct (timeout_loop_forks (take (device_count c) (test_forks s)) (scores c) s) as (Hf & _).
    constructor; by rewrite Hf.
  - pose proof (sigterm_forks_nothing c s) as Hf.
    destruct (sigterm_handler c s) as [s' cmds] eqn:Es. exists s', cmds. split; [done|].
    cbn [next_kids snd] in *. rewrite Hf, app_nil_r.
    unfold sigterm_handler in Es. injection Es as <- _. constructor; apply Hinv.
Qed.

Lemma trace_inv c es s kids : wf_smcfg c → trace c es s kids → smon_inv c s kids.
Proof.
  intros Hc. induction 1 as [|es s kids e s' cmds Ht IH Hv Hd].
  - constructor; [done|]. by intros p Hp%elem_of_nil.
  - destruct (dispatch_safe c e s kids Hc IH Hv) as (s2 & cmds2 & Hd2 & Hinv).
    rewrite Hd in Hd2. by injection Hd2 as <- <-.
Qed.

(** *** Scores *)

Fixpoint npos (forks : list Z) : Z :=
  match forks with
  | [] => 0
  | p :: forks' => (if 0 <? p then 1 else 0) + npos forks'
  end.

(** The positive entries are different processes. *)
Definition distinct (forks : list Z) : Prop :=
  ∀ i j p, 0 < p → forks !! i = Some p → forks !! j = Some p → i = j.

Lemma npos_insert forks i p :
  forks !! i = Some p → 0 < p → npos forks = 1 + npos (<[i := 0]> forks).
Proof.
  revert i. induction forks as [|q forks IH]; intros [|i] Hi Hp; simplify_eq/=.
  - by ztest.
  - rewrite (IH i Hi Hp). lia.
Qed.

Lemma npos_nonneg forks : 0 ≤ npos forks.
Proof. induction forks as [|p forks IH]; cbn; [lia|]. destruct (0 <? p); lia. Qed.

Lemma npos_pos forks p : p ∈ forks → 0 < p → 0 < npos forks.
Proof.
  induction forks as [|q forks IH]; intros Hin Hp; [by apply elem_of_nil in Hin|].
  cbn. pose proof (npos_nonneg forks). apply elem_of_cons in Hin as [->|Hin]; [ztest; lia|].
  specialize (IH Hin Hp). destruct (0 <? q); lia.
Qed.

Lemma score_of_insert f g forks sc i p score :
  distinct forks → forks !! i = Some p → 0 < p → sc !! i = Some score →
  (∀ q, q ≠ p → f q = g q) →
  score_of f forks sc = (if f p then score else 0) + score_of g (<[i := 0]> forks) sc.
Proof.
  intros Hd Hi Hp Hs Hfg.
  assert (Hg : ∀ l s, p ∉ l → score_of f l s = score_of g l s).
  { induction l as [|q l IH]; intros [|x s] Hn; try done. cbn [score_of].
    apply not_elem_of_cons in Hn as [Hq Hn]. by rewrite IH, Hfg by done. }
  revert sc i Hd Hi Hs. induction forks as [|q forks IH]; intros [|x sc] [|i] Hd Hi Hs; simplify_eq/=.
  - ztest. cbn [andb]. rewrite Hg; [lia|]. intros [j Hj]%list_elem_of_lookup_1.
    by specialize (Hd 0%nat (S j) p Hp eq_refl Hj).
  - rewrite Hfg.
    2:{ intros ->. by specialize (Hd 0%nat (S i) p Hp eq_refl Hi). }
    rewrite (IH sc i); [lia| |done|done].
    intros j k r Hr Hj Hk. by specialize (Hd (S j) (S k) r Hr Hj Hk) as [= ->].
Qed.

Lemma score_of_bounds f forks sc :
  Forall (λ x, 0 ≤ x ≤ 10) sc → 0 ≤ score_of f forks sc ≤ score_of (λ _, true) forks sc.
Proof.
  intros H. revert forks. induction H as [|x sc Hx _ IH]; intros [|p forks]; cbn; try lia.
  specialize (IH forks). destruct (0 <? p), (f p); cbn; lia.
Qed.

Lemma score_of_max f forks sc :
  Forall (λ x, 0 ≤ x ≤ 10) sc → score_of f forks sc ≤ 10 * Z.of_nat (length forks).
Proof.
  intros H. revert forks. induction H as [|x sc Hx _ IH]; intros [|p forks]; cbn [score_of length]; try lia.
  specialize (IH forks). destruct ((0 <? p) && f p); lia.
Qed.

Lemma score_of_none f forks sc : (∀ p, p ∈ forks → p ≤ 0) → score_of f forks sc = 0.
Proof.
  revert sc. induction forks as [|p forks IH]; intros [|x sc] H; try done. cbn [score_of].
  assert (p ≤ 0) by (apply H, elem_of_cons; by left). ztest. cbn [andb]. rewrite IH; [lia|].
  intros q Hq. apply H, elem_of_cons. by right.
Qed.

Lemma distinct_insert forks i : distinct forks → distinct (<[i := 0]> forks).
Proof.
  intros Hd j k p Hp Hj Hk.
  apply list_lookup_insert_Some in Hj as [(? & ? & _)|[_ Hj]]; [lia|].
  apply list_lookup_insert_Some in Hk as [(? & ? & _)|[_ Hk]]; [lia|]. eauto.
Qed.

Lemma timeout_loop_score forks sc s :
  Forall (λ x, 0 ≤ x ≤ 10) sc →
  0 ≤ final_score s → final_score s + score_of (λ _, true) forks sc ≤ INT_MAX →
  final_score (timeout_loop forks sc s) = final_score s + score_of (λ _, true) forks sc.
Proof.
  intros H. revert forks s. induction H as [|x sc Hx Hsc IH]; intros [|p forks] s H1 H2; cbn [timeout_loop score_of] in *; try lia.
  pose proof (score_of_bounds (λ _, true) forks sc Hsc). rewrite andb_true_r in *.
  destruct (0 <? p).
  - assert (He : final_score (add_failure x s) = final_score s + x).
    { cbn. apply s32_small. lia. }
    rewrite IH; rewrite ?He; lia.
  - rewrite IH; lia.
Qed.

(** The state between the events of a round. *)
Record round_inv (c : smcfg) (expired : bool) (s : smon) : Prop := {
  ri_length : length (test_forks s) = MAX_DEVICES;
  ri_distinct : distinct (take (device_count c) (test_forks s));
  ri_nonneg : ∀ p, p ∈ take (device_count c) (test_forks s) → 0 ≤ p;
  ri_final : 0 ≤ final_score s;
  ri_bound : final_score s +
    (if expired then 0 else score_of (λ _, true) (take (device_count c) (test_forks s)) (scores c))
      ≤ 1000;
  ri_finished : finished_count s =
    Z.of_nat (device_count c) - npos (take (device_count c) (test_forks s));
  ri_response : npos (take (device_count c) (test_forks s)) = 0 →
    response_final_score s = final_score s ∧ daemon_check_first_all_devices s = true }.

Lemma round_exit c x s pid code :
  wf_smcfg c → round_inv c x s → 0 < pid → pid ∈ take (device_count c) (test_forks s) →
  ∃ i score s', dispatch c (EvChld (negb x) [(pid, WExited code)]) s = Ret (s', []) ∧
    round_inv c x s' ∧
    take (device_count c) (test_forks s) !! i = Some pid ∧ scores c !! i = Some score ∧
    take (device_count c) (test_forks s') = <[i := 0]> (take (device_count c) (test_forks s)) ∧
    final_score s' = final_score s + (if negb x && negb (code =? 0) then score else 0) ∧
    shutting_down s' = shutting_down s.
Proof.
  intros Hc Hinv Hp Hin.
  assert (Hrun : is_child_runnning c s = true) by (apply is_child_runnning_spec; exists pid; split; [done|lia]).
  destruct (reap_exit c (negb x) pid code s Hc (ri_length _ _ _ Hinv) Hp Hin)
    as (i & score & s' & Hr & Hi & Hs & Hf & Hfin & Hcnt & Hsd & Hresp).
  assert (Hforks : take (device_count c) (test_forks s')
                   = <[i := 0]> (take (device_count c) (test_forks s))).
  { rewrite Hf. by apply take_insert_zero with pid. }
  assert (Hsc : 0 ≤ score ≤ 10).
  { pose proof (wf_scores_range _ Hc) as H. rewrite list.Forall_forall in H. apply H.
    by apply list_elem_of_lookup_2 in Hs. }
  pose proof (ri_bound _ _ _ Hinv) as Hbound. pose proof (ri_final _ _ _ Hinv) as Hnn.
  pose proof (score_of_insert (λ _, true) (λ _, true) _ _ _ _ _ (ri_distinct _ _ _ Hinv) Hi Hp Hs
                (λ _ _, eq_refl)) as Hsum. cbn beta iota in Hsum.
  pose proof (score_of_bounds (λ _, true) (<[i:=0]> (take (device_count c) (test_forks s)))
                (scores c) (wf_scores_range _ Hc)) as Hpos.
  assert (Hfin' : final_score s' = final_score s + (if negb x && negb (code =? 0) then score else 0)).
  { rewrite Hfin. destruct x; cbn [negb andb]; [lia|]. destruct (negb (code =? 0)); [|lia].
    apply s32_small. unfold INT_MAX. lia. }
  pose proof (npos_insert _ _ _ Hi Hp) as Hnp. pose proof (ri_finished _ _ _ Hinv) as Hfc.
  exists i, score, s'. split_and!; try done.
  { cbn [dispatch]. unfold sigchld_handler. rewrite Hrun. cbn [reap_all]. by rewrite Hr. }
  constructor.
  - by rewrite Hf, length_insert, (ri_length _ _ _ Hinv).
  - rewrite Hforks. apply distinct_insert, Hinv.
  - rewrite Hforks. intros p [j Hj]%list_elem_of_lookup_1.
    apply list_lookup_insert_Some in Hj as [(_ & <- & _)|[_ Hj]]; [done|].
    apply (ri_nonneg _ _ _ Hinv). by apply list_elem_of_lookup_2 in Hj.
  - rewrite Hfin'. destruct (_ && _); lia.
  - rewrite Hforks, Hfin'. destruct x; cbn [negb andb] in *; [lia|]. destruct (negb _); lia.
  - rewrite Hforks, Hcnt. lia.
  - intros H0. apply Hresp. rewrite Hforks in H0. lia.
Qed.

Lemma round_expire c s :
  wf_smcfg c → round_inv c false s →
  round_inv c true (child_timeout_handler c s) ∧
  test_forks (child_timeout_handler c s) = test_forks s ∧
  final_score (child_timeout_handler c s) = final_score s +
    score_of (λ _, true) (take (device_count c) (test_forks s)) (scores c) ∧
  shutting_down (child_timeout_handler c s) = shutting_down s.
Proof.
  intros Hc Hinv. unfold child_timeout_handler.
  pose proof (ri_bound _ _ _ Hinv) as Hb. pose proof (ri_final _ _ _ Hinv) as Hnn. cbv iota in Hb.
  pose proof (score_of_bounds (λ _, true) (take (device_count c) (test_forks s)) (scores c)
                (wf_scores_range _ Hc)) as Hpos.
  destruct (is_child_runnning c s) eqn:E.
  - destruct (timeout_loop_forks (take (device_count c) (test_forks s)) (scores c) s)
      as (Hf & Hc' & Hsd).
    pose proof (timeout_loop_score (take (device_count c) (test_forks s)) (scores c) s
                  (wf_scores_range _ Hc) Hnn ltac:(unfold INT_MAX; lia)) as Hs.
    split_and!; [|done|done|done]. constructor; rewrite ?Hf, ?Hc', ?Hs.
    1-3: apply Hinv. 1-2: lia. { apply Hinv. }
    intros H0. exfalso. apply is_child_runnning_spec in E as (p & Hp & Hne).
    pose proof (ri_nonneg _ _ _ Hinv p Hp). pose proof (npos_pos _ p Hp). lia.
  - assert (H0 : score_of (λ _, true) (take (device_count c) (test_forks s)) (scores c) = 0).
    { apply score_of_none. intros p Hp. rewrite (not_running_zero c s p E Hp). lia. }
    split_and!; [|done|lia|done]. destruct Hinv. constructor; try done. lia.
Qed.

Lemma round_run c l x s :
  wf_smcfg c → round_inv c x s → NoDup (exits l) →
  (∀ p, p ∈ exits l → 0 < p ∧ p ∈ take (device_count c) (test_forks s)) →
  (expiries l ≤ if x then 0 else 1)%nat →
  ∃ s' y, run_events c (round_events x l) s = Ret (s', []) ∧ round_inv c y s' ∧
    final_score s' = final_score s +
      (if x then 0 else score_of (failed l) (take (device_count c) (test_forks s)) (scores c)) ∧
    npos (take (device_count c) (test_forks s')) =
      npos (take (device_count c) (test_forks s)) - Z.of_nat (length (exits l)) ∧
    shutting_down s' = shutting_down s.
Proof.
  intros Hc. revert x s. induction l as [|[pid code|] l IH]; intros x s Hinv Hnd Hin Hex.
  - exists s, x. split_and!; [done|done| |cbn; lia|done]. destruct x; [lia|].
    enough (H : ∀ F sc, score_of (failed []) F sc = 0) by (rewrite H; lia).
    induction F as [|p F IH]; intros [|y sc]; try done. cbn [score_of failed].
    rewrite andb_false_r, IH. lia.
  - change (exits (RExit pid code :: l)) with (pid :: exits l) in *.
    apply list.NoDup_cons in Hnd as [Hni Hnd].
    destruct (Hin pid) as [Hp Hrec]; [apply elem_of_cons; by left|].
    destruct (round_exit c x s pid code Hc Hinv Hp Hrec)
      as (i & score & s1 & Hd & Hinv1 & Hi & Hs & HF & Hfin & Hsd1).
    destruct (IH x s1 Hinv1 Hnd) as (s' & y & Hrun & Hinv' & Hf' & Hn' & Hsd').
    { intros p Hp'. destruct (Hin p) as [? Hr]; [apply elem_of_cons; by right|]. split; [done|].
      rewrite HF. apply recorded_insert with pid; [done| |done]. intros ->. done. }
    { done. }
    exists s', y. cbn [round_events run_events]. rewrite Hd. cbn [mbind outcome_bind].
    rewrite Hrun. cbn [mbind outcome_bind]. split_and!; [done|done| | |congruence].
    + rewrite Hf', Hfin, HF. destruct x; cbn [negb andb]; [lia|].
      rewrite (score_of_insert (failed (RExit pid code :: l)) (failed l) _ _ _ _ _
                 (ri_distinct _ _ _ Hinv) Hi Hp Hs).
      * cbn [failed]. rewrite Z.eqb_refl. lia.
      * intros q Hq. cbn [failed]. by rewrite (proj2 (Z.eqb_neq pid q)) by done.
    + rewrite Hn', HF. pose proof (npos_insert _ _ _ Hi Hp). cbn [length]. lia.
  - destruct x; [cbn in Hex; lia|]. change (exits (RExpire :: l)) with (exits l) in *.
    destruct (round_expire c s Hc Hinv) as (Hinv1 & Hf1 & Hs1 & Hsd1).
    destruct (IH true (child_timeout_handler c s) Hinv1 Hnd) as (s' & y & Hrun & Hinv' & Hf' & Hn' & Hsd').
    { by rewrite Hf1. }
    { cbn in Hex. lia. }
    exists s', y. cbn [round_events run_events dispatch mbind outcome_bind]. rewrite Hrun.
    cbn [mbind outcome_bind]. split_and!; [done|done| | |congruence].
    + rewrite Hf', Hs1. rewrite Z.add_0_r. reflexivity.
    + by rewrite Hn', Hf1.
Qed.

(** A round starts with all children running. *)
Lemma fork_loop_all n i pids forks :
  length pids = n → Forall (λ p, 0 < p) pids → (i + n ≤ length forks)%nat →
  fork_loop n i pids forks = (take i forks ++ pids ++ drop (i + n) forks, CFork <$> pids).
Proof.
  revert i pids forks. induction n as [|n IH]; intros i pids forks Hl Hp Hi.
  - destruct pids; [|done]. cbn. by rewrite Nat.add_0_r, take_drop.
  - destruct pids as [|p pids]; [done|]. injection Hl as Hl.
    apply Forall_cons_1 in Hp as [Hp Hps]. cbn [fork_loop hd tl].
    rewrite (proj2 (Z.ltb_ge p 0)) by lia.
    rewrite IH by (rewrite ?length_insert; done || lia). f_equal.
    rewrite (take_S_r _ _ p) by (rewrite list_lookup_insert_eq; [done|lia]).
    rewrite take_insert_ge, drop_insert_lt by lia.
    rewrite <-!app_assoc. cbn [app]. by replace (i + S n)%nat with (S i + n)%nat by lia.
Qed.

Lemma distinct_NoDup l : NoDup l → distinct l.
Proof. intros H i j p _ Hi Hj. by eapply NoDup_lookup. Qed.

Lemma npos_all l : Forall (λ p, 0 < p) l → npos l = Z.of_nat (length l).
Proof. induction 1 as [|p l Hp _ IH]; cbn [npos length]; [done|]. ztest. lia. Qed.

Lemma round_start c pids s :
  wf_smcfg c → length pids = device_count c → Forall (λ p, 0 < p) pids → NoDup pids →
  shutting_down s = false → is_child_runnning c s = false →
  ∃ s', test_device_main c true pids s =
          (s', (CFork <$> pids) ++ [CExpire (timeout c)] ++ [CTimer (interval c) true]) ∧
    round_inv c false s' ∧ final_score s' = 0 ∧ shutting_down s' = false ∧
    take (device_count c) (test_forks s') = pids.
Proof.
  intros Hc Hl Hp Hnd Hsd Hrun. pose proof (wf_devices _ Hc) as Hn.
  unfold test_device_main. rewrite Hsd, Hrun. unfold start_check.
  rewrite fork_loop_all by (done || rewrite length_replicate; lia).
  rewrite firstn_O. cbn [Nat.add app]. eexists. split; [rewrite <-app_assoc; reflexivity|].
  assert (Htake : take (device_count c) (pids ++ drop (device_count c) (replicate MAX_DEVICES 0))
                  = pids) by (rewrite <-Hl; apply take_app_length).
  pose proof (score_of_max (λ _, true) pids (scores c) (wf_scores_range _ Hc)) as Hmax.
  unfold MAX_DEVICES in *.
  split_and!; [constructor|done|done|done]; cbn [test_forks final_score finished_count response_final_score];
    rewrite ?Htake.
  - rewrite length_app, length_drop, length_replicate. unfold MAX_DEVICES. lia.
  - by apply distinct_NoDup.
  - intros p Hin. rewrite list.Forall_forall in Hp. specialize (Hp p Hin). lia.
  - lia.
  - lia.
  - rewrite npos_all by done. lia.
  - rewrite npos_all by done. lia.
Qed.

(** *** After a failed fork, a killed child, or SIGTERM *)

(** [x] is never handed over by [waitpid] as an exited process. *)
Definition never_exits (x : Z) (e : event) : Prop :=
  match e with
  | EvChld _ reaped => ∀ code, (x, WExited code) ∉ reaped
  | _ => True
  end.

Lemma find_child_loop_ge forks pid k :
  Z.of_nat (k + length forks) < ULONG_MAX → Z.of_nat k ≤ find_child_loop forks pid k.
Proof.
  revert k. induction forks as [|p forks IH]; intros k Hk; cbn [find_child_loop length] in *; [lia|].
  destruct (_ && _); [done|]. specialize (IH (S k)). lia.
Qed.

Lemma find_child_loop_range forks pid k i :
  find_child_loop forks pid k = Z.of_nat (k + i) → (i < length forks)%nat →
  Z.of_nat (k + length forks) < ULONG_MAX → forks !! i = Some pid.
Proof.
  revert k i. induction forks as [|p forks IH]; intros k i H Hl Hk; cbn [find_child_loop length] in *; [lia|].
  destruct ((0 <? p) && (p =? pid)) eqn:E.
  - apply andb_true_iff in E as [_ E]. zbool. assert (i = 0%nat) as -> by lia. by subst.
  - pose proof (find_child_loop_ge forks pid (S k) ltac:(lia)).
    destruct i as [|i]; [lia|]. cbn. apply (IH (S k)); [|lia|lia]. rewrite H. f_equal. lia.
Qed.

(** What reaping [pid] does to the other entries. *)
Lemma reap_keeps c running pid st s s' x :
  wf_smcfg c → length (test_forks s) = MAX_DEVICES →
  reap c running pid st s = Ret s' → x ≠ 0 →
  (∀ code, (pid, st) ≠ (x, WExited code)) →
  x ∈ take (device_count c) (test_forks s) →
  length (test_forks s') = MAX_DEVICES ∧ x ∈ take (device_count c) (test_forks s').
Proof.
  intros Hc Hl Hr Hx Hne Hin. destruct st as [code|]; [|by injection Hr as <-].
  unfold reap in Hr. set (index := find_child_pid c s pid) in *.
  destruct (0 <=? index) eqn:E; [|by injection Hr as <-]. zbool.
  assert (Hset : ∀ s0, test_forks s0 = test_forks s → finish_child c index s0 = Ret s' →
    length (test_forks s') = MAX_DEVICES ∧ x ∈ take (device_count c) (test_forks s')).
  { intros s0 Hs0. unfold finish_child, array_set. rewrite Hs0, Hl.
    destruct (index <? Z.of_nat MAX_DEVICES) eqn:E2; [|done]. zbool. cbn [mbind outcome_bind].
    intros Hs1. assert (Hf : test_forks s' = <[Z.to_nat index := 0]> (test_forks s)).
    { destruct (_ =? _) in Hs1; by injection Hs1 as <-. }
    rewrite Hf. split; [by rewrite length_insert|].
    destruct (decide (Z.to_nat index < device_count c)%nat) as [Hlt|Hge].
    - assert (Hp : take (device_count c) (test_forks s) !! Z.to_nat index = Some pid).
      { apply (find_child_loop_range _ pid 0); [cbn [Nat.add]; rewrite Z2Nat.id by lia; done|..];
          rewrite length_take, Hl; unfold MAX_DEVICES, ULONG_MAX in *; lia. }
      rewrite (take_insert_zero _ _ _ pid Hp). apply recorded_insert with pid; [done| |done].
      intros ->. by apply (Hne code).
    - by rewrite take_insert_ge by lia. }
  destruct (running && _).
  - unfold array_get in Hr. destruct (index <? _); [|done].
    destruct (scores c !! _) as [score|]; [|done]. cbn [mbind outcome_bind] in Hr.
    by apply (Hset (add_failure score s) eq_refl Hr).
  - cbn [mbind outcome_bind] in Hr. by apply (Hset s eq_refl Hr).
Qed.

Lemma reap_all_keeps c running reaped s s' x :
  wf_smcfg c → length (test_forks s) = MAX_DEVICES → x ≠ 0 →
  (∀ code, (x, WExited code) ∉ reaped) → reap_all c running reaped s = Ret s' →
  x ∈ take (device_count c) (test_forks s) →
  length (test_forks s') = MAX_DEVICES ∧ x ∈ take (device_count c) (test_forks s').
Proof.
  intros Hc Hl Hx. revert s Hl. induction reaped as [|[pid st] reaped IH]; intros s Hl Hne Hr Hin.
  - by injection Hr as <-.
  - cbn [reap_all] in Hr. destruct (reap c running pid st s) as [s1| |] eqn:E; try done.
    cbn [mbind outcome_bind] in Hr.
    destruct (reap_keeps c running pid st s s1 x Hc Hl E Hx) as [Hl1 Hin1]; [|done|].
    { intros code Heq. apply (Hne code). rewrite Heq. apply elem_of_cons. by left. }
    apply (IH s1 Hl1); [|done|done]. intros code Hc'. apply (Hne code), elem_of_cons. by right.
Qed.

Lemma dispatch_keeps c e s s' cmds x :
  wf_smcfg c → length (test_forks s) = MAX_DEVICES → x ≠ 0 → never_exits x e →
  x ∈ take (device_count c) (test_forks s) → dispatch c e s = Ret (s', cmds) →
  length (test_forks s') = MAX_DEVICES ∧ x ∈ take (device_count c) (test_forks s') ∧
  forked cmds = [].
Proof.
  intros Hc Hl Hx Hne Hin Hd.
  assert (Hrun : is_child_runnning c s = true) by (apply is_child_runnning_spec; eauto).
  destruct e as [data answers|running reaped| |]; cbn [dispatch never_exits] in *.
  - unfold test_device_main in Hd. rewrite Hrun in Hd.
    destruct (shutting_down s); injection Hd as <- <-; [done|]. split_and!; [done..|].
    by destruct data.
  - destruct (sigchld_handler c running reaped s) as [s1| |] eqn:E; try done.
    cbn [mbind outcome_bind] in Hd. injection Hd as <- <-.
    unfold sigchld_handler in E. rewrite Hrun in E.
    destruct (reap_all_keeps c running reaped s s1 x Hc Hl Hx Hne E Hin). by split_and!.
  - injection Hd as <- <-. unfold child_timeout_handler. rewrite Hrun.
    destruct (timeout_loop_forks (take (device_count c) (test_forks s)) (scores c) s) as (Hf & _).
    rewrite Hf. by split_and!.
  - pose proof (sigterm_forks_nothing c s) as Hf. injection Hd as Hs' Hcm. rewrite <-Hs', <-Hcm.
    by split_and!.
Qed.

Lemma run_events_keeps c es s s' cmds x :
  wf_smcfg c → length (test_forks s) = MAX_DEVICES → x ≠ 0 → Forall (never_exits x) es →
  x ∈ take (device_count c) (test_forks s) → run_events c es s = Ret (s', cmds) →
  x ∈ take (device_count c) (test_forks s') ∧ forked cmds = [].
Proof.
  intros Hc Hl Hx Hes. revert s cmds Hl. induction Hes as [|e es He _ IH]; intros s cmds Hl Hin Hr.
  - by injection Hr as <- <-.
  - cbn [run_events] in Hr. destruct (dispatch c e s) as [[s1 c1]| |] eqn:E; try done.
    cbn [mbind outcome_bind] in Hr.
    destruct (run_events c es s1) as [[s2 c2]| |] eqn:E2; try done.
    cbn [mbind outcome_bind] in Hr. injection Hr as <- <-.
    destruct (dispatch_keeps c e s s1 c1 x Hc Hl Hx He Hin E) as (Hl1 & Hin1 & Hf1).
    destruct (IH s1 c2 Hl1 Hin1 E2) as [Hin2 Hf2]. split; [done|].
    by rewrite forked_app, Hf1, Hf2.
Qed.

Lemma finish_child_shutdown c i s s' :
  finish_child c i s = Ret s' → shutting_down s' = shutting_down s.
Proof.
  unfold finish_child. destruct (array_set _ _ _); cbn [mbind outcome_bind]; try done.
  destruct (_ =? _); intros H; injection H as H; by rewrite <-H.
Qed.

Lemma reap_all_shutdown c running l s s' :
  reap_all c running l s = Ret s' → shutting_down s' = shutting_down s.
Proof.
  revert s. induction l as [|[pid st] l IH]; intros s Hr; [by injection Hr as <-|].
  cbn [reap_all] in Hr. destruct (reap c running pid st s) as [s1| |] eqn:E; try done.
  cbn [mbind outcome_bind] in Hr. rewrite (IH _ Hr). clear -E. unfold reap in E.
  destruct st as [code|]; [|by injection E as <-]. destruct (0 <=? _); [|by injection E as <-].
  destruct (running && _); [|by eapply finish_child_shutdown].
  destruct (array_get _ _) as [score| |]; try done. cbn [mbind outcome_bind] in E.
  by rewrite (finish_child_shutdown _ _ _ _ E).
Qed.

(** Only SIGTERM starts the shutdown, and only a timer then stops the loop. *)
Lemma dispatch_shutdown c e s s' cmds :
  dispatch c e s = Ret (s', cmds) →
  shutting_down s' = (match e with EvTerm => true | _ => shutting_down s end) ∧
  existsb (λ x, match x with CStop => true | _ => false end) cmds =
    (shutting_down s && match e with EvTimer _ _ => true | _ => false end) ∧
  (shutting_down s = true → forked cmds = []).
Proof.
  destruct e as [data answers|running reaped| |]; cbn [dispatch]; intros E.
  - unfold test_device_main in E. destruct (shutting_down s) eqn:Hs;
      [injection E as <- <-; by rewrite Hs|].
    assert (Hgo : ∀ s1 c1, (if is_child_runnning c s then (s, [])
       else let '(s, cmds) := start_check c answers s in (s, cmds ++ [CExpire (timeout c)])) = (s1, c1) →
       shutting_down s1 = false ∧ existsb (λ x, match x with CStop => true | _ => false end) c1 = false).
    { intros s1 c1. destruct (is_child_runnning c s); [intros [= <- <-]; done|].
      unfold start_check. destruct (fork_loop _ _ _ _) as [f cs] eqn:Ef. intros [= <- <-].
      split; [done|]. rewrite existsb_app. cbn [existsb]. rewrite !orb_false_r.
      replace cs with (fork_loop (device_count c) 0 answers (replicate MAX_DEVICES 0)).2
        by (by rewrite Ef). clear. generalize (device_count c), 0%nat, answers, (replicate MAX_DEVICES 0).
      intros n. induction n as [|n IH]; intros i l f; [done|]. cbn [fork_loop].
      destruct (hd (-1) l <? 0); [done|]. specialize (IH (S i) (tl l) (<[i:=hd (-1) l]> f)).
      by destruct (fork_loop n _ _ _). }
    destruct (if is_child_runnning c s then _ else _) as [s1 c1].
    destruct (Hgo s1 c1 eq_refl) as [H1 H2]. injection E as <- <-. split_and!; [done| |done].
    rewrite existsb_app, H2. by destruct data.
  - unfold sigchld_handler in E.
    destruct (is_child_runnning c s); [|injection E as <- <-; by rewrite andb_false_r].
    destruct (reap_all c running reaped s) as [s1| |] eqn:E1; try done.
    injection E as <- <-. rewrite andb_false_r. split_and!; try done. by eapply reap_all_shutdown.
  - injection E as <- <-. rewrite andb_false_r. split_and!; try done.
    unfold child_timeout_handler. destruct (is_child_runnning c s); [|done].
    by destruct (timeout_loop_forks (take (device_count c) (test_forks s)) (scores c) s) as (_ & _ & ->).
  - pose proof (sigterm_forks_nothing c s) as Hf. injection E as <- <-. rewrite andb_false_r.
    split_and!; [done| |done]. cbn [existsb orb]. rewrite existsb_app. cbn [existsb].
    rewrite orb_false_r. destruct (is_child_runnning _ _); [|done].
    clear. induction (filter _ _); [done|by rewrite fmap_cons].
Qed.

Lemma shutdown_kept c es s s' cmds :
  shutting_down s = true → run_events c es s = Ret (s', cmds) →
  shutting_down s' = true ∧ forked cmds = [].
Proof.
  revert s cmds. induction es as [|e es IH]; intros s cmds Hs Hr; [by injection Hr as <- <-|].
  cbn [run_events] in Hr. destruct (dispatch c e s) as [[s1 c1]| |] eqn:E; try done.
  cbn [mbind outcome_bind] in Hr. destruct (run_events c es s1) as [[s2 c2]| |] eqn:E2; try done.
  cbn [mbind outcome_bind] in Hr. injection Hr as <- <-.
  destruct (dispatch_shutdown _ _ _ _ _ E) as (H1 & _ & Hf1).
  destruct (IH s1 c2 ltac:(rewrite H1; by destruct e) E2) as [H2 Hf2]. split; [done|].
  by rewrite forked_app, Hf1, Hf2.
Qed.

(** *** The one-shot loop *)

Lemma poll_devices_score forks sc answers final finished forks' final' finished' :
  Forall (λ x, 0 ≤ x ≤ 10) sc → 0 ≤ final →
  final + score_of (λ _, true) forks sc ≤ INT_MAX →
  poll_devices forks sc answers final finished = Some (forks', final', finished') →
  0 ≤ final' ∧ final' + score_of (λ _, true) forks' sc ≤ final + score_of (λ _, true) forks sc ∧
  length forks' = length forks ∧ (∀ p, p ∈ forks' → p = 0 ∨ p ∈ forks).
Proof.
  intros Hsc. revert forks answers final finished forks' final' finished'.
  induction Hsc as [|x sc Hx Hsc IH];
    intros [|p forks] answers final finished forks' final' finished' H0 Hb Hr;
    cbn [poll_devices] in Hr; try (simplify_eq; split_and!; auto; lia).
  cbn [score_of] in Hb. pose proof (score_of_bounds (λ _, true) forks sc Hsc) as Hs.
  rewrite andb_true_r in Hb.
  assert (Hgo : ∀ q fin fsh, (q = 0 ∨ q = p) → 0 ≤ fin →
    fin + (if 0 <? q then x else 0) ≤ final + (if 0 <? p then x else 0) →
    ('(fs, fi, fd) ← poll_devices forks sc (tl answers) fin fsh; Some (q :: fs, fi, fd))
      = Some (forks', final', finished') →
    0 ≤ final' ∧
    final' + score_of (λ _, true) forks' (x :: sc)
      ≤ final + score_of (λ _, true) (p :: forks) (x :: sc) ∧
    length forks' = length (p :: forks) ∧ (∀ r, r ∈ forks' → r = 0 ∨ r ∈ p :: forks)).
  { intros q fin fsh Hq Hfin Hle H. apply bind_Some in H as ([[fs fi] fd] & H & Heq).
    injection Heq as <- <- <-. cbn [score_of length]. rewrite !andb_true_r.
    destruct (IH forks (tl answers) fin fsh fs fi fd) as (H1 & H2 & H3 & H4); [done| |done|].
    { destruct (0 <? q), (0 <? p); lia. }
    split_and!; [done|lia|lia|]. intros r [->|Hr']%elem_of_cons.
    - destruct Hq as [Hq|Hq]; subst q; [by left|right; apply elem_of_cons; by left].
    - destruct (H4 r Hr'); [by left|right; apply elem_of_cons; by right]. }
  destruct (0 <? p) eqn:Ep.
  - destruct (hd WNone answers) as [| |[code|]]; try done.
    + eapply Hgo; [by right| | |exact Hr]; rewrite ?Ep; lia.
    + eapply Hgo; [by left| | |exact Hr].
      * destruct (negb (code =? 0)); [rewrite s32_small by (unfold INT_MAX in *; lia)|]; lia.
      * change (0 <? 0) with false. cbv iota.
        destruct (negb (code =? 0)); [rewrite s32_small by (unfold INT_MAX in *; lia)|]; lia.
    + eapply Hgo; [by right| | |exact Hr]; rewrite ?Ep; lia.
  - eapply Hgo; [by right| | |exact Hr]; rewrite ?Ep; lia.
Qed.

Lemma wait_loop_ends n deadline sc polls forks final finished ts :
  (∃ poll, poll ∈ polls ∧ deadline ≤ poll.2) →
  wait_loop n deadline sc polls forks final finished ts ≠ LWaiting.
Proof.
  revert forks final finished ts. induction polls as [|[answers ts'] polls IH];
    intros forks final finished ts (poll & Hin & Hd); [by apply elem_of_nil in Hin|].
  cbn [wait_loop]. destruct (_ && _); [|done].
  destruct (poll_devices _ _ _ _ _) as [[[f' fi'] fd']|]; [|done].
  apply elem_of_cons in Hin as [->|Hin].
  - cbn [snd] in Hd. destruct polls; cbn [wait_loop]; rewrite (proj2 (Z.ltb_ge ts' deadline)) by lia;
      by rewrite andb_false_r.
  - apply IH. eauto.
Qed.

Lemma wait_loop_score n deadline sc polls forks final finished ts forks' final' :
  Forall (λ x, 0 ≤ x ≤ 10) sc → 0 ≤ final →
  final + score_of (λ _, true) forks sc ≤ INT_MAX →
  wait_loop n deadline sc polls forks final finished ts = LDone (forks', final') →
  0 ≤ final' ∧ final' + score_of (λ _, true) forks' sc ≤ final + score_of (λ _, true) forks sc ∧
  (∀ p, p ∈ forks' → p = 0 ∨ p ∈ forks).
Proof.
  intros Hsc. revert forks final finished ts. induction polls as [|[answers ts'] polls IH];
    intros forks final finished ts H0 Hb Hr; cbn [wait_loop] in Hr;
    (destruct (_ && _); [|injection Hr as <- <-; split_and!; auto; lia]); [done|].
  destruct (poll_devices forks sc answers final finished) as [[[f1 fi1] fd1]|] eqn:E; [|done].
  destruct (poll_devices_score _ _ _ _ _ _ _ _ Hsc H0 Hb E) as (H1 & H2 & _ & H4).
  destruct (IH f1 fi1 fd1 ts') as (H5 & H6 & H7); [done|lia|done|].
  split_and!; [done|lia|]. intros p Hp. destruct (H7 p Hp); [by left|auto].
Qed.

Lemma add_unfinished_score forks sc final :
  Forall (λ x, 0 ≤ x ≤ 10) sc → (∀ p, p ∈ forks → 0 ≤ p) → 0 ≤ final →
  final + score_of (λ _, true) forks sc ≤ INT_MAX →
  add_unfinished forks sc final = final + score_of (λ _, true) forks sc.
Proof.
  intros Hsc. revert forks final. induction Hsc as [|x sc Hx Hsc IH];
    intros [|p forks] final Hp H0 Hb; cbn [add_unfinished score_of] in *; try lia.
  pose proof (score_of_bounds (λ _, true) forks sc Hsc) as Hs. rewrite andb_true_r in *.
  assert (0 ≤ p) by (apply Hp, elem_of_cons; by left).
  assert (Hp' : ∀ q, q ∈ forks → 0 ≤ q) by (intros; apply Hp, elem_of_cons; by right).
  destruct (decide (p = 0)) as [->|].
  - change (0 =? 0) with true. change (0 <? 0) with false in *. cbn [negb]. rewrite IH by (done || lia). lia.
  - rewrite (proj2 (Z.eqb_neq p 0)) by done. rewrite (proj2 (Z.ltb_lt 0 p)) in * by lia.
    cbn [negb]. rewrite s32_small by (unfold INT_MAX in *; lia). rewrite IH by (done || lia). lia.
Qed.

(** *** Options *)

Record wf_options (o : options) : Prop := {
  wo_devices : (length (o_devices o) ≤ MAX_DEVICES)%nat;
  wo_scores : (length (o_scores o) ≤ MAX_DEVICES)%nat;
  wo_range : Forall (λ x, 1 ≤ x ≤ 10) (o_scores o);
  wo_timeout : 1 ≤ o_timeout o;
  wo_interval : 1 ≤ o_interval o;
  wo_modes : o_daemonize o && o_client o = false }.

Lemma main_option_wf opt o o' : wf_options o → main_option opt o = Ret o' → wf_options o'.
Proof.
  intros Ho. destruct opt as [[ch name] optarg], o as [dv sc tm iv ij vb dm cl pf an].
  destruct Ho as [H1 H2 H3 H4 H5 H6].
  cbn [o_devices o_scores o_timeout o_interval o_daemonize o_client] in *. unfold main_option.
  repeat (match goal with
          | |- (if ?b then _ else _) = _ → _ => destruct b eqn:?
          end); try done; intros [= <-];
    constructor; cbn [o_devices o_scores o_timeout o_interval o_daemonize o_client];
    try assumption; zbool;
    repeat match goal with H : (_ <? _)%nat = true |- _ => apply Nat.ltb_lt in H end;
    rewrite ?length_app; cbn [length]; try lia.
  all: apply Forall_app; split; [done|]; repeat constructor; lia.
Qed.

Lemma main_options_wf opts o o' : wf_options o → main_options opts o = Ret o' → wf_options o'.
Proof.
  revert o. induction opts as [|opt opts IH]; intros o Ho Hr; cbn [main_options] in Hr.
  - by injection Hr as <-.
  - destruct (main_option opt o) as [o1| |] eqn:E; try done. eapply IH; [|exact Hr].
    by eapply main_option_wf.
Qed.

Lemma seek_spot_aligned rand devsize :
  1024 < devsize < 2 ^ 64 → 0 ≤ rand ≤ INT_MAX →
  seek_spot rand devsize = Ret (rand mod (devsize - 1024) / 512 * 512).
Proof.
  unfold INT_MAX. intros Hd Hr. unfold seek_spot. rewrite u64_small by (unfold ULONG_MAX; lia).
  ztest. f_equal.
  pose proof (Z.mod_pos_bound rand (devsize - 1024) ltac:(lia)).
  apply (land_high_bits 64 _ 9); lia.
Qed.

(** ** Properties *)

(** [C20] Memory safety: after any history of events in which [waitpid] only
    reports children that were created and not yet reported, the next event
    is handled without an access outside the arrays; the index -1 that
    [find_child_pid] may return (and that [index >= 0] does not exclude) never
    arises. *)
Theorem daemon_never_faults c es s kids e :
  wf_smcfg c → trace c es s kids → valid_event kids e →
  ∃ s' cmds, dispatch c e s = Ret (s', cmds) ∧
    length (test_forks s') = MAX_DEVICES ∧
    ∀ p, p ∈ next_kids kids e cmds → p ∈ take (device_count c) (test_forks s').
Proof.
  intros Hc Ht Hv. destruct (dispatch_safe c e s kids Hc (trace_inv c es s kids Hc Ht) Hv)
    as (s' & cmds & Hd & [H1 H2]).
  exists s', cmds. split_and!; [done|done|]. intros p Hp. by apply H2.
Qed.

(** One round of checks: from an idle daemon, whatever the order in which
    children exit and the timeout (which expires at most once) comes, the
    final score is the sum of the scores of the devices that failed, each
    counted once, where a device fails by exiting with an error before the
    timeout or not at all by then; when all have exited the score is what
    clients are answered. *)
Theorem round_score c pids l s :
  wf_smcfg c → length pids = device_count c → Forall (λ p, 0 < p) pids → NoDup pids →
  shutting_down s = false → is_child_runnning c s = false →
  NoDup (exits l) → (∀ p, p ∈ exits l → p ∈ pids) → (expiries l ≤ 1)%nat →
  ∃ s', run_events c (EvTimer true pids :: round_events false l) s =
          Ret (s', (CFork <$> pids) ++ [CExpire (timeout c); CTimer (interval c) true]) ∧
    final_score s' = score_of (failed l) pids (scores c) ∧
    (length (exits l) = length pids →
     send_score s' SMON_GET_RESULT_COMMAND = final_score s' ∧ is_child_runnning c s' = false).
Proof.
  intros Hc Hl Hp Hnd Hsd Hrun Hex Hsub Hone.
  destruct (round_start c pids s) as (s1 & Hs1 & Hinv & Hf0 & _ & Hforks); [done..|].
  destruct (round_run c l false s1 Hc Hinv Hex) as (s' & y & Hr & Hinv' & Hf & Hn & _).
  { intros p Hp'. rewrite Hforks. split; [|auto]. rewrite list.Forall_forall in Hp. auto. }
  { done. }
  exists s'. cbn [run_events dispatch]. rewrite Hs1. cbn [mbind outcome_bind]. rewrite Hr.
  cbn [mbind outcome_bind]. rewrite app_nil_r. rewrite Hf0, Hforks in Hf. split_and!; [reflexivity|lia|].
  intros Hall. rewrite Hforks, (npos_all pids), Hall in Hn by done.
  destruct (ri_response _ _ _ Hinv') as [Hresp Hflag]; [lia|]. split.
  - unfold send_score. change (strcmp _ _ =? 0) with true. cbn [negb]. rewrite Hflag. done.
  - destruct (is_child_runnning c s') eqn:E; [|done]. exfalso.
    apply is_child_runnning_spec in E as (p & Hin & Hne).
    pose proof (ri_nonneg _ _ _ Hinv' p Hin). pose proof (npos_pos _ p Hin). lia.
Qed.

(** What the daemon answers is what the client returns, for every [int]:
    -1 for an unknown command, -2 while the first round is neither complete
    nor has a failure, and the response score otherwise. *)
Theorem client_reads_score s m send_rc recv_rc padding :
  -2147483648 ≤ response_final_score s ≤ INT_MAX → 0 < send_rc → 0 ≤ recv_rc →
  storage_mon_client true send_rc recv_rc (storage_mon_ipcs_msg_process_fn s m ++ padding) =
    if negb (strcmp m SMON_GET_RESULT_COMMAND =? 0) then -1
    else if daemon_check_first_all_devices s then response_final_score s else -2.
Proof.
  intros Hr Hs Hrc. unfold INT_MAX in Hr.
  assert (Hv : -2147483648 ≤ send_score s m ≤ INT_MAX).
  { unfold send_score, INT_MAX. destruct (negb _); [lia|].
    destruct (negb _); lia. }
  pose proof (dec_d_length _ Hv) as Hlen.
  unfold storage_mon_client, storage_mon_ipcs_msg_process_fn. cbn [negb]. ztest. cbn [andb].
  rewrite snprintf_bytes_fit by (unfold SMON_MAX_RESP_SIZE; lia). rewrite <-app_assoc. cbn [app].
  rewrite cstr_text by (by apply dec_d_text).
  rewrite <-(app_nil_r (dec_d _)) at 2. rewrite atoi_dec_d by done.
  assert (Hhd : (hd 0 (dec_d (send_score s m) ++ 0 :: padding) =? 0) = false).
  { pose proof (dec_d_text _ Hv) as Ht. destruct (dec_d (send_score s m)) as [|c l]; [cbn in Hlen; lia|].
    apply Forall_cons_1 in Ht as [Hc _]. cbn. by ztest. }
  rewrite Hhd. cbn [negb]. unfold send_score. destruct (negb (strcmp _ _ =? 0)); [done|].
  by destruct (daemon_check_first_all_devices s).
Qed.

(** [C26] A recorded process that [waitpid] never reports as exited stops the
    monitoring for good: whatever events follow, no device is checked again.
    This is what becomes of a failed [fork] (its -1 stays in the table) and of
    a child killed by a signal (its pid does). *)
Theorem unreaped_child_stops_checks c s x es s' cmds :
  wf_smcfg c → length (test_forks s) = MAX_DEVICES → x ≠ 0 →
  x ∈ take (device_count c) (test_forks s) → Forall (never_exits x) es →
  run_events c es s = Ret (s', cmds) →
  x ∈ take (device_count c) (test_forks s') ∧ ∀ pid, CFork pid ∉ cmds.
Proof.
  intros Hc Hl Hx Hin Hes Hr.
  destruct (run_events_keeps c es s s' cmds x Hc Hl Hx Hes Hin Hr) as [H1 H2]. split; [done|].
  intros pid Hp. clear -H2 Hp. induction cmds as [|a cmds IH]; [by apply elem_of_nil in Hp|].
  apply elem_of_cons in Hp as [<-|Hp]; [done|]. apply IH; [|done].
  destruct a; try done.
Qed.

(** SIGTERM: every running child gets SIGTERM and a timer is set to stop
    the loop; whatever events come afterwards no child is created any more,
    and the next timer stops the loop. *)
Theorem sigterm_stops c s es s' cmds data answers :
  run_events c es (sigterm_handler c s).1 = Ret (s', cmds) →
  (∀ p, p ∈ take (device_count c) (test_forks s) → 0 < p →
        CKill p ∈ (sigterm_handler c s).2) ∧
  CTimer 0 false ∈ (sigterm_handler c s).2 ∧
  forked cmds = [] ∧
  test_device_main c data answers s' = (s', [CStop]).
Proof.
  intros Hr. destruct (shutdown_kept c es (sigterm_handler c s).1 s' cmds eq_refl Hr) as [Hs Hf]. split_and!.
  - intros p Hp Hpos. unfold sigterm_handler. cbn [snd test_forks].
    rewrite (proj2 (is_child_runnning_spec c _)).
    2:{ exists p. cbn [test_forks]. split; [done|lia]. }
    apply elem_of_cons. right. apply elem_of_app. left. apply list_elem_of_fmap.
    exists p. split; [done|]. by apply list_elem_of_filter.
  - unfold sigterm_handler. cbn [snd]. apply elem_of_cons. right. apply elem_of_app. right.
    by apply elem_of_cons; left.
  - done.
  - unfold test_device_main. by rewrite Hs.
Qed.

Lemma run_events_app c a b s s1 c1 s2 c2 :
  run_events c a s = Ret (s1, c1) → run_events c b s1 = Ret (s2, c2) →
  run_events c (a ++ b) s = Ret (s2, c1 ++ c2).
Proof.
  revert s c1. induction a as [|e a IH]; intros s c1 Ha Hb; cbn [run_events app] in *.
  - by injection Ha as <- <-.
  - destruct (dispatch c e s) as [[s3 c3]| |]; try done. cbn [mbind outcome_bind] in *.
    destruct (run_events c a s3) as [[s4 c4]| |] eqn:E; try done. cbn [mbind outcome_bind] in *.
    injection Ha as <- <-. rewrite (IH s3 c4 E Hb). cbn [mbind outcome_bind]. by rewrite app_assoc.
Qed.

(** A complete round leaves no child running. *)
Lemma round_idle c y s :
  round_inv c y s → npos (take (device_count c) (test_forks s)) = 0 → is_child_runnning c s = false.
Proof.
  intros Hinv H0. destruct (is_child_runnning c s) eqn:E; [|done]. exfalso.
  apply is_child_runnning_spec in E as (p & Hin & Hne).
  pose proof (ri_nonneg _ _ _ Hinv p Hin). pose proof (npos_pos _ p Hin). lia.
Qed.


(** [C22] Outside the daemon: when every fork succeeds the check ends once the
    clock has reached the deadline, whatever the children do, and a result
    that is not an error lies between 0 and the sum of the scores. *)
Theorem oneshot_ends c pids start polls :
  wf_smcfg c → length pids = device_count c → Forall (λ p, 0 < p) pids →
  (∃ poll, poll ∈ polls ∧ start + timeout c ≤ poll.2) →
  test_device_once c pids start polls ≠ LWaiting ∧
  ∀ score, test_device_once c pids start polls = LDone score →
           0 ≤ score ≤ score_of (λ _, true) pids (scores c).
Proof.
  intros Hc Hl Hp Hpoll. pose proof (wf_devices _ Hc) as Hn. unfold test_device_once.
  rewrite fork_loop_all by (done || rewrite length_replicate; lia). cbn [fst].
  assert (Htk : ∀ l, take (device_count c) (pids ++ l) = pids)
    by (intros l; rewrite <-Hl; apply take_app_length).
  rewrite firstn_O. cbn [app]. rewrite Htk.
  pose proof (wait_loop_ends (Z.of_nat (device_count c)) (start + timeout c) (scores c) polls pids
                0 0 start Hpoll) as Hend.
  destruct (wait_loop _ _ _ _ _ _ _ _) as [[f fin]| |] eqn:E; try done.
  split; [done|]. intros score [= <-].
  pose proof (score_of_max (λ _, true) pids (scores c) (wf_scores_range _ Hc)) as Hmax.
  pose proof (wf_scores_range _ Hc) as Hsc. unfold MAX_DEVICES in Hn.
  assert (Hb0 : 0 + score_of (λ _, true) pids (scores c) ≤ INT_MAX) by (unfold INT_MAX; lia).
  destruct (wait_loop_score _ _ _ _ _ _ _ _ _ _ Hsc ltac:(done) Hb0 E) as (H1 & H2 & H3).
  pose proof (score_of_bounds (λ _, true) f (scores c) Hsc) as Hb.
  rewrite add_unfinished_score; [lia|done| |done|unfold INT_MAX; lia].
  intros p Hin. destruct (H3 p Hin) as [->|Hin']; [done|].
  rewrite list.Forall_forall in Hp. specialize (Hp p Hin'). lia.
Qed.

(** The command line: when the options are accepted and a check is to be
    made, there are 1 to 25 devices with one score from 1 to 10 each, the
    timeout and interval are at least 1, and daemon and client mode exclude
    each other; whatever else is given ends the program. *)
Theorem main_config_sound opts pidfile o oc :
  main_config opts pidfile = Ret (o, oc) →
  o_daemonize o && o_client o = false ∧
  match oc with
  | Some c => wf_smcfg c ∧ devices c = o_devices o ∧
              take (device_count c) (scores c) = o_scores o ∧
              length (o_scores o) = device_count c ∧ Forall (λ x, 1 ≤ x ≤ 10) (o_scores o)
  | None => o_client o = true
  end.
Proof.
  unfold main_config. destruct (main_options opts (default_options pidfile)) as [o1| |] eqn:E; try done.
  cbn [mbind outcome_bind].
  assert (Hwf : wf_options o1).
  { eapply main_options_wf; [|exact E]. constructor; cbn; unfold MAX_DEVICES;
    first [lia | done]. }
  destruct Hwf as [H1 H2 H3 H4 H5 H6].
  destruct (o_client o1) eqn:Ec; [intros [= <- <-]; by rewrite Ec|].
  destruct (_ =? 0)%nat eqn:E0; [done|]. destruct (negb _) eqn:E1; [done|].
  apply Nat.eqb_neq in E0. apply negb_false_iff, Nat.eqb_eq in E1.
  intros [= <- <-]. split; [by rewrite Ec, andb_false_r|].
  unfold device_count. cbn [devices scores].
  split_and!; [|done| |done|done].
  - constructor; unfold device_count; cbn [devices scores timeout interval]; try done; try lia.
    + rewrite length_app, length_replicate. lia.
    + apply Forall_app. split.
      * eapply Forall_impl; [|exact H3]. cbn. lia.
      * apply list.Forall_forall. intros x [-> _]%elem_of_replicate. lia.
  - rewrite E1. apply take_app_length.
Qed.

(** Where a device is read: for a device of more than 1024 bytes the
    position is sector aligned, below 2 GiB, and at least 1024 bytes before
    the end; a device of exactly 1024 bytes divides by zero; and with sectors
    of 4096 bytes some position lets the read run past the end of the device. *)
Theorem seek_spot_in_device devsize :
  (1024 < devsize < 2 ^ 64 →
   ∀ rand, 0 ≤ rand ≤ INT_MAX →
   ∃ spot, seek_spot rand devsize = Ret spot ∧ spot mod 512 = 0 ∧ 0 ≤ spot ≤ INT_MAX ∧
           spot + 1024 < devsize) ∧
  (devsize = 1024 → ∀ rand, seek_spot rand devsize = Fault) ∧
  (devsize mod 4096 = 0 → 4096 ≤ devsize ≤ 2 ^ 31 →
   ∃ rand spot, 0 ≤ rand ≤ INT_MAX ∧ seek_spot rand devsize = Ret spot ∧ devsize < spot + 4096).
Proof.
  split_and!.
  - intros Hd rand Hr. eexists. split; [by apply seek_spot_aligned|].
    pose proof (Z.mod_pos_bound rand (devsize - 1024) ltac:(lia)) as Hm.
    pose proof (Z.mod_le rand (devsize - 1024) ltac:(lia) ltac:(lia)).
    set (x := rand mod (devsize - 1024)) in *. clearbody x.
    pose proof (Z.div_mod x 512 ltac:(lia)). pose proof (Z.mod_pos_bound x 512 ltac:(lia)).
    pose proof (Z.div_pos x 512 ltac:(lia) ltac:(lia)).
    split_and!; [by apply Z.mod_mul|lia|lia|lia].
  - intros -> rand. reflexivity.
  - intros Hm Hd. exists (devsize - 1025), (devsize - 1536). unfold INT_MAX.
    change (2 ^ 31) with 2147483648 in Hd. split; [lia|].
    rewrite seek_spot_aligned by (unfold INT_MAX; lia). rewrite Z.mod_small by lia.
    pose proof (Z.div_mod devsize 4096 ltac:(lia)) as Hq. rewrite Hm in Hq.
    set (q := devsize / 4096) in *. clearbody q.
    replace (devsize - 1025) with (511 + (8 * q - 3) * 512) by lia.
    rewrite Z.div_add, (Z.div_small 511) by lia. split; [f_equal; lia|lia].
Qed.

(** *** The daemon *)

(** Once shutting down, the loop ends at the first timer. *)
Lemma run_loop_shutdown c es s r cmds :
  shutting_down s = true → run_loop c es s = Ret (r, cmds) →
  (r ≠ None ↔ ∃ b d answers rest, es = b ++ EvTimer d answers :: rest).
Proof.
  revert s r cmds. induction es as [|e es IH]; intros s r cmds Hs Hr; cbn [run_loop] in Hr.
  { injection Hr as <- <-. split; [done|]. by intros ([|x b] & d & a & l & Heq). }
  destruct (dispatch c e s) as [[s1 c1]| |] eqn:E; try done. cbn [mbind outcome_bind] in Hr.
  destruct (dispatch_shutdown _ _ _ _ _ E) as (H1 & H2 & _). rewrite H2, Hs in Hr.
  destruct (match e with EvTimer _ _ => true | _ => false end) eqn:Et; cbn [andb] in Hr.
  - destruct e as [d a| | |]; try done. injection Hr as <- <-. split; [|done].
    intros _. by exists [], d, a, es.
  - destruct (run_loop c es s1) as [[r' c2]| |] eqn:E2; try done. injection Hr as <- <-.
    rewrite (IH s1 r' c2) by (done || rewrite H1; by destruct e). split.
    + intros (b & d & a & l & ->). by exists (e :: b), d, a, l.
    + intros ([|e' b] & d & a & l & Heq); injection Heq as -> ->; [done|]. by exists b, d, a, l.
Qed.

(** [C21] The event loop of the daemon ends exactly when a timer fires after a
    SIGTERM: nothing else that the children, the timers or the order of the
    events do stops it. *)
Theorem loop_ends_iff_sigterm c es s r cmds :
  shutting_down s = false → run_loop c es s = Ret (r, cmds) →
  (r ≠ None ↔ ∃ a b d answers rest, es = a ++ EvTerm :: b ++ EvTimer d answers :: rest).
Proof.
  revert s r cmds. induction es as [|e es IH]; intros s r cmds Hs Hr; cbn [run_loop] in Hr.
  { injection Hr as <- <-. split; [done|]. by intros ([|x a] & b & d & a' & l & Heq). }
  destruct (dispatch c e s) as [[s1 c1]| |] eqn:E; try done. cbn [mbind outcome_bind] in Hr.
  destruct (dispatch_shutdown _ _ _ _ _ E) as (H1 & H2 & _). rewrite H2, Hs in Hr.
  cbn [andb] in Hr. destruct (run_loop c es s1) as [[r' c2]| |] eqn:E2; try done.
  injection Hr as <- <-. destruct (shutting_down s1) eqn:Hs1.
  - destruct e; try congruence. rewrite (run_loop_shutdown c es s1 r' c2) by done. split.
    + intros (b & d & a' & l & ->). by exists [], b, d, a', l.
    + intros ([|e' a] & b & d & a' & l & Heq); injection Heq as Heq; subst; [by exists b, d, a', l|].
      exists (a ++ EvTerm :: b), d, a', l. by rewrite <-app_assoc.
  - rewrite (IH s1 r' c2) by done. split.
    + intros (a & b & d & a' & l & ->). by exists (e :: a), b, d, a', l.
    + intros ([|e' a] & b & d & a' & l & Heq); injection Heq as Heq; subst; [done|].
      by exists a, b, d, a', l.
Qed.

(** The PID file: when [write_pid_file] succeeds the file begins with
    the decimal PID, and a reader gets the PID back when the file was not
    longer before; but the file is not truncated, so the rest of a longer one,
    as after a crash, follows, and digits there are read as part of the PID. *)
Theorem pid_file_read_back mkdir_ok open_ok written pid old pidfile tried contents :
  0 < pid ≤ INT_MAX →
  write_pid_file mkdir_ok open_ok written pid old pidfile = (0, tried, contents) →
  contents = dec_d pid ++ drop (length (dec_d pid)) old ∧
  ((length old ≤ length (dec_d pid))%nat → atoi contents = pid) ∧
  (∀ ks rest, drop (length (dec_d pid)) old = ((λ d, 48 + d) <$> ks) ++ rest →
     Forall (λ d, 0 ≤ d < 10) ks →
     (match rest with x :: _ => digit_of 10 x = None | [] => True end) →
     pid * 10 ^ Z.of_nat (length ks) + digits_val 10 ks ≤ INT_MAX →
     atoi contents = pid * 10 ^ Z.of_nat (length ks) + digits_val 10 ks).
Proof.
  intros Hp. unfold write_pid_file. destruct (mkdirs _ _) as [l ok]. destruct ok; [|done].
  destruct open_ok; [|done]. cbn [negb].
  destruct (written =? Z.of_nat (length (dec_d pid))) eqn:E; [|done].
  apply Z.eqb_eq in E as ->. cbn [negb]. intros [= _ <-]. rewrite Nat2Z.id.
  unfold overwrite. rewrite firstn_all. split_and!; [done| |].
  - intros Hl. rewrite drop_ge by done. apply atoi_dec_d; [unfold INT_MAX in *; lia|done].
  - intros ks rest -> Hks Hrest Hb. unfold dec_d. rewrite (proj2 (Z.ltb_ge pid 0)) by lia.
    apply atoi_dec_u_more; [lia|done..].
Qed.

(** ** Witnesses *)

(** Two devices of scores 1 and 5. *)
Definition two_devices : smcfg :=
  Smcfg [str "/dev/sda"; str "/dev/sdb"] ([1; 5] ++ replicate 23 0) 10 30 0.

Lemma two_devices_wf : wf_smcfg two_devices.
Proof.
  constructor; try (cbn; unfold MAX_DEVICES; lia).
  repeat constructor; lia.
Qed.

Lemma nodup_two (a b : Z) : a ≠ b → NoDup [a; b].
Proof.
  intros H. apply list.NoDup_cons. split; [|apply list.NoDup_singleton].
  by rewrite list_elem_of_singleton.
Qed.

Lemma daemon_never_faults_witness :
  ∃ s' cmds, dispatch two_devices (EvChld true [(102, WExited 255)])
               (test_device_main two_devices true [101; 102] smon_init).1 = Ret (s', cmds) ∧
    length (test_forks s') = MAX_DEVICES ∧
    ∀ p, p ∈ next_kids [101; 102] (EvChld true [(102, WExited 255)]) cmds →
         p ∈ take (device_count two_devices) (test_forks s').
Proof.
  apply (daemon_never_faults two_devices [EvTimer true [101; 102]]).
  - apply two_devices_wf.
  - apply (trace_step two_devices [] smon_init [] (EvTimer true [101; 102]) _
             (test_device_main two_devices true [101; 102] smon_init).2).
    + constructor.
    + repeat constructor; lia.
    + reflexivity.
  - split; [apply list.NoDup_singleton|]. cbn. set_solver.
Defined.

Lemma round_score_witness :
  ∃ s', run_events two_devices
          (EvTimer true [101; 102] :: round_events false [RExit 102 255; RExpire; RExit 101 0])
          smon_init =
          Ret (s', [CFork 101; CFork 102; CExpire 10; CTimer 30 true]) ∧
    final_score s' = 6 ∧ send_score s' SMON_GET_RESULT_COMMAND = 6.
Proof.
  destruct (round_score two_devices [101; 102] [RExit 102 255; RExpire; RExit 101 0] smon_init)
    as (s' & H1 & H2 & H3).
  - apply two_devices_wf.
  - reflexivity.
  - repeat constructor.
  - by apply nodup_two.
  - reflexivity.
  - reflexivity.
  - by apply nodup_two.
  - cbn. set_solver.
  - cbn. lia.
  - exists s'. split; [exact H1|]. destruct (H3 eq_refl) as [H4 _]. rewrite H4, H2.
    split; reflexivity.
Defined.

Lemma client_reads_score_witness :
  storage_mon_client true 24 128
    (storage_mon_ipcs_msg_process_fn (Smon [] 6 6 2 true false) SMON_GET_RESULT_COMMAND ++
     replicate 126 0) = 6.
Proof.
  refine (eq_trans (client_reads_score (Smon [] 6 6 2 true false) SMON_GET_RESULT_COMMAND 24 128
                      (replicate 126 0) _ _ _) _).
  - cbn. unfold INT_MAX. lia.
  - lia.
  - lia.
  - reflexivity.
Defined.

(** The second fork fails; the first child then exits without an error. *)
Lemma unreaped_child_stops_checks_witness :
  -1 ∈ take 2 (test_forks (Smon ([0; -1] ++ replicate 23 0) 0 0 1 false false)) ∧
  ∀ pid, CFork pid ∉ [CTimer 30 true; CTimer 30 true].
Proof.
  set (s0 := (test_device_main two_devices true [101; -1] smon_init).1).
  apply (unreaped_child_stops_checks two_devices s0 (-1)
           [EvChld true [(101, WExited 0)]; EvTimer true [103; 104]; EvExpire;
            EvTimer true [105; 106]]).
  - apply two_devices_wf.
  - reflexivity.
  - lia.
  - vm_compute. apply list_elem_of_further, list_elem_of_here.
  - repeat constructor. intros code. rewrite list_elem_of_singleton. congruence.
  - vm_compute. reflexivity.
Defined.

Lemma sigterm_stops_witness :
  let s := (test_device_main two_devices true [101; 102] smon_init).1 in
  let s' := Smon ([101; 0] ++ replicate 23 0) 0 0 1 false true in
  (∀ p, p ∈ take (device_count two_devices) (test_forks s) → 0 < p →
        CKill p ∈ (sigterm_handler two_devices s).2) ∧
  CTimer 0 false ∈ (sigterm_handler two_devices s).2 ∧
  forked [] = [] ∧
  test_device_main two_devices false [] s' = (s', [CStop]).
Proof.
  intros s s'. apply (sigterm_stops two_devices s [EvChld true [(102, WExited 0)]] s' []).
  vm_compute. reflexivity.
Defined.


Lemma oneshot_ends_witness :
  let polls := [([WNone; WChanged (Some 255)], 1005); ([WNone], 1012)] in
  test_device_once two_devices [101; 102] 1000 polls ≠ LWaiting ∧
  ∀ score, test_device_once two_devices [101; 102] 1000 polls = LDone score → 0 ≤ score ≤ 6.
Proof.
  intros polls. apply (oneshot_ends two_devices [101; 102] 1000 polls).
  - apply two_devices_wf.
  - reflexivity.
  - repeat constructor.
  - exists ([WNone], 1012). split; [apply list_elem_of_further, list_elem_of_here|cbn; lia].
Defined.

Lemma main_config_sound_witness :
  let opts : list (Z * list Z * list Z) := [(100, [], str "/dev/sda"); (115, [], str "7"); (116, [], str "20")] in
  let c := Smcfg [str "/dev/sda"] (7 :: replicate 24 0) 20 30 0 in
  wf_smcfg c ∧ take (device_count c) (scores c) = [7].
Proof.
  intros opts c.
  destruct (main_config_sound opts [] (Options [str "/dev/sda"] [7] 20 30 0 0 false false []
              (str "#health-storage_mon")) (Some c)) as (_ & H1 & _ & H2 & _).
  - vm_compute. reflexivity.
  - split; assumption.
Defined.

Lemma loop_ends_iff_sigterm_witness :
  let es := [EvTimer true [101; 102]; EvTerm; EvChld false [(101, WSignaled)]; EvTimer false []] in
  Some (Smon ([101; 102] ++ replicate 23 0) 0 0 0 false true) ≠ None ↔
    ∃ a b d answers rest, es = a ++ EvTerm :: b ++ EvTimer d answers :: rest.
Proof.
  intros es.
  apply (loop_ends_iff_sigterm two_devices es smon_init _
           [CFork 101; CFork 102; CExpire 10; CTimer 30 true; CTimerDel; CKill 101; CKill 102;
            CTimer 0 false; CStop]).
  - reflexivity.
  - vm_compute. reflexivity.
Defined.

(** PID 678 over the file of PID 12345: the file then holds 67845. *)
Lemma pid_file_read_back_witness :
  let mkdir := λ _ : list Z, true in
  let res := write_pid_file mkdir true 3 678 (str "12345") (str "/run/sm/storage_mon.pid") in
  res = (0, [str "/run"; str "/run/sm"], str "67845") ∧ atoi res.2 = 67845.
Proof.
  intros mkdir res. split; [vm_compute; reflexivity|].
  destruct (pid_file_read_back mkdir true 3 678 (str "12345") (str "/run/sm/storage_mon.pid")
              [str "/run"; str "/run/sm"] (str "67845")) as (_ & _ & H).
  - unfold INT_MAX. lia.
  - vm_compute. reflexivity.
  - refine (eq_trans (H [4; 5] [] _ _ _ _) _).
    + reflexivity.
    + repeat constructor; lia.
    + done.
    + vm_compute. discriminate.
    + vm_compute. reflexivity.
Defined.
