(* ===== verification/StorageCheck.v ===== *)
(** * storage_mon: what a check says about the devices

    StorageMon follows the code; here the one-shot check is compared with a
    reference definition, which only watches the children: the exit status of
    each, as far as it is known, and who is late at the end.  From it come the
    exit status of the program and what it means for the devices; and from the
    rounds of the daemon what its client is told. *)

From S2P Require Import Prelude CString StorageMon.
#[local] Open Scope Z_scope.

(** ** The reference definition

    For every device the status its child has exited with, if it has. *)

Fixpoint observe (answers : list wait_res) (ex : list (option Z)) : list (option Z) :=
  match ex with
  | [] => []
  | x :: ex' =>
      match x, hd WNone answers with
      | None, WChanged (Some code) => Some code
      | _, _ => x
      end :: observe (tl answers) ex'
  end.

(** [waitpid] fails for a child that is still waited for. *)
Fixpoint lost (answers : list wait_res) (ex : list (option Z)) : bool :=
  match ex with
  | [] => false
  | x :: ex' =>
      match x, hd WNone answers with None, WErr => true | _, _ => false end
      || lost (tl answers) ex'
  end.

Definition waiting (ex : list (option Z)) : bool :=
  existsb (λ x, match x with None => true | Some _ => false end) ex.

Fixpoint watch (deadline : Z) (polls : list (list wait_res * Z)) (ex : list (option Z)) (ts : Z)
    : loop_res (list (option Z)) :=
  if waiting ex && (ts <? deadline) then
    match polls with
    | [] => LWaiting
    | (answers, ts') :: polls' =>
        if lost answers ex then LError else watch deadline polls' (observe answers ex) ts'
    end
  else LDone ex.

(** The score of the devices whose child has not exited with 0. *)
Fixpoint bad_score (ex : list (option Z)) (sc : list Z) : Z :=
  match ex, sc with
  | x :: ex', score :: sc' => (if decide (x = Some 0) then 0 else score) + bad_score ex' sc'
  | _, _ => 0
  end.

(** A whole sector could be read from the device. *)
Definition readable (p : probe) : Prop :=
  (∃ size, blkgetsize64 p = Some size) ∧
  (open_direct p = OpenOk ∧ (∃ sec, blksszget p = Some sec ∧ sec ≤ s32 (read_res p sec)) ∨
   open_direct p = OpenEinval ∧ open_plain p = OpenOk ∧ 512 ≤ s32 (read_res p 512)).

(** The statuses [waitpid] reports are those of children that ran
    [test_device]. *)
Definition from_children (c : smcfg) (probes : list probe) (polls : list (list wait_res * Z)) : Prop :=
  ∀ poll i code, poll ∈ polls → poll.1 !! i = Some (WChanged (Some code)) →
    ∃ p, probes !! i = Some p ∧ test_device p (inject_error_percent c) = Ret code.

(** ** Lemmas *)

(** What the code keeps of the statuses. *)
Definition left (pids : list Z) (ex : list (option Z)) : list Z :=
  zip_with (λ p x, match x with Some _ => 0 | None => p end) pids ex.
Fixpoint known (ex : list (option Z)) (sc : list Z) : Z :=
  match ex, sc with
  | x :: ex', score :: sc' =>
      match x with Some code => if code =? 0 then 0 else score | None => 0 end + known ex' sc'
  | _, _ => 0
  end.
Fixpoint exited (ex : list (option Z)) : Z :=
  match ex with
  | [] => 0
  | x :: ex' => (match x with Some _ => 1 | None => 0 end) + exited ex'
  end.

Lemma observe_length answers ex : length (observe answers ex) = length ex.
Proof. revert answers. induction ex as [|x ex IH]; intros answers; simpl; [done|]. by rewrite IH. Qed.

Lemma exited_bound ex : 0 ≤ exited ex ≤ Z.of_nat (length ex).
Proof. induction ex as [|[|] ex IH]; simpl; lia. Qed.

Lemma waiting_exited ex : waiting ex = (exited ex <? Z.of_nat (length ex)).
Proof.
  induction ex as [|x ex IH]; [done|]. pose proof (exited_bound ex). cbn [waiting existsb exited length].
  destruct x; cbn [orb].
  - fold (waiting ex). rewrite IH. destruct (Z.ltb_spec (exited ex) (Z.of_nat (length ex))); symmetry.
    + apply Z.ltb_lt. lia.
    + apply Z.ltb_ge. lia.
  - symmetry. apply Z.ltb_lt. lia.
Qed.

Lemma known_bound ex sc :
  Forall (λ x, 0 ≤ x ≤ 10) sc → 0 ≤ known ex sc ≤ 10 * Z.of_nat (length ex).
Proof.
  intros H. revert ex. induction H as [|x sc Hx _ IH]; intros [|[code|] ex]; cbn [known length]; try lia;
    specialize (IH ex); try destruct (code =? 0); lia.
Qed.

Lemma observe_known answers ex sc :
  Forall (λ x, 0 ≤ x ≤ 10) sc → known ex sc ≤ known (observe answers ex) sc.
Proof.
  intros H. revert answers ex. induction H as [|s sc Hs _ IH]; intros answers [|x ex]; cbn [observe known]; try lia.
  specialize (IH (tl answers) ex). destruct x as [code|]; [lia|].
  destruct (hd WNone answers) as [| |[code|]]; try lia. destruct (code =? 0); lia.
Qed.

Lemma triple_eq {A} (a a' : A) (b b' c c' : Z) :
  a = a' → b = b' → c = c' → Some (a, b, c) = Some (a', b', c').
Proof. by intros -> -> ->. Qed.

(** One poll. *)
Lemma poll_observe pids ex sc answers final finished :
  Forall (λ x, 0 ≤ x ≤ 10) sc → Forall (λ p, 0 < p) pids → length pids = length ex →
  (length ex ≤ length sc)%nat → 0 ≤ final → final + 10 * Z.of_nat (length ex) ≤ INT_MAX →
  poll_devices (left pids ex) sc answers final finished =
    if lost answers ex then None
    else Some (left pids (observe answers ex), final + (known (observe answers ex) sc - known ex sc),
               finished + (exited (observe answers ex) - exited ex)).
Proof.
  intros Hsc. revert pids ex answers final finished.
  induction Hsc as [|s sc Hs _ IH]; intros pids ex answers final finished Hp Hl Hle H0 Hb.
  { destruct ex; [|simpl in Hle; lia]. destruct pids; [|done]. cbn. by apply triple_eq; [done|lia..]. }
  destruct ex as [|x ex], Hp as [|p pids Hp0 Hp]; try done.
  { cbn. by apply triple_eq; [done|lia..]. }
  cbn [length] in *. injection Hl as Hl.
  assert (Hgo : ∀ fin fsh, 0 ≤ fin ≤ final + 10 →
    poll_devices (left pids ex) sc (tl answers) fin fsh =
      if lost (tl answers) ex then None
      else Some (left pids (observe (tl answers) ex), fin + (known (observe (tl answers) ex) sc - known ex sc),
                 fsh + (exited (observe (tl answers) ex) - exited ex)))
    by (intros; apply IH; (done || lia)).
  destruct x as [code|]; cbn [left zip_with poll_devices observe lost known exited].
  - change (0 <? 0) with false. cbv iota. fold (left pids ex). rewrite Hgo by lia. cbn [orb].
    destruct (lost (tl answers) ex); [done|]. cbn [mbind option_bind]. fold (left pids (observe (tl answers) ex)).
    by apply triple_eq; [done|lia..].
  - rewrite (proj2 (Z.ltb_lt 0 p)) by done. fold (left pids ex).
    destruct (hd WNone answers) as [| |[code|]]; cbn [orb]; try done.
    1,3: rewrite Hgo by lia; destruct (lost (tl answers) ex); [done|]; cbn [mbind option_bind left zip_with];
         fold (left pids (observe (tl answers) ex)); by apply triple_eq; [done|lia..].
    assert (Hf : (if negb (code =? 0) then s32 (final + s) else final) = final + (if code =? 0 then 0 else s)).
    { destruct (code =? 0); cbn [negb]; [lia|]. apply s32_small. unfold INT_MAX in *. lia. }
    rewrite Hf, Hgo by (destruct (code =? 0); lia). destruct (lost (tl answers) ex); [done|].
    cbn [mbind option_bind left zip_with]. fold (left pids (observe (tl answers) ex)). by apply triple_eq; [done|lia..].
Qed.

(** The loop. *)
Lemma wait_watch pids sc deadline polls ex ts :
  Forall (λ x, 0 ≤ x ≤ 10) sc → Forall (λ p, 0 < p) pids → length pids = length ex →
  (length ex ≤ length sc)%nat → (length ex ≤ MAX_DEVICES)%nat →
  wait_loop (Z.of_nat (length pids)) deadline sc polls (left pids ex) (known ex sc) (exited ex) ts =
    match watch deadline polls ex ts with
    | LDone ex' => LDone (left pids ex', known ex' sc)
    | LError => LError
    | LWaiting => LWaiting
    end.
Proof.
  intros Hsc Hp Hl Hle Hm. revert ex ts Hl Hle Hm.
  induction polls as [|[answers ts'] polls IH]; intros ex ts Hl Hle Hm; cbn [wait_loop watch];
    rewrite waiting_exited, Hl; destruct (_ && _); try done.
  pose proof (known_bound ex sc Hsc). unfold MAX_DEVICES in Hm.
  rewrite poll_observe by (done || (unfold INT_MAX; lia)). destruct (lost answers ex); [done|].
  replace (known ex sc + (known (observe answers ex) sc - known ex sc)) with (known (observe answers ex) sc) by lia.
  replace (exited ex + (exited (observe answers ex) - exited ex)) with (exited (observe answers ex)) by lia.
  rewrite <-Hl. apply IH; by rewrite observe_length.
Qed.

Lemma watch_length deadline polls ex ts ex' :
  watch deadline polls ex ts = LDone ex' → length ex' = length ex.
Proof.
  revert ex ts. induction polls as [|[answers ts'] polls IH]; intros ex ts; cbn [watch];
    (destruct (_ && _); [|by intros [= <-]]); [done|].
  destruct (lost answers ex); [done|]. intros H. by rewrite (IH _ _ H), observe_length.
Qed.

(** The late devices. *)
Lemma add_left pids ex sc final :
  Forall (λ x, 0 ≤ x ≤ 10) sc → Forall (λ p, 0 < p) pids → length pids = length ex →
  0 ≤ final → final + 10 * Z.of_nat (length ex) ≤ INT_MAX →
  add_unfinished (left pids ex) sc final = final + (bad_score ex sc - known ex sc).
Proof.
  intros Hsc. revert pids ex final. induction Hsc as [|s sc Hs _ IH]; intros pids ex final Hp Hl H0 Hb.
  { destruct (left pids ex), ex; cbn; lia. }
  destruct ex as [|x ex], Hp as [|p pids Hp0 Hp]; try done; [cbn; lia|].
  cbn [length] in *. injection Hl as Hl. destruct x as [code|]; cbn [left zip_with add_unfinished bad_score known].
  - change (negb (0 =? 0)) with false. cbv iota. fold (left pids ex). rewrite IH by (done || lia).
    destruct (code =? 0) eqn:E; zbool.
    + subst code. rewrite decide_True by done. lia.
    + rewrite decide_False by congruence. lia.
  - rewrite (proj2 (Z.eqb_neq p 0)) by lia. cbn [negb]. fold (left pids ex).
    rewrite s32_small by (unfold INT_MAX in *; lia). rewrite IH by (done || lia).
    rewrite decide_False by done. lia.
Qed.

Lemma bad_score_bound ex sc :
  Forall (λ x, 0 ≤ x ≤ 10) sc → 0 ≤ bad_score ex sc ≤ 10 * Z.of_nat (length ex).
Proof.
  intros H. revert ex. induction H as [|x sc Hx _ IH]; intros [|y ex]; cbn [bad_score length]; try lia.
  specialize (IH ex). destruct (decide (y = Some 0)); lia.
Qed.

Lemma bad_score_zero ex sc :
  Forall (λ x, 1 ≤ x ≤ 10) sc → length ex = length sc →
  bad_score ex sc = 0 ↔ Forall (λ x, x = Some 0) ex.
Proof.
  intros H. revert ex. induction H as [|x sc Hx Hsc IH]; intros [|y ex] Hl; try done.
  injection Hl as Hl. cbn [bad_score]. rewrite list.Forall_cons, <-IH by done.
  assert (Hsc' : Forall (λ x, 0 ≤ x ≤ 10) sc) by (eapply Forall_impl; [|exact Hsc]; cbn; lia).
  pose proof (bad_score_bound ex sc Hsc'). destruct (decide (y = Some 0)); split; intros Hz; try lia.
  - split; [done|lia].
  - by destruct Hz.
Qed.

Lemma bad_score_app ex sc sc' : length ex = length sc → bad_score ex (sc ++ sc') = bad_score ex sc.
Proof.
  revert sc. induction ex as [|x ex IH]; intros [|s sc] Hl; try done.
  injection Hl as Hl. cbn [app bad_score]. by rewrite IH.
Qed.

(** The code against the reference definition. *)
Lemma test_device_once_watch c pids start polls :
  wf_smcfg c → length pids = device_count c → Forall (λ p, 0 < p) pids →
  test_device_once c pids start polls =
    match watch (start + timeout c) polls (replicate (device_count c) None) start with
    | LDone ex => LDone (bad_score ex (scores c))
    | LError => LError
    | LWaiting => LWaiting
    end.
Proof.
  intros Hc Hl Hp. pose proof (wf_devices _ Hc) as Hn. pose proof (wf_scores_range _ Hc) as Hsc.
  pose proof (wf_scores _ Hc) as Hls. unfold test_device_once, MAX_DEVICES in *.
  rewrite fork_loop_all by (done || rewrite length_replicate; unfold MAX_DEVICES; lia). cbn [fst].
  rewrite firstn_O. cbn [app]. rewrite <-Hl, take_app_length.
  set (ex0 := replicate (length pids) (None : option Z)).
  assert (Hl0 : length ex0 = length pids) by apply length_replicate.
  assert (Hleft : left pids ex0 = pids).
  { unfold ex0. clear. induction pids as [|p pids IH]; [done|]. cbn. by f_equal. }
  assert (Hk0 : known ex0 (scores c) = 0 ∧ exited ex0 = 0).
  { unfold ex0. clear. generalize (scores c). induction (length pids) as [|n IH]; intros [|s sc]; cbn; [done..|
      by split; [|apply (IH [])]|]. destruct (IH sc) as [-> ->]. done. }
  destruct Hk0 as [Hk0 He0].
  pose proof (wait_watch pids (scores c) (start + timeout c) polls ex0 start Hsc Hp (eq_sym Hl0)
                ltac:(lia) ltac:(unfold MAX_DEVICES; lia)) as Hw.
  rewrite Hleft, Hk0, He0 in Hw. rewrite Hw. destruct (watch _ _ _ _) as [ex| |] eqn:E; [|done..].
  pose proof (watch_length _ _ _ _ _ E) as Hle. pose proof (known_bound ex (scores c) Hsc).
  f_equal. rewrite add_left by (done || congruence || (unfold INT_MAX; lia)). lia.
Qed.

(** Every status is one [waitpid] reported. *)
Lemma watch_seen deadline polls ex ts ex' i code :
  watch deadline polls ex ts = LDone ex' → ex' !! i = Some (Some code) →
  ex !! i = Some (Some code) ∨
  ∃ poll, poll ∈ polls ∧ poll.1 !! i = Some (WChanged (Some code)).
Proof.
  assert (Hob : ∀ answers ex i, observe answers ex !! i = Some (Some code) →
            ex !! i = Some (Some code) ∨ answers !! i = Some (WChanged (Some code))).
  { intros answers ex0. revert answers. induction ex0 as [|x ex0 IH]; intros answers [|j]; cbn; try done.
    - destruct x as [code'|]; [by left|]. destruct answers as [|[| |[code'|]] answers]; cbn; try done.
      intros [= ->]. by right.
    - intros H. destruct (IH _ _ H) as [H'|H']; [by left|]. right. by destruct answers. }
  revert ex ts. induction polls as [|[answers ts'] polls IH]; intros ex ts; cbn [watch];
    (destruct (_ && _); [|by intros [= <-]; left]); [done|].
  destruct (lost answers ex); [done|]. intros Hw Hi. destruct (IH _ _ Hw Hi) as [H|(poll & H1 & H2)].
  - destruct (Hob _ _ _ H) as [H'|H']; [by left|]. right. exists (answers, ts'). split; [by left|done].
  - right. exists poll. split; [by right|done].
Qed.

(** A child that exits with 0 has read its device. *)
Lemma test_device_readable p inject : test_device p inject = Ret 0 → readable p.
Proof.
  unfold test_device, readable. destruct (open_direct p) eqn:Ed; [| |done].
  - destruct (blkgetsize64 p) as [size|]; [|done]. intros H. split; [by exists size|]. left. split; [done|].
    destruct (seek_spot _ _) as [spot| |]; try done. cbn [mbind outcome_bind] in H.
    destruct (s32 _ <? 0); [done|]. destruct (blksszget p) as [sec|]; [|done].
    destruct (memalign_ok p); [|done]. cbn [negb] in H. destruct (_ <? 0); [done|].
    destruct (_ <? sec) eqn:E; [done|]. zbool. by exists sec.
  - destruct (open_plain p) eqn:Ep; try done.
    destruct (blkgetsize64 p) as [size|]; [|done]. intros H. split; [by exists size|]. right. split; [done|]. split; [done|].
    destruct (seek_spot _ _) as [spot| |]; try done. cbn [mbind outcome_bind] in H.
    destruct (s32 _ <? 0); [done|]. destruct (_ <? 0); [done|].
    destruct (_ <? 512) eqn:E; [done|]. zbool. lia.
Qed.

(** The run of main that checks once. *)
Lemma main_once opts pidfile conn srs rrc msg pids start polls env o c :
  main_config opts pidfile = Ret (o, Some c) → o_daemonize o = false →
  length pids = device_count c → Forall (λ p, 0 < p) pids →
  storage_mon_main opts pidfile conn srs rrc msg pids start polls env =
    match watch (start + timeout c) polls (replicate (device_count c) None) start with
    | LDone ex => Ret (Some (bad_score ex (o_scores o)))
    | LError => Ret (Some 255)
    | LWaiting => Ret None
    end ∧
  length (o_scores o) = device_count c ∧ Forall (λ x, 1 ≤ x ≤ 10) (o_scores o) ∧
  (device_count c ≤ MAX_DEVICES)%nat.
Proof.
  intros Hm Hd Hl Hp. destruct (main_config_sound _ _ _ _ Hm) as (_ & Hc & _ & Hts & Hls & Hrange).
  pose proof (wf_devices _ Hc) as [_ Hn]. split; [|split; [done|split; [done|exact Hn]]].
  unfold storage_mon_main. rewrite Hm. cbn [mbind outcome_bind]. rewrite Hd.
  rewrite test_device_once_watch by done. destruct (watch _ _ _ _) as [ex| |] eqn:E; [|done..].
  assert (Hsc : Forall (λ x, 0 ≤ x ≤ 10) (o_scores o)) by (eapply Forall_impl; [|exact Hrange]; cbn; lia).
  pose proof (watch_length _ _ _ _ _ E) as Hle. rewrite length_replicate in Hle.
  pose proof (bad_score_bound ex (o_scores o) Hsc). unfold MAX_DEVICES in Hn.
  rewrite <-(take_drop (device_count c) (scores c)), Hts, bad_score_app by congruence.
  rewrite Z.mod_small by lia. done.
Qed.

(** *** A round of the daemon *)

(** The score of a round that lists the devices' scores without the padding. *)
Lemma score_of_zero f pids sc :
  Forall (λ x, 1 ≤ x) (take (length pids) sc) → (length pids ≤ length sc)%nat →
  Forall (λ p, 0 < p) pids → Forall (λ x, 0 ≤ x ≤ 10) sc →
  score_of f pids sc = 0 → ∀ p, p ∈ pids → f p = false.
Proof.
  revert sc. induction pids as [|q pids IH]; intros [|x sc] H1 Hl Hp Hsc H0 p Hin;
    try (by apply elem_of_nil in Hin); [cbn in Hl; lia|].
  cbn [length take score_of] in *. apply Forall_cons_1 in H1 as [Hx H1]. apply Forall_cons_1 in Hp as [Hq Hp].
  apply Forall_cons_1 in Hsc as [_ Hsc]. pose proof (score_of_bounds f pids sc Hsc).
  rewrite (proj2 (Z.ltb_lt 0 q)) in H0 by done. cbn [andb] in H0.
  apply elem_of_cons in Hin as [->|Hin]; destruct (f q) eqn:Ef; [lia|done|lia|].
  eapply (IH sc); try done; lia.
Qed.

(** A device that has not failed has exited with 0. *)
Lemma not_failed l p : failed l p = false → p ∈ exits l → RExit p 0 ∈ l.
Proof.
  induction l as [|[q code|] l IH]; intros Hf Hin; [by apply elem_of_nil in Hin| |done].
  cbn [failed] in Hf. change (exits (RExit q code :: l)) with (q :: exits l) in Hin.
  destruct (q =? p) eqn:E; zbool.
  - subst q code. by left.
  - apply elem_of_cons in Hin as [->|Hin]; [done|]. right. by apply IH.
Qed.

(** The client after a round in which every child has exited. *)
Lemma client_after_round c pids l s srs rrc padding :
  wf_smcfg c → length pids = device_count c → Forall (λ p, 0 < p) pids → NoDup pids →
  shutting_down s = false → is_child_runnning c s = false →
  NoDup (exits l) → (∀ p, p ∈ exits l → p ∈ pids) → (expiries l ≤ 1)%nat →
  length (exits l) = length pids → 0 < srs → 0 ≤ rrc →
  ∃ s' cmds, run_events c (EvTimer true pids :: round_events false l) s = Ret (s', cmds) ∧
    is_child_runnning c s' = false ∧
    storage_mon_client true srs rrc (storage_mon_ipcs_msg_process_fn s' SMON_GET_RESULT_COMMAND ++ padding) =
      score_of (failed l) pids (scores c) ∧
    0 ≤ score_of (failed l) pids (scores c) ≤ 250.
Proof.
  intros Hc Hl Hp Hnd Hsd Hrun Hex Hsub Hone Hall Hs Hr.
  destruct (round_score c pids l s) as (s' & Hev & Hf & Hdone); [done..|].
  destruct (Hdone Hall) as [Hsend Hidle]. eexists s', _. split; [exact Hev|]. split; [done|].
  pose proof (score_of_max (failed l) pids (scores c) (wf_scores_range _ Hc)).
  pose proof (score_of_bounds (failed l) pids (scores c) (wf_scores_range _ Hc)).
  pose proof (wf_devices _ Hc) as Hn. unfold MAX_DEVICES in Hn. split; [|lia].
  unfold send_score in Hsend. change (strcmp SMON_GET_RESULT_COMMAND SMON_GET_RESULT_COMMAND =? 0) with true in Hsend.
  cbn [negb] in Hsend. destruct (daemon_check_first_all_devices s') eqn:Ed; cbn [negb] in Hsend; [|lia].
  rewrite client_reads_score by (unfold INT_MAX; lia).
  change (strcmp SMON_GET_RESULT_COMMAND SMON_GET_RESULT_COMMAND =? 0) with true. cbn [negb].
  rewrite Ed. lia.
Qed.

(** ** Properties *)


(** [C25] What status 0 means: when the statuses [waitpid] reports are those of
    children that ran [test_device], and the program exits with 0, then a whole
    sector was read from every device. *)
Theorem zero_means_readable opts pidfile conn srs rrc msg pids start polls env o c probes :
  main_config opts pidfile = Ret (o, Some c) → o_daemonize o = false →
  length pids = device_count c → Forall (λ p, 0 < p) pids →
  length probes = device_count c → from_children c probes polls →
  storage_mon_main opts pidfile conn srs rrc msg pids start polls env = Ret (Some 0) →
  Forall readable probes.
Proof.
  intros Hm Hd Hl Hp Hpl Hfrom.
  destruct (main_once opts pidfile conn srs rrc msg pids start polls env o c Hm Hd Hl Hp) as (-> & Hls & Hrange & _).
  destruct (watch _ _ _ _) as [ex| |] eqn:E; [|done..]. intros [= Hz].
  pose proof (watch_length _ _ _ _ _ E) as Hle. rewrite length_replicate in Hle.
  apply bad_score_zero in Hz; [|done|congruence]. apply Forall_lookup. intros i p Hi.
  assert (Hlt : (i < length ex)%nat) by (rewrite Hle, <-Hpl; by eapply lookup_lt_Some).
  destruct (lookup_lt_is_Some_2 ex i Hlt) as [x Hx].
  pose proof (proj1 (Forall_lookup _ _) Hz i x Hx) as ->.
  destruct (watch_seen _ _ _ _ _ _ _ E Hx) as [H|(poll & Hin & H)].
  - apply lookup_replicate in H as [? _]. done.
  - destruct (Hfrom poll i 0 Hin H) as (p' & Hp' & Ht). rewrite Hi in Hp'. injection Hp' as <-.
    by eapply test_device_readable.
Qed.

(** [C23] A round of the daemon as a client sees it: from an idle daemon, when
    every child has exited, in whatever order and with the timeout at any point,
    the daemon is idle again, and the client that asks it exits with the sum of
    the scores of the devices that failed (by a status other than 0 before the
    timeout, or by no status before it), which is at most 250.  If that is 0,
    and the statuses are those of children that ran [test_device], a whole
    sector was read from every device in that round. *)
Theorem client_reads_round c pids l s srs rrc padding :
  wf_smcfg c → Forall (λ x, 1 ≤ x) (take (device_count c) (scores c)) →
  length pids = device_count c → Forall (λ p, 0 < p) pids → NoDup pids →
  shutting_down s = false → is_child_runnning c s = false →
  NoDup (exits l) → (∀ p, p ∈ exits l → p ∈ pids) → (expiries l ≤ 1)%nat →
  length (exits l) = length pids → 0 < srs → 0 ≤ rrc →
  ∃ s' cmds, run_events c (EvTimer true pids :: round_events false l) s = Ret (s', cmds) ∧
    is_child_runnning c s' = false ∧
    let status := storage_mon_client true srs rrc
                    (storage_mon_ipcs_msg_process_fn s' SMON_GET_RESULT_COMMAND ++ padding) in
    status = score_of (failed l) pids (scores c) ∧ 0 ≤ status ≤ 250 ∧
    (status = 0 → ∀ probes,
       Forall2 (λ pid p, ∀ code, RExit pid code ∈ l → test_device p (inject_error_percent c) = Ret code)
         pids probes →
       Forall readable probes).
Proof.
  intros Hc H1 Hl Hp Hnd Hsd Hrun Hex Hsub Hone Hall Hs Hr.
  destruct (client_after_round c pids l s srs rrc padding) as (s' & cmds & Hev & Hidle & Hcl & Hb); [done..|].
  exists s', cmds. split; [done|]. split; [done|]. cbv zeta. rewrite Hcl. split; [done|]. split; [done|].
  intros H0 probes Hpr. pose proof (wf_devices _ Hc) as Hn. rewrite <-Hl in H1.
  apply Forall_lookup. intros i p Hi. destruct (Forall2_lookup_r _ _ _ _ _ Hpr Hi) as (pid & Hpid & Hcode).
  apply list_elem_of_lookup_2 in Hpid. apply (test_device_readable p (inject_error_percent c)), Hcode.
  apply not_failed.
  - eapply (score_of_zero _ pids (scores c)); try done; [rewrite (wf_scores _ Hc); lia|apply Hc].
  - assert (Hperm : exits l ≡ₚ pids) by (apply submseteq_length_Permutation; [by apply NoDup_submseteq|lia]).
    by rewrite Hperm.
Qed.

(** ** Concrete runs *)

(** A device of 1 GiB with sectors of 512 bytes, and one that is gone. *)
Definition good_probe : probe :=
  Probe OpenOk OpenOk (Some 1073741824) 7 (λ off, off) (Some 512) true (λ n, n) 0 true.
Definition gone_probe : probe :=
  Probe OpenErr OpenErr None 0 (λ _, -1) None true (λ _, -1) 0 true.

Definition two_options : list (Z * list Z * list Z) :=
  [(100, [], str "/dev/sda"); (100, [], str "/dev/sdb"); (115, [], str "5"); (115, [], str "10")].

Definition no_env : daemon_env := DaemonEnv false (λ _, false) false 0 0 [] false 0 [].

Lemma two_options_config :
  ∃ o c, main_config two_options [] = Ret (o, Some c) ∧ o_daemonize o = false ∧ device_count c = 2%nat ∧
         timeout c = 10 ∧ inject_error_percent c = 0 ∧ o_scores o = [5; 10].
Proof. eexists _, _. split; [vm_compute; reflexivity|]. repeat split. Defined.

(** The first device answers after the second poll, the other fails. *)
Definition mixed_polls : list (list wait_res * Z) :=
  [([WNone; WChanged None], 1000); ([WChanged (Some 0); WChanged (Some 255)], 1001)].
Definition good_polls : list (list wait_res * Z) :=
  [([WNone; WChanged (Some 0)], 1000); ([WChanged (Some 0); WNone], 1001)].


Lemma zero_means_readable_witness : Forall readable [good_probe; good_probe].
Proof.
  destruct two_options_config as (o & c & Hm & Hd & Hn & Ht & Hi & Hs).
  apply (zero_means_readable two_options [] false 0 0 [] [101; 102] 1000 good_polls no_env o c
           [good_probe; good_probe] Hm Hd).
  - rewrite Hn. reflexivity.
  - repeat constructor.
  - rewrite Hn. reflexivity.
  - intros poll i code Hp Hpi. rewrite Hi. exists good_probe.
    apply elem_of_cons in Hp as [->|[->|Hp%elem_of_nil]%elem_of_cons]; [..|done];
      destruct i as [|[|i]]; cbn in Hpi; try done; injection Hpi as <-; split; reflexivity.
  - vm_compute. reflexivity.
Defined.

(** Both children have read their device before the timeout. *)
Lemma client_reads_round_witness :
  ∃ s' cmds, run_events two_devices
      (EvTimer true [101; 102] :: round_events false [RExit 102 0; RExit 101 0; RExpire]) smon_init = Ret (s', cmds) ∧
    storage_mon_client true 24 128
      (storage_mon_ipcs_msg_process_fn s' SMON_GET_RESULT_COMMAND ++ replicate 100 0) = 0 ∧
    Forall readable [good_probe; good_probe].
Proof.
  destruct (client_reads_round two_devices [101; 102] [RExit 102 0; RExit 101 0; RExpire] smon_init 24 128
              (replicate 100 0)) as (s' & cmds & Hev & _ & Hst & _ & Hz).
  - apply two_devices_wf.
  - repeat constructor; discriminate.
  - reflexivity.
  - repeat constructor.
  - by apply nodup_two.
  - reflexivity.
  - reflexivity.
  - by apply nodup_two.
  - cbn. set_solver.
  - cbn. lia.
  - reflexivity.
  - lia.
  - lia.
  - exists s', cmds. split; [exact Hev|]. split; [exact Hst|]. apply Hz; [exact Hst|].
    constructor; [|constructor; [|constructor]]; intros code Hin;
      repeat (apply elem_of_cons in Hin as [Hin|Hin]); try (by apply elem_of_nil in Hin);
      try discriminate Hin; injection Hin as ->; reflexivity.
Defined.
