(* ===== verification/PidFile.v ===== *)
(** * The PID file that allows one instance per address
    (heartbeat/IPv6addr.c, tools/send_arp.libnet.c)

    Both programs contain the same loop: create the file exclusively, or read
    the process it names, remove it, kill that process and try again. *)

From S2P Require Import Prelude CString.
#[local] Open Scope Z_scope.

(** ** Definitions *)

(** [stat] of the directory of the file. *)
Inductive stat_res : Type :=
| StatDir
| StatNotDir
| StatNone        (* ENOENT or ENOTDIR *)
| StatErr.

(** One turn of the outer loop: what [open] with O_EXCL gives (the file is
    created, exists, or an error), and, for an old file, whether it opens, the
    first 10 bytes read (after EINTR), whether it is unlinked, and whether
    [kill] succeeds or there is no such process. *)
Inductive excl_res : Type := Created | Exists | ExclErr.
Record pid_turn : Type := PidTurn {
  pt_excl : excl_res;
  pt_open : bool;
  pt_read : option (list Z);
  pt_unlink : bool;
  pt_kill : bool }.

(** The process the loop kills for a text: [kill((pid_t) strtoul(...))]. *)
Definition kill_target (pidbuf : list Z) : option Z :=
  let '(pid, _, erange) := strtoul 10 (cstr pidbuf) in
  if (pid =? ULONG_MAX) && erange then None else Some (s32 pid).

(** Whether the file was created ([None] while the loop runs), and the
    arguments of [kill(_, SIGKILL)]. *)
Fixpoint pid_loop (turns : list pid_turn) : option bool * list Z :=
  match turns with
  | [] => (None, [])
  | t :: turns' =>
      match pt_excl t with
      | Created => (Some true, [])
      | ExclErr => (Some false, [])
      | Exists =>
          if negb (pt_open t) then (Some false, [])
          else match pt_read t with
          | None => (Some false, [])
          | Some text =>
              if negb (pt_unlink t) then (Some false, [])
              else match take 10 text with
              | [] => (Some false, [])
              | bytes =>
                  match kill_target bytes with
                  | None => (Some false, [])
                  | Some pid =>
                      if negb (pt_kill t) then (Some false, [pid])
                      else let '(r, kills) := pid_loop turns' in (r, pid :: kills)
                  end
              end
          end
      end
  end.

(** ** Lemmas *)

Lemma kill_target_dec pid rest :
  0 < pid ≤ INT_MAX → (match rest with x :: _ => digit_of 10 x = None | [] => True end) →
  Forall (λ x, x ≠ 0) rest → kill_target (dec_u pid ++ rest) = Some pid.
Proof.
  unfold INT_MAX. intros Hp Hr Hnz. unfold kill_target, strtoul.
  assert (Hc : cstr (dec_u pid ++ rest) = dec_u pid ++ rest).
  { apply cstr_nonzero_all. apply Forall_app. split; [|done].
    eapply Forall_impl; [|exact (dec_u_text pid ltac:(lia))]. cbn. lia. }
  rewrite Hc, scan_number_dec_u by (done || lia). unfold ULONG_MAX. ztest. cbn [andb].
  by rewrite s32_small by (unfold INT_MAX; lia).
Qed.

(** ** Properties *)

(** The process killed for a stale PID file: the PID an earlier instance
    wrote is killed, whatever non-digit follows; but the text is not validated,
    and one without a number makes the agent kill its own process group (0),
    a "-1" every process it may signal. *)
Theorem pid_file_kill_target pid rest text :
  0 < pid ≤ INT_MAX → (match rest with x :: _ => digit_of 10 x = None | [] => True end) →
  Forall (λ x, x ≠ 0) rest → scan_number 10 (cstr text) = None →
  kill_target (dec_u pid ++ rest) = Some pid ∧
  kill_target text = Some 0 ∧
  kill_target (str "-1") = Some (-1).
Proof.
  intros Hp Hr Hnz Hnone. split_and!.
  - by apply kill_target_dec.
  - unfold kill_target, strtoul. by rewrite Hnone.
  - reflexivity.
Qed.

Lemma pid_file_kill_target_witness :
  kill_target (dec_u 4242 ++ []) = Some 4242 ∧ kill_target (str "none") = Some 0 ∧
  kill_target (str "-1") = Some (-1).
Proof.
  apply (pid_file_kill_target 4242 [] (str "none")).
  - unfold INT_MAX. lia.
  - done.
  - apply Forall_nil_2.
  - vm_compute. reflexivity.
Defined.
