(* ===== verification/IPv6Addr.v ===== *)
(** * IPv6addr and send_ua: managing an IPv6 address
    (heartbeat/IPv6addr.c, IPv6addr_utils.c, send_ua.c, include/IPv6addr.h)

    The agent reads the kernel's table of addresses as text, chooses an
    interface by prefix, and asks the kernel to add or remove the address.
    The kernel is a type class: [Kernel] has the system calls the code makes,
    [LawfulKernel] states what they are documented to do to the table.  The
    routines are programs in the state monad over any kernel; the theorems
    about sequences of actions hold for every lawful one.  A kernel that
    prints its list of addresses is an instance. *)

From S2P Require Import Prelude CString Inet PidFile.
#[local] Open Scope Z_scope.

(** ** Definitions *)

Definition OCF_SUCCESS : Z := 0.
Definition OCF_ERR_GENERIC : Z := 1.
Definition OCF_ERR_ARGS : Z := 2.
Definition OCF_ERR_UNIMPLEMENTED : Z := 3.
Definition OCF_NOT_RUNNING : Z := 7.
Definition QUERY_COUNT : nat := 5.
Definition UA_REPEAT_COUNT : nat := 5.
Definition HWADDR_LEN : nat := 6.
Definition MINPACKSIZE : nat := 64.
Definition BCAST_ADDR : list Z := str "ff02::1".
Definition IFNAMSIZ : nat := 16.

(** *** fscanf of /proc/net/if_inet6 *)

(** At most [n] digits. *)
Fixpoint span_digits_n (n : nat) (base : Z) (l : list Z) : list Z * list Z :=
  match n, l with
  | S n', c :: l' =>
      match digit_of base c with
      | Some d => let '(ds, r) := span_digits_n n' base l' in (d :: ds, r)
      | None => ([], l)
      end
  | _, _ => ([], l)
  end.

(** The [0x] glibc accepts; its [0] counts as a digit. *)
Definition skip_0x_n (width : nat) (l : list Z) : list Z * nat * list Z :=
  match l with
  | c :: x :: l' =>
      if (2 <=? width)%nat && (c =? 48) && ((x =? 120) || (x =? 88))
      then ([0], (width - 2)%nat, l') else ([], width, l)
  | _ => ([], width, l)
  end.

(** [%<width>x] into an [unsigned int]: [None] is the end of the file or text
    that is not a number; the rest of the file comes with the value. *)
Definition scan_x (width : nat) (l : list Z) : option (Z * list Z) :=
  let l1 := skip_spaces l in
  let '(neg, l2) := scan_sign l1 in
  let w := (width - (length l1 - length l2))%nat in
  let '(zero, w, l3) := skip_0x_n w l2 in
  let '(ds, r) := span_digits_n w 16 l3 in
  match zero ++ ds with
  | [] => None
  | ds =>
      let v := digits_val 16 ds in
      Some (u32 (if ULONG_MAX <? v then ULONG_MAX else if neg then - v else v), r)
  end.

Fixpoint span_word (n : nat) (l : list Z) : list Z * list Z :=
  match n, l with
  | S n', c :: l' =>
      if isspace c then ([], l) else let '(w, r) := span_word n' l' in (c :: w, r)
  | _, _ => ([], l)
  end.

(** [%<width>s] *)
Definition scan_s (width : nat) (l : list Z) : option (list Z * list Z) :=
  match span_word width (skip_spaces l) with
  | ([], _) => None
  | (w, r) => Some (w, r)
  end.

(** An entry: the address as four words in host order. *)
Record inet6 : Type := Inet6 {
  i6_addr : list Z;
  i6_idx : Z;
  i6_plen : Z;
  i6_scope : Z;
  i6_dad : Z;
  i6_name : list Z }.

(** One [fscanf]; fewer than nine conversions, or none, end the loop. *)
Definition scan_entry (l : list Z) : option (inet6 * list Z) :=
  '(a0, l) ← scan_x 8 l;
  '(a1, l) ← scan_x 8 l;
  '(a2, l) ← scan_x 8 l;
  '(a3, l) ← scan_x 8 l;
  '(if_idx, l) ← scan_x (length l) l;
  '(plen, l) ← scan_x 2 l;
  '(scope, l) ← scan_x 2 l;
  '(dad_status, l) ← scan_x 2 l;
  '(devname, l) ← scan_s 20 l;
  Some (Inet6 [a0; a1; a2; a3] if_idx plen scope dad_status devname, skip_spaces l).

(** *** Choosing an entry *)

(** An [in6_addr] is its 16 bytes; [s6_addr32] reads them as four words in the
    byte order of the machine (little endian). *)
Definition s6_addr32 (bytes : list Z) : list Z :=
  (λ i, le_combine (take 4 (drop (4 * i) bytes))) <$> [0; 1; 2; 3]%nat.

(** [prov_ifname] when the variable is set. *)
Definition given (prov_ifname : option (list Z)) : option (list Z) :=
  match prov_ifname with
  | Some s => if hd 0 s =? 0 then None else Some s
  | None => None
  end.

(** The three [continue]s. *)
Definition skipped (e : inet6) (plen_target : Z) (prov_ifname : option (list Z)) : bool :=
  (negb (i6_scope e =? 0)
   && (negb (i6_scope e =? 32) || match given prov_ifname with None => true | _ => false end))
  || (negb (plen_target =? 0) && negb (i6_plen e =? u32 plen_target))
  || match given prov_ifname with
     | Some s => negb (strcmp (i6_name e) s =? 0)
     | None => false
     end.

(** The mask, in network order. *)
Definition make_mask (use_mask : bool) (plen : Z) : list Z :=
  let mask := replicate 4 4294967295 in
  if use_mask && (plen <? 128) then
    let n := Z.to_nat (plen / 32) in
    let mask := take (n + 1) mask ++ replicate (3 - n) 0 in
    let s := 32 - plen mod 32 in
    let m := if s =? 32 then 0 else u32 (Z.shiftl 4294967295 s) in
    <[n := htonl m]> mask
  else mask.

Definition same_addr (addr mask target : list Z) : bool :=
  forallb (λ i, Z.land (nth i addr 0) (nth i mask 0) =? Z.land (nth i target 0) (nth i mask 0))
          [0; 1; 2; 3]%nat.

Definition entry_matches (use_mask : bool) (e : inet6) (addr_target : list Z) : bool :=
  same_addr (htonl <$> i6_addr e) (make_mask use_mask (i6_plen e)) (s6_addr32 addr_target).

(** The loop of [scan_if]: the name and the prefix length it stores.  Every
    entry takes a byte at least, so the length of the file is enough fuel. *)
Fixpoint scan_loop (fuel : nat) (file addr_target : list Z) (plen_target : Z) (use_mask : bool)
    (prov_ifname : option (list Z)) : option (list Z * Z) :=
  match fuel with
  | O => None
  | S f =>
      match scan_entry file with
      | None => None
      | Some (e, rest) =>
          if skipped e plen_target prov_ifname
          then scan_loop f rest addr_target plen_target use_mask prov_ifname
          else if entry_matches use_mask e addr_target then Some (i6_name e, i6_plen e)
          else scan_loop f rest addr_target plen_target use_mask prov_ifname
      end
  end.

Definition scan_if (if_inet6 : option (list Z)) (addr_target : list Z) (plen_target : Z)
    (use_mask : bool) (prov_ifname : option (list Z)) : option (list Z * Z) :=
  file ← if_inet6;
  scan_loop (S (length file)) file addr_target plen_target use_mask prov_ifname.

Definition find_if (if_inet6 : option (list Z)) (addr_target : list Z) (plen_target : Z)
    (prov_ifname : option (list Z)) : option (list Z * Z) :=
  match scan_if if_inet6 addr_target plen_target true prov_ifname, given prov_ifname with
  | None, Some s => if negb (plen_target =? 0) then Some (cstr s, plen_target) else None
  | best, _ => best
  end.

Definition get_if (if_inet6 : option (list Z)) (addr_target : list Z) (plen_target : Z)
    (prov_ifname : option (list Z)) : option (list Z * Z) :=
  scan_if if_inet6 addr_target plen_target false prov_ifname.

(** *** The kernel *)

(** Answers to one query for an address: a round is the results of [poll] and
    of [recvmsg], and whether errno is EAGAIN, EWOULDBLOCK or EINTR. *)
Record ping : Type := Ping {
  pg_socket : bool;
  pg_sendto : Z;
  pg_rounds : list (Z * Z * bool) }.

(** Answers to one advertisement: [socket], [if_nametoindex], the two
    [setsockopt]s, [bind] for a scope id, SIOCGIFHWADDR for a name (the 14
    bytes of [sa_data]), [memalign] and [sendto]. *)
Record ua_env : Type := UaEnv {
  ua_socket : bool;
  ua_ifindex : Z;
  ua_multicast_if : bool;
  ua_multicast_hops : bool;
  ua_bind : Z → bool;
  ua_hwaddr : list Z → option (list Z);
  ua_memalign : bool;
  ua_sendto : Z }.

(** The system calls, on a state of the kernel. *)
Class Kernel (K : Type) : Type := {
  k_if_inet6 : K → option (list Z);        (* IF_INET6, [None] if it cannot be opened *)
  k_socket : K → bool;                     (* a datagram socket can be had *)
  k_ifindex : K → list Z → option Z;       (* SIOCGIFINDEX *)
  k_setaddr : K → list Z → Z → Z → option K;  (* SIOCSIFADDR: address, prefix, index *)
  k_deladdr : K → list Z → Z → Z → option K;  (* SIOCDIFADDR *)
  k_ping : K → list Z → ping * K;
  k_ua : K → list Z → ua_env;
  k_send : K → list Z → list Z → K;        (* a packet leaves: destination, payload *)
  k_sleep : K → K }.

(** *** send_ua *)

Definition in6_is_addr_linklocal (a : list Z) : bool :=
  (nth 0 a 0 =? 254) && (Z.land (nth 1 a 0) 192 =? 128).
Definition in6_is_addr_mc_linklocal (a : list Z) : bool :=
  (nth 0 a 0 =? 255) && (Z.land (nth 1 a 0) 15 =? 2).

Definition ND_NEIGHBOR_ADVERT : Z := 136.
Definition ND_OPT_TARGET_LINKADDR : Z := 2.

(** The payload: [nd_neighbor_advert] (24 bytes; the flag word holds
    ND_NA_FLAG_OVERRIDE), the option header and the hardware address. *)
Definition na_payload (src_ip sa_data : list Z) : option (list Z) :=
  p ← poke 0 [ND_NEIGHBOR_ADVERT; 0; 0; 0] (replicate (24 + 2 + HWADDR_LEN) 0);
  p ← poke 4 [32; 0; 0; 0] p;
  p ← poke 8 src_ip p;
  p ← poke 24 [ND_OPT_TARGET_LINKADDR; 1] p;
  mac ← peek 0 HWADDR_LEN sa_data;
  poke 26 mac p.

(** The status, and the packet given to [sendto]. *)
Definition ua_run (env : ua_env) (src_ip if_name : list Z) : outcome (Z * option (list Z * list Z)) :=
  if negb (ua_socket env) then Ret (-1, None)
  else if negb (ua_multicast_if env) then Ret (-1, None)
  else if negb (ua_multicast_hops env) then Ret (-1, None)
  else
    let scope_id := if in6_is_addr_linklocal src_ip || in6_is_addr_mc_linklocal src_ip
                    then ua_ifindex env else 0 in
    if negb (ua_bind env scope_id) then Ret (-1, None)
    else match ua_hwaddr env (take (IFNAMSIZ - 1) (cstr if_name)) with
    | None => Ret (-1, None)
    | Some sa_data =>
        if negb (ua_memalign env) then Ret (-1, None)
        else match na_payload src_ip sa_data, inet_pton6 BCAST_ADDR with
        | Some payload, Some dst =>
            Ret ((if ua_sendto env =? Z.of_nat (length payload) then 0 else -1),
                 Some (dst, payload))
        | _, _ => Fault
        end
    end.

Section actions.
Context {K : Type} `{Kernel K}.

Definition send_ua (src_ip if_name : list Z) : M K Z :=
  env ← mgets (λ k, k_ua k if_name);
  match ua_run env src_ip if_name with
  | Ret (status, Some (dst, payload)) => mmodify (λ k, k_send k dst payload);; mret status
  | Ret (status, None) => mret status
  | Exited c => mexit c
  | Fault => mfault
  end.

(** The advertisement loops. *)
Fixpoint send_uas (n : nat) (src_ip if_name : list Z) : M K unit :=
  match n with
  | O => mret tt
  | S n' => send_ua src_ip if_name;; mmodify k_sleep;; send_uas n' src_ip if_name
  end.

(** *** Adding and removing an address *)

(** [strcpy] of a name into [ifr_name]. *)
Definition with_ifr_name {A} (if_name : list Z) (m : M K A) : M K A :=
  if (length (cstr if_name) <? IFNAMSIZ)%nat then m else mfault.

Definition assign_addr6 (addr6 : list Z) (prefix_len : Z) (if_name : list Z) : M K Z :=
  fd ← mgets k_socket;
  if negb fd then mret 1
  else with_ifr_name if_name (
    idx ← mgets (λ k, k_ifindex k (cstr if_name));
    match idx with
    | None => mret (-1)
    | Some ifr_ifindex =>
        r ← mgets (λ k, k_setaddr k addr6 (u32 prefix_len) ifr_ifindex);
        match r with
        | None => mret (-1)
        | Some k => mmodify (λ _, k);; mret 0
        end
    end).

Definition unassign_addr6 (addr6 : list Z) (prefix_len : Z) (if_name : list Z) : M K Z :=
  fd ← mgets k_socket;
  if negb fd then mret 1
  else with_ifr_name if_name (
    idx ← mgets (λ k, k_ifindex k (cstr if_name));
    match idx with
    | None => mret (-1)
    | Some ifr_ifindex =>
        r ← mgets (λ k, k_deladdr k addr6 (u32 prefix_len) ifr_ifindex);
        match r with
        | None => mret (-1)
        | Some k => mmodify (λ _, k);; mret 0
        end
    end).

(** *** Is the address reachable *)

Fixpoint ping_rounds (n : nat) (rounds : list (Z * Z * bool)) : Z :=
  match n with
  | O => -1
  | S n' =>
      let '(poll, recv, again) := hd (0, 0, false) rounds in
      if poll <? 1 then ping_rounds n' (tl rounds)
      else if 0 <? recv then 0
      else if recv =? 0 then -1
      else if negb again then -1
      else ping_rounds n' (tl rounds)
  end.

Definition is_addr6_available (addr6 : list Z) : M K Z :=
  λ k, let '(p, k) := k_ping k addr6 in
       (Ret (if negb (pg_socket p) then -1
             else if pg_sendto p <=? 0 then -1
             else ping_rounds 3 (pg_rounds p)), k).

(** The query loop of [start_addr6]: whether it was left by [break]. *)
Fixpoint query_loop (n : nat) (addr6 : list Z) : M K bool :=
  match n with
  | O => mret false
  | S n' =>
      rc ← is_addr6_available addr6;
      if rc =? 0 then mret true else mmodify k_sleep;; query_loop n' addr6
  end.

(** *** The actions *)

Definition status_addr6 (addr6 : list Z) (prefix_len : Z) (prov_ifname : option (list Z)) : M K Z :=
  if_name ← mgets (λ k, get_if (k_if_inet6 k) addr6 prefix_len prov_ifname);
  match if_name with
  | None => mret OCF_NOT_RUNNING
  | Some _ => mret OCF_SUCCESS
  end.

Definition start_addr6 (addr6 : list Z) (prefix_len : Z) (prov_ifname : option (list Z)) : M K Z :=
  st ← status_addr6 addr6 prefix_len prov_ifname;
  if st =? OCF_SUCCESS then mret OCF_SUCCESS
  else
    found ← mgets (λ k, find_if (k_if_inet6 k) addr6 prefix_len prov_ifname);
    match found with
    | None => mret OCF_ERR_GENERIC
    | Some (if_name, prefix_len) =>
        rc ← assign_addr6 addr6 prefix_len if_name;
        if negb (rc =? 0) then mret OCF_ERR_GENERIC
        else
          ok ← query_loop QUERY_COUNT addr6;
          if negb ok then mret OCF_ERR_GENERIC
          else send_uas UA_REPEAT_COUNT addr6 if_name;; mret OCF_SUCCESS
    end.

Definition advt_addr6 (addr6 : list Z) (prefix_len : Z) (prov_ifname : option (list Z)) : M K Z :=
  found ← mgets (λ k, get_if (k_if_inet6 k) addr6 prefix_len prov_ifname);
  match found with
  | None => mret OCF_ERR_GENERIC
  | Some (if_name, _) => send_uas UA_REPEAT_COUNT addr6 if_name;; mret OCF_SUCCESS
  end.

Definition stop_addr6 (addr6 : list Z) (prefix_len : Z) (prov_ifname : option (list Z)) : M K Z :=
  st ← status_addr6 addr6 prefix_len prov_ifname;
  if st =? OCF_NOT_RUNNING then mret OCF_SUCCESS
  else
    found ← mgets (λ k, get_if (k_if_inet6 k) addr6 prefix_len prov_ifname);
    match found with
    | None => mret OCF_ERR_GENERIC
    | Some (if_name, prefix_len) =>
        rc ← unassign_addr6 addr6 prefix_len if_name;
        if negb (rc =? 0) then mret OCF_ERR_GENERIC else mret OCF_SUCCESS
    end.

Definition monitor_addr6 (addr6 : list Z) (prefix_len : Z) : M K Z :=
  rc ← is_addr6_available addr6;
  if rc =? 0 then mret OCF_SUCCESS else mret OCF_NOT_RUNNING.

End actions.

(** *** The PID file *)

Definition create_pid_directory (stat : stat_res) (mkdir_ok : bool) : Z :=
  match stat with
  | StatErr => -1
  | StatDir => 0
  | StatNotDir => -1
  | StatNone => if mkdir_ok then 0 else -1
  end.

(** [written] is the result of [write] (after EINTR).  The result, the kills,
    and what the new file holds. *)
Definition write_pid_file (pid_file : list Z) (stat : stat_res) (mkdir_ok : bool)
    (turns : list pid_turn) (getpid written : Z) : option Z * list Z * list Z :=
  if negb (hd 0 pid_file =? 47) then (Some (-1), [], [])
  else if create_pid_directory stat mkdir_ok <? 0 then (Some (-1), [], [])
  else match pid_loop turns with
  | (None, kills) => (None, kills, [])
  | (Some false, kills) => (Some (-1), kills, [])
  | (Some true, kills) =>
      let text := dec_u getpid in
      if (11 <=? length text)%nat then (Some (-1), kills, [])
      else if negb (written =? Z.of_nat (length text)) then (Some (-1), kills, take (Z.to_nat written) text)
      else (Some 0, kills, text)
  end.

(** *** main *)

(** The environment of the process: the three variables, access to IF_INET6,
    the directory HA_RSCTMPDIR the build sets, the result of the PID file. *)
Record agent_env : Type := AgentEnv {
  OCF_RESKEY_ipv6addr : option (list Z);
  OCF_RESKEY_cidr_netmask : option (list Z);
  OCF_RESKEY_nic : option (list Z);
  signals_ok : bool;
  if_inet6_readable : bool;
  HA_RSCTMPDIR : list Z;
  pid_file_rc : list Z → Z }.

(** The prefix length, [None] if one is invalid: the legacy [addr/len], an
    [int], is overridden by the netmask, a [long]. *)
Definition choose_prefix (ipv6addr : list Z) (cidr_netmask : option (list Z)) : option Z :=
  legacy ← match strchr (cstr ipv6addr) 47 with
           | Some cp => let p := s32 (atol (tl cp)) in
                        if (p <? 0) || (128 <? p) then None else Some p
           | None => Some (-1)
           end;
  match cidr_netmask with
  | Some m => if (atol m <? 0) || (128 <? atol m) then None else Some (s32 (atol m))
  | None => Some (if legacy =? -1 then 0 else legacy)
  end.

Definition starts_with (cmd argv1 : list Z) : bool := strncmp cmd argv1 (length cmd) =? 0.

Section agent.
Context {K : Type} `{Kernel K}.

(** The dispatch on the command. *)
Definition run_command (argv1 addr6 : list Z) (prefix_len : Z) (prov_ifname : option (list Z)) : M K Z :=
  if starts_with (str "start") argv1 then start_addr6 addr6 prefix_len prov_ifname
  else if starts_with (str "stop") argv1 then stop_addr6 addr6 prefix_len prov_ifname
  else if starts_with (str "status") argv1 then status_addr6 addr6 prefix_len prov_ifname
  else if starts_with (str "monitor") argv1 then monitor_addr6 addr6 prefix_len
  else if starts_with (str "reload") argv1 then mret OCF_ERR_UNIMPLEMENTED
  else if starts_with (str "recover") argv1 then mret OCF_ERR_UNIMPLEMENTED
  else if starts_with (str "validate-all") argv1 then mret OCF_SUCCESS
  else if strncmp (str "advt") argv1 7 =? 0 then advt_addr6 addr6 prefix_len prov_ifname
  else mret OCF_ERR_ARGS.

Definition ipv6addr_main (argv : list (list Z)) (env : agent_env) : M K Z :=
  match argv with
  | _ :: argv1 :: _ =>
      if negb (signals_ok env) then mret OCF_ERR_GENERIC
      else if starts_with (str "meta-data") argv1 then mret OCF_SUCCESS
      else match OCF_RESKEY_ipv6addr env with
      | None => mret OCF_ERR_ARGS
      | Some var =>
          match choose_prefix var (OCF_RESKEY_cidr_netmask env) with
          | None => mret OCF_ERR_ARGS
          | Some prefix_len =>
              let ipv6addr := until 47 (cstr var) in
              match inet_pton6 ipv6addr with
              | None => mret OCF_ERR_ARGS
              | Some addr6 =>
                  if negb (if_inet6_readable env) then mret OCF_ERR_GENERIC
                  else
                    let pid_file := HA_RSCTMPDIR env ++ str "/IPv6addr-" ++ ipv6addr in
                    if (256 <=? length pid_file)%nat then mret OCF_ERR_GENERIC
                    else if pid_file_rc env pid_file <? 0 then mret OCF_ERR_GENERIC
                    else run_command argv1 addr6 prefix_len (OCF_RESKEY_nic env)
              end
          end
      end
  | _ => mret OCF_ERR_ARGS
  end.

(** *** send_ua, the program *)

(** Options [-c count] and [-i interval], as [getopt] returns them. *)
Fixpoint send_ua_options (opts : list (Z * list Z)) (count interval : Z) : option (Z * Z) :=
  match opts with
  | [] => Some (count, interval)
  | (c, optarg) :: opts' =>
      if c =? 99 then send_ua_options opts' (atoi optarg) interval
      else if c =? 105 then send_ua_options opts' count (atoi optarg)
      else None
  end.

(** [operands] is [argv + optind]: reading beyond its terminating NULL, and
    sending on a NULL name, are faults. *)
Definition send_ua_main (argc : Z) (opts : list (Z * list Z)) (operands : list (list Z))
    (signals_ok if_inet6_readable : bool) : M K Z :=
  if argc <? 4 then mret OCF_ERR_ARGS
  else match send_ua_options opts (Z.of_nat UA_REPEAT_COUNT) 1000 with
  | None => mret OCF_ERR_ARGS
  | Some (count, interval) =>
      if negb signals_ok then mret OCF_ERR_GENERIC
      else match operands with
      | [] => mret OCF_ERR_ARGS
      | [_] => mfault
      | ipv6addr :: _ :: more =>
          match inet_pton6 (until 47 (cstr ipv6addr)) with
          | None => mret OCF_ERR_ARGS
          | Some addr6 =>
              if negb if_inet6_readable then mret OCF_ERR_GENERIC
              else match more with
              | prov_ifname :: _ => send_uas (Z.to_nat count) addr6 prov_ifname;; mret OCF_SUCCESS
              | [] => if count <=? 0 then mret OCF_SUCCESS else mfault
              end
          end
      end
  end.

End agent.

(** ** Specifications *)

(** *** The kernel's table *)

Record kentry : Type := Kentry {
  ke_addr : list Z;      (* 16 bytes *)
  ke_idx : Z;
  ke_plen : Z;
  ke_scope : Z;
  ke_flags : Z;
  ke_name : list Z }.

Definition in6 (a : list Z) : Prop := length a = 16%nat ∧ Forall is_byte a.

Record wf_kentry (e : kentry) : Prop := {
  wf_addr : in6 (ke_addr e);
  wf_idx : 0 < ke_idx e < 2147483648;
  wf_plen : 0 ≤ ke_plen e ≤ 128;
  wf_scope : 0 ≤ ke_scope e < 256;
  wf_flags : 0 ≤ ke_flags e < 256;
  wf_name_len : (0 < length (ke_name e) < IFNAMSIZ)%nat;
  wf_name : Forall (λ c, 0 < c < 256 ∧ isspace c = false) (ke_name e) }.

Definition lowdig (d : Z) : Z := if d <? 10 then 48 + d else 87 + d.
Definition hexl (n : nat) (z : Z) : list Z := lowdig <$> hex_digits_be n z.

(** The four 32-bit words of an address. *)
Definition be_words (a : list Z) : list Z :=
  (λ i, be_combine (take 4 (drop (4 * i) a))) <$> [0; 1; 2; 3]%nat.

(** The digits [%02x] prints. *)
Definition hexw (z : Z) : nat := if z <? 256 then 2 else Z.to_nat (Z.log2 z / 4 + 1).

(** ["%pi6 %02x %02x %02x %02x %8s\n"]. *)
Definition kline (e : kentry) : list Z :=
  concat (hexl 8 <$> be_words (ke_addr e)) ++
  [32] ++ hexl (hexw (ke_idx e)) (ke_idx e) ++
  [32] ++ hexl 2 (ke_plen e) ++ [32] ++ hexl 2 (ke_scope e) ++ [32] ++ hexl 2 (ke_flags e) ++
  [32] ++ replicate (8 - length (ke_name e)) 32 ++ ke_name e ++ [10].

Definition if_inet6_text (table : list kentry) : list Z := concat (kline <$> table).

(** *** What [scan_if] looks for *)

(** The first [p] bits of two addresses are the same. *)
Definition same_prefix (p : Z) (a b : list Z) : Prop :=
  be_combine a / 2 ^ (128 - p) = be_combine b / 2 ^ (128 - p).

Definition eligible (plen_target : Z) (nic : option (list Z)) (e : kentry) : Prop :=
  (ke_scope e = 0 ∨ ke_scope e = 32 ∧ nic ≠ None) ∧
  (plen_target = 0 ∨ ke_plen e = plen_target) ∧
  match nic with Some s => ke_name e = s | None => True end.

Definition wanted (use_mask : bool) (target : list Z) (plen_target : Z) (nic : option (list Z))
    (e : kentry) : Prop :=
  eligible plen_target nic e ∧
  if use_mask then same_prefix (ke_plen e) (ke_addr e) target else ke_addr e = target.

#[export] Instance eligible_dec plen_target nic e : Decision (eligible plen_target nic e).
Proof. unfold eligible. destruct nic; apply _. Defined.
#[export] Instance wanted_dec m t p nic e : Decision (wanted m t p nic e).
Proof. unfold wanted, same_prefix. destruct m; apply _. Defined.

(** The variable holds a C string. *)
Definition nic_text (prov_ifname : option (list Z)) : Prop :=
  match prov_ifname with Some s => c_text s | None => True end.

(** *** What the kernel promises *)

(** The table is what the file shows, the scope of an entry is that of its
    address, the two ioctls add or remove one entry for the address on the
    interface of the index, and nothing else the agent does changes the table. *)
Class LawfulKernel (K : Type) `{Kernel K} : Type := {
  lk_table : K → list kentry;
  lk_scope : list Z → Z;
  lk_wf k : Forall wf_kentry (lk_table k);
  lk_scopes k : Forall (λ e, ke_scope e = lk_scope (ke_addr e)) (lk_table k);
  lk_read k : k_if_inet6 k = Some (if_inet6_text (lk_table k));
  lk_set k k' name idx a plen :
    k_ifindex k name = Some idx → k_setaddr k a plen idx = Some k' →
    ∃ e l1 l2, lk_table k = l1 ++ l2 ∧ lk_table k' = l1 ++ e :: l2 ∧
      ke_addr e = a ∧ ke_plen e = plen ∧ ke_name e = name;
  lk_del k k' name idx a plen :
    k_ifindex k name = Some idx → k_deladdr k a plen idx = Some k' →
    ∃ e l1 l2, lk_table k = l1 ++ e :: l2 ∧ lk_table k' = l1 ++ l2 ∧
      ke_addr e = a ∧ ke_plen e = plen ∧ ke_name e = name;
  lk_ping k a : lk_table (k_ping k a).2 = lk_table k;
  lk_send k dst p : lk_table (k_send k dst p) = lk_table k;
  lk_sleep k : lk_table (k_sleep k) = lk_table k }.

(** ** Lemmas *)

(** *** Scanning *)

Lemma lowdig_digit d : 0 ≤ d < 16 → digit_of 16 (lowdig d) = Some d.
Proof.
  intros Hd.
  assert (H : forallb (λ d, bool_decide (digit_of 16 (lowdig d) = Some d)) (seqZ 0 16) = true)
    by (vm_compute; reflexivity).
  apply (range_forallb _ 0 16 d) in H; [|lia]. by apply bool_decide_eq_true in H.
Qed.

Lemma lowdig_char d : 0 ≤ d < 16 → 48 ≤ lowdig d ≤ 57 ∨ 97 ≤ lowdig d ≤ 102.
Proof. intros Hd. unfold lowdig. destruct (d <? 10) eqn:E; zbool; lia. Qed.

Lemma lowdig_not_space d : 0 ≤ d < 16 → isspace (lowdig d) = false.
Proof.
  intros Hd. pose proof (lowdig_char d Hd). unfold isspace.
  apply orb_false_iff. split; [lia|]. apply andb_false_iff. right. lia.
Qed.

Lemma skip_spaces_replicate n l : skip_spaces (replicate n 32 ++ l) = skip_spaces l.
Proof. induction n as [|n IH]; [done|]. exact IH. Qed.

Lemma span_digits_n_hex n ds r :
  Forall (λ d, 0 ≤ d < 16) ds → (length ds ≤ n)%nat →
  (length ds = n ∨ match r with c :: _ => digit_of 16 c = None | [] => True end) →
  span_digits_n n 16 ((lowdig <$> ds) ++ r) = (ds, r).
Proof.
  intros Hds. revert n. induction Hds as [|d ds Hd _ IH]; intros n Hn Hr.
  - destruct n as [|n]; [done|]. destruct r as [|c r]; [done|]. cbn [fmap list_fmap app span_digits_n].
    destruct Hr as [Hr|Hr]; [done|]. by rewrite Hr.
  - destruct n as [|n]; [cbn in Hn; lia|]. rewrite fmap_cons. cbn [app span_digits_n length] in *.
    rewrite lowdig_digit by done. rewrite IH; [done|lia|]. destruct Hr; [left; lia|by right].
Qed.

(** A number after spaces, followed by something that does not continue it. *)
Lemma scan_x_hex sp w ds r :
  Forall (λ d, 0 ≤ d < 16) ds → ds ≠ [] → (length ds ≤ w)%nat → digits_val 16 ds ≤ UINT_MAX →
  0 ≤ digits_val 16 ds →
  (length ds = w ∧ (1 < w)%nat ∨ match r with c :: _ => c = 32 | [] => True end) →
  scan_x w (replicate sp 32 ++ (lowdig <$> ds) ++ r) = Some (digits_val 16 ds, r).
Proof.
  intros Hds Hne Hw Hv Hv0 Hr. unfold scan_x. rewrite skip_spaces_replicate.
  destruct ds as [|d ds]; [done|]. pose proof Hds as [Hd Hds']%Forall_cons_1.
  pose proof (lowdig_char d Hd) as Hc.
  assert (Hsk : skip_spaces ((lowdig <$> (d :: ds)) ++ r) = (lowdig <$> (d :: ds)) ++ r).
  { rewrite fmap_cons. cbn [app skip_spaces]. by rewrite lowdig_not_space. }
  assert (Hsg : scan_sign ((lowdig <$> (d :: ds)) ++ r) = (false, (lowdig <$> (d :: ds)) ++ r)).
  { rewrite fmap_cons. cbn [app]. rewrite scan_sign_cons. by ztest. }
  rewrite Hsk, Hsg, Nat.sub_diag, Nat.sub_0_r.
  assert (H0x : skip_0x_n w ((lowdig <$> (d :: ds)) ++ r) = ([], w, (lowdig <$> (d :: ds)) ++ r)).
  { rewrite fmap_cons. cbn [app]. destruct ((lowdig <$> ds) ++ r) as [|x l] eqn:E; [done|].
    cbn [skip_0x_n]. assert (Hx : x ≠ 120 ∧ x ≠ 88).
    { destruct ds as [|d2 ds].
      - cbn in E. subst r. destruct Hr as [[? ?]| ->]; [cbn in *; lia|lia].
      - rewrite fmap_cons in E. injection E as <- _. apply Forall_cons_1 in Hds' as [Hd2 _].
        pose proof (lowdig_char d2 Hd2). lia. }
    ztest. by rewrite andb_false_r. }
  rewrite H0x, span_digits_n_hex; [|done|done|].
  2:{ destruct Hr as [[? ?]|Hr]; [by left|]. right. destruct r; [done|]. by subst. }
  cbn [app]. unfold UINT_MAX, ULONG_MAX in *. ztest. f_equal. f_equal. apply u32_small.
  unfold UINT_MAX. lia.
Qed.

Lemma hex_digits_be_length n z : length (hex_digits_be n z) = n.
Proof. unfold hex_digits_be. by rewrite length_rev, length_fmap, length_seq. Qed.

Lemma scan_x_hexl sp w n z r :
  (0 < n ≤ w)%nat → 0 ≤ z < 16 ^ Z.of_nat n → z ≤ UINT_MAX →
  (n = w ∧ (1 < w)%nat ∨ match r with c :: _ => c = 32 | [] => True end) →
  scan_x w (replicate sp 32 ++ hexl n z ++ r) = Some (z, r).
Proof.
  intros Hn Hz Hu Hr. destruct (hex_digits_be_spec n z) as [Hds Hv].
  rewrite Z.mod_small in Hv by done. rewrite <-Hv at 2. unfold hexl.
  apply scan_x_hex; rewrite ?hex_digits_be_length, ?Hv; try done; try lia.
  intros H. apply (f_equal length) in H. rewrite hex_digits_be_length in H. cbn in H. lia.
Qed.

Lemma hexw_spec z : 0 < z < 2147483648 → (2 ≤ hexw z ≤ 8)%nat ∧ z < 16 ^ Z.of_nat (hexw z).
Proof.
  intros Hz. unfold hexw. destruct (z <? 256) eqn:E; zbool; [split; [lia|]; exact E|].
  assert (8 ≤ Z.log2 z ≤ 30).
  { split; [apply (Z.log2_le_pow2 z 8); lia|]. assert (Z.log2 z < 31); [|lia].
    apply Z.log2_lt_pow2; lia. }
  pose proof (Z.div_mod (Z.log2 z) 4 ltac:(lia)). pose proof (Z.mod_pos_bound (Z.log2 z) 4 ltac:(lia)).
  rewrite Z2Nat.id by lia. split; [lia|].
  change 16 with (2 ^ 4). rewrite <-Z.pow_mul_r by lia.
  pose proof (proj2 (Z.log2_spec z ltac:(lia))) as Hl. eapply Z.lt_le_trans; [exact Hl|].
  apply Z.pow_le_mono_r; lia.
Qed.

Lemma span_word_app n w c r :
  Forall (λ c, isspace c = false) w → (length w ≤ n)%nat → isspace c = true →
  span_word n (w ++ c :: r) = (w, c :: r).
Proof.
  intros Hw. revert n. induction Hw as [|x w Hx _ IH]; intros n Hn Hc.
  - destruct n; [done|]. cbn. by rewrite Hc.
  - destruct n as [|n]; [cbn in Hn; lia|]. cbn [app span_word]. rewrite Hx.
    rewrite IH; [done|cbn in Hn; lia|done].
Qed.

Lemma be_combine_app a b :
  be_combine (a ++ b) = be_combine a * 256 ^ Z.of_nat (length b) + be_combine b.
Proof.
  unfold be_combine. rewrite rev_app_distr. generalize (rev a). intros l.
  rewrite <-(length_rev b). induction (rev b) as [|x m IH]; cbn [app le_combine length]; [lia|].
  rewrite IH, Nat2Z.inj_succ, Z.pow_succ_r by lia. lia.
Qed.

Lemma be_combine_range a n : Forall is_byte a → length a = n → 0 ≤ be_combine a < 256 ^ Z.of_nat n.
Proof.
  intros Ha <-. unfold be_combine. rewrite <-(length_rev a). apply le_combine_bound.
  by apply Forall_rev.
Qed.

Lemma in6_words a : in6 a →
  ∃ w0 w1 w2 w3 : list Z, a = w0 ++ w1 ++ w2 ++ w3 ∧
    Forall (λ w, length w = 4%nat ∧ Forall is_byte w) [w0; w1; w2; w3] ∧
    be_words a = [be_combine w0; be_combine w1; be_combine w2; be_combine w3] ∧
    s6_addr32 a = [le_combine w0; le_combine w1; le_combine w2; le_combine w3].
Proof.
  intros [Hl Hb]. do 17 (destruct a as [|? a]; try discriminate Hl).
  exists [z; z0; z1; z2], [z3; z4; z5; z6], [z7; z8; z9; z10], [z11; z12; z13; z14].
  split; [done|]. split; [|done].
  repeat match goal with H : Forall is_byte (_ :: _) |- _ => apply Forall_cons_1 in H as [? ?] end.
  repeat apply Forall_cons_2; (split; [done|]) || done; repeat apply Forall_cons_2; done.
Qed.

Lemma be_words_range a : in6 a → Forall (λ w, 0 ≤ w < 4294967296) (be_words a) ∧ length (be_words a) = 4%nat.
Proof.
  intros Ha. destruct (in6_words a Ha) as (w0 & w1 & w2 & w3 & _ & Hw & -> & _). split; [|done].
  repeat match goal with H : Forall _ (_ :: _) |- _ => apply Forall_cons_1 in H as [[? ?] ?] end.
  repeat apply Forall_cons_2; try done; by apply (be_combine_range _ 4).
Qed.

(** One line of the kernel's is one entry. *)
Lemma scan_entry_kline e rest :
  wf_kentry e → skip_spaces rest = rest →
  scan_entry (kline e ++ rest) =
    Some (Inet6 (be_words (ke_addr e)) (ke_idx e) (ke_plen e) (ke_scope e) (ke_flags e) (ke_name e),
          rest).
Proof.
  intros He Hrest. destruct He as [Ha Hi Hp Hs Hf Hl Hn].
  destruct (be_words_range _ Ha) as [Hw Hwl]. unfold kline, scan_entry.
  destruct (be_words (ke_addr e)) as [|a0 [|a1 [|a2 [|a3 [|]]]]]; try done.
  repeat match goal with H : Forall _ (_ :: _) |- _ => apply Forall_cons_1 in H as [? H] end.
  cbn [fmap list_fmap concat]. rewrite app_nil_r, <-!app_assoc.
  assert (Hsx8 : ∀ a r, 0 ≤ a < 4294967296 → scan_x 8 (hexl 8 a ++ r) = Some (a, r)).
  { intros a r Har. apply (scan_x_hexl 0); [lia|exact Har|unfold UINT_MAX; lia|left; lia]. }
  assert (Hsx2 : ∀ a r, 0 ≤ a < 256 → scan_x 2 ([32] ++ hexl 2 a ++ [32] ++ r) = Some (a, [32] ++ r)).
  { intros a r Har. apply (scan_x_hexl 1); [lia|exact Har|unfold UINT_MAX; lia|left; lia]. }
  do 4 (rewrite Hsx8 by done; cbn [mbind option_bind]).
  destruct (hexw_spec _ Hi) as [Hx1 Hx2].
  rewrite (scan_x_hexl 1); [|unfold hexl; rewrite !length_app, length_fmap, hex_digits_be_length; lia
    |lia|unfold UINT_MAX; lia|by right].
  cbn [mbind option_bind]. rewrite Hsx2 by lia. cbn [mbind option_bind].
  rewrite Hsx2 by lia. cbn [mbind option_bind]. rewrite Hsx2 by lia. cbn [mbind option_bind].
  unfold scan_s. change ([32] ++ replicate (8 - length (ke_name e)) 32 ++ ?r)
    with (replicate (S (8 - length (ke_name e))) 32 ++ r). rewrite skip_spaces_replicate.
  assert (Hsk : skip_spaces (ke_name e ++ [10] ++ rest) = ke_name e ++ 10 :: rest).
  { destruct (ke_name e) as [|c l]; [cbn in Hl; lia|]. apply Forall_cons_1 in Hn as [[_ Hc] _].
    cbn [app skip_spaces]. by rewrite Hc. }
  rewrite Hsk, span_word_app; [| |unfold IFNAMSIZ in Hl; lia|done].
  2:{ eapply Forall_impl; [|exact Hn]. by intros c [_ ?]. }
  destruct (ke_name e) as [|c l] eqn:E; [cbn in Hl; lia|]. cbn [mbind option_bind skip_spaces].
  change (isspace 10) with true. cbv iota. by rewrite Hrest.
Qed.

(** *** Prefixes *)

(** The masks in host order: word [i] has its low [mask_low p i] bits clear. *)
Definition mask_low (p : Z) (i : nat) : Z := Z.max 0 (Z.min 32 (32 * (Z.of_nat i + 1) - p)).

Lemma make_mask_spec use_mask p : 0 ≤ p ≤ 128 →
  make_mask use_mask p =
    (λ i, htonl (4294967296 - 2 ^ mask_low (if use_mask then p else 128) i)) <$> [0; 1; 2; 3]%nat.
Proof.
  intros Hp. destruct use_mask; [|reflexivity].
  assert (H : forallb (λ p, bool_decide (make_mask true p =
            (λ i, htonl (4294967296 - 2 ^ mask_low p i)) <$> [0; 1; 2; 3]%nat)) (seqZ 0 129) = true)
    by (vm_compute; reflexivity).
  apply (range_forallb _ 0 129 p) in H; [|lia]. by apply bool_decide_eq_true in H.
Qed.

Lemma land_mask_iff x y k :
  0 ≤ x < 4294967296 → 0 ≤ y < 4294967296 → 0 ≤ k ≤ 32 →
  Z.land (htonl x) (htonl (4294967296 - 2 ^ k)) = Z.land (htonl y) (htonl (4294967296 - 2 ^ k)) ↔
  x / 2 ^ k = y / 2 ^ k.
Proof.
  intros Hx Hy Hk. rewrite <-!htonl_land.
  assert (0 < 2 ^ k) by (apply Z.pow_pos_nonneg; lia).
  assert (Hr : ∀ z, 0 ≤ z < 4294967296 → 0 ≤ z / 2 ^ k * 2 ^ k < 4294967296).
  { intros z Hz. pose proof (Z.mul_div_le z (2 ^ k) ltac:(lia)).
    pose proof (Z.div_pos z (2 ^ k) ltac:(lia) ltac:(lia)). split; [apply Z.mul_nonneg_nonneg|]; lia. }
  rewrite !land_high by done. split; [|by intros ->].
  intros He. apply htonl_inj in He; [|by apply Hr..]. by apply Z.mul_cancel_r in He; [|lia].
Qed.

(** Dividing a two-word number compares its words separately. *)
Lemma div_words hi lo hi' lo' m :
  0 ≤ lo < 4294967296 → 0 ≤ lo' < 4294967296 → 0 ≤ m →
  (hi * 4294967296 + lo) / 2 ^ m = (hi' * 4294967296 + lo') / 2 ^ m ↔
  hi / 2 ^ Z.max 0 (m - 32) = hi' / 2 ^ Z.max 0 (m - 32) ∧
  lo / 2 ^ Z.min 32 m = lo' / 2 ^ Z.min 32 m.
Proof.
  intros Hlo Hlo' Hm. destruct (decide (32 ≤ m)) as [Hm32|Hm32].
  - rewrite Z.max_r, Z.min_l by lia.
    assert (Hd : ∀ h l, 0 ≤ l < 4294967296 → (h * 4294967296 + l) / 2 ^ m = h / 2 ^ (m - 32)).
    { intros h v Hv. assert (0 < 2 ^ (m - 32)) by (apply Z.pow_pos_nonneg; lia).
      replace (2 ^ m) with (4294967296 * 2 ^ (m - 32)).
      2:{ transitivity (2 ^ (32 + (m - 32))); [by rewrite Z.pow_add_r by lia|].
          by replace (32 + (m - 32)) with m by lia. }
      rewrite <-Z.div_div by lia. rewrite Z.div_add_l by lia. by rewrite (Z.div_small v), Z.add_0_r by lia. }
    rewrite !Hd by done. change (2 ^ 32) with 4294967296. rewrite (Z.div_small lo), (Z.div_small lo') by done.
    split; [by split|by intros [? _]].
  - rewrite Z.max_l, Z.min_r by lia. rewrite Z.pow_0_r, !Z.div_1_r.
    assert (Hp : 0 < 2 ^ m) by (apply Z.pow_pos_nonneg; lia).
    assert (Hq : 4294967296 = 2 ^ (32 - m) * 2 ^ m).
    { rewrite <-Z.pow_add_r by lia. by replace (32 - m + m) with 32 by lia. }
    assert (Hd : ∀ h l, (h * 4294967296 + l) / 2 ^ m = h * 2 ^ (32 - m) + l / 2 ^ m).
    { intros h v. rewrite Hq, Z.mul_assoc. apply Z.div_add_l. lia. }
    assert (Hb : ∀ l, 0 ≤ l < 4294967296 → 0 ≤ l / 2 ^ m < 2 ^ (32 - m)).
    { intros v Hv. split; [apply Z.div_pos; lia|]. apply Z.div_lt_upper_bound; lia. }
    rewrite !Hd. pose proof (Hb lo Hlo). pose proof (Hb lo' Hlo'). split; [|by intros [-> ->]].
    generalize dependent (2 ^ (32 - m)). intros q. clear -q.
    generalize (lo / 2 ^ m) (lo' / 2 ^ m). intros a b. intros. assert (hi = hi'); [nia|]. subst. lia.
Qed.

Lemma entry_matches_spec use_mask e addr target :
  in6 addr → in6 target → i6_addr e = be_words addr → 0 ≤ i6_plen e ≤ 128 →
  entry_matches use_mask e target = true ↔
    same_prefix (if use_mask then i6_plen e else 128) addr target.
Proof.
  intros Ha Ht Hw Hp. unfold entry_matches, same_addr, same_prefix.
  rewrite make_mask_spec, Hw by done. set (p := if use_mask then i6_plen e else 128).
  assert (Hp' : 0 ≤ p ≤ 128) by (unfold p; destruct use_mask; lia). clearbody p. clear e Hw Hp.
  destruct (in6_words addr Ha) as (a0 & a1 & a2 & a3 & -> & Hwa & -> & _).
  destruct (in6_words target Ht) as (b0 & b1 & b2 & b3 & -> & Hwb & _ & ->).
  repeat match goal with H : Forall _ (_ :: _) |- _ => apply Forall_cons_1 in H as [[? ?] H] end.
  rewrite !be_combine_app, !length_app.
  repeat match goal with H : length ?w = 4%nat |- context [length ?w] => rewrite !H end.
  assert (Hle : ∀ w, length w = 4%nat → Forall is_byte w →
            ∃ z, be_combine w = z ∧ le_combine w = htonl z ∧ 0 ≤ z < 4294967296).
  { intros w Hl Hb. exists (be_combine w). split; [done|]. split; [|by apply (be_combine_range _ 4)].
    rewrite <-htonl_bytes by done. rewrite htonl_involutive. symmetry. apply Z.mod_small.
    pose proof (le_combine_bound w Hb) as Hr. by rewrite Hl in Hr. }
  destruct (Hle a0) as (x0 & -> & _ & ?); [done..|]. destruct (Hle a1) as (x1 & -> & _ & ?); [done..|].
  destruct (Hle a2) as (x2 & -> & _ & ?); [done..|]. destruct (Hle a3) as (x3 & -> & _ & ?); [done..|].
  destruct (Hle b0) as (y0 & -> & -> & ?); [done..|]. destruct (Hle b1) as (y1 & -> & -> & ?); [done..|].
  destruct (Hle b2) as (y2 & -> & -> & ?); [done..|]. destruct (Hle b3) as (y3 & -> & -> & ?); [done..|].
  cbn [fmap list_fmap forallb nth]. rewrite !andb_true_iff, !Z.eqb_eq.
  rewrite !land_mask_iff by (done || unfold mask_low; lia).
  change (256 ^ Z.of_nat (4 + (4 + 4))) with (4294967296 * 4294967296 * 4294967296).
  change (256 ^ Z.of_nat (4 + 4)) with (4294967296 * 4294967296).
  change (256 ^ Z.of_nat 4) with 4294967296.
  replace (x0 * (4294967296 * 4294967296 * 4294967296) + (x1 * (4294967296 * 4294967296) + (x2 * 4294967296 + x3)))
    with (((x0 * 4294967296 + x1) * 4294967296 + x2) * 4294967296 + x3) by ring.
  replace (y0 * (4294967296 * 4294967296 * 4294967296) + (y1 * (4294967296 * 4294967296) + (y2 * 4294967296 + y3)))
    with (((y0 * 4294967296 + y1) * 4294967296 + y2) * 4294967296 + y3) by ring.
  rewrite !div_words by lia. unfold mask_low.
  replace (Z.max 0 (Z.max 0 (Z.max 0 (128 - p - 32) - 32) - 32)) with (Z.max 0 (Z.min 32 (32 * (Z.of_nat 0 + 1) - p))) by lia.
  replace (Z.min 32 (Z.max 0 (Z.max 0 (128 - p - 32) - 32))) with (Z.max 0 (Z.min 32 (32 * (Z.of_nat 1 + 1) - p))) by lia.
  replace (Z.min 32 (Z.max 0 (128 - p - 32))) with (Z.max 0 (Z.min 32 (32 * (Z.of_nat 2 + 1) - p))) by lia.
  replace (Z.min 32 (128 - p)) with (Z.max 0 (Z.min 32 (32 * (Z.of_nat 3 + 1) - p))) by lia.
  tauto.
Qed.

(** *** scan_if *)

Lemma given_text prov : nic_text prov → match given prov with Some s => c_text s ∧ s ≠ [] | None => True end.
Proof.
  destruct prov as [s|]; [|done]. intros Hs. cbn [given nic_text] in *.
  destruct s as [|c s]; [done|]. cbn [hd]. by destruct (c =? 0).
Qed.

Lemma skipped_eligible e plen_target prov addr :
  wf_kentry e → nic_text prov → 0 ≤ plen_target ≤ 128 →
  skipped (Inet6 addr (ke_idx e) (ke_plen e) (ke_scope e) (ke_flags e) (ke_name e)) plen_target prov
    = negb (bool_decide (eligible plen_target (given prov) e)).
Proof.
  intros He Hp Ht. unfold skipped. cbn [i6_scope i6_plen i6_name].
  rewrite u32_small by (unfold UINT_MAX; lia). apply given_text in Hp.
  assert (Hname : c_text (ke_name e)).
  { eapply Forall_impl; [|exact (wf_name _ He)]. by intros c [? _]. }
  destruct (bool_decide (eligible plen_target (given prov) e)) eqn:E; zbool; cbn [negb].
  - destruct E as (Hs & Hpl & Hn). rewrite !orb_false_iff, !andb_false_iff, !negb_false_iff, !Z.eqb_eq.
    rewrite orb_false_iff, negb_false_iff, Z.eqb_eq. split_and!.
    + destruct Hs as [?|[? ?]]; [by left|]. right. destruct (given prov); [by split|done].
    + destruct Hpl; auto.
    + destruct (given prov) as [s|]; [|done]. destruct Hp as [Hs' _].
      apply negb_false_iff, Z.eqb_eq. subst. by apply strcmp_text.
  - apply not_false_iff_true. intros Hsk. apply E.
    rewrite !orb_false_iff, !andb_false_iff, !negb_false_iff, !Z.eqb_eq in Hsk.
    rewrite orb_false_iff, negb_false_iff, Z.eqb_eq in Hsk. destruct Hsk as [[Hs Hpl] Hn].
    split_and!.
    + destruct Hs as [?|[? Hg]]; [by left|]. right. split; [done|]. by destruct (given prov).
    + destruct Hpl; auto.
    + destruct (given prov) as [s|]; [|done]. destruct Hp as [Hs' _].
      apply negb_false_iff, Z.eqb_eq in Hn. by apply strcmp_text in Hn.
Qed.

Lemma be_combine_inj a b : in6 a → in6 b → be_combine a = be_combine b → a = b.
Proof.
  intros [La Ha] [Lb Hb] H. unfold be_combine in H. apply (f_equal (le_split 16)) in H.
  rewrite <-(length_rev a) in La. rewrite <-(length_rev b) in Lb.
  rewrite <-La in H at 1. rewrite <-Lb in H.
  rewrite !le_split_combine in H by by apply Forall_rev.
  by rewrite <-(rev_involutive a), H, rev_involutive.
Qed.

Lemma matches_wanted e target use_mask :
  wf_kentry e → in6 target →
  entry_matches use_mask (Inet6 (be_words (ke_addr e)) (ke_idx e) (ke_plen e) (ke_scope e)
                            (ke_flags e) (ke_name e)) target = true ↔
  (if use_mask then same_prefix (ke_plen e) (ke_addr e) target else ke_addr e = target).
Proof.
  intros He Ht. rewrite (entry_matches_spec _ _ (ke_addr e)) by (done || apply He).
  cbn [i6_plen]. destruct use_mask; [done|]. unfold same_prefix. rewrite Z.sub_diag, Z.pow_0_r, !Z.div_1_r.
  split; [|by intros ->]. apply be_combine_inj; [apply He|done].
Qed.

Lemma kline_start e rest : wf_kentry e → skip_spaces (kline e ++ rest) = kline e ++ rest.
Proof.
  intros He. unfold kline. destruct (be_words_range _ (wf_addr _ He)) as [Hw Hl].
  destruct (be_words (ke_addr e)) as [|a0 l]; [done|]. cbn [fmap list_fmap concat].
  unfold hexl. destruct (hex_digits_be_spec 8 a0) as [Hds _].
  destruct (hex_digits_be 8 a0) as [|d ds] eqn:E.
  { apply (f_equal length) in E. by rewrite hex_digits_be_length in E. }
  apply Forall_cons_1 in Hds as [Hd _]. rewrite fmap_cons. cbn [app skip_spaces].
  by rewrite lowdig_not_space.
Qed.

Lemma scan_loop_table fuel table target plen_target use_mask prov :
  Forall wf_kentry table → in6 target → nic_text prov → 0 ≤ plen_target ≤ 128 →
  (length table < fuel)%nat →
  scan_loop fuel (if_inet6_text table) target plen_target use_mask prov =
    (λ e, (ke_name e, ke_plen e)) <$>
      head (filter (wanted use_mask target plen_target (given prov)) table).
Proof.
  intros Hw Ht Hp Hpl. revert fuel. induction Hw as [|e table He Hw IH]; intros fuel Hf.
  - destruct fuel; [cbn in Hf; lia|]. reflexivity.
  - destruct fuel as [|fuel]; [cbn in Hf; lia|]. cbn [scan_loop if_inet6_text fmap list_fmap concat].
    fold (if_inet6_text table). rewrite scan_entry_kline; [|done|].
    2:{ destruct Hw as [|e' table He' _]; [done|]. cbn [if_inet6_text fmap list_fmap concat].
        by apply kline_start. }
    rewrite skipped_eligible by done. cbn [length] in Hf. rewrite IH by lia.
    rewrite filter_cons.
    destruct (decide (wanted use_mask target plen_target (given prov) e)) as [[Hel Hm]|Hnw].
    + rewrite bool_decide_true by done. cbn [negb head fmap option_fmap option_map].
      by rewrite (proj2 (matches_wanted e target use_mask He Ht) Hm).
    + destruct (bool_decide (eligible plen_target (given prov) e)) eqn:E; zbool; [|done].
      cbn [negb]. destruct (entry_matches _ _ _) eqn:Em; [|done]. exfalso. apply Hnw. split; [done|].
      by apply matches_wanted in Em.
Qed.

Lemma kline_length e : (0 < length (kline e))%nat.
Proof. unfold kline. rewrite !length_app. cbn [length]. lia. Qed.

Lemma table_length table : (length table ≤ length (if_inet6_text table))%nat.
Proof.
  induction table as [|e table IH]; [done|]. cbn [if_inet6_text fmap list_fmap concat length].
  fold (if_inet6_text table). rewrite length_app. pose proof (kline_length e). lia.
Qed.

(** *** The actions on a lawful kernel *)

Section lawful.
Context {K : Type} `{LawfulKernel K}.
Variables (a : list Z) (plen : Z) (prov : option (list Z)).
Hypotheses (Ha : in6 a) (Hnic : nic_text prov) (Hplen : 0 ≤ plen ≤ 128).

Definition matching (k : K) : list kentry :=
  filter (wanted false a plen (given prov)) (lk_table k).

Lemma get_if_run k :
  get_if (k_if_inet6 k) a plen prov = (λ e, (ke_name e, ke_plen e)) <$> head (matching k).
Proof.
  unfold get_if, scan_if. rewrite lk_read. cbn [mbind option_bind].
  apply scan_loop_table; try done; [apply lk_wf|]. pose proof (table_length (lk_table k)). lia.
Qed.

Lemma status_run k :
  status_addr6 a plen prov k =
    (Ret (match matching k with [] => OCF_NOT_RUNNING | _ => OCF_SUCCESS end), k).
Proof. unfold status_addr6. munfold. rewrite get_if_run. by destruct (matching k). Qed.

(** Advertising and probing leave the table alone. *)
Lemma send_uas_keeps n ip name k : lk_table (send_uas n ip name k).2 = lk_table k.
Proof.
  revert k. induction n as [|n IH]; intros k; [done|].
  cbn [send_uas]. unfold send_ua. munfold.
  destruct (ua_run _ _ _) as [[st [[dst p]|]]| |]; try done.
  - rewrite IH, lk_sleep. apply lk_send.
  - rewrite IH. apply lk_sleep.
Qed.

Lemma query_loop_keeps n ip k : lk_table (query_loop n ip k).2 = lk_table k.
Proof.
  revert k. induction n as [|n IH]; intros k; [done|].
  cbn [query_loop]. unfold is_addr6_available. munfold.
  pose proof (lk_ping k ip) as Hp. destruct (k_ping k ip) as [p k1]. cbn [snd] in Hp.
  destruct (_ =? 0); [done|]. by rewrite IH, lk_sleep.
Qed.

Lemma assign_run ip p name k rc k' :
  0 ≤ p ≤ 128 → c_text name → assign_addr6 ip p name k = (Ret rc, k') →
  rc ≠ 0 ∧ k' = k ∨
  rc = 0 ∧ ∃ e l1 l2, lk_table k = l1 ++ l2 ∧ lk_table k' = l1 ++ e :: l2 ∧
                    ke_addr e = ip ∧ ke_plen e = p ∧ ke_name e = name.
Proof.
  intros Hp Hname. unfold assign_addr6, with_ifr_name. munfold. rewrite cstr_text_nil by done.
  rewrite u32_small by (unfold UINT_MAX; lia).
  destruct (negb _); [intros [= <- <-]; by left|]. destruct (_ <? _)%nat; [|done].
  destruct (k_ifindex k name) as [idx|] eqn:Ei; [|intros [= <- <-]; by left].
  destruct (k_setaddr k ip p idx) as [k1|] eqn:Es; intros [= <- <-]; [|by left].
  right. split; [done|]. by eapply lk_set.
Qed.

Lemma unassign_run ip p name k rc k' :
  0 ≤ p ≤ 128 → c_text name → unassign_addr6 ip p name k = (Ret rc, k') →
  rc ≠ 0 ∧ k' = k ∨
  rc = 0 ∧ ∃ e l1 l2, lk_table k = l1 ++ e :: l2 ∧ lk_table k' = l1 ++ l2 ∧
                    ke_addr e = ip ∧ ke_plen e = p ∧ ke_name e = name.
Proof.
  intros Hp Hname. unfold unassign_addr6, with_ifr_name. munfold. rewrite cstr_text_nil by done.
  rewrite u32_small by (unfold UINT_MAX; lia).
  destruct (negb _); [intros [= <- <-]; by left|]. destruct (_ <? _)%nat; [|done].
  destruct (k_ifindex k name) as [idx|] eqn:Ei; [|intros [= <- <-]; by left].
  destruct (k_deladdr k ip p idx) as [k1|] eqn:Es; intros [= <- <-]; [|by left].
  right. split; [done|]. by eapply lk_del.
Qed.

Lemma lk_entry k e : e ∈ lk_table k → wf_kentry e ∧ ke_scope e = lk_scope (ke_addr e).
Proof.
  intros Hin. pose proof (lk_wf k) as Hw. pose proof (lk_scopes k) as Hs.
  rewrite list.Forall_forall in Hw, Hs. auto.
Qed.

Lemma wf_name_text e : wf_kentry e → c_text (ke_name e).
Proof. intros He. eapply Forall_impl; [|exact (wf_name _ He)]. by intros c [? _]. Qed.

(** What [find_if] chooses is admitted by the parameters. *)
Lemma find_if_admitted k name p :
  find_if (k_if_inet6 k) a plen prov = Some (name, p) →
  0 ≤ p ≤ 128 ∧ c_text name ∧ (plen = 0 ∨ p = plen) ∧
  match given prov with Some s => name = s | None => True end.
Proof.
  unfold find_if. unfold scan_if. rewrite lk_read. cbn [mbind option_bind].
  rewrite scan_loop_table; [|apply lk_wf|done..|pose proof (table_length (lk_table k)); lia].
  pose proof (given_text prov Hnic) as Hg.
  destruct (filter _ _) as [|e l] eqn:E; cbn [head fmap option_fmap option_map].
  - destruct (given prov) as [s|]; [|done]. destruct (plen =? 0) eqn:E0; [done|].
    destruct Hg as [Hs _]. rewrite cstr_text_nil by done. intros [= <- <-]. split_and!; auto; lia.
  - assert (Hin : e ∈ filter (wanted true a plen (given prov)) (lk_table k)) by (rewrite E; apply list_elem_of_here).
    apply list_elem_of_filter in Hin as [[(Hs & Hp & Hn) _] Hin].
    destruct (lk_entry k e Hin) as [He _]. pose proof (wf_plen _ He).
    intros Heq. assert (Some (ke_name e, ke_plen e) = Some (name, p)) as [= <- <-]
      by (rewrite <-Heq; by destruct (given prov)).
    split; [lia|]. split; [by apply wf_name_text|]. by split.
Qed.

Lemma wanted_after l1 e l2 :
  wanted false a plen (given prov) e →
  length (filter (wanted false a plen (given prov)) (l1 ++ e :: l2)) =
    S (length (filter (wanted false a plen (given prov)) (l1 ++ l2))).
Proof.
  intros Hw. rewrite !list.filter_app, filter_cons_True by done. rewrite !length_app. cbn [length]. lia.
Qed.

(** Only addresses of global scope, or of link scope on a given interface, are
    ever recognised. *)
Definition visible : Prop := lk_scope a = 0 ∨ lk_scope a = 32 ∧ given prov ≠ None.


(** [C30] A stop that succeeds removes exactly one of the entries the agent
    recognises as its address, when there is one, and the status afterwards is
    "not running" exactly when there was at most one.  Nothing is removed for
    an address the agent does not recognise, as one of site-local scope. *)
Theorem stop_then_status k k' :
  stop_addr6 a plen prov k = (Ret OCF_SUCCESS, k') →
  length (matching k') = pred (length (matching k)) ∧
  (status_addr6 a plen prov k' = (Ret OCF_NOT_RUNNING, k') ↔ (length (matching k) ≤ 1)%nat) ∧
  (¬ visible → k' = k).
Proof.
  intros Hstop. assert (Hlen : length (matching k') = pred (length (matching k)) ∧ (¬ visible → k' = k)).
  2:{ destruct Hlen as [Hlen Hinv]. split_and!; [done| |done]. rewrite status_run.
      destruct (matching k'); cbn [length] in Hlen; split; intros; lia || done. }
  revert Hstop. unfold stop_addr6. munfold. rewrite status_run.
  destruct (matching k) as [|e0 l0] eqn:Em; [intros [= <-]; by rewrite Em|].
  change (OCF_SUCCESS =? OCF_NOT_RUNNING) with false. cbv beta iota. rewrite get_if_run, Em.
  cbn [head fmap option_fmap option_map].
  assert (Hin : e0 ∈ matching k) by (rewrite Em; apply list_elem_of_here).
  apply list_elem_of_filter in Hin as [Hw0 Hin]. destruct (lk_entry k e0 Hin) as [He0 Hs0].
  assert (Hvis : visible).
  { destruct Hw0 as [(Hs & _) Haddr]. unfold visible. cbn in Haddr. by rewrite <-Haddr, <-Hs0. }
  destruct (unassign_addr6 a (ke_plen e0) (ke_name e0) k) as [[rc| |] k1] eqn:Eu; try done.
  destruct (unassign_run a (ke_plen e0) (ke_name e0) k rc k1 (wf_plen _ He0) (wf_name_text _ He0) Eu)
    as [[Hrc ->]|[-> (e & l1 & l2 & T0 & T1 & He & Hep & Hen)]].
  { cbv beta. rewrite (proj2 (Z.eqb_neq rc 0)) by done. intros [=]. }
  cbn [Z.eqb negb]. intros [= <-]. split; [|done]. rewrite <-Em. unfold matching. rewrite T0, T1.
  assert (Hw : wanted false a plen (given prov) e).
  { destruct Hw0 as [(Hs & Hp & Hn) Haddr]. cbn in Haddr. split; [|done].
    assert (Hin' : e ∈ lk_table k) by (rewrite T0; apply elem_of_app; right; apply list_elem_of_here).
    destruct (lk_entry k e Hin') as [_ Hsc].
    split_and!; [by rewrite Hsc, He, <-Haddr, <-Hs0|by rewrite Hep|by destruct (given prov); rewrite ?Hen]. }
  by rewrite (wanted_after l1 e l2 Hw).
Qed.
End lawful.

(** ** Properties *)

(** *** Advertisements and the PID file *)

Lemma na_payload_layout src sa :
  length src = 16%nat → (HWADDR_LEN ≤ length sa)%nat →
  na_payload src sa =
    Some ([ND_NEIGHBOR_ADVERT; 0; 0; 0; 32; 0; 0; 0] ++ src ++ [ND_OPT_TARGET_LINKADDR; 1] ++
          take HWADDR_LEN sa).
Proof.
  intros Hs Hsa. unfold na_payload. rewrite (peek_Some 0 HWADDR_LEN sa) by lia.
  assert (Hm : length (take HWADDR_LEN (drop 0 sa)) = 6%nat).
  { rewrite length_take, drop_0. unfold HWADDR_LEN in *. lia. }
  rewrite drop_0 in Hm |- *. destruct (take HWADDR_LEN sa) as [|? m]; [done|].
  do 17 (destruct src as [|? src]; try discriminate Hs).
  do 6 (destruct m as [|? m]; try discriminate Hm). reflexivity.
Qed.

(** [C28] Reading the kernel's table: [scan_if] returns the first entry of the
    table that the interface and prefix restrictions admit and whose address
    agrees with the target in the first [plen] bits of the entry's own prefix
    (the whole address when no mask is used): the word-wise mask of the code
    is the prefix comparison, and its text scanner recovers every entry. *)
Theorem scan_if_first_match table target plen_target use_mask prov :
  Forall wf_kentry table → in6 target → nic_text prov → 0 ≤ plen_target ≤ 128 →
  scan_if (Some (if_inet6_text table)) target plen_target use_mask prov =
    (λ e, (ke_name e, ke_plen e)) <$>
      head (filter (wanted use_mask target plen_target (given prov)) table).
Proof.
  intros Hw Ht Hp Hpl. unfold scan_if. cbn [mbind option_bind].
  apply scan_loop_table; try done. pose proof (table_length table). lia.
Qed.

(** [C31] An unsolicited neighbour advertisement: whatever fails, either no
    packet leaves and the status is -1, or the packet handed to [sendto] goes
    to ff02::1 and is that of RFC 4861: type 136 with the override flag, the
    managed address as target, and the target link-layer address option with
    the six bytes of the interface; the status is 0 exactly when all 32 bytes
    were taken. *)
Theorem advertisement_wf env src name :
  in6 src → (∀ n sa, ua_hwaddr env n = Some sa → length sa = 14%nat) →
  ∃ status packet, ua_run env src name = Ret (status, packet) ∧
    match packet with
    | None => status = -1
    | Some (dst, payload) =>
        dst = [255; 2] ++ replicate 13 0 ++ [1] ∧
        (∃ sa, ua_hwaddr env (take 15 (cstr name)) = Some sa ∧
          payload = [136; 0; 0; 0; 32; 0; 0; 0] ++ src ++ [2; 1] ++ take 6 sa) ∧
        length payload = 32%nat ∧ (status = 0 ↔ ua_sendto env = 32)
    end.
Proof.
  intros [Hs _] Hsa. unfold ua_run.
  repeat (destruct (negb _); [eexists _, None; by split|]).
  destruct (ua_hwaddr env _) as [sa|] eqn:E; [|eexists _, None; by split].
  destruct (negb _); [eexists _, None; by split|]. pose proof (Hsa _ _ E) as Hl.
  rewrite na_payload_layout by (unfold HWADDR_LEN; lia).
  change (inet_pton6 BCAST_ADDR) with (Some ([255; 2] ++ replicate 13 0 ++ [1])).
  eexists _, (Some _). split; [reflexivity|]. cbv beta iota.
  assert (Hlen : length ([ND_NEIGHBOR_ADVERT; 0; 0; 0; 32; 0; 0; 0] ++ src ++
                         [ND_OPT_TARGET_LINKADDR; 1] ++ take HWADDR_LEN sa) = 32%nat).
  { rewrite !length_app, length_take, Hs. unfold HWADDR_LEN. cbn [length]. lia. }
  rewrite Hlen. split; [done|]. split; [by exists sa|]. split; [done|].
  change (Z.of_nat 32) with 32. destruct (ua_sendto env =? 32) eqn:E1; zbool; [done|].
  split; [done|lia].
Qed.

(** ** A kernel

    Two interfaces and a list of addresses, which it prints; the address is
    added in front.  Its entries are well formed by construction. *)

Module ListKernel.

Definition scope_of (a : list Z) : Z :=
  if in6_is_addr_linklocal a then 32
  else if (nth 0 a 0 =? 254) && (Z.land (nth 1 a 0) 192 =? 192) then 64
  else if bool_decide (a = replicate 15 0 ++ [1]) then 16
  else 0.

Definition ifindex (name : list Z) : option Z :=
  if bool_decide (name = str "eth0") then Some 2
  else if bool_decide (name = str "eth1") then Some 3
  else None.

Definition ifname (idx : Z) : list Z := if idx =? 2 then str "eth0" else str "eth1".

Definition good (e : kentry) : Prop := wf_kentry e ∧ ke_scope e = scope_of (ke_addr e).

#[export] Instance good_dec e : Decision (good e).
Proof.
  unfold good.
  refine (cast_if (decide ((length (ke_addr e) = 16%nat ∧ Forall is_byte (ke_addr e)) ∧
    0 < ke_idx e < 2147483648 ∧ 0 ≤ ke_plen e ≤ 128 ∧ 0 ≤ ke_scope e < 256 ∧ 0 ≤ ke_flags e < 256 ∧
    (0 < length (ke_name e) < IFNAMSIZ)%nat ∧
    Forall (λ c, 0 < c < 256 ∧ isspace c = false) (ke_name e) ∧
    ke_scope e = scope_of (ke_addr e)))).
  - abstract (destruct_and!; split; [constructor; done|done]).
  - abstract (intros [[[] ? ? ? ? ? ?] ?]; naive_solver).
Defined.

Definition kernel : Type := { t : list kentry | Forall good t }.

Definition add (e : kentry) (k : kernel) : option kernel :=
  match decide (good e) with
  | left H => Some (exist _ (e :: `k) (Forall_cons_2 _ _ _ H (proj2_sig k)))
  | right _ => None
  end.

Lemma good_remove l1 e l2 : Forall good (l1 ++ e :: l2) → Forall good (l1 ++ l2).
Proof. rewrite !Forall_app. intros [? [_ ?]%Forall_cons_1]. by split. Qed.

(** The entry of an address on an interface, and the lists around it. *)
Fixpoint find_entry (a name : list Z) (plen : Z) (before t : list kentry)
    : option (list kentry * list kentry) :=
  match t with
  | [] => None
  | e :: t' =>
      if bool_decide (ke_addr e = a ∧ ke_name e = name ∧ ke_plen e = plen)
      then Some (before, t') else find_entry a name plen (before ++ [e]) t'
  end.

Lemma find_entry_spec a name plen before t l1 l2 :
  find_entry a name plen before t = Some (l1, l2) →
  ∃ e, before ++ t = l1 ++ e :: l2 ∧ ke_addr e = a ∧ ke_plen e = plen ∧ ke_name e = name.
Proof.
  revert before. induction t as [|e t IH]; intros before; [done|]. cbn [find_entry].
  destruct (bool_decide _) eqn:E; zbool.
  - intros [= <- <-]. exists e. naive_solver.
  - intros H. destruct (IH _ H) as (e' & Heq & ?). exists e'. by rewrite <-Heq, <-app_assoc.
Qed.

Definition remove (a name : list Z) (plen : Z) (k : kernel) : option kernel :=
  match find_entry a name plen [] (`k) as r return find_entry a name plen [] (`k) = r → _ with
  | Some (l1, l2) => λ H, Some (exist _ (l1 ++ l2)
      (match find_entry_spec _ _ _ _ _ _ _ H with
       | ex_intro _ e (conj Heq _) =>
           good_remove l1 e l2 (eq_ind _ (Forall good) (proj2_sig k) _ Heq)
       end))
  | None => λ _, None
  end eq_refl.

#[export] Instance kernel_ops : Kernel kernel := {
  k_if_inet6 k := Some (if_inet6_text (`k));
  k_socket _ := true;
  k_ifindex _ name := ifindex name;
  k_setaddr k a plen idx := add (Kentry a idx plen (scope_of a) 128 (ifname idx)) k;
  k_deladdr k a plen idx := remove a (ifname idx) plen k;
  k_ping k _ := (Ping true 64 [(1, 64, false)], k);
  k_ua k name := UaEnv true 2 true true (λ _, true)
                   (λ _, Some [82; 84; 0; 18; 52; 86; 0; 0; 0; 0; 0; 0; 0; 0]) true 32;
  k_send k _ _ := k;
  k_sleep k := k }.

Lemma ifindex_name name idx : ifindex name = Some idx → ifname idx = name.
Proof.
  unfold ifindex. destruct (bool_decide _) eqn:E1; [|destruct (bool_decide (name = str "eth1")) eqn:E2];
    zbool; intros [= <-]; by subst.
Qed.

Lemma remove_spec a name plen k k' :
  remove a name plen k = Some k' →
  ∃ e l1 l2, `k = l1 ++ e :: l2 ∧ `k' = l1 ++ l2 ∧ ke_addr e = a ∧ ke_plen e = plen ∧ ke_name e = name.
Proof.
  unfold remove. generalize (eq_refl (find_entry a name plen [] (`k))).
  generalize (find_entry a name plen [] (`k)) at 2 3. intros [[l1 l2]|] H; [|done].
  intros [= <-]. destruct (find_entry_spec _ _ _ _ _ _ _ H) as (e & Heq & ?). by exists e, l1, l2.
Qed.

#[export] Instance kernel_lawful : LawfulKernel kernel.
Proof.
  refine {| lk_table k := `k; lk_scope := scope_of |}.
  - intros [t Ht]. cbn. eapply Forall_impl; [|exact Ht]. by intros e [? _].
  - intros [t Ht]. cbn. eapply Forall_impl; [|exact Ht]. by intros e [_ ?].
  - done.
  - intros k k' name idx a plen Hi. cbn. unfold add. destruct (decide _); [|done].
    intros [= <-]. cbn. eexists _, [], (`k). by rewrite (ifindex_name _ _ Hi).
  - intros k k' name idx a plen Hi Hr. cbn in Hr. rewrite (ifindex_name _ _ Hi) in Hr.
    by apply remove_spec in Hr.
  - done.
  - done.
  - done.
Defined.

End ListKernel.
Import (hints) ListKernel.

(** ** Witnesses *)

(** 2001:db8::1/64 on eth0. *)
Definition host1 : list Z := [32; 1; 13; 184] ++ replicate 11 0 ++ [1].
Definition host5 : list Z := [32; 1; 13; 184] ++ replicate 11 0 ++ [5].
Definition entry1 : kentry := Kentry host1 2 64 0 128 (str "eth0").
Definition no_addresses : ListKernel.kernel := exist _ [] (Forall_nil_2 _).
Definition one_address : ListKernel.kernel :=
  default no_addresses (ListKernel.add entry1 no_addresses).

Lemma in6_host5 : in6 host5.
Proof. split; [reflexivity|]. by apply (bool_decide_unpack _). Qed.

Lemma entry1_wf : wf_kentry entry1.
Proof.
  assert (H : ListKernel.good entry1) by (by apply (bool_decide_unpack _)). apply H.
Qed.

Lemma scan_if_first_match_witness :
  scan_if (Some (if_inet6_text [entry1])) host5 0 true None = Some (str "eth0", 64).
Proof.
  refine (eq_trans (scan_if_first_match [entry1] host5 0 true None _ _ _ _) _).
  - apply Forall_cons_2; [apply entry1_wf|apply Forall_nil_2].
  - apply in6_host5.
  - done.
  - lia.
  - vm_compute. reflexivity.
Defined.


Lemma stop_then_status_witness :
  ∃ k', stop_addr6 host1 64 (Some (str "eth0")) one_address = (Ret OCF_SUCCESS, k') ∧
        status_addr6 host1 64 (Some (str "eth0")) k' = (Ret OCF_NOT_RUNNING, k').
Proof.
  assert (H : (stop_addr6 host1 64 (Some (str "eth0")) one_address).1 = Ret OCF_SUCCESS)
    by (vm_compute; reflexivity).
  destruct (stop_addr6 host1 64 (Some (str "eth0")) one_address) as [o k'] eqn:E.
  cbn in H. subst o. exists k'. split; [reflexivity|].
  destruct (stop_then_status host1 64 (Some (str "eth0"))) with (k := one_address) (k' := k')
    as (_ & Hst & _); [..|apply (proj2 Hst)].
  - split; [reflexivity|]. by apply (bool_decide_unpack _).
  - by apply (bool_decide_unpack _).
  - lia.
  - exact E.
  - vm_compute. lia.
Defined.

Lemma advertisement_wf_witness :
  ∃ status dst payload,
    ua_run (k_ua one_address (str "eth0")) host5 (str "eth0") = Ret (status, Some (dst, payload)) ∧
    length payload = 32%nat.
Proof.
  destruct (advertisement_wf (k_ua one_address (str "eth0")) host5 (str "eth0")) as (st & p & H & Hp).
  - apply in6_host5.
  - by intros n sa [= <-].
  - destruct p as [[dst payload]|].
    + exists st, dst, payload. split; [exact H|]. apply Hp.
    + exfalso. apply (f_equal (λ o, match o with Ret (_, None) => true | _ => false end)) in H.
      vm_compute in H. discriminate H.
Defined.
