(* ===== verification/IPv6Meta.v ===== *)
(** * IPv6addr: the meta-data (heartbeat/IPv6addr.c)

    The text the agent prints for "meta-data", what a reader of XML finds in it,
    and that the agent does what it announces. *)

From S2P Require Import Prelude CString IPv6Addr.
From stdpp Require Import strings.
#[local] Open Scope Z_scope.

(** ** Definitions *)

(** The lines of the text, with ['] for the double quotes. *)
Definition meta_data_lines : list string :=
  ["<?xml version='1.0'?>";
   "<!DOCTYPE resource-agent SYSTEM 'ra-api-1.dtd'>";
   "<resource-agent name='IPv6addr' version='1.0'>";
   "  <version>1.0</version>";
   "  <longdesc lang='en'>";
   "   This script manages IPv6 alias IPv6 addresses,It can add an IP6";
   "   alias, or remove one.";
   "  </longdesc>";
   "  <shortdesc lang='en'>Manages IPv6 aliases</shortdesc>";
   "  <parameters>";
   "    <parameter name='ipv6addr' unique='0' required='1'>";
   "      <longdesc lang='en'>";
   "	The IPv6 address this RA will manage ";
   "      </longdesc>";
   "      <shortdesc lang='en'>IPv6 address</shortdesc>";
   "      <content type='string' default='' />";
   "    </parameter>";
   "    <parameter name='cidr_netmask' unique='0'>";
   "      <longdesc lang='en'>";
   "	The netmask for the interface in CIDR format. (ie, 24).";
   "	The value of this parameter overwrites the value of _prefix_";
   "	of ipv6addr parameter.";
   "      </longdesc>";
   "      <shortdesc lang='en'>Netmask</shortdesc>";
   "      <content type='string' default='' />";
   "    </parameter>";
   "    <parameter name='nic' unique='0'>";
   "      <longdesc lang='en'>";
   "	The base network interface on which the IPv6 address will";
   "	be brought online.";
   "      </longdesc>";
   "      <shortdesc lang='en'>Network interface</shortdesc>";
   "      <content type='string' default='' />";
   "    </parameter>";
   "  </parameters>";
   "  <actions>";
   "    <action name='start'   timeout='15s' />";
   "    <action name='stop'    timeout='15s' />";
   "    <action name='status'  timeout='15s' interval='15s' />";
   "    <action name='monitor' timeout='15s' interval='15s' />";
   "    <action name='validate-all'  timeout='5s' />";
   "    <action name='meta-data'  timeout='5s' />";
   "  </actions>";
   "</resource-agent>"]%string.

Definition meta_data : list Z :=
  concat ((λ l, ((λ c, if c =? 39 then 34 else c) <$> str l) ++ [10]) <$> meta_data_lines).

(** What it prints, and its result. *)
Definition meta_data_addr6 : list Z * Z := (meta_data ++ [10], OCF_SUCCESS).

(** ** Specification

    As much of XML as the text uses.  A tag is its name and attributes. *)

Inductive token : Type :=
| Open (name : list Z) (attrs : list (list Z * list Z))
| Empty (name : list Z) (attrs : list (list Z * list Z))
| Close (name : list Z)
| Declaration
| Text.

Definition name_char (c : Z) : bool :=
  (97 <=? c) && (c <=? 122) || (65 <=? c) && (c <=? 90) || (48 <=? c) && (c <=? 57)
  || (c =? 45) || (c =? 95).

(** The longest prefix of characters that satisfy [p], and the rest. *)
Fixpoint span (p : Z → bool) (l : list Z) : list Z * list Z :=
  match l with
  | c :: l' => if p c then let '(a, b) := span p l' in (c :: a, b) else ([], l)
  | [] => ([], [])
  end.

(** [ name="value"]... up to what is left in the tag: nothing, or a slash. *)
Fixpoint attributes (n : nat) (l : list Z) : option (list (list Z * list Z) * bool) :=
  match n with
  | O => None
  | S n' =>
      match (span isspace l).2 with
      | [] => Some ([], false)
      | [47] => Some ([], true)
      | l =>
          match span name_char l with
          | ((_ :: _) as nm, 61 :: 34 :: l) =>
              match span (λ c, negb (c =? 34)) l with
              | (v, 34 :: l) =>
                  '(attrs, e) ← attributes n' l; Some ((nm, v) :: attrs, e)
              | _ => None
              end
          | _ => None
          end
      end
  end.

(** The inside of a tag. *)
Definition tag (l : list Z) : option token :=
  match l with
  | 63 :: _ | 33 :: _ => Some Declaration
  | 47 :: nm => if forallb name_char nm then Some (Close nm) else None
  | _ =>
      match span name_char l with
      | ((_ :: _) as nm, l) =>
          '(attrs, e) ← attributes (S (length l)) l;
          Some (if e : bool then Empty nm attrs else Open nm attrs)
      | _ => None
      end
  end.

Fixpoint tokens (n : nat) (l : list Z) : option (list token) :=
  match n, l with
  | _, [] => Some []
  | O, _ => None
  | S n', 60 :: l =>
      match span (λ c, negb (c =? 62)) l with
      | (inside, 62 :: l) => t ← tag inside; ts ← tokens n' l; Some (t :: ts)
      | _ => None
      end
  | S n', _ => ts ← tokens n' (span (λ c, negb (c =? 60)) l).2; Some (Text :: ts)
  end.

(** Every element is closed, in order; [open] are those that still are. *)
Fixpoint nested (open : list (list Z)) (ts : list token) : bool :=
  match ts with
  | [] => bool_decide (open = [])
  | Open nm _ :: ts' => nested (nm :: open) ts'
  | Close nm :: ts' =>
      match open with o :: open' => bool_decide (o = nm) && nested open' ts' | [] => false end
  | _ :: ts' => nested open ts'
  end.

(** The [name]s of the elements of a kind. *)
Definition names_of (kind : list Z) (ts : list token) : list (list Z) :=
  omap (λ t, match t with
             | Open nm attrs | Empty nm attrs =>
                 if decide (nm = kind)
                 then snd <$> head (filter (λ a, a.1 = str "name") attrs) else None
             | _ => None
             end) ts.

(** ** Theorems *)

(** The text is well-formed XML.  It announces the parameters that main takes
    from its environment, and actions each of which runs the routine of its
    name. *)
Lemma meta_data_announces {K} `{Kernel K} :
  ∃ ts, tokens (length meta_data) meta_data = Some ts ∧ nested [] ts = true ∧
    names_of (str "parameter") ts = [str "ipv6addr"; str "cidr_netmask"; str "nic"] ∧
    names_of (str "action") ts
    = [str "start"; str "stop"; str "status"; str "monitor"; str "validate-all"; str "meta-data"] ∧
    (∀ addr6 plen nic,
       run_command (str "start") addr6 plen nic = start_addr6 addr6 plen nic ∧
       run_command (str "stop") addr6 plen nic = stop_addr6 addr6 plen nic ∧
       run_command (str "status") addr6 plen nic = status_addr6 addr6 plen nic ∧
       run_command (str "monitor") addr6 plen nic = monitor_addr6 addr6 plen ∧
       run_command (str "validate-all") addr6 plen nic = mret OCF_SUCCESS) ∧
    (∀ self more env, signals_ok env = true →
       ipv6addr_main (self :: str "meta-data" :: more) env = mret meta_data_addr6.2).
Proof.
  eexists. split; [vm_compute; reflexivity|]. split_and!; [vm_compute; reflexivity..| |].
  - intros. split_and!; reflexivity.
  - intros self more env Hs. unfold ipv6addr_main. by rewrite Hs.
Qed.
