(* ===== verification/SendArpLibnet.v ===== *)
(** * send_arp over libnet (tools/send_arp.libnet.c)

    Announces an address by pairs of ARP packets, a request and a reply.  The
    frames are what the program passes to libnet's builders; libnet itself,
    which lays them out and writes them, is outside.  Both variants of the
    libnet API the file supports are modelled. *)

From S2P Require Import Prelude CString Inet PidFile.
#[local] Open Scope Z_scope.

(** ** Definitions *)

Definition AUTO_MAC_ADDR : list Z := str "auto".
Definition ARPHRD_ETHER : Z := 1.
Definition ETHERTYPE_IP : Z := 2048.
Definition ETHERTYPE_ARP : Z := 2054.
Definition ARPOP_REQUEST : Z := 1.
Definition ARPOP_REPLY : Z := 2.

(** *** The PID file *)

(** [mkdir] succeeds, fails with EEXIST, or fails otherwise. *)
Inductive mkdir_res : Type := MkdirOk | MkdirExists | MkdirErr.

Definition create_pid_directory (stat : stat_res) (mkdir : mkdir_res) (stat2 : stat_res) : Z :=
  match stat with
  | StatErr => -1
  | StatDir => 0
  | StatNotDir => -1
  | StatNone =>
      match mkdir, stat2 with
      | MkdirOk, _ => 0
      | MkdirExists, StatDir => 0
      | _, _ => -1
      end
  end.

(** What the system answers while the PID file is made. *)
Record pid_env : Type := PidEnv {
  pe_stat : stat_res;
  pe_mkdir : mkdir_res;
  pe_stat2 : stat_res;
  pe_turns : list pid_turn;
  pe_getpid : Z;
  pe_written : Z }.

(** The result ([None] while the loop runs) and the processes killed. *)
Definition write_pid_file (pidfilename : list Z) (e : pid_env) : option Z * list Z :=
  if negb (hd 0 pidfilename =? 47) then (Some (-1), [])
  else if create_pid_directory (pe_stat e) (pe_mkdir e) (pe_stat2 e) <? 0 then (Some (-1), [])
  else match pid_loop (pe_turns e) with
  | (None, kills) => (None, kills)
  | (Some false, kills) => (Some (-1), kills)
  | (Some true, kills) =>
      let text := dec_u (pe_getpid e) in
      if (11 <=? length text)%nat then (Some (-1), kills)
      else if negb (pe_written e =? Z.of_nat (length text)) then (Some (-1), kills)
      else (Some 0, kills)
  end.

(** The default name: [pidflen] bytes for [PIDFILE_BASE] and the address. *)
Definition default_pidfile (PIDFILE_BASE ipaddr : list Z) : list Z :=
  let pidflen := (length PIDFILE_BASE + length ipaddr)%nat in
  cstr (snprintf_bytes pidflen (PIDFILE_BASE ++ ipaddr)).

(** *** The hardware address *)

(** [macaddr[i]]: the string and its terminator can be read. *)
Definition char_at (s : list Z) (i : nat) : outcome Z :=
  match (s ++ [0]) !! i with Some c => Ret c | None => Fault end.

Fixpoint convert_loop (n pos : nat) (macaddr : list Z) : outcome (list Z) :=
  match n with
  | O => Ret []
  | S n' =>
      c ← char_at macaddr 0;
      let pos := if c =? 58 then S pos else pos in
      b0 ← char_at macaddr pos;
      b1 ← char_at macaddr (S pos);
      rest ← convert_loop n' (pos + 2) macaddr;
      Ret (u8 (strtol 16 (cstr [b0; b1; 0])) :: rest)
  end.

Definition convert_macaddr (macaddr : list Z) : outcome (list Z) := convert_loop 6 0 macaddr.

(** *** Packets *)

(** The arguments of [libnet_build_ethernet] and [libnet_build_arp]. *)
Record ether : Type := Ether { e_dst : list Z; e_src : list Z; e_type : Z }.
Record arp : Type := Arp {
  a_hrd : Z; a_pro : Z; a_hln : Z; a_pln : Z; a_op : Z;
  a_sha : list Z; a_spa : list Z; a_tha : list Z; a_tpa : list Z }.

(** What libnet answers while a packet is made: [libnet_init_packet] (1.0
    only), the hardware address of the device, and the two builders. *)
Record lib_env : Type := LibEnv {
  le_init : bool;
  le_hw_addr : option (list Z);
  le_ethernet : bool;
  le_arp : bool }.

Definition bcast_mac : list Z := replicate 6 255.
Definition zero_mac : list Z := replicate 6 0.

(** [get_hw_addr]: the six bytes libnet reports, or -1. *)
Definition get_hw_addr (hw : option (list Z)) : Z * list Z :=
  match hw with Some mac => (0, take 6 mac) | None => (-1, []) end.

Definition target_mac (macaddr : list Z) (arptype : Z) : option (list Z) :=
  if arptype =? ARPOP_REQUEST then Some zero_mac
  else if arptype =? ARPOP_REPLY then Some macaddr
  else None.

Definition arp_fields (ip : Z) (macaddr target : list Z) (arptype : Z) : arp :=
  Arp ARPHRD_ETHER ETHERTYPE_IP 6 4 arptype macaddr (le_split 4 ip) target (le_split 4 ip).

(** libnet 1.0 *)
Definition mk_packet_1_0 (e : lib_env) (ip : Z) (macaddr : list Z) (arptype : Z)
    : option (ether * arp) :=
  if negb (le_init e) then None
  else
    let '(rc, device_mac) := get_hw_addr (le_hw_addr e) in
    if rc <? 0 then None
    else if negb (le_ethernet e) then None
    else
      target ← target_mac macaddr arptype;
      if negb (le_arp e) then None
      else Some (Ether bcast_mac device_mac ETHERTYPE_ARP, arp_fields ip macaddr target arptype).

(** libnet 1.1 *)
Definition mk_packet_1_1 (e : lib_env) (ip : Z) (macaddr : list Z) (arptype : Z)
    : option (ether * arp) :=
  target ← target_mac macaddr arptype;
  if negb (le_arp e) then None
  else
    let '(rc, device_mac) := get_hw_addr (le_hw_addr e) in
    if rc <? 0 then None
    else if negb (le_ethernet e) then None
    else Some (Ether bcast_mac device_mac ETHERTYPE_ARP, arp_fields ip macaddr target arptype).

(** *** main *)

(** What the program does, in order. *)
Inductive act : Type :=
| ASend (p : ether * arp)
| ASleep (ms : Z)
| AKill (pid : Z)
| AUnlink (file : list Z).

(** The loop: [n] of [repeatcount] turns are left, [c] is the last result,
    [results] what libnet's write returns, -1 when they run out. *)
Fixpoint send_loop (n : nat) (repeatcount j msinterval : Z) (request reply : ether * arp)
    (results : list Z) (c : Z) : Z * list act :=
  match n with
  | O => (c, [])
  | S n' =>
      let c := hd (-1) results in
      if c <? 0 then (c, [ASend request])
      else
        let c := hd (-1) (tl results) in
        if c <? 0 then (c, [ASend request; ASleep (Z.quot msinterval 2); ASend reply])
        else
          let '(c', acts) := send_loop n' repeatcount (j + 1) msinterval request reply
                               (tl (tl results)) c in
          (c', [ASend request; ASleep (Z.quot msinterval 2); ASend reply] ++
               (if negb (j =? repeatcount - 1) then [ASleep (Z.quot msinterval 2)] else []) ++ acts)
  end.

Record options : Type := Options {
  msinterval : Z;
  repeatcount : Z;
  pidfilename : option (list Z) }.

Fixpoint get_options (opts : list (Z * list Z)) (o : options) : option options :=
  match opts with
  | [] => Some o
  | (flag, optarg) :: opts' =>
      if flag =? 105 then get_options opts' (Options (atol optarg) (repeatcount o) (pidfilename o))
      else if flag =? 114 then get_options opts' (Options (msinterval o) (atoi optarg) (pidfilename o))
      else if flag =? 112 then get_options opts' (Options (msinterval o) (repeatcount o) (Some optarg))
      else None
  end.

(** The answers [main] gets: signals, PID file, hardware address of the
    device, opening the interface for the two packets, name resolution (32
    bits, -1 for an unknown name), and those for each packet. *)
Record main_env : Type := MainEnv {
  signals_ok : bool;
  pid_answers : pid_env;
  auto_mac : option (list Z);
  open_request : bool;
  open_reply : bool;
  resolved : Z;
  request_env : lib_env;
  reply_env : lib_env;
  write_results : list Z }.

Definition tolower (c : Z) : Z := if (65 <=? c) && (c <=? 90) then c + 32 else c.
Definition strcasecmp (a b : list Z) : Z := strcmp (tolower <$> a) (tolower <$> b).

(** Lines 232 to 321; [v11] chooses the API.  With libnet 1.0 the address is
    compared with [-1UL], which has 64 bits. *)
Definition announce (v11 : bool) (pidfile : list Z) (o : options) (src_mac : list Z) (e : main_env)
    : Z * list act :=
  let fail := (EXIT_FAILURE, [AUnlink pidfile]) in
  let unresolved := u32 (resolved e) =? (if v11 then UINT_MAX else ULONG_MAX) in
  let mk := if v11 then mk_packet_1_1 else mk_packet_1_0 in
  if (if v11 then negb (open_request e) || negb (open_reply e) || unresolved
      else unresolved || negb (open_request e))
  then fail
  else match mk (request_env e) (u32 (resolved e)) src_mac ARPOP_REQUEST,
             mk (reply_env e) (u32 (resolved e)) src_mac ARPOP_REPLY with
  | Some request, Some reply =>
      let '(c, acts) := send_loop (Z.to_nat (repeatcount o)) (repeatcount o) 0 (msinterval o)
                          request reply (write_results e) (-1) in
      ((if c <? 0 then EXIT_FAILURE else EXIT_SUCCESS), acts ++ [AUnlink pidfile])
  | _, _ => fail
  end.

(** The exit status ([None] while the PID file loop runs) and the actions. *)
Definition libnet_main (v11 : bool) (PIDFILE_BASE : list Z) (opts : list (Z * list Z))
    (operands : list (list Z)) (e : main_env) : outcome (option Z * list act) :=
  if negb (signals_ok e) then Ret (Some 1, [])
  else match get_options opts (Options 1000 1 None), operands with
  | Some o, [device; ipaddr; macaddr; broadcast; netmask] =>
      let pidfile := match pidfilename o with
                     | Some f => f
                     | None => default_pidfile PIDFILE_BASE ipaddr
                     end in
      match write_pid_file pidfile (pid_answers e) with
      | (None, kills) => Ret (None, AKill <$> kills)
      | (Some rc, kills) =>
          if rc <? 0 then Ret (Some EXIT_FAILURE, AKill <$> kills)
          else
            let finish (r : Z * list act) :=
              Ret (Some r.1, (AKill <$> kills) ++ r.2) in
            if strcasecmp macaddr AUTO_MAC_ADDR =? 0 then
              let '(rc, src_mac) := get_hw_addr (auto_mac e) in
              if rc <? 0 then finish (EXIT_FAILURE, [AUnlink pidfile])
              else finish (announce v11 pidfile o src_mac e)
            else
              src_mac ← convert_macaddr macaddr;
              finish (announce v11 pidfile o src_mac e)
      end
  | _, _ => Ret (Some 1, [])
  end.

(** ** Lemmas *)

(** So that a failed resolution goes unnoticed there. *)
Lemma unresolved_1_0 x : u32 x ≠ ULONG_MAX.
Proof.
  unfold u32, ULONG_MAX. pose proof (Z.mod_pos_bound x 4294967296 ltac:(lia)). lia.
Qed.

Lemma digit16_char c d :
  digit_of 16 c = Some d → 0 ≤ d < 16 ∧ (48 ≤ c ≤ 57 ∨ 97 ≤ c ≤ 102 ∨ 65 ≤ c ≤ 70).
Proof.
  unfold digit_of, isdigit. intros H.
  destruct ((48 <=? c) && (c <=? 57)) eqn:E1; [|destruct ((97 <=? c) && (c <=? 122)) eqn:E2;
    [|destruct ((65 <=? c) && (c <=? 90)) eqn:E3; [|done]]];
    (destruct (_ <? 16) eqn:E; [|done]); injection H as <-; lia.
Qed.

Lemma hex_char_not_space c d : digit_of 16 c = Some d → isspace c = false.
Proof.
  intros H. apply digit16_char in H. unfold isspace. apply orb_false_iff.
  split; [lia|]. apply andb_false_iff. right. lia.
Qed.

(** [strtol] of one or two hexadecimal digits, and of none. *)
Lemma strtol_pair c c' d d' :
  digit_of 16 c = Some d → digit_of 16 c' = Some d' → strtol 16 (cstr [c; c'; 0]) = d * 16 + d'.
Proof.
  intros H H'. pose proof (digit16_char _ _ H). pose proof (digit16_char _ _ H').
  unfold cstr. ztest. unfold strtol, scan_number. cbn [skip_spaces].
  rewrite (hex_char_not_space _ _ H), scan_sign_cons. ztest.
  unfold skip_0x. change (16 =? 16) with true. cbv iota.
  assert (Hs : span_digits 16 [c; c'] = ([d; d'], [])) by (cbn; by rewrite H, H').
  destruct c as [|p|p]; try lia. repeat (destruct p as [p|p|]; try (rewrite Hs; cbn; unfold LONG_MIN, LONG_MAX; lia)).
Qed.

Lemma strtol_single c d :
  digit_of 16 c = Some d → strtol 16 (cstr [c; 58; 0]) = d ∧ strtol 16 (cstr [58; c; 0]) = 0.
Proof.
  intros H. pose proof (digit16_char _ _ H). unfold cstr. ztest. cbn [Z.eqb].
  unfold strtol, scan_number. cbn [skip_spaces]. rewrite (hex_char_not_space _ _ H), scan_sign_cons. ztest.
  unfold skip_0x. change (16 =? 16) with true. cbv iota. split; [|reflexivity].
  assert (Hs : span_digits 16 [c; 58] = ([d], [58])) by (cbn; by rewrite H).
  destruct c as [|p|p]; try lia. repeat (destruct p as [p|p|]; try (rewrite Hs; cbn; unfold LONG_MIN, LONG_MAX; lia)).
Qed.

(** A loop in which every write succeeds. *)
Definition pair_acts (h : Z) (request reply : ether * arp) : list act :=
  [ASend request; ASleep h; ASend reply].

(** [n] pairs, half an interval between any two packets. *)
Fixpoint announcement (n : nat) (h : Z) (request reply : ether * arp) : list act :=
  match n with
  | O => []
  | S O => pair_acts h request reply
  | S n' => pair_acts h request reply ++ [ASleep h] ++ announcement n' h request reply
  end.

Lemma send_loop_all n r j ms request reply results c :
  Forall (λ x, 0 ≤ x) results → (2 * n ≤ length results)%nat → j + Z.of_nat n = r → (0 < n)%nat →
  ∃ c', send_loop n r j ms request reply results c =
          (c', announcement n (Z.quot ms 2) request reply) ∧ 0 ≤ c'.
Proof.
  revert j results c. induction n as [|n IH]; intros j results c Hres Hlen Hj Hn; [lia|].
  destruct results as [|c1 [|c2 results]]; cbn [length] in Hlen; [lia|lia|].
  apply Forall_cons_1 in Hres as [H1 [H2 Hres]%Forall_cons_1].
  cbn [send_loop hd tl]. rewrite (proj2 (Z.ltb_ge c1 0)), (proj2 (Z.ltb_ge c2 0)) by done.
  destruct n as [|n].
  - cbn [send_loop announcement]. exists c2. rewrite (proj2 (Z.eqb_eq j (r - 1))) by lia. by split.
  - destruct (IH (j + 1) results c2) as (c' & -> & Hc'); [done|lia|lia|lia|].
    exists c'. rewrite (proj2 (Z.eqb_neq j (r - 1))) by lia. by split.
Qed.

(** ** Properties *)



(** The default PID file: the buffer is one byte short, so the last
    character of the address is lost; an announcement of an address that
    differs in its last character only kills the running one. *)
Theorem pidfile_shared base ip x y pid e :
  c_text (base ++ ip) → c_text [x; y] → 0 < pid ≤ INT_MAX →
  pe_stat e = StatDir → hd 0 base = 47 →
  pe_turns e = [PidTurn Exists true (Some (dec_u pid)) true true; PidTurn Created true None true true] →
  pe_getpid e = pid + 1 → pe_written e = Z.of_nat (length (dec_u (pid + 1))) →
  default_pidfile base (ip ++ [x]) = base ++ ip ∧
  default_pidfile base (ip ++ [y]) = base ++ ip ∧
  write_pid_file (default_pidfile base (ip ++ [y])) e = (Some 0, [pid]).
Proof.
  unfold INT_MAX. intros Ht Hxy Hp Hst Hb Htu Hg Hw.
  assert (Hd : ∀ z, 0 < z < 256 → default_pidfile base (ip ++ [z]) = base ++ ip).
  { intros z Hz. unfold default_pidfile. rewrite app_assoc. rewrite length_app. cbn [length].
    rewrite Nat.add_assoc, Nat.add_1_r, <-length_app. cbn [snprintf_bytes]. rewrite take_app_length.
    by apply cstr_text. }
  apply Forall_cons_1 in Hxy as [Hx [Hy _]%Forall_cons_1].
  rewrite !Hd by done. split_and!; [done..|]. unfold write_pid_file.
  assert (Hhd : hd 0 (base ++ ip) = 47) by (destruct base; [discriminate Hb|exact Hb]).
  rewrite Hhd, Hst, Htu. cbn [Z.eqb negb create_pid_directory Z.ltb Z.compare].
  assert (Hlen : ∀ z, 0 ≤ z ≤ 2147483648 → (length (dec_u z) ≤ 10)%nat).
  { intros z Hz. pose proof (dec_u_length z 10 ltac:(lia) ltac:(lia) ltac:(lia)). lia. }
  assert (Hk : kill_target (dec_u pid) = Some pid).
  { rewrite <-(app_nil_r (dec_u pid)). by apply (kill_target_dec pid []). }
  cbn [pid_loop pt_excl pt_open pt_read pt_unlink pt_kill negb].
  rewrite take_ge by (apply Hlen; lia).
  destruct (dec_u pid) as [|z l] eqn:E; [change (kill_target []) with (Some 0) in Hk; injection Hk; lia|]. rewrite Hk, Hg, Hw, Z.eqb_refl.
  cbn [negb]. by rewrite (proj2 (Nat.leb_gt 11 _)) by (specialize (Hlen (pid + 1)); lia).
Qed.

(** ** Witnesses *)

Definition demo_lib : lib_env := LibEnv true (Some [82; 84; 0; 18; 52; 86]) true true.
Definition demo_env : main_env :=
  MainEnv true (PidEnv StatDir MkdirErr StatErr [PidTurn Created true None true true] 4242 4)
          (Some [82; 84; 0; 18; 52; 86]) true true 16885952 demo_lib demo_lib [42; 42; 42; 42].



Lemma pidfile_shared_witness :
  let e := PidEnv StatDir MkdirErr StatErr
             [PidTurn Exists true (Some (dec_u 4242)) true true; PidTurn Created true None true true]
             4243 4 in
  default_pidfile (str "/run/send_arp-") (str "10.0.0.2") = str "/run/send_arp-10.0.0." ∧
  write_pid_file (default_pidfile (str "/run/send_arp-") (str "10.0.0.2")) e = (Some 0, [4242]).
Proof.
  intros e.
  destruct (pidfile_shared (str "/run/send_arp-") (str "10.0.0.") 49 50 4242 e) as (_ & H1 & H2).
  - by apply (bool_decide_unpack _).
  - by apply (bool_decide_unpack _).
  - unfold INT_MAX. lia.
  - reflexivity.
  - reflexivity.
  - reflexivity.
  - reflexivity.
  - vm_compute. reflexivity.
  - split; [exact H1|exact H2].
Defined.
