(* ===== verification/SendArpLinux.v ===== *)
(** * send_arp for Linux, after arping (tools/send_arp.linux.c)

    The program sends ARP packets from a timer and counts the answers.  It is
    modelled in the configuration the build uses: with getifaddrs, without
    libsysfs, libcap and libidn.  Its global variables are split into what
    [main] fixes before the first packet ([arping]) and what changes afterwards
    ([astate]); signals and the arrival of a packet are events, which the code
    handles one at a time (it blocks SIGALRM and SIGINT while it looks at a
    packet; SIGTERM may interrupt it, but ends the program).  A failing
    [recvfrom] only makes the loop go round.  [finish] ends the program; the
    state monad keeps the state it ends in. *)

From S2P Require Import Prelude CString Inet.
#[local] Open Scope Z_scope.

(** ** Definitions *)

Definition ARPHRD_ETHER : Z := 1.
Definition ARPHRD_FDDI : Z := 774.
Definition ETH_P_IP : Z := 2048.
Definition ARPOP_REQUEST : Z := 1.
Definition ARPOP_REPLY : Z := 2.
Definition PACKET_HOST : Z := 0.
Definition PACKET_BROADCAST : Z := 1.
Definition PACKET_MULTICAST : Z := 2.
Definition AF_PACKET : Z := 17.
Definition IFF_UP : Z := 1.
Definition IFF_LOOPBACK : Z := 8.
Definition IFF_NOARP : Z := 128.
Definition DEFAULT_DEVICE : list Z := str "eth0".

(** A [sockaddr_ll] in a [sockaddr_storage]: the fields the program uses; 116
    bytes of the storage follow the header. *)
Record sll : Type := Sll {
  sll_ifindex : Z;
  sll_hatype : Z;
  sll_pkttype : Z;
  sll_halen : Z;
  sll_addr : list Z }.

(** The variables that do not change once packets are sent. *)
Record arping : Type := Arping {
  dad : bool;
  unsolicited : bool;
  advert : bool;
  quit_on_reply : bool;
  broadcast_only : bool;
  timeout : Z;
  src : list Z;
  dst : list Z;
  me : sll }.

(** The others; [he] differs from [me] in its address only, and [wire] is what
    has been given to [sendto], the latest packet first. *)
Record astate : Type := Astate {
  count : Z;
  unicasting : bool;
  he : list Z;
  start : Z * Z;
  last : Z * Z;
  sent : Z;
  brd_sent : Z;
  received : Z;
  brd_recv : Z;
  req_recv : Z;
  wire : list (list Z) }.

(** *** Time *)

Definition timersub (a b : Z * Z) : Z * Z :=
  let sec := a.1 - b.1 in
  let usec := a.2 - b.2 in
  if usec <? 0 then (sec - 1, usec + 1000000) else (sec, usec).

Definition timer_gt (a b : Z * Z) : bool :=
  if a.1 =? b.1 then b.2 <? a.2 else b.1 <? a.1.

(** *** Sending *)

(** The packet [send_pack] builds in its 256 bytes; an address longer than
    the storage, or one that does not fit, is a fault. *)
Definition arp_packet (advert : bool) (me_ : sll) (he_addr src dst : list Z) : option (list Z) :=
  let hrd := if u16 (sll_hatype me_) =? ARPHRD_FDDI then ARPHRD_ETHER else u16 (sll_hatype me_) in
  let hln := Z.to_nat (sll_halen me_) in
  b ← poke 0 (be_split 2 hrd) (replicate 256 0);
  b ← poke 2 (be_split 2 ETH_P_IP) b;
  b ← poke 4 [u8 (sll_halen me_)] b;
  b ← poke 5 [4] b;
  b ← poke 6 (be_split 2 (if advert then ARPOP_REPLY else ARPOP_REQUEST)) b;
  sha ← peek 0 hln (sll_addr me_);
  b ← poke 8 sha b;
  b ← poke (8 + hln) src b;
  tha ← peek 0 hln (if advert then sll_addr me_ else he_addr);
  b ← poke (8 + hln + 4) tha b;
  b ← poke (8 + hln + 4 + hln) dst b;
  peek 0 (8 + hln + 4 + hln + 4) b.

(** The state after [sendto] returned [err] for the packet [p]. *)
Definition after_send (now : Z * Z) (err : Z) (p : list Z) (s : astate) : astate :=
  if err =? Z.of_nat (length p)
  then Astate (count s) (unicasting s) (he s) (start s) now (s32 (sent s + 1))
         (if unicasting s then brd_sent s else s32 (brd_sent s + 1))
         (received s) (brd_recv s) (req_recv s) (p :: wire s)
  else Astate (count s) (unicasting s) (he s) (start s) (last s) (sent s) (brd_sent s)
         (received s) (brd_recv s) (req_recv s) (p :: wire s).

(** [now] is the clock. *)
Definition send_pack (a : arping) (now : Z * Z) (err : Z) : M astate Z :=
  s ← mgets id;
  match arp_packet (advert a) (me a) (he s) (src a) (dst a) with
  | None => mfault
  | Some p => mmodify (after_send now err p);; mret err
  end.

Definition finish (a : arping) : M astate unit :=
  s ← mgets id;
  if dad a then mexit (if received s =? 0 then 0 else 1)
  else if unsolicited a then mexit 0
  else mexit (if received s =? 0 then 1 else 0).

Definition set_start (tv : Z * Z) (s : astate) : astate :=
  Astate (count s) (unicasting s) (he s) tv (last s) (sent s) (brd_sent s) (received s)
         (brd_recv s) (req_recv s) (wire s).
Definition set_count (n : Z) (s : astate) : astate :=
  Astate n (unicasting s) (he s) (start s) (last s) (sent s) (brd_sent s) (received s)
         (brd_recv s) (req_recv s) (wire s).

(** [tv] and [now] are the two readings of the clock. *)
Definition catcher (a : arping) (tv now : Z * Z) (err : Z) : M astate unit :=
  s ← mgets id;
  (if (start s).1 =? 0 then mmodify (set_start tv) else mret tt);;
  s ← mgets id;
  mmodify (set_count (s32 (count s - 1)));;
  (if (count s =? 0)
      || (negb (timeout a =? 0) && timer_gt (timersub tv (start s)) (timeout a, 500000))
   then finish a else mret tt);;
  s ← mgets id;
  if ((last s).1 =? 0) || timer_gt (timersub tv (last s)) (0, 500000) then
    send_pack a now err;;
    s ← mgets id;
    if (count s =? 0) && unsolicited a then finish a else mret tt
  else mret tt.

(** *** Receiving *)

(** [recv_pack]'s tests, on the receive buffer (which is longer than any
    offset read), the length received and the sender's address. *)
Definition hardware_ok (from : sll) (hrd : Z) : bool :=
  (hrd =? u16 (sll_hatype from))
  || ((u16 (sll_hatype from) =? ARPHRD_FDDI) && (hrd =? ARPHRD_ETHER)).

Definition accepted (a : arping) (buf : list Z) (len : Z) (from : sll) : bool :=
  let hln := nth 4 buf 0 in
  let n := Z.to_nat hln in
  let op := be_combine (take 2 (drop 6 buf)) in
  let src_hw := take n (drop 8 buf) in
  let src_ip := take 4 (drop (8 + n) buf) in
  let dst_hw := take n (drop (8 + n + 4) buf) in
  let dst_ip := take 4 (drop (8 + n + 4 + n) buf) in
  let mine := take n (sll_addr (me a)) in
  if negb ((sll_pkttype from =? PACKET_HOST) || (sll_pkttype from =? PACKET_BROADCAST)
           || (sll_pkttype from =? PACKET_MULTICAST)) then false
  else if negb ((op =? ARPOP_REQUEST) || (op =? ARPOP_REPLY)) then false
  else if negb (hardware_ok from (be_combine (take 2 buf))) then false
  else if negb (be_combine (take 2 (drop 2 buf)) =? ETH_P_IP) then false
  else if negb (nth 5 buf 0 =? 4) then false
  else if negb (hln =? sll_halen (me a)) then false
  else if len <? 8 + 2 * (4 + hln) then false
  else if negb (dad a) then
    if negb (bool_decide (src_ip = dst a)) then false
    else if negb (bool_decide (src a = dst_ip)) then false
    else if negb (bool_decide (dst_hw = mine)) then false
    else true
  else
    if negb (bool_decide (src_ip = dst a)) then false
    else if bool_decide (src_hw = mine) then false
    else if negb (bool_decide (src a = replicate 4 0)) && negb (bool_decide (src a = dst_ip)) then false
    else true.

(** The counters, lines 528 to 532. *)
Definition count_reply (buf : list Z) (from : sll) (s : astate) : astate :=
  Astate (count s) (unicasting s) (he s) (start s) (last s) (sent s) (brd_sent s)
    (s32 (received s + 1))
    (if sll_pkttype from =? PACKET_HOST then brd_recv s else s32 (brd_recv s + 1))
    (if be_combine (take 2 (drop 6 buf)) =? ARPOP_REQUEST then s32 (req_recv s + 1)
     else req_recv s)
    (wire s).

(** The next packets go to the sender, lines 536 and 537. *)
Definition learn_address (a : arping) (buf : list Z) (s : astate) : astate :=
  let n := Z.to_nat (sll_halen (me a)) in
  Astate (count s) true (take n (drop 8 buf) ++ drop n (he s)) (start s) (last s)
    (sent s) (brd_sent s) (received s) (brd_recv s) (req_recv s) (wire s).

Definition recv_pack (a : arping) (buf : list Z) (len : Z) (from : sll) : M astate Z :=
  if negb (accepted a buf len from) then mret 0
  else
    mmodify (count_reply buf from);;
    s ← mgets id;
    (if quit_on_reply a || ((count s =? 0) && (received s =? sent s)) then finish a else mret tt);;
    (if negb (broadcast_only a) then mmodify (learn_address a buf) else mret tt);;
    mret 1.

(** *** The loop *)

(** [ESigint] is SIGINT; [EKilled] is SIGTERM or SIGPIPE. *)
Inductive aevent : Type :=
| EAlarm (tv now : Z * Z) (err : Z)
| ERecv (buf : list Z) (len : Z) (from : sll)
| ESigint
| EKilled.

Definition byebye : M astate unit := mexit 0.

Definition handle (a : arping) (e : aevent) : M astate unit :=
  match e with
  | EAlarm tv now err => catcher a tv now err
  | ERecv buf len from => recv_pack a buf len from;; mret tt
  | ESigint => finish a
  | EKilled => byebye
  end.

Fixpoint arp_run (a : arping) (es : list aevent) : M astate unit :=
  match es with
  | [] => mret tt
  | e :: es' => handle a e;; arp_run a es'
  end.

(** *** Finding the device *)

Record ifaddr : Type := Ifaddr {
  ifa_family : option Z;          (* [None] without [ifa_addr] *)
  ifa_name : list Z;
  ifa_flags : Z;
  ifa_halen : Z;
  ifa_broadaddr : option (Z * list Z) }.  (* its [sll_halen] and [sll_addr] *)

(** [ifa_freed]: the entry [ifa] points to has been given to [freeifaddrs]. *)
Record device : Type := Device {
  name : option (list Z);
  ifindex : Z;
  ifa : option ifaddr;
  ifa_freed : bool }.

(** -1 when the interface cannot be used; the program ends if [fatal]. *)
Definition check_ifflags (dad : bool) (ifflags : Z) (fatal : bool) : outcome Z :=
  if Z.land ifflags IFF_UP =? 0 then (if fatal then Exited 2 else Ret (-1))
  else if negb (Z.land ifflags (Z.lor IFF_NOARP IFF_LOOPBACK) =? 0)
  then (if fatal then Exited (if dad then 0 else 2) else Ret (-1))
  else Ret 0.

Definition is_some {A} (o : option A) : bool := match o with Some _ => true | None => false end.

(** The loop over the addresses: how many it took (it stops at the second) and
    the last one. *)
Fixpoint ifaddrs_loop (dad : bool) (nm : option (list Z)) (l : list ifaddr) (count : nat)
    (found : option ifaddr) : outcome (nat * option ifaddr) :=
  match l with
  | [] => Ret (count, found)
  | i :: l' =>
      if negb (match ifa_family i with Some f => f =? AF_PACKET | None => false end)
      then ifaddrs_loop dad nm l' count found
      else if match nm with Some n => negb (strcmp (ifa_name i) n =? 0) | None => false end
      then ifaddrs_loop dad nm l' count found
      else
        rc ← check_ifflags dad (ifa_flags i) (is_some nm);
        if rc <? 0 then ifaddrs_loop dad nm l' count found
        else if ifa_halen i =? 0 then ifaddrs_loop dad nm l' count found
        else if negb (is_some (ifa_broadaddr i)) then ifaddrs_loop dad nm l' count found
        else if (0 <? count)%nat then Ret (S count, Some i)
        else ifaddrs_loop dad nm l' (S count) (Some i)
  end.

(** [addrs] is what [getifaddrs] gives, [None] when it fails. *)
Definition find_device_by_ifaddrs (dad : bool) (dev : device) (addrs : option (list ifaddr))
    (if_nametoindex : list Z → Z) : outcome (Z * device) :=
  match addrs with
  | None => Ret (-1, dev)
  | Some l =>
      '(count, found) ← ifaddrs_loop dad (name dev) l 0 (ifa dev);
      match found with
      | Some i =>
          if (count =? 1)%nat then
            let idx := if_nametoindex (ifa_name i) in
            if idx =? 0 then Ret (-1, Device (name dev) 0 found true)
            else Ret (0, Device (Some (ifa_name i)) idx found false)
          else Ret (1, Device (name dev) (ifindex dev) found false)
      | None => Ret (1, dev)
      end
  end.

(** Built without libsysfs. *)
Definition find_device_by_sysfs : Z := -1.

(** The answers for the ioctl method: a socket, SIOCGIFFLAGS and SIOCGIFINDEX
    for a name, and the names SIOCGIFCONF lists ([None] when it fails or the
    buffer cannot be made large enough). *)
Record ioctl_env : Type := IoctlEnv {
  io_socket : bool;
  io_flags : list Z → option Z;
  io_index : list Z → option Z;
  io_conf : option (list (list Z)) }.

(** [ifr_flags] and [ifr_ifindex] share the union of the request: storing the
    flags changes the low half of the index. *)
Definition overlay_flags (word flags : Z) : Z := s32 (word - word mod 65536 + u16 flags).

(** The union, which holds [word] before, is returned too; after 0 it is the
    index. *)
Definition check_device_by_ioctl (dad : bool) (e : ioctl_env) (nm : list Z) (word : Z) (fatal : bool)
    : outcome (Z * Z) :=
  match io_flags e nm with
  | None => Ret (-1, word)
  | Some flags =>
      rc ← check_ifflags dad flags fatal;
      if rc <? 0 then Ret (1, overlay_flags word flags)
      else match io_index e nm with
      | None => Ret (-1, overlay_flags word flags)
      | Some idx => Ret (0, idx)
      end
  end.

(** The loop over SIOCGIFCONF's list: [cur] is the name in [ifrbuf], which is
    what is tested, and is replaced by the listed one only after the test. *)
Fixpoint ioctl_loop (dad : bool) (e : ioctl_env) (names : list (list Z)) (cur : list Z) (word : Z)
    (count : nat) : outcome (nat * Z * list Z) :=
  match names with
  | [] => Ret (count, word, cur)
  | nm :: names' =>
      '(rc, word) ← check_device_by_ioctl dad e cur word false;
      if negb (rc =? 0) then ioctl_loop dad e names' cur word count
      else if (0 <? count)%nat then Ret (S count, word, nm)
      else ioctl_loop dad e names' nm word (S count)
  end.

Definition find_device_by_ioctl (dad : bool) (dev : device) (e : ioctl_env) : outcome (Z * device) :=
  if negb (io_socket e) then Ret (-1, dev)
  else
    let conclude (count : nat) (idx : Z) (nm : list Z) :=
      let dev := if (count =? 1)%nat then Device (Some nm) idx (ifa dev) (ifa_freed dev) else dev in
      (if ifindex dev =? 0 then 1 else 0, dev) in
    match name dev with
    | Some nm =>
        let nm := take 15 (cstr nm) in
        '(rc, idx) ← check_device_by_ioctl dad e nm 0 true;
        if negb (rc =? 0) then Ret (-1, dev) else Ret (conclude 1%nat idx nm)
    | None =>
        match io_conf e with
        | None => Ret (-1, dev)
        | Some names =>
            '(count, idx, nm) ← ioctl_loop dad e names [] 0 0;
            Ret (conclude count idx nm)
        end
    end.

Definition find_device (dad : bool) (dev : device) (addrs : option (list ifaddr))
    (if_nametoindex : list Z → Z) (e : ioctl_env) : outcome (Z * device) :=
  '(rc, dev) ← find_device_by_ifaddrs dad dev addrs if_nametoindex;
  if 0 <=? rc then Ret (rc, dev)
  else if 0 <=? find_device_by_sysfs then Ret (find_device_by_sysfs, dev)
  else find_device_by_ioctl dad dev e.

(** *** The broadcast address *)

(** The first [balen] bytes of [ba] are set; an address that was freed, or is
    missing or too short, is a fault. *)
Definition set_device_broadcast_ifaddrs_one (dev : device) (ba : list Z) (balen : Z)
    : outcome (Z * list Z) :=
  match ifa dev with
  | None => Ret (-1, ba)
  | Some i =>
      if ifa_freed dev then Fault
      else match ifa_broadaddr i with
      | None => Fault
      | Some (halen, addr) =>
          if negb (halen =? balen) then Ret (-1, ba)
          else match (bs ← peek 0 (Z.to_nat halen) addr; poke 0 bs ba) with
          | Some ba' => Ret (0, ba')
          | None => Fault
          end
      end
  end.

Definition set_device_broadcast_fallback (ba : list Z) (balen : Z) : outcome (list Z) :=
  match poke 0 (replicate (Z.to_nat balen) 255) ba with
  | Some ba' => Ret ba'
  | None => Fault
  end.

Definition set_device_broadcast (dev : device) (ba : list Z) (balen : Z) : outcome (list Z) :=
  '(rc, ba) ← set_device_broadcast_ifaddrs_one dev ba balen;
  if rc =? 0 then Ret ba else set_device_broadcast_fallback ba balen.

(** *** Capabilities (without libcap)

    [U] is what the kernel knows of the process's user ids. *)

Section capabilities.
Context {U : Type} (getuid geteuid : U → Z) (setuid : U → Z → option U).

(** [limit_capabilities]: the effective user it remembers. *)
Definition limit_capabilities (u : U) : Z := geteuid u.

Definition modify_capability_raw (euid : Z) (on : bool) (u : U) : Z * U :=
  match setuid u (if on then euid else getuid u) with
  | Some u' => (0, u')
  | None => (-1, u)
  end.

Definition enable_capability_raw (euid : Z) (u : U) : Z * U := modify_capability_raw euid true u.
Definition disable_capability_raw (euid : Z) (u : U) : Z * U := modify_capability_raw euid false u.

(** The program ends with -1 when it cannot drop its privileges. *)
Definition drop_capabilities (u : U) : outcome U :=
  match setuid u (getuid u) with
  | Some u' => Ret u'
  | None => Exited 255
  end.

End capabilities.

(** *** main *)

Record aoptions : Type := Aoptions {
  o_broadcast_only : bool;
  o_dad : bool;
  o_quit_on_reply : bool;
  o_unsolicited : bool;
  o_advert : bool;
  o_hb_mode : bool;
  o_count : Z;
  o_timeout : Z;
  o_device : list Z;
  o_source : option (list Z) }.

Definition default_aoptions : aoptions :=
  Aoptions false false false false false false (-1) 0 DEFAULT_DEVICE None.

(** One option [getopt] returned; the counters [dad++] and the like are only
    ever tested, [-q] changes nothing but the messages. *)
Definition arp_option (opt : Z * list Z) (o : aoptions) : outcome aoptions :=
  let '(ch, optarg) := opt in
  let '(Aoptions b d f u ad hb c w dev s) := o in
  if ch =? 98 (* b *) then Ret (Aoptions true d f u ad hb c w dev s)
  else if ch =? 68 (* D *) then Ret (Aoptions b true true u ad hb c w dev s)
  else if ch =? 85 (* U *) then Ret (Aoptions b d f true ad hb c w dev s)
  else if ch =? 65 (* A *) then Ret (Aoptions b d f true true hb c w dev s)
  else if ch =? 113 (* q *) then Ret o
  else if ch =? 114 (* r *) then Ret (Aoptions b d f u ad true (atoi optarg) w dev s)
  else if ch =? 99 (* c *) then Ret (Aoptions b d f u ad hb (atoi optarg) w dev s)
  else if ch =? 119 (* w *) then Ret (Aoptions b d f u ad hb c (atoi optarg) dev s)
  else if ch =? 73 (* I *) then Ret (Aoptions b d f u ad hb c w optarg s)
  else if ch =? 102 (* f *) then Ret (Aoptions b d true u ad hb c w dev s)
  else if ch =? 115 (* s *) then Ret (Aoptions b d f u ad hb c w dev (Some optarg))
  else if ch =? 86 (* V *) then Exited 0
  else if (ch =? 112) || (ch =? 105) (* p, i *) then Ret (Aoptions b d f u ad true c w dev s)
  else Exited 2.

Fixpoint arp_options (opts : list (Z * list Z)) (o : aoptions) : outcome aoptions :=
  match opts with
  | [] => Ret o
  | opt :: opts' => o ← arp_option opt o; arp_options opts' o
  end.

(** The operands: the options as they then stand, and the target. *)
Definition arp_operands (o : aoptions) (operands : list (list Z)) : outcome (aoptions * list Z) :=
  if o_hb_mode o then
    match operands with
    | [dev; target; mac; broadcast; netmask] =>
        if negb (strcmp mac (str "auto") =? 0) then Exited 0
        else Ret (Aoptions (o_broadcast_only o) (o_dad o) (o_quit_on_reply o) true (o_advert o)
                    true (o_count o) (o_timeout o) dev (o_source o), target)
    | _ => Exited 2
    end
  else
    match operands with
    | [target] => Ret (o, target)
    | _ => Exited 2
    end.

(** What the system answers to [main]. *)
Record main_env : Type := MainEnv {
  packet_socket : bool;
  getifaddrs : option (list ifaddr);
  if_nametoindex : list Z → Z;
  ioctls : ioctl_env;
  gethostbyname2 : list Z → option (list Z);  (* the 4 bytes *)
  probe_socket : bool;
  probe_bind : list Z → bool;                 (* to this source address *)
  probe_connect : option (list Z);            (* the local address [getsockname] gives *)
  bind_device : Z → option sll;               (* bind to an index, and [getsockname] *)
  drop_ok : bool }.

(** [src] after the probe of lines 1225 to 1269. *)
Definition probe_source (dad : bool) (src : list Z) (e : main_env) : outcome (list Z) :=
  let zero := bool_decide (src = replicate 4 0) in
  if dad && zero then Ret src
  else if negb (probe_socket e) then Exited 2
  else if negb zero then (if probe_bind e src then Ret src else Exited 2)
  else if negb dad then
    match probe_connect e with Some local => Ret local | None => Exited 2 end
  else Ret src.

(** [main] between the arguments and the first packet. *)
Definition arp_prepare (o : aoptions) (target : list Z) (e : main_env) : outcome (arping * astate) :=
  let nm := if hd 0 (o_device o) =? 0 then None else Some (o_device o) in
  if negb (packet_socket e) then Exited 2
  else
    '(rc, dev) ← find_device (o_dad o) (Device nm 0 None false) (getifaddrs e) (if_nametoindex e) (ioctls e);
    if rc <? 0 then Exited 2
    else if ifindex dev =? 0 then Exited 2
    else
      dst ← match inet_aton target with
            | Some a => Ret a
            | None => match gethostbyname2 e target with Some a => Ret a | None => Exited 2 end
            end;
      src ← match o_source o with
            | None => Ret (replicate 4 0)
            | Some s => match inet_aton s with Some a => Ret a | None => Exited 2 end
            end;
      let src := if negb (o_dad o) && o_unsolicited o && bool_decide (src = replicate 4 0)
                 then dst else src in
      src ← probe_source (o_dad o) src e;
      me ← match bind_device e (ifindex dev) with Some m => Ret m | None => Exited 2 end;
      if sll_halen me =? 0 then Exited (if o_dad o then 0 else 2)
      else
        he ← set_device_broadcast dev (sll_addr me) (sll_halen me);
        if bool_decide (src = replicate 4 0) && negb (o_dad o) then Exited 2
        else if negb (drop_ok e) then Exited 255
        else Ret (Arping (o_dad o) (o_unsolicited o) (o_advert o) (o_quit_on_reply o)
                         (o_broadcast_only o) (o_timeout o) src dst me,
                  Astate (o_count o) false he (0, 0) (0, 0) 0 0 0 0 0 []).

(** [main] up to the first packet. *)
Definition arp_setup (opts : list (Z * list Z)) (operands : list (list Z)) (e : main_env)
    : outcome (arping * astate) :=
  o ← arp_options opts default_aoptions;
  '(o, target) ← arp_operands o operands;
  arp_prepare o target e.

(** The program: [Ret] while it runs, and the state it ends or is in. *)
Definition arp_main (opts : list (Z * list Z)) (operands : list (list Z)) (e : main_env)
    (first : (Z * Z) * (Z * Z) * Z) (events : list aevent) : outcome unit * option astate :=
  match arp_setup opts operands e with
  | Ret (a, s) =>
      let '(tv, now, err) := first in
      let '(r, s') := arp_run a (EAlarm tv now err :: events) s in (r, Some s')
  | Exited c => (Exited c, None)
  | Fault => (Fault, None)
  end.

(** ** Lemmas *)

(** *** The packet *)

Definition wf_me (m : sll) : Prop := 0 < sll_halen m ≤ 116 ∧ length (sll_addr m) = 116%nat.

(** The address bytes of an interface. *)
Definition hw (m : sll) : list Z := take (Z.to_nat (sll_halen m)) (sll_addr m).

Definition arp_hrd (m : sll) : Z :=
  if u16 (sll_hatype m) =? ARPHRD_FDDI then ARPHRD_ETHER else u16 (sll_hatype m).

(** An ARP packet: header, sender and target. *)
Definition arp_bytes (hrd hln op : Z) (sha spa tha tpa : list Z) : list Z :=
  be_split 2 hrd ++ be_split 2 ETH_P_IP ++ [hln; 4] ++ be_split 2 op ++ sha ++ spa ++ tha ++ tpa.

Lemma hw_length m : wf_me m → length (hw m) = Z.to_nat (sll_halen m).
Proof. intros [H1 H2]. unfold hw. rewrite length_take. lia. Qed.

Lemma arp_packet_run adv m h s d :
  wf_me m → length h = 116%nat → length s = 4%nat → length d = 4%nat →
  arp_packet adv m h s d =
    Some (arp_bytes (arp_hrd m) (sll_halen m) (if adv then ARPOP_REPLY else ARPOP_REQUEST)
            (hw m) s (if adv then hw m else take (Z.to_nat (sll_halen m)) h) d).
Proof.
  intros Hm Hh Hs Hd. pose proof (hw_length m Hm) as Hhw. destruct Hm as [Hl Ha].
  unfold arp_packet. fold (arp_hrd m). set (n := Z.to_nat (sll_halen m)) in *.
  assert (Hn : (n ≤ 116)%nat) by lia. change (replicate 256 0) with ([] ++ replicate 256 0).
  rewrite (poke_next [] 256 _ 0 254) by (rewrite ?be_split_length; cbn; lia).
  cbn [mbind option_bind]. rewrite app_nil_l.
  rewrite (poke_next _ 254 _ 2 252) by (rewrite ?be_split_length; cbn; lia). cbn [mbind option_bind].
  rewrite (poke_next _ 252 _ 4 251) by (rewrite ?length_app, ?be_split_length; cbn; lia).
  cbn [mbind option_bind].
  rewrite (poke_next _ 251 _ 5 250) by (rewrite ?length_app, ?be_split_length; cbn; lia).
  cbn [mbind option_bind].
  rewrite (poke_next _ 250 _ 6 248) by (rewrite ?length_app, ?be_split_length; cbn; lia).
  cbn [mbind option_bind]. rewrite (peek_Some 0 n (sll_addr m)) by lia. cbn [mbind option_bind].
  rewrite drop_0. change (take n (sll_addr m)) with (hw m).
  rewrite (poke_next _ 248 _ 8 (248 - n)) by (rewrite ?length_app, ?be_split_length, ?Hhw; cbn; lia).
  cbn [mbind option_bind].
  rewrite (poke_next _ (248 - n) _ (8 + n) (244 - n))
    by (rewrite ?length_app, ?be_split_length, ?Hhw; cbn; lia). cbn [mbind option_bind].
  set (t := if adv then hw m else take n h).
  assert (Ht : peek 0 n (if adv then sll_addr m else h) = Some t ∧ length t = n).
  { unfold t. destruct adv; (rewrite peek_Some by lia); rewrite drop_0; (split; [done|]);
      [done|rewrite length_take; lia]. }
  destruct Ht as [-> Ht]. cbn [mbind option_bind].
  rewrite (poke_next _ (244 - n) _ (8 + n + 4) (244 - n - n))
    by (rewrite ?length_app, ?be_split_length, ?Hhw, ?Ht; cbn; lia). cbn [mbind option_bind].
  rewrite (poke_next _ (244 - n - n) _ (8 + n + 4 + n) (240 - n - n))
    by (rewrite ?length_app, ?be_split_length, ?Hhw, ?Ht; cbn; lia). cbn [mbind option_bind].
  rewrite peek_Some by (rewrite ?length_app, ?be_split_length, ?Hhw, ?Ht; cbn; lia).
  rewrite drop_0, take_app_le by (rewrite ?length_app, ?be_split_length, ?Hhw, ?Ht; cbn; lia).
  rewrite take_ge by (rewrite ?length_app, ?be_split_length, ?Hhw, ?Ht; cbn; lia).
  unfold arp_bytes. rewrite u8_small by lia. by rewrite <-!app_assoc.
Qed.

Lemma arp_bytes_length hrd hln op sha spa tha tpa :
  length (arp_bytes hrd hln op sha spa tha tpa) =
    (8 + length sha + length spa + length tha + length tpa)%nat.
Proof. unfold arp_bytes. rewrite !length_app, !be_split_length. cbn [length]. lia. Qed.

(** Reading the fields back, from a buffer that begins with the packet. *)
Lemma arp_fields hrd hln op sha spa tha tpa n pad :
  0 ≤ hrd < 65536 → 0 ≤ op < 65536 → length sha = n → length spa = 4%nat → length tha = n →
  length tpa = 4%nat →
  let buf := arp_bytes hrd hln op sha spa tha tpa ++ pad in
  nth 4 buf 0 = hln ∧ nth 5 buf 0 = 4 ∧
  be_combine (take 2 buf) = hrd ∧ be_combine (take 2 (drop 2 buf)) = ETH_P_IP ∧
  be_combine (take 2 (drop 6 buf)) = op ∧
  take n (drop 8 buf) = sha ∧ take 4 (drop (8 + n) buf) = spa ∧
  take n (drop (8 + n + 4) buf) = tha ∧ take 4 (drop (8 + n + 4 + n) buf) = tpa.
Proof.
  intros Hh Ho L1 L2 L3 L4 buf.
  assert (Hbe : ∀ z, 0 ≤ z < 65536 → ∃ x y, be_split 2 z = [x; y] ∧ be_combine [x; y] = z).
  { intros z Hz. unfold be_split. exists (z / 256 mod 256), (z mod 256). split; [reflexivity|].
    unfold be_combine. cbn. pose proof (Z.div_mod z 256 ltac:(lia)).
    rewrite (Z.mod_small (z / 256)); [lia|]. split; [apply Z.div_pos; lia|].
    apply Z.div_lt_upper_bound; lia. }
  unfold buf, arp_bytes. destruct (Hbe hrd Hh) as (x & y & -> & Hx).
  destruct (Hbe op Ho) as (x' & y' & -> & Hx'). change (be_split 2 ETH_P_IP) with [8; 0].
  cbn [app]. cbn [take drop nth]. rewrite firstn_O, drop_0, Hx, Hx', <-!app_assoc.
  assert (Hdrop : ∀ k (l r : list Z), length l = k → drop k (l ++ r) = r)
    by (intros k l r <-; apply drop_app_length).
  assert (Htake : ∀ k (l r : list Z), length l = k → take k (l ++ r) = l)
    by (intros k l r <-; apply take_app_length).
  cbn [Nat.add drop].
  split_and!; try done; [by apply Htake|rewrite (Hdrop n) by done; by apply Htake| |].
  - rewrite <-drop_drop, (Hdrop n), (Hdrop 4%nat) by done. by apply Htake.
  - rewrite <-!drop_drop, (Hdrop n), (Hdrop 4%nat), (Hdrop n) by done. by apply Htake.
Qed.

(** *** Running the handlers *)

Definition exit_code (a : arping) (s : astate) : Z :=
  if dad a then (if received s =? 0 then 0 else 1)
  else if unsolicited a then 0
  else if received s =? 0 then 1 else 0.

Lemma finish_run a s : finish a s = (Exited (exit_code a s), s).
Proof. unfold finish, exit_code. munfold. by destruct (dad a), (unsolicited a). Qed.

(** The state after the clock has been looked at and [count--]. *)
Definition ticked (tv : Z * Z) (s : astate) : astate :=
  let s := if (start s).1 =? 0 then set_start tv s else s in set_count (s32 (count s - 1)) s.

Definition expired (a : arping) (tv : Z * Z) (s : astate) : bool :=
  (count s =? 0)
  || (negb (timeout a =? 0) && timer_gt (timersub tv (start (ticked tv s))) (timeout a, 500000)).

Definition due (tv : Z * Z) (s : astate) : bool :=
  ((last s).1 =? 0) || timer_gt (timersub tv (last s)) (0, 500000).

Lemma catcher_run a tv now err s :
  catcher a tv now err s =
    let s1 := ticked tv s in
    if expired a tv s then (Exited (exit_code a s1), s1)
    else if due tv s then
      match arp_packet (advert a) (me a) (he s) (src a) (dst a) with
      | None => (Fault, s1)
      | Some p =>
          let s2 := after_send now err p s1 in
          if (count s2 =? 0) && unsolicited a then (Exited (exit_code a s2), s2) else (Ret tt, s2)
      end
    else (Ret tt, s1).
Proof.
  unfold catcher, send_pack, expired, due, ticked. munfold. unfold id.
  destruct ((start s).1 =? 0); cbn [set_start set_count count start last he].
  all: destruct (_ || _); [by rewrite finish_run|].
  all: destruct (_ || _); [|done].
  all: destruct (arp_packet _ _ _ _ _) as [p|]; [|done].
  all: destruct (_ && unsolicited a); [by rewrite finish_run|done].
Qed.

Lemma recv_run a buf len from s :
  recv_pack a buf len from s =
    if negb (accepted a buf len from) then (Ret 0, s)
    else
      let s1 := count_reply buf from s in
      if quit_on_reply a || ((count s1 =? 0) && (received s1 =? sent s1))
      then (Exited (exit_code a s1), s1)
      else (Ret 1, if broadcast_only a then s1 else learn_address a buf s1).
Proof.
  unfold recv_pack. munfold. unfold id. destruct (negb _); [done|].
  destruct (_ || _); [by rewrite finish_run|]. by destruct (broadcast_only a).
Qed.

Lemma arp_run_cons a e es s :
  arp_run a (e :: es) s =
    match handle a e s with
    | (Ret _, s') => arp_run a es s'
    | r => r
    end.
Proof.
  cbn [arp_run]. munfold. destruct (handle a e s) as [[[]|c|] s']; reflexivity.
Qed.

(** *** Reachable states *)

Definition wf_arping (a : arping) : Prop :=
  wf_me (me a) ∧ length (src a) = 4%nat ∧ length (dst a) = 4%nat.

(** The receive buffer has 4096 bytes. *)
Definition valid_aevent (e : aevent) : Prop :=
  match e with ERecv buf _ _ => length buf = 4096%nat | _ => True end.

Definition packet_op (a : arping) : Z := if advert a then ARPOP_REPLY else ARPOP_REQUEST.

(** A packet of this run: from this host, about [src] and [dst]. *)
Definition own_packet (a : arping) (p : list Z) : Prop :=
  ∃ tha, length tha = length (hw (me a)) ∧ (advert a = true → tha = hw (me a)) ∧
    p = arp_bytes (arp_hrd (me a)) (sll_halen (me a)) (packet_op a) (hw (me a)) (src a) tha (dst a).

(** After [n] events, from a state with the broadcast address [he0]. *)
Record arp_inv (a : arping) (he0 : list Z) (n : nat) (s : astate) : Prop := {
  ai_sent : 0 ≤ brd_sent s ≤ sent s;
  ai_wire_sent : sent s ≤ Z.of_nat (length (wire s)) ≤ Z.of_nat n;
  ai_received : 0 ≤ received s ≤ Z.of_nat n;
  ai_brd_recv : 0 ≤ brd_recv s ≤ received s;
  ai_req_recv : 0 ≤ req_recv s ≤ received s;
  ai_he_length : length (he s) = 116%nat;
  ai_broadcast : unicasting s = false → he s = he0;
  ai_unicast : unicasting s = true → broadcast_only a = false ∧ 0 < received s;
  ai_wire : Forall (own_packet a) (wire s) }.

Definition first_state (c : Z) (he0 : list Z) : astate :=
  Astate c false he0 (0, 0) (0, 0) 0 0 0 0 0 [].

Lemma first_state_inv a c he0 : length he0 = 116%nat → arp_inv a he0 0 (first_state c he0).
Proof. intros H. constructor; cbn; try lia; try done. Qed.

Lemma arp_packet_own a s :
  wf_arping a → length (he s) = 116%nat →
  ∃ p, arp_packet (advert a) (me a) (he s) (src a) (dst a) = Some p ∧ own_packet a p ∧
       Z.of_nat (length p) = 16 + 2 * sll_halen (me a).
Proof.
  intros (Hm & Hs & Hd) Hh. rewrite arp_packet_run by done. eexists. split; [reflexivity|].
  pose proof (hw_length _ Hm) as Hl. destruct Hm as [Hb Hm].
  set (tha := if advert a then hw (me a) else _).
  assert (Ht : length tha = length (hw (me a)) ∧ (advert a = true → tha = hw (me a))).
  { unfold tha. destruct (advert a); [done|]. split; [|done]. rewrite length_take. lia. }
  destruct Ht as [Ht1 Ht2]. split; [exists tha; split; [done|]; split; done|].
  rewrite arp_bytes_length, Ht1, Hl, Hs, Hd. lia.
Qed.

Lemma ticked_fields tv s :
  let s' := ticked tv s in
  unicasting s' = unicasting s ∧ he s' = he s ∧ last s' = last s ∧ sent s' = sent s ∧
  brd_sent s' = brd_sent s ∧ received s' = received s ∧ brd_recv s' = brd_recv s ∧
  req_recv s' = req_recv s ∧ wire s' = wire s ∧ count s' = s32 (count s - 1).
Proof. unfold ticked. by destruct (_ =? 0). Qed.

Lemma arp_inv_ticked a he0 n tv s : arp_inv a he0 n s → arp_inv a he0 n (ticked tv s).
Proof.
  intros Hi. destruct (ticked_fields tv s) as (E1 & E2 & _ & E4 & E5 & E6 & E7 & E8 & E9 & _).
  destruct Hi. by constructor; rewrite ?E1, ?E2, ?E4, ?E5, ?E6, ?E7, ?E8, ?E9.
Qed.

Lemma arp_inv_S a he0 n s : arp_inv a he0 n s → arp_inv a he0 (S n) s.
Proof. intros []. constructor; auto; lia. Qed.

Lemma arp_inv_sent a he0 n now err p s :
  Z.of_nat (S n) ≤ INT_MAX → arp_inv a he0 n s → own_packet a p →
  arp_inv a he0 (S n) (after_send now err p s).
Proof.
  intros Hn [] Hp. unfold after_send.
  destruct (err =? _); constructor; cbn [sent brd_sent wire received brd_recv req_recv he unicasting length];
    rewrite ?s32_small by (unfold INT_MAX in *; lia); try done; try lia; try by constructor.
  destruct (unicasting s); lia.
Qed.

Lemma arp_inv_received a he0 n buf from s :
  Z.of_nat (S n) ≤ INT_MAX → arp_inv a he0 n s → arp_inv a he0 (S n) (count_reply buf from s).
Proof.
  intros Hn []. constructor; cbn [count_reply sent brd_sent wire received brd_recv req_recv he unicasting];
    rewrite ?s32_small by (unfold INT_MAX in *; lia); try done; try lia.
  - destruct (_ =? _); lia.
  - destruct (_ =? _); lia.
  - intros Hu. destruct (ai_unicast0 Hu). split; [done|lia].
Qed.

Lemma handle_inv a he0 n e s :
  wf_arping a → valid_aevent e → Z.of_nat (S n) ≤ INT_MAX → arp_inv a he0 n s →
  (handle a e s).1 ≠ Fault ∧ arp_inv a he0 (S n) (handle a e s).2.
Proof.
  intros Ha He Hn Hi. destruct e as [tv now err|buf len from| |]; cbn [handle];
    [| |rewrite finish_run; split; [done|by apply arp_inv_S]|split; [done|by apply arp_inv_S]].
  - rewrite catcher_run. cbv zeta. pose proof (arp_inv_ticked a he0 n tv s Hi) as Ht.
    destruct (expired a tv s); [split; [done|by apply arp_inv_S]|].
    destruct (due tv s); [|split; [done|by apply arp_inv_S]].
    destruct (arp_packet_own a s Ha (ai_he_length _ _ _ _ Hi)) as (p & -> & Hp & _).
    pose proof (arp_inv_sent a he0 n now err p _ Hn Ht Hp).
    by destruct (_ && unsolicited a).
  - munfold. rewrite recv_run. destruct (negb _); [split; [done|by apply arp_inv_S]|].
    pose proof (arp_inv_received a he0 n buf from s Hn Hi) as Hr. cbv zeta.
    destruct (_ || _); [done|]. destruct (broadcast_only a) eqn:Eb; [done|]. split; [done|].
    destruct Hr. constructor; try done; cbn [snd learn_address he unicasting received].
    + cbn [valid_aevent count_reply he] in *. destruct Ha as ([Hl _] & _).
      rewrite length_app, length_take, !length_drop, He. lia.
    + intros _. split; [done|]. cbn [count_reply received].
      rewrite s32_small by (unfold INT_MAX in *; destruct Hi; lia). destruct Hi. lia.
Qed.

(** *** The set-up *)

(** What the program relies on: the kernel's answers have the sizes the C types
    give them, and an interface [getifaddrs] lists has an index. *)
Record wf_main_env (e : main_env) : Prop := {
  we_index : ∀ l i, getifaddrs e = Some l → i ∈ l → if_nametoindex e (ifa_name i) ≠ 0;
  we_broad : ∀ l i halen addr, getifaddrs e = Some l → i ∈ l →
    ifa_broadaddr i = Some (halen, addr) → 0 ≤ halen ∧ (Z.to_nat halen ≤ length addr)%nat;
  we_host : ∀ n a, gethostbyname2 e n = Some a → length a = 4%nat;
  we_local : ∀ a, probe_connect e = Some a → length a = 4%nat;
  we_bind : ∀ i m, bind_device e i = Some m → 0 ≤ sll_halen m ≤ 116 ∧ length (sll_addr m) = 116%nat }.

(** The address entry the set-up keeps can be read. *)
Definition usable (dev : device) : Prop :=
  ifa_freed dev = false ∧
  ∀ i, ifa dev = Some i → ∃ halen addr, ifa_broadaddr i = Some (halen, addr) ∧
    0 ≤ halen ∧ (Z.to_nat halen ≤ length addr)%nat.

(** The exit codes of the set-up; 0 stands for success only under -D. *)
Definition arp_codes (d : bool) : list Z := if d then [0; 2; 255] else [2; 255].

Lemma arp_codes_2 d : 2 ∈ arp_codes d.
Proof. destruct d; set_solver. Qed.
Lemma arp_codes_255 d : 255 ∈ arp_codes d.
Proof. destruct d; set_solver. Qed.
Lemma arp_codes_dad (d : bool) : (if d then 0 else 2) ∈ arp_codes d.
Proof. destruct d; set_solver. Qed.
#[local] Hint Resolve arp_codes_2 arp_codes_255 arp_codes_dad : core.

Lemma check_ifflags_safe d f fatal : safe (arp_codes d) (λ _, True) (check_ifflags d f fatal).
Proof.
  unfold check_ifflags. destruct (Z.land f IFF_UP =? 0); [destruct fatal; cbn; auto|].
  destruct (negb _); [destruct fatal; cbn; auto|done].
Qed.

Lemma ifaddrs_loop_safe d nm l c0 found :
  safe (arp_codes d) (λ '(c, f), f = found ∨ ∃ i, f = Some i ∧ i ∈ l ∧ is_some (ifa_broadaddr i) = true)
    (ifaddrs_loop d nm l c0 found).
Proof.
  revert c0 found. induction l as [|i l IH]; intros c0 found; cbn [ifaddrs_loop]; [by left|].
  assert (Hskip : safe (arp_codes d) (λ '(c, f), f = found ∨ ∃ j, f = Some j ∧ j ∈ i :: l ∧
            is_some (ifa_broadaddr j) = true) (ifaddrs_loop d nm l c0 found)).
  { eapply safe_mono; [|apply IH]. intros [c f] [->|(j & -> & Hj & Hb)]; [by left|].
    right. exists j. split; [done|]. split; [by apply list_elem_of_further|done]. }
  destruct (negb _); [done|]. destruct (match nm with Some _ => _ | None => _ end); [done|].
  eapply safe_bind; [apply check_ifflags_safe|]. intros rc _. cbn beta.
  destruct (rc <? 0); [done|]. destruct (ifa_halen i =? 0); [done|].
  destruct (is_some (ifa_broadaddr i)) eqn:Eb; [|done]. cbn [negb].
  destruct (0 <? c0)%nat.
  - cbn. right. exists i. split; [done|]. split; [apply list_elem_of_here|done].
  - eapply safe_mono; [|apply IH]. intros [c f] [->|(j & -> & Hj & Hb)]; right.
    + exists i. split; [done|]. split; [apply list_elem_of_here|done].
    + exists j. split; [done|]. split; [by apply list_elem_of_further|done].
Qed.

Lemma find_device_by_ifaddrs_safe d nm e :
  wf_main_env e →
  safe (arp_codes d) (λ '(_, dev), usable dev)
    (find_device_by_ifaddrs d (Device nm 0 None false) (getifaddrs e) (if_nametoindex e)).
Proof.
  intros He. unfold find_device_by_ifaddrs. destruct (getifaddrs e) as [l|] eqn:El; [|by split].
  eapply safe_bind; [apply ifaddrs_loop_safe|]. cbn [ifa]. intros [c f] Hf. cbv beta iota.
  destruct f as [i|]; [|by split]. destruct Hf as [|(j & [= <-] & Hi & Hb)]; [done|].
  assert (Hu : ∀ n x, usable (Device n x (Some i) false)).
  { intros n x. split; [done|]. cbn [ifa]. intros j [= <-].
    destruct (ifa_broadaddr i) as [[halen addr]|] eqn:E; [|done]. exists halen, addr.
    split; [done|]. by apply (we_broad e He l i). }
  destruct (c =? 1)%nat; [|apply Hu]. cbv zeta.
  destruct (if_nametoindex e (ifa_name i) =? 0) eqn:Ex; zbool; [by destruct (we_index e He l i)|apply Hu].
Qed.

Lemma check_device_by_ioctl_safe d e nm w fatal :
  safe (arp_codes d) (λ _, True) (check_device_by_ioctl d e nm w fatal).
Proof.
  unfold check_device_by_ioctl. destruct (io_flags e nm); [|done].
  eapply safe_bind; [apply check_ifflags_safe|]. intros rc _. cbn beta.
  destruct (rc <? 0); [done|]. by destruct (io_index e nm).
Qed.

Lemma ioctl_loop_safe d e names cur w c : safe (arp_codes d) (λ _, True) (ioctl_loop d e names cur w c).
Proof.
  revert cur w c. induction names as [|nm names IH]; intros cur w c; cbn [ioctl_loop]; [done|].
  eapply safe_bind; [apply check_device_by_ioctl_safe|]. intros [rc i] _. cbv beta iota.
  destruct (negb _); [apply IH|]. destruct (0 <? c)%nat; [done|apply IH].
Qed.

Lemma find_device_safe d nm e :
  wf_main_env e →
  safe (arp_codes d) (λ '(_, dev), usable dev)
    (find_device d (Device nm 0 None false) (getifaddrs e) (if_nametoindex e) (ioctls e)).
Proof.
  intros He. unfold find_device. eapply safe_bind; [by apply find_device_by_ifaddrs_safe|].
  intros [rc dev] Hd. cbv beta iota. destruct (0 <=? rc); [done|]. cbn [Z.leb find_device_by_sysfs].
  unfold find_device_by_sysfs. cbn [Z.leb Z.compare]. unfold find_device_by_ioctl.
  destruct (io_socket (ioctls e)); [|done]. cbn [negb]. cbv zeta.
  destruct (name dev) as [n|].
  - eapply safe_bind; [apply check_device_by_ioctl_safe|]. intros [rc' i] _. cbv beta iota.
    by destruct (negb _).
  - destruct (io_conf (ioctls e)) as [names|]; [|done].
    eapply safe_bind; [apply ioctl_loop_safe|]. intros [[c i] n] _. cbv beta iota.
    by destruct (c =? 1)%nat.
Qed.

Lemma set_device_broadcast_safe dev ba h codes :
  usable dev → length ba = 116%nat → 0 ≤ h ≤ 116 →
  safe codes (λ b, length b = 116%nat) (set_device_broadcast dev ba h).
Proof.
  intros [Hf Hu] Hl Hh. unfold set_device_broadcast.
  eapply (safe_bind _ (λ '(_, b), length b = 116%nat)).
  - unfold set_device_broadcast_ifaddrs_one. destruct (ifa dev) as [i|]; [|done].
    destruct (Hu i eq_refl) as (halen & addr & -> & Hhl & Ha). rewrite Hf.
    destruct (halen =? h) eqn:E; zbool; [|done]. subst halen. cbn [negb].
    rewrite peek_Some by lia. cbn [mbind option_bind].
    assert (Ht : length (take (Z.to_nat h) (drop 0 addr)) = Z.to_nat h)
      by (rewrite drop_0, length_take; lia).
    destruct (poke 0 _ ba) as [b|] eqn:Ep; [cbn; by rewrite (poke_length _ _ _ _ Ep)|].
    rewrite poke_Some in Ep by (rewrite Ht; lia). done.
  - intros [rc b] Hb. cbv beta iota. destruct (rc =? 0); [done|].
    unfold set_device_broadcast_fallback.
    destruct (poke 0 _ b) as [b'|] eqn:Ep; [cbn; by rewrite (poke_length _ _ _ _ Ep)|].
    rewrite poke_Some in Ep by (rewrite length_replicate; lia). done.
Qed.

Lemma probe_source_safe d src e :
  wf_main_env e → length src = 4%nat →
  safe (arp_codes d) (λ s, length s = 4%nat ∧ (src ≠ replicate 4 0 → s = src)) (probe_source d src e).
Proof.
  intros He Hs. unfold probe_source. cbv zeta. destruct (d && _); [done|].
  destruct (probe_socket e); [|cbn; auto]. cbn [negb].
  case_bool_decide as Hz; cbn [negb]; [|destruct (probe_bind e src); cbn; auto].
  destruct d; [done|]. cbn [negb]. destruct (probe_connect e) as [l|] eqn:E; [|cbn; set_solver].
  split; [by apply (we_local e He)|done].
Qed.

(** What [main] has prepared when it sends the first packet. *)
Record prepared (o : aoptions) (target : list Z) (e : main_env) (a : arping) (s : astate) : Prop := {
  pr_wf : wf_arping a;
  pr_state : ∃ he0, length he0 = 116%nat ∧ s = first_state (o_count o) he0;
  pr_dad : dad a = o_dad o;
  pr_unsolicited : unsolicited a = o_unsolicited o;
  pr_advert : advert a = o_advert o;
  pr_quit : quit_on_reply a = o_quit_on_reply o;
  pr_timeout : timeout a = o_timeout o;
  pr_bound : ∃ i, bind_device e i = Some (me a);
  pr_dst : ∀ t, inet_aton target = Some t → dst a = t;
  pr_src : ∀ t, o_dad o = false → o_unsolicited o = true → o_source o = None →
    inet_aton target = Some t → t ≠ replicate 4 0 → src a = t }.

Lemma arp_prepare_safe o target e :
  wf_main_env e →
  safe (arp_codes (o_dad o)) (λ '(a, s), prepared o target e a s) (arp_prepare o target e).
Proof.
  intros He. unfold arp_prepare. cbv zeta. destruct (packet_socket e); [|cbn; auto]. cbn [negb].
  eapply safe_bind; [by apply find_device_safe|]. intros [rc dev] Hdev. cbv beta iota.
  destruct (rc <? 0); [cbn; auto|]. destruct (ifindex dev =? 0); [cbn; auto|].
  eapply (safe_bind _ (λ d, length d = 4%nat ∧ ∀ t, inet_aton target = Some t → d = t)).
  { destruct (inet_aton target) as [t|] eqn:Et.
    - cbn. split; [by eapply inet_aton_length|]. by intros t' [= <-].
    - destruct (gethostbyname2 e target) as [t|] eqn:Eh; [|cbn; auto].
      cbn. split; [by eapply (we_host e He)|done]. }
  intros d [Hd Hdt]. cbv beta.
  eapply (safe_bind _ (λ s, length s = 4%nat ∧ (o_source o = None → s = replicate 4 0))).
  { destruct (o_source o) as [s|]; [|done].
    destruct (inet_aton s) as [t|] eqn:Et; [|cbn; auto]. split; [by eapply inet_aton_length|done]. }
  intros s0 [Hs0 Hsn]. cbv beta.
  set (s1 := if _ && _ then d else s0).
  assert (Hs1 : length s1 = 4%nat) by (unfold s1; by destruct (_ && _)).
  eapply safe_bind; [by apply probe_source_safe|]. intros s2 [Hs2 Hs2n]. cbv beta.
  eapply (safe_bind _ (λ m, bind_device e (ifindex dev) = Some m)).
  { destruct (bind_device e (ifindex dev)); cbn; auto. }
  intros m Hm. cbv beta. destruct (we_bind e He _ _ Hm) as [Hml Hma].
  destruct (sll_halen m =? 0) eqn:Ehl; zbool; [cbn; auto|].
  eapply safe_bind; [apply set_device_broadcast_safe; done|]. intros h Hh. cbv beta.
  destruct (bool_decide (s2 = _) && negb (o_dad o)); [cbn; auto|].
  destruct (drop_ok e); [|cbn; auto]. cbn [negb safe]. constructor; cbn; try done.
  - split; [|done]. split; [cbn; lia|done].
  - by exists h.
  - by exists (ifindex dev).
  - intros t Ed Eu Es Et Hz. assert (Hs1d : s1 = d).
    { unfold s1. rewrite Ed, Eu, bool_decide_true by auto. done. }
    rewrite <-(Hdt t Et), <-Hs1d in *. by apply Hs2n.
Qed.

Lemma arp_hrd_range m : 0 ≤ arp_hrd m < 65536.
Proof.
  unfold arp_hrd. destruct (_ =? _); [unfold ARPHRD_ETHER; lia|]. unfold u16. by apply Z.mod_pos_bound.
Qed.

Lemma arp_setup_safe opts operands e :
  wf_main_env e →
  safe [0; 2; 255] (λ '(a, s), wf_arping a ∧ ∃ c he0, length he0 = 116%nat ∧ s = first_state c he0)
    (arp_setup opts operands e).
Proof.
  intros He. unfold arp_setup. eapply (safe_bind _ (λ _, True)).
  { generalize default_aoptions. induction opts as [|[ch arg] opts IH]; intros o; cbn [arp_options]; [done|].
    eapply (safe_bind _ (λ _, True)); [|intros o' _; apply IH].
    unfold arp_option. destruct o. repeat (destruct (_ =? _); [cbn; set_solver|]).
    destruct (_ || _); cbn; set_solver. }
  intros o _. cbv beta. eapply (safe_bind _ (λ _, True)).
  { unfold arp_operands. destruct (o_hb_mode o).
    - destruct operands as [|x1 [|x2 [|x3 [|x4 [|x5 [|x6 ?]]]]]]; try (cbn; set_solver).
      destruct (negb _); cbn; set_solver.
    - destruct operands as [|x1 [|x2 ?]]; cbn; set_solver. }
  intros [o' target] _. cbv beta iota.
  pose proof (arp_prepare_safe o' target e He) as Hp.
  destruct (arp_prepare o' target e) as [[a s]|c|]; cbn in Hp |- *;
    [|destruct (o_dad o'); set_solver|done].
  destruct Hp as [Hw (he0 & Hl & ->)]. split; [done|]. by exists (o_count o'), he0.
Qed.

Lemma arp_run_inv a he0 es n s :
  wf_arping a → Forall valid_aevent es → arp_inv a he0 n s → Z.of_nat (n + length es) ≤ INT_MAX →
  (arp_run a es s).1 ≠ Fault ∧ arp_inv a he0 (n + length es) (arp_run a es s).2.
Proof.
  intros Ha Hes. revert n s. induction Hes as [|e es He Hes IH]; intros n s Hi Hlen; cbn [length] in *.
  - rewrite Nat.add_0_r. by split.
  - rewrite arp_run_cons.
    destruct (handle_inv a he0 n e s Ha He ltac:(lia) Hi) as [Hf Hi'].
    destruct (handle a e s) as [[u|code|] s']; [|..|done]; cbn [fst snd] in *.
    + rewrite Nat.add_succ_r, <-Nat.add_succ_l. apply IH; [done|lia].
    + split; [done|]. rewrite Nat.add_succ_r, <-Nat.add_succ_l.
      clear -Hi'. induction (length es) as [|k IH]; [by rewrite Nat.add_0_r|].
      rewrite Nat.add_succ_r. by apply arp_inv_S.
Qed.

(** *** Announcing

    The alarms come as the timer makes them, more than half a second after the
    last packet, [sendto] takes the whole packet of [plen] bytes, and any
    packets arrive in between. *)
Fixpoint timely (plen : Z) (prev : Z * Z) (es : list aevent) : Prop :=
  match es with
  | [] => True
  | EAlarm tv now err :: es' =>
      (prev.1 =? 0) || timer_gt (timersub tv prev) (0, 500000) = true ∧ err = plen ∧ timely plen now es'
  | ERecv buf _ _ :: es' => length buf = 4096%nat ∧ timely plen prev es'
  | _ :: _ => False
  end.

Fixpoint alarms (es : list aevent) : nat :=
  match es with
  | [] => 0
  | EAlarm _ _ _ :: es' => S (alarms es')
  | _ :: es' => alarms es'
  end.

Lemma announce_run a es s :
  wf_arping a → dad a = false → unsolicited a = true → quit_on_reply a = false → timeout a = 0 →
  length (he s) = 116%nat → 1 ≤ count s → 0 ≤ sent s → sent s + count s ≤ INT_MAX →
  timely (16 + 2 * sll_halen (me a)) (last s) es →
  let k := Z.min (count s) (Z.of_nat (alarms es)) in
  let r := arp_run a es s in
  r.1 = (if count s <=? Z.of_nat (alarms es) then Exited 0 else Ret tt) ∧
  sent r.2 = sent s + k ∧
  ∃ ps, wire r.2 = ps ++ wire s ∧ Z.of_nat (length ps) = k ∧ Forall (own_packet a) ps.
Proof.
  intros Ha Hd Hu Hq Ht. revert s.
  induction es as [|e es IH]; intros s Hh Hc Hs Hsc Htime.
  - cbn [alarms]. cbv zeta. rewrite (proj2 (Z.leb_gt (count s) (Z.of_nat 0))), Z.min_r by lia.
    split; [done|]. split; [cbn; lia|]. by exists [].
  - rewrite arp_run_cons. destruct e as [tv now err|buf len from| |]; [| |done..]; cbn [handle].
    + destruct Htime as (Hdue & -> & Htime). rewrite catcher_run. cbv zeta.
      assert (He : expired a tv s = false).
      { unfold expired. rewrite Ht, (proj2 (Z.eqb_neq (count s) 0)) by lia. done. }
      rewrite He. unfold due. rewrite Hdue. clear He Hdue.
      destruct (arp_packet_own a s Ha Hh) as (p & -> & Hp & Hpl).
      destruct (ticked_fields tv s) as (E1 & E2 & E3 & E4 & E5 & E6 & E7 & E8 & E9 & E10).
      unfold INT_MAX in *. rewrite s32_small in E10 by (unfold INT_MAX; lia).
      unfold after_send. rewrite Hpl, Z.eqb_refl. cbn [count]. rewrite Hu, andb_true_r, !E10.
      assert (Hal : Z.of_nat (alarms (EAlarm tv now (16 + 2 * sll_halen (me a)) :: es)) =
                    Z.of_nat (alarms es) + 1) by (cbn [alarms]; lia).
      rewrite Hal. clear Hal.
      destruct (count s - 1 =? 0) eqn:Ec; zbool.
      * unfold exit_code. rewrite Hd, Hu. cbn [fst snd sent wire].
        rewrite E4, E9, (proj2 (Z.leb_le _ _)), Z.min_l by lia.
        rewrite s32_small by (unfold INT_MAX; lia). split; [done|]. split; [lia|].
        exists [p]. split; [done|]. split; [cbn; lia|]. by constructor.
      * match goal with |- context [arp_run a es ?s'] => set (s1 := s') end.
        assert (S1 : count s1 = count s - 1) by done.
        assert (S2 : sent s1 = sent s + 1).
        { unfold s1. cbn [sent]. rewrite E4. apply s32_small. unfold INT_MAX. lia. }
        assert (S3 : wire s1 = p :: wire s) by (unfold s1; cbn [wire]; by rewrite E9).
        assert (S4 : he s1 = he s) by (unfold s1; cbn [he]; by rewrite E2).
        assert (S5 : last s1 = now) by done.
        clearbody s1. destruct (IH s1) as (R1 & R2 & ps & R3 & R4 & R5);
          [by rewrite S4|lia|lia|lia|by rewrite S5|].
        rewrite R1, R2, R3, S1, S2, S3 in *. cbv zeta. split_and!; [|lia|].
        -- destruct (count s - 1 <=? _) eqn:E; zbool; ztest; done.
        -- exists (ps ++ [p]). rewrite <-app_assoc. split; [done|].
           split; [rewrite length_app; cbn; lia|]. apply Forall_app. split; [done|]. by constructor.
    + destruct Htime as [Hb Htime]. munfold. rewrite recv_run.
      assert (Hal : alarms (ERecv buf len from :: es) = alarms es) by done. rewrite Hal. clear Hal.
      destruct (negb _); [by apply IH|]. cbv zeta. rewrite Hq. cbn [orb count_reply count].
      rewrite (proj2 (Z.eqb_neq (count s) 0)) by lia. cbn [andb].
      destruct (broadcast_only a); [by apply (IH (count_reply buf from s))|].
      apply (IH (learn_address a buf (count_reply buf from s))); try done.
      cbn [learn_address count_reply he]. destruct Ha as ([Hl _] & _).
      rewrite length_app, length_take, !length_drop, Hb. lia.
Qed.

(** ** Properties *)



(** A packet that shows the tested address in use. *)
Definition conflict (a : arping) (e : aevent) : Prop :=
  match e with ERecv buf len from => accepted a buf len from = true | _ => False end.

(** [C36] The verdict of duplicate address detection (-D): the exit status is 1
    exactly when the program ends at a packet that shows the address in use,
    and 0 when it ends at an alarm or a signal; no such packet came before, and
    while the program has not ended none has come at all. *)
Theorem dad_verdict a es s :
  wf_arping a → length (he s) = 116%nat → dad a = true → quit_on_reply a = true → received s = 0 →
  match (arp_run a es s).1 with
  | Ret _ => Forall (λ e, ¬ conflict a e) es
  | Exited code =>
      ∃ l1 e l2, es = l1 ++ e :: l2 ∧ Forall (λ e, ¬ conflict a e) l1 ∧
        (code = 1 ∧ conflict a e ∨ code = 0 ∧ ¬ conflict a e)
  | Fault => False
  end.
Proof.
  intros Ha Hh Hdad Hq. revert s Hh. induction es as [|e es IH]; intros s Hh Hr; [by constructor|].
  assert (Hgo : ∀ s', length (he s') = 116%nat → received s' = 0 → ¬ conflict a e →
    match (arp_run a es s').1 with
    | Ret _ => Forall (λ e, ¬ conflict a e) (e :: es)
    | Exited code =>
        ∃ l1 e' l2, e :: es = l1 ++ e' :: l2 ∧ Forall (λ e, ¬ conflict a e) l1 ∧
          (code = 1 ∧ conflict a e' ∨ code = 0 ∧ ¬ conflict a e')
    | Fault => False
    end).
  { intros s' Hh' Hr' Hc. specialize (IH s' Hh' Hr').
    destruct (arp_run a es s').1 as [u|code|]; [by constructor| |done].
    destruct IH as (l1 & e' & l2 & -> & Hl1 & He'). exists (e :: l1), e', l2. by split; [|split; [constructor|]]. }
  assert (Hend : ¬ conflict a e → ∃ l1 e' l2, e :: es = l1 ++ e' :: l2 ∧ Forall (λ e, ¬ conflict a e) l1 ∧
          (0 = 1 ∧ conflict a e' ∨ 0 = 0 ∧ ¬ conflict a e')).
  { intros Hal. exists [], e, es. split; [done|]. split; [constructor|by right]. }
  assert (Hcode : exit_code a s = 0) by (unfold exit_code; by rewrite Hdad, Hr).
  rewrite arp_run_cons. destruct e as [tv now err|buf len from| |]; cbn [handle].
  - rewrite catcher_run. cbv zeta. clear Hcode.
    destruct (ticked_fields tv s) as (_ & E2 & _ & _ & _ & E6 & _).
    assert (Hcode : exit_code a (ticked tv s) = 0) by (unfold exit_code; by rewrite Hdad, E6, Hr).
    destruct (expired a tv s); [rewrite Hcode; apply Hend; by intros []|].
    destruct (due tv s); [|apply Hgo; [by rewrite E2|by rewrite E6|by intros []]].
    destruct (arp_packet_own a s Ha Hh) as (p & -> & _).
    assert (Hf : length (he (after_send now err p (ticked tv s))) = 116%nat ∧
                 received (after_send now err p (ticked tv s)) = 0).
    { unfold after_send. destruct (err =? _); cbn [he received]; by rewrite E2, E6. }
    destruct Hf as [Hf1 Hf2].
    destruct (_ && unsolicited a); [|apply Hgo; [done|done|by intros []]].
    unfold exit_code. rewrite Hdad, Hf2. apply Hend. by intros [].
  - munfold. rewrite recv_run.
    destruct (accepted a buf len from) eqn:Eacc; cbn [negb]; [|apply Hgo; try done; cbn; by rewrite Eacc].
    rewrite Hq. cbn [orb]. unfold exit_code. rewrite Hdad. cbn [count_reply received]. rewrite Hr.
    exists [], (ERecv buf len from), es. split; [done|]. split; [constructor|]. left. by split.
  - rewrite finish_run, Hcode. apply Hend. by intros [].
  - unfold byebye. munfold. apply Hend. by intros [].
Qed.


(** ** The device search *)

(** Without a name the ioctl method tests the request buffer before it copies
    the listed name into it, so it asks for the interface with the empty name,
    which the kernel does not have, and finds nothing. *)
Lemma ioctl_needs_name d e names :
  io_flags e [] = None → ioctl_loop d e names [] 0 0 = Ret (0%nat, 0, []).
Proof.
  intros He. induction names as [|nm names IH]; [done|]. cbn [ioctl_loop].
  unfold check_device_by_ioctl. rewrite He. cbn. exact IH.
Qed.

(** ** Witnesses *)

Definition hw_storage (last : Z) : list Z := [2; 0; 0; 0; 0; last] ++ replicate 110 0.
Definition eth0_sll (last : Z) : sll := Sll 2 ARPHRD_ETHER PACKET_BROADCAST 6 (hw_storage last).
Definition eth0 : ifaddr := Ifaddr (Some AF_PACKET) (str "eth0") IFF_UP 6 (Some (6, replicate 116 255)).
Definition no_ioctls : ioctl_env := IoctlEnv false (λ _, None) (λ _, None) None.
Definition eth0_env : main_env :=
  MainEnv true (Some [eth0]) (λ _, 2) no_ioctls (λ _, None) true (λ _, true) None
    (λ _, Some (eth0_sll 1)) true.

Lemma eth0_env_wf : wf_main_env eth0_env.
Proof.
  constructor; cbn; try done.
  - intros l i halen addr [= <-] [->|Hi]%elem_of_cons; [|by apply not_elem_of_nil in Hi].
    intros [= <- <-]. split; [lia|]. apply Nat.leb_le. reflexivity.
  - intros _ m [= <-]. by split.
Qed.

(** The interface disappears between [getifaddrs] and [if_nametoindex]: the
    entry is freed, the ioctl method finds the device, and the broadcast address
    is read from the freed entry. *)
Definition vanishing_env : main_env :=
  MainEnv true (Some [eth0]) (λ _, 0) (IoctlEnv true (λ _, Some IFF_UP) (λ _, Some 2) None)
    (λ _, None) true (λ _, true) None (λ _, Some (eth0_sll 1)) true.

Lemma vanishing_interface_faults :
  arp_setup [(85, [])] [str "10.0.0.5"] vanishing_env = Fault.
Proof. reflexivity. Qed.

Definition two_alarms : list aevent := [ERecv (replicate 4096 0) 28 (eth0_sll 1); EAlarm (101, 0) (101, 0) 28].


Definition tester : arping :=
  Arping true false false true false 0 (replicate 4 0) [10; 0; 0; 5] (eth0_sll 1).
Definition other_claim : list Z :=
  arp_bytes ARPHRD_ETHER 6 ARPOP_REQUEST [2; 0; 0; 0; 0; 9] [10; 0; 0; 5] (replicate 6 255) [10; 0; 0; 5].

Definition claimed : list aevent :=
  [EAlarm (100, 0) (100, 0) 28; ERecv (other_claim ++ replicate 4068 0) 28 (eth0_sll 9)].

Lemma tester_wf : wf_arping tester.
Proof. split; [|done]. by split. Qed.


Lemma dad_verdict_witness :
  (arp_run tester claimed
     (first_state 3 (replicate 116 255))).1 = Exited 1 ∧
  match (arp_run tester claimed
           (first_state 3 (replicate 116 255))).1 with
  | Ret _ => Forall (λ e, ¬ conflict tester e) claimed
  | Exited code =>
      ∃ l1 e l2, claimed = l1 ++ e :: l2 ∧
        Forall (λ e, ¬ conflict tester e) l1 ∧
        (code = 1 ∧ conflict tester e ∨ code = 0 ∧ ¬ conflict tester e)
  | Fault => False
  end.
Proof. split; [by vm_compute|]. by apply dad_verdict; [apply tester_wf|..]. Defined.

