(* ===== verification/SendArpSysfs.v ===== *)
(** * send_arp for Linux: finding the device through sysfs
    (tools/send_arp.linux.c with USE_SYSFS)

    The part of the program that is compiled when libsysfs is there, which the
    build of this repository does not ask for: the attributes of the network
    devices are read as text, and the search leaves its result beside that of
    the other methods.  libsysfs is an argument: the devices of the class "net"
    with their attributes.  The theorem compares the search with the one
    through getifaddrs. *)

From S2P Require Import Prelude CString Inet PidFile IPv6Addr SendArpLinux.
#[local] Open Scope Z_scope.

(** ** Definitions *)

Definition IFF_RUNNING : Z := 64.

(** A device as libsysfs gives it: its name, and for the name of an attribute
    nothing when there is none, and the text when it can be read. *)
Record sysdev : Type := Sysdev {
  sd_name : list Z;
  sd_attr : list Z → option (option (list Z)) }.

(** The indices of [sysfs_devattrs], and what the table has for each. *)
Inductive devattr : Type :=
| SYSFS_DEVATTR_IFINDEX
| SYSFS_DEVATTR_FLAGS
| SYSFS_DEVATTR_ADDR_LEN
| SYSFS_DEVATTR_BROADCAST.

Definition attr_name (a : devattr) : list Z :=
  match a with
  | SYSFS_DEVATTR_IFINDEX => str "ifindex"
  | SYSFS_DEVATTR_FLAGS => str "flags"
  | SYSFS_DEVATTR_ADDR_LEN => str "addr_len"
  | SYSFS_DEVATTR_BROADCAST => str "broadcast"
  end.

Definition sysfs_devattrs : list devattr :=
  [SYSFS_DEVATTR_IFINDEX; SYSFS_DEVATTR_FLAGS; SYSFS_DEVATTR_ADDR_LEN; SYSFS_DEVATTR_BROADCAST].

(** [struct sysfs_devattr_values]; the broadcast address is what its pointer
    points to. *)
Record devattr_values : Type := Values {
  v_ifname : option (list Z);
  v_ifindex : Z;
  v_flags : Z;
  v_addr_len : Z;
  v_broadcast : option (list Z) }.

(** [sysfs_devattr_values_init] *)
Definition values_init : devattr_values := Values None 0 0 0 None.

(** Result and the value stored, which is stored in any case. *)
Definition sysfs_devattr_ulong (base : Z) (ptr : list Z) : Z * Z :=
  let '(v, ep, erange) := strtoul base ptr in
  let e := hd 0 ep in
  (if isspace (hd 0 ptr) || erange || negb ((e =? 0) || (e =? 10)) then -1 else 0, v).

(** A byte of a string: its terminator may be read, nothing beyond. *)
Definition string_at (s : list Z) (i : nat) : outcome Z :=
  if (i <=? length s)%nat then Ret (nth i s 0) else Fault.

(** [n] bytes from the [i]-th on: [None] is the jump to [out]. *)
Fixpoint macaddr_loop (n i : nat) (ptr : list Z) : outcome (option (list Z)) :=
  match n with
  | O => Ret (Some [])
  | S n' =>
      c ← (if (i =? 0)%nat then Ret 58 else string_at ptr (i * 3 - 1));
      if negb (c =? 58) then Ret None
      else
        _ ← string_at ptr (i * 3);
        match scan_x 2 (drop (i * 3) ptr) with
        | None => Ret None
        | Some (b, _) =>
            o ← macaddr_loop n' (S i) ptr;
            Ret (match o with Some m => Some (u8 b :: m) | None => None end)
        end
  end.

Definition sysfs_devattr_macaddr (ptr : list Z) (v : devattr_values) : outcome (option (list Z)) :=
  macaddr_loop (Z.to_nat (u32 (v_addr_len v))) 0 ptr.

(** The handler of an attribute. *)
Definition devattr_handler (a : devattr) (ptr : list Z) (v : devattr_values)
    : outcome (Z * devattr_values) :=
  match a with
  | SYSFS_DEVATTR_IFINDEX =>
      let '(rc, x) := sysfs_devattr_ulong 10 ptr in
      Ret (rc, Values (v_ifname v) x (v_flags v) (v_addr_len v) (v_broadcast v))
  | SYSFS_DEVATTR_FLAGS =>
      let '(rc, x) := sysfs_devattr_ulong 16 ptr in
      Ret (rc, Values (v_ifname v) (v_ifindex v) x (v_addr_len v) (v_broadcast v))
  | SYSFS_DEVATTR_ADDR_LEN =>
      let '(rc, x) := sysfs_devattr_ulong 10 ptr in
      Ret (rc, Values (v_ifname v) (v_ifindex v) (v_flags v) x (v_broadcast v))
  | SYSFS_DEVATTR_BROADCAST =>
      o ← sysfs_devattr_macaddr ptr v;
      Ret (match o with
           | Some m => (0, Values (v_ifname v) (v_ifindex v) (v_flags v) (v_addr_len v) (Some m))
           | None => (-1, v)
           end)
  end.

(** The loop over the attributes of a device. *)
Fixpoint attrs_loop (attrs : list devattr) (dev : sysdev) (v : devattr_values)
    : outcome (Z * devattr_values) :=
  match attrs with
  | [] => Ret (0, v)
  | a :: attrs' =>
      match sd_attr dev (attr_name a) with
      | None | Some None => Ret (-1, v)
      | Some (Some text) =>
          '(rc, v) ← devattr_handler a text v;
          if rc <? 0 then Ret (rc, v) else attrs_loop attrs' dev v
      end
  end.

(** The loop over the devices: the values kept in [device.sysfs] and how many
    devices were taken; it stops at the second. *)
Fixpoint sysfs_loop (dad : bool) (nm : option (list Z)) (devs : list sysdev)
    (sys : devattr_values) (count : nat) : outcome (nat * devattr_values) :=
  match devs with
  | [] => Ret (count, sys)
  | dev :: devs' =>
      if match nm with Some n => negb (strcmp (sd_name dev) n =? 0) | None => false end
      then sysfs_loop dad nm devs' sys count
      else
        '(rc, v) ← attrs_loop sysfs_devattrs dev values_init;
        if rc <? 0 then sysfs_loop dad nm devs' sys count
        else
          rc ← check_ifflags dad (u32 (v_flags v)) (is_some nm);
          if rc <? 0 then sysfs_loop dad nm devs' sys count
          else if v_addr_len v =? 0 then sysfs_loop dad nm devs' sys count
          else if negb (v_ifindex sys =? 0) && negb (Z.land (v_flags sys) IFF_RUNNING =? 0)
          then sysfs_loop dad nm devs' sys count
          else
            let sys := Values (Some (sd_name dev)) (v_ifindex v) (v_flags v) (v_addr_len v) (v_broadcast v) in
            if (0 <? count)%nat then Ret (S count, sys)
            else sysfs_loop dad nm devs' sys (S count)
  end.

(** [struct device] with its [sysfs]. *)
Record sdevice : Type := Sdevice { s_dev : device; s_sysfs : option devattr_values }.

(** [cls] is [None] when the class cannot be opened, and its devices are [None]
    when they cannot be listed. *)
Definition find_device_by_sysfs (dad : bool) (d : sdevice) (cls : option (option (list sysdev)))
    : outcome (Z * sdevice) :=
  let sys := default values_init (s_sysfs d) in
  match cls with
  | None | Some None => Ret (-1, Sdevice (s_dev d) (Some sys))
  | Some (Some devs) =>
      '(count, sys) ← sysfs_loop dad (name (s_dev d)) devs sys 0;
      let dev := s_dev d in
      let dev := if (count =? 1)%nat
                 then Device (v_ifname sys) (s32 (v_ifindex sys)) (ifa dev) (ifa_freed dev) else dev in
      Ret (if ifindex dev =? 0 then 1 else 0, Sdevice dev (Some sys))
  end.

Definition set_device_broadcast_sysfs (d : sdevice) (ba : list Z) (balen : Z) : outcome (Z * list Z) :=
  match s_sysfs d with
  | None => Ret (-1, ba)
  | Some v =>
      if negb (v_addr_len v =? balen) then Ret (-1, ba)
      else match v_broadcast v with
      | None => Fault
      | Some m =>
          match (bs ← peek 0 (Z.to_nat balen) m; poke 0 bs ba) with
          | Some ba' => Ret (0, ba')
          | None => Fault
          end
      end
  end.

(** The broadcast address with libsysfs. *)
Definition set_device_broadcast_with_sysfs (d : sdevice) (ba : list Z) (balen : Z) : outcome (list Z) :=
  '(rc, ba) ← set_device_broadcast_ifaddrs_one (s_dev d) ba balen;
  if rc =? 0 then Ret ba
  else
    '(rc, ba) ← set_device_broadcast_sysfs d ba balen;
    if rc =? 0 then Ret ba else set_device_broadcast_fallback ba balen.

(** [find_device] with libsysfs. *)
Definition find_device_with_sysfs (dad : bool) (d : sdevice) (addrs : option (list ifaddr))
    (if_nametoindex : list Z → Z) (cls : option (option (list sysdev))) (e : ioctl_env)
    : outcome (Z * sdevice) :=
  '(rc, dev) ← find_device_by_ifaddrs dad (s_dev d) addrs if_nametoindex;
  if 0 <=? rc then Ret (rc, Sdevice dev (s_sysfs d))
  else
    '(rc, d) ← find_device_by_sysfs dad (Sdevice dev (s_sysfs d)) cls;
    if 0 <=? rc then Ret (rc, d)
    else
      '(rc, dev) ← find_device_by_ioctl dad (s_dev d) e;
      Ret (rc, Sdevice dev (s_sysfs d)).

(** ** Specification

    A network device of the kernel, and how the two interfaces present it. *)

Record netdev : Type := Netdev {
  nd_name : list Z;
  nd_index : Z;
  nd_flags : Z;
  nd_broadcast : list Z }.

Record wf_netdev (d : netdev) : Prop := {
  wn_name : c_text (nd_name d);
  wn_index : 0 < nd_index d ≤ INT_MAX;
  wn_flags : 0 ≤ nd_flags d ≤ UINT_MAX;
  wn_broadcast : Forall is_byte (nd_broadcast d);
  wn_length : (length (nd_broadcast d) ≤ 255)%nat }.

Definition as_ifaddr (d : netdev) : ifaddr :=
  let halen := Z.of_nat (length (nd_broadcast d)) in
  Ifaddr (Some AF_PACKET) (nd_name d) (nd_flags d) halen (Some (halen, nd_broadcast d)).

(** [%x]: the digits a number needs. *)
Definition hexn (z : Z) : nat := Z.to_nat (Z.log2 z / 4 + 1).
(** ["%02x"] of every byte, with colons between them. *)
Fixpoint mac_text (bs : list Z) : list Z :=
  match bs with
  | [] => []
  | b :: bs' => hexl 2 b ++ (match bs' with [] => [] | _ => [58] end) ++ mac_text bs'
  end.

Definition attr_text (d : netdev) (a : devattr) : list Z :=
  match a with
  | SYSFS_DEVATTR_IFINDEX => dec_u (nd_index d) ++ [10]
  | SYSFS_DEVATTR_FLAGS => str "0x" ++ hexl (hexn (nd_flags d)) (nd_flags d) ++ [10]
  | SYSFS_DEVATTR_ADDR_LEN => dec_u (Z.of_nat (length (nd_broadcast d))) ++ [10]
  | SYSFS_DEVATTR_BROADCAST => mac_text (nd_broadcast d) ++ [10]
  end.

Definition presents (d : netdev) (s : sysdev) : Prop :=
  sd_name s = nd_name d ∧ ∀ a, sd_attr s (attr_name a) = Some (Some (attr_text d a)).

(** The device of that name, if ARP may use it. *)
Fixpoint pick (dad : bool) (nm : list Z) (nds : list netdev) : outcome (option netdev) :=
  match nds with
  | [] => Ret None
  | d :: nds' =>
      if decide (nd_name d = nm) then
        _ ← check_ifflags dad (nd_flags d) true;
        Ret (if decide (nd_broadcast d = []) then None else Some d)
      else pick dad nm nds'
  end.

(** The values the attributes of a device give. *)
Definition values_of (d : netdev) : devattr_values :=
  Values (Some (nd_name d)) (nd_index d) (nd_flags d) (Z.of_nat (length (nd_broadcast d)))
    (Some (nd_broadcast d)).

(** What the program goes on with after a search: its result, the name and
    index of the device, and the broadcast address then set in [ba]. *)
Definition settled {D} (dev : D → device) (set : D → list Z → Z → outcome (list Z))
    (ba : list Z) (balen : Z) (o : outcome (Z * D)) : outcome (Z * option (list Z) * Z * list Z) :=
  '(rc, d) ← o;
  ba ← set d ba balen;
  Ret (rc, name (dev d), ifindex (dev d), ba).

(** ** Lemmas *)

Lemma span_lowdig ds r :
  Forall (λ d, 0 ≤ d < 16) ds → (∀ c l, r = c :: l → digit_of 16 c = None) →
  span_digits 16 ((lowdig <$> ds) ++ r) = (ds, r).
Proof.
  intros Hds Hr. induction Hds as [|d ds Hd _ IH].
  - destruct r as [|c r]; [done|]. cbn [fmap list_fmap app span_digits]. by rewrite (Hr c r eq_refl).
  - rewrite fmap_cons. cbn [app span_digits]. rewrite lowdig_digit by done. by rewrite IH.
Qed.

Lemma hexn_spec z : 0 ≤ z ≤ UINT_MAX → z < 16 ^ Z.of_nat (hexn z) ∧ (0 < hexn z)%nat.
Proof.
  intros Hz. unfold hexn. pose proof (Z.log2_nonneg z).
  pose proof (Z.div_mod (Z.log2 z) 4 ltac:(lia)). pose proof (Z.mod_pos_bound (Z.log2 z) 4 ltac:(lia)).
  split; [|lia]. rewrite Z2Nat.id by lia. destruct (decide (z = 0)) as [->|]; [done|].
  change 16 with (2 ^ 4). rewrite <-Z.pow_mul_r by lia.
  pose proof (proj2 (Z.log2_spec z ltac:(lia))) as Hl. eapply Z.lt_le_trans; [exact Hl|].
  apply Z.pow_le_mono_r; lia.
Qed.

(** The texts of numbers are read back. *)
Lemma ulong_dec n : 0 ≤ n ≤ INT_MAX → sysfs_devattr_ulong 10 (dec_u n ++ [10]) = (0, n).
Proof.
  intros Hn. unfold INT_MAX in Hn. unfold sysfs_devattr_ulong, strtoul.
  rewrite scan_number_dec_u by (done || lia). rewrite (proj2 (Z.ltb_ge ULONG_MAX n)) by (unfold ULONG_MAX; lia).
  assert (Hs : isspace (hd 0 (dec_u n ++ [10])) = false).
  { destruct (dec_u_spec n ltac:(lia)) as (ds & -> & Hds & Hne & _). destruct ds as [|d ds]; [done|].
    apply Forall_cons_1 in Hds as [Hd _]. rewrite fmap_cons. cbn [app hd]. unfold isspace.
    apply orb_false_iff. split; [lia|]. apply andb_false_iff. right. lia. }
  rewrite Hs. reflexivity.
Qed.

Lemma ulong_hex z : 0 ≤ z ≤ UINT_MAX →
  sysfs_devattr_ulong 16 (str "0x" ++ hexl (hexn z) z ++ [10]) = (0, z).
Proof.
  intros Hz. destruct (hexn_spec z Hz) as [Hlt Hn]. destruct (hex_digits_be_spec (hexn z) z) as [Hds Hv].
  rewrite Z.mod_small in Hv by lia. unfold hexl. pose proof (hex_digits_be_length (hexn z) z) as Hl.
  destruct (hex_digits_be (hexn z) z) as [|d ds]; [cbn in Hl; lia|].
  pose proof Hds as [Hd _]%Forall_cons_1. pose proof (lowdig_digit d Hd) as Hdig.
  unfold sysfs_devattr_ulong, strtoul, scan_number. cbn [app skip_spaces].
  change (str "0x") with [48; 120]. cbn [app skip_spaces]. change (isspace 48) with false. cbv iota.
  rewrite scan_sign_cons. change (48 =? 45) with false. change (48 =? 43) with false. cbv iota.
  rewrite fmap_cons. cbn [app]. unfold skip_0x. change (16 =? 16) with true. cbv iota.
  change ((120 =? 120) || (120 =? 88)) with true. rewrite Hdig.
  rewrite bool_decide_true by done. cbn [andb].
  change (lowdig d :: (lowdig <$> ds) ++ [10]) with ((lowdig <$> (d :: ds)) ++ [10]).
  rewrite span_lowdig by (done || (intros ? ? [= <- <-]; done)). rewrite Hv.
  rewrite (proj2 (Z.ltb_ge ULONG_MAX z)) by (unfold ULONG_MAX, UINT_MAX in *; lia). reflexivity.
Qed.

Lemma macaddr_text bs i p :
  Forall is_byte bs → length p = (i * 3 - 1)%nat →
  macaddr_loop (length bs) i (p ++ (match i with O => [] | S _ => [58] end) ++ mac_text bs ++ [10])
  = Ret (Some bs).
Proof.
  intros Hb. revert i p. induction Hb as [|b bs Hb _ IH]; intros i p Hp; [done|].
  cbn [length macaddr_loop mac_text]. set (sep := match i with O => [] | S _ => [58] end).
  assert (Hsep : length (p ++ sep) = (i * 3)%nat) by (subst sep; destruct i; rewrite length_app; cbn in *; lia).
  assert (Hh : length (hexl 2 b) = 2%nat) by (unfold hexl; by rewrite length_fmap, hex_digits_be_length).
  rewrite <-!(assoc_L (++)).
  set (r := (match bs with [] => [] | _ => [58] end) ++ mac_text bs ++ [10]).
  assert (Hat : ∀ k, (k <= i * 3 + 2)%nat →
    string_at (p ++ sep ++ hexl 2 b ++ r) k = Ret (nth k (p ++ sep ++ hexl 2 b ++ r) 0)).
  { intros k Hk. unfold string_at. rewrite (proj2 (Nat.leb_le _ _)); [done|].
    rewrite (assoc_L (++)), !length_app, <-length_app, Hsep, Hh. lia. }
  assert (Hc : (if (i =? 0)%nat then Ret 58 else string_at (p ++ sep ++ hexl 2 b ++ r) (i * 3 - 1)) = Ret 58).
  { destruct i as [|i]; [done|]. cbn [Nat.eqb]. rewrite Hat by lia. rewrite <-Hp, app_nth2, Nat.sub_diag by lia.
    done. }
  rewrite Hc. cbn [mbind outcome_bind]. change (negb (58 =? 58)) with false. cbv iota.
  rewrite Hat by lia. cbn [mbind outcome_bind]. rewrite (assoc_L (++) p sep), <-Hsep, drop_app_length.
  assert (Hs : scan_x 2 (hexl 2 b ++ r) = Some (b, r))
    by (apply (scan_x_hexl 0); unfold UINT_MAX, is_byte in *; [lia|lia|lia|left; lia]).
  rewrite Hs. clear Hs.
  destruct bs as [|b' bs'].
  - cbn. unfold u8. by rewrite Z.mod_small by done.
  - subst r. rewrite (assoc_L (++) (p ++ sep)). cbn [length].
    change (S (length bs')) with (length (b' :: bs')).
    rewrite (IH (S i) ((p ++ sep) ++ hexl 2 b)).
    + cbn. unfold u8. by rewrite Z.mod_small by done.
    + rewrite length_app, Hsep, Hh. lia.
Qed.

Lemma attrs_loop_presents d s :
  wf_netdev d → presents d s →
  attrs_loop sysfs_devattrs s values_init
  = Ret (0, Values None (nd_index d) (nd_flags d) (Z.of_nat (length (nd_broadcast d))) (Some (nd_broadcast d))).
Proof.
  intros [_ Hi Hf Hb Hl] [_ Ha]. unfold sysfs_devattrs, values_init.
  cbn [attrs_loop]. rewrite !Ha. cbn [attr_text devattr_handler].
  rewrite !ulong_dec by (unfold INT_MAX in *; lia). rewrite ulong_hex by done.
  cbn [mbind outcome_bind v_ifname v_flags v_addr_len v_broadcast v_ifindex].
  change (0 <? 0) with false. cbv iota. unfold sysfs_devattr_macaddr. cbn [v_addr_len].
  unfold u32. rewrite Z.mod_small by lia. rewrite Nat2Z.id.
  pose proof (macaddr_text _ 0 [] Hb eq_refl) as Hm. cbn [app] in Hm. by rewrite Hm.
Qed.

(** Without the device the searches go past everything. *)
Lemma ifaddrs_loop_skip dad nm addrs nds c f :
  c_text nm → Forall wf_netdev nds → nm ∉ (nd_name <$> nds) →
  filter (λ i, ifa_family i = Some AF_PACKET) addrs = as_ifaddr <$> nds →
  ifaddrs_loop dad (Some nm) addrs c f = Ret (c, f).
Proof.
  intros Hnm. revert nds. induction addrs as [|i addrs IH]; intros nds Hwf Hn Hf; [done|].
  cbn [ifaddrs_loop]. rewrite filter_cons in Hf. case_decide as Hp.
  - destruct nds as [|d nds]; [done|]. injection Hf as -> Hf. rewrite fmap_cons in Hn.
    apply not_elem_of_cons in Hn as [Hne Hn]. apply list.Forall_cons in Hwf as [Hd Hwf].
    cbn [ifa_family as_ifaddr ifa_name]. rewrite Z.eqb_refl. cbn [negb].
    rewrite (proj2 (Z.eqb_neq _ _)); [by apply (IH nds)|].
    intros E. apply strcmp_text in E; [by subst|apply Hd|done].
  - destruct (ifa_family i) as [fam|]; [|by apply (IH nds)].
    rewrite (proj2 (Z.eqb_neq _ _)) by congruence. by apply (IH nds).
Qed.

Lemma sysfs_loop_skip dad nm nds devs sys c :
  c_text nm → Forall wf_netdev nds → nm ∉ (nd_name <$> nds) → Forall2 presents nds devs →
  sysfs_loop dad (Some nm) devs sys c = Ret (c, sys).
Proof.
  intros Hnm Hwf Hn Hp. induction Hp as [|d s nds devs [Hs _] _ IH]; [done|].
  rewrite fmap_cons in Hn. apply not_elem_of_cons in Hn as [Hne Hn].
  apply list.Forall_cons in Hwf as [Hd Hwf]. cbn [sysfs_loop]. rewrite Hs.
  rewrite (proj2 (Z.eqb_neq _ _)); [by apply IH|].
  intros E. apply strcmp_text in E; [by subst|apply Hd|done].
Qed.

(** A fatal check ends the program or is passed. *)
Lemma check_ifflags_fatal dad f :
  check_ifflags dad f true = Ret 0 ∨ ∃ c, check_ifflags dad f true = Exited c.
Proof. unfold check_ifflags. repeat case_match; eauto. Qed.

Lemma ifaddrs_loop_pick dad nm addrs nds :
  c_text nm → Forall wf_netdev nds → NoDup (nd_name <$> nds) →
  filter (λ i, ifa_family i = Some AF_PACKET) addrs = as_ifaddr <$> nds →
  ifaddrs_loop dad (Some nm) addrs 0 None
  = (o ← pick dad nm nds; Ret (match o with Some d => (1%nat, Some (as_ifaddr d)) | None => (0%nat, None) end)).
Proof.
  intros Hnm. revert nds. induction addrs as [|i addrs IH]; intros nds Hwf Hnd Hf.
  { by destruct nds. }
  cbn [ifaddrs_loop]. rewrite filter_cons in Hf. case_decide as Hp.
  - destruct nds as [|d nds]; [done|]. injection Hf as -> Hf. rewrite fmap_cons in Hnd.
    apply list.NoDup_cons in Hnd as [Hn Hnd]. apply list.Forall_cons in Hwf as [Hd Hwf].
    cbn [ifa_family as_ifaddr ifa_name pick]. rewrite Z.eqb_refl. cbn [negb].
    case_decide as En.
    + rewrite (proj2 (strcmp_text _ _ (wn_name _ Hd) Hnm) En). cbn [Z.eqb negb is_some ifa_flags as_ifaddr].
      destruct (check_ifflags_fatal dad (nd_flags d)) as [->|[c ->]]; [|done].
      cbn [mbind outcome_bind ifa_halen ifa_broadaddr as_ifaddr negb is_some].
      change (0 <? 0) with false. change (0 <? 0)%nat with false. cbv iota. subst nm.
      destruct (nd_broadcast d) eqn:Eb.
      * by rewrite (ifaddrs_loop_skip _ _ _ nds).
      * cbn [length]. rewrite (proj2 (Z.eqb_neq _ _)) by lia. rewrite decide_False by done.
        by rewrite (ifaddrs_loop_skip _ _ _ nds).
    + rewrite (proj2 (Z.eqb_neq _ _)); [by apply IH|].
      intros E. by apply strcmp_text in E; [|apply Hd|].
  - destruct (ifa_family i) as [fam|]; [|by apply IH].
    rewrite (proj2 (Z.eqb_neq _ _)) by congruence. by apply IH.
Qed.

Lemma sysfs_loop_pick dad nm nds devs :
  c_text nm → Forall wf_netdev nds → NoDup (nd_name <$> nds) → Forall2 presents nds devs →
  sysfs_loop dad (Some nm) devs values_init 0
  = (o ← pick dad nm nds; Ret (match o with Some d => (1%nat, values_of d) | None => (0%nat, values_init) end)).
Proof.
  intros Hnm Hwf Hnd Hp. induction Hp as [|d s nds devs Hds Hp IH]; [done|].
  rewrite fmap_cons in Hnd. apply list.NoDup_cons in Hnd as [Hn Hnd].
  apply list.Forall_cons in Hwf as [Hd Hwf]. cbn [sysfs_loop pick]. rewrite (proj1 Hds).
  case_decide as En.
  - rewrite (proj2 (strcmp_text _ _ (wn_name _ Hd) Hnm) En). cbn [Z.eqb negb is_some].
    rewrite (attrs_loop_presents d s Hd Hds).
    cbn [mbind outcome_bind v_flags v_addr_len v_ifindex v_broadcast values_init].
    change (0 <? 0) with false. change (0 <? 0)%nat with false. change (0 =? 0) with true. cbv iota.
    assert (Hu : u32 (nd_flags d) = nd_flags d)
      by (pose proof (wn_flags _ Hd); unfold u32, UINT_MAX in *; apply Z.mod_small; lia).
    rewrite Hu. destruct (check_ifflags_fatal dad (nd_flags d)) as [->|[c ->]]; [|done].
    cbn [mbind outcome_bind negb andb]. change (0 <? 0) with false. cbv iota. subst nm.
    unfold values_of. destruct (nd_broadcast d) eqn:Eb.
    + by apply (sysfs_loop_skip _ _ nds).
    + cbn [length]. rewrite (proj2 (Z.eqb_neq _ _)) by lia. rewrite decide_False by done.
      rewrite (sysfs_loop_skip _ _ nds) by done. cbv iota. by rewrite Eb.
  - rewrite (proj2 (Z.eqb_neq _ _)); [by apply IH|].
    intros E. by apply strcmp_text in E; [|apply Hd|].
Qed.

Lemma pick_Some dad nm nds d :
  pick dad nm nds = Ret (Some d) → d ∈ nds ∧ nd_name d = nm ∧ nd_broadcast d ≠ [].
Proof.
  induction nds as [|d' nds IH]; [done|]. cbn [pick]. case_decide as E.
  - destruct (check_ifflags dad (nd_flags d') true); [|done..]. cbn [mbind outcome_bind].
    case_decide; [done|]. intros [= <-]. split; [left|done].
  - intros [Hd H]%IH. split; [by right|exact H].
Qed.

(** ** Theorems *)

(** [C38] The two searches for a named device agree.  When getifaddrs and sysfs
    present the same devices, whatever else getifaddrs lists, the program ends
    in the same way with both, or both give the same result, the same name and
    index, and set the same broadcast address: that of the device when it has
    the length of the address of the socket, the default otherwise. *)
Theorem sysfs_agrees dad nm nds addrs devs if_nametoindex ba balen
    (Hnm : c_text nm)
    (Hwf : Forall wf_netdev nds)
    (Hnd : NoDup (nd_name <$> nds))
    (Haddrs : filter (λ i, ifa_family i = Some AF_PACKET) addrs = as_ifaddr <$> nds)
    (Hdevs : Forall2 presents nds devs)
    (Hidx : ∀ d, d ∈ nds → if_nametoindex (nd_name d) = nd_index d)
    (Hlen : 0 < balen) :
  let d0 := Device (Some nm) 0 None false in
  settled s_dev set_device_broadcast_with_sysfs ba balen
    (find_device_by_sysfs dad (Sdevice d0 None) (Some (Some devs)))
  = settled id set_device_broadcast ba balen
      (find_device_by_ifaddrs dad d0 (Some addrs) if_nametoindex).
Proof.
  intros d0. unfold find_device_by_sysfs, find_device_by_ifaddrs, d0. cbn [s_dev s_sysfs name default ifa].
  rewrite (sysfs_loop_pick dad nm nds devs) by done. rewrite (ifaddrs_loop_pick dad nm addrs nds) by done.
  destruct (pick dad nm nds) as [[d|]|c|] eqn:Ep; [| |done..].
  - apply pick_Some in Ep as (Hd & <- & Hb).
    pose proof (proj1 (list.Forall_forall _ _) Hwf d Hd) as [_ Hi _ _ _].
    cbn [mbind outcome_bind Nat.eqb values_of v_ifname v_ifindex ifa ifa_freed ifindex ifa_name as_ifaddr].
    rewrite Hidx by done. assert (Hs : s32 (nd_index d) = nd_index d)
      by (apply s32_small; unfold INT_MAX in *; lia). rewrite Hs.
    rewrite !(proj2 (Z.eqb_neq (nd_index d) 0)) by lia.
    unfold settled, set_device_broadcast_with_sysfs, set_device_broadcast, set_device_broadcast_sysfs,
      set_device_broadcast_ifaddrs_one.
    cbn [mbind outcome_bind id s_dev s_sysfs name ifindex ifa ifa_freed ifa_broadaddr v_addr_len v_broadcast
         as_ifaddr values_of].
    destruct (Z.of_nat (length (nd_broadcast d)) =? balen) eqn:El; cbn [negb]; [|reflexivity].
    zbool. subst balen. by destruct (peek _ _ _ ≫= _).
  - unfold settled, set_device_broadcast_with_sysfs, set_device_broadcast, set_device_broadcast_sysfs,
      set_device_broadcast_ifaddrs_one.
    cbn [mbind outcome_bind Nat.eqb id s_dev s_sysfs name ifindex ifa ifa_freed values_init v_addr_len].
    rewrite (proj2 (Z.eqb_neq 0 balen)) by lia. reflexivity.
Qed.

Definition eth0 : netdev := Netdev (str "eth0") 2 4163 (replicate 6 255).
Definition lo0 : netdev := Netdev (str "lo") 1 73 (replicate 6 0).
Definition present (d : netdev) : sysdev :=
  Sysdev (nd_name d) (λ n, match filter (λ a, attr_name a = n) sysfs_devattrs with
                           | a :: _ => Some (Some (attr_text d a))
                           | [] => None
                           end).

Lemma sysfs_agrees_witness :
  let d0 := Device (Some (str "eth0")) 0 None false in
  let res := settled s_dev set_device_broadcast_with_sysfs (replicate 8 0) 6
    (find_device_by_sysfs false (Sdevice d0 None) (Some (Some [present lo0; present eth0]))) in
  res = settled id set_device_broadcast (replicate 8 0) 6
      (find_device_by_ifaddrs false d0
         (Some [as_ifaddr lo0; Ifaddr (Some 2) (str "eth0") 4163 0 None; as_ifaddr eth0])
         (λ n, if decide (n = str "eth0") then 2 else 1))
  ∧ res = Ret (0, Some (str "eth0"), 2, replicate 6 255 ++ [0; 0]).
Proof.
  split; [|vm_compute; reflexivity].
  apply (sysfs_agrees false (str "eth0") [lo0; eth0]).
  - vm_compute. repeat constructor.
  - repeat constructor; vm_compute; done.
  - apply (bool_decide_eq_true_1 _). vm_compute. reflexivity.
  - reflexivity.
  - repeat constructor; intros []; reflexivity.
  - intros d Hd. apply list_elem_of_In in Hd as [<-|[<-|[]]]; reflexivity.
  - reflexivity.
Defined.
