(* ===== verification/SendArpPriv.v ===== *)
(** * send_arp for Linux: privileges (tools/send_arp.linux.c)

    The program opens its packet socket with privileges it gives up before it
    handles packets.  The file has two versions of the routines that do this,
    with libcap and, as here built, with user ids alone (those are in
    SendArpLinux); they are two instances of the class [Privileges], which main
    uses.  The kernel's credentials and libcap are the class [Credentials] with
    the laws of [LawfulCredentials]: setuid(2), prctl(2), capabilities(7),
    cap_get_proc(3). *)

From S2P Require Import Prelude SendArpLinux.
From stdpp Require Import sets.
#[local] Open Scope Z_scope.

(** ** Definitions *)

Inductive cap_flag : Type := CAP_EFFECTIVE | CAP_PERMITTED | CAP_INHERITABLE.
#[export] Instance cap_flag_eq_dec : EqDecision cap_flag.
Proof. solve_decision. Defined.

Definition CAP_SETUID : Z := 7.
Definition CAP_NET_RAW : Z := 13.
Definition EPERM : Z := 1.

(** The kernel's record [U] of a process's credentials, and libcap's [cap_t],
    here [C]. *)
Class Credentials (U C : Type) : Type := {
  getuid : U → Z;
  geteuid : U → Z;
  setuid : U → Z → option U;
  prctl_keepcaps : U → bool → option U;         (* PR_SET_KEEPCAPS *)
  cap_get_proc : U → option C;
  cap_init : U → option C;
  cap_clear : C → option C;
  cap_get_flag : C → Z → cap_flag → bool;       (* is it set? *)
  cap_set_flag : C → cap_flag → list Z → bool → C;
  cap_set_proc : U → C → Z + U }.               (* errno, or done *)

(** What main uses; [K] also has the variable the routines share. *)
Class Privileges (K : Type) : Type := {
  limit : K → outcome K;
  modify : bool → K → Z * K;
  drop_all : K → outcome K }.

Definition of_option {A} (code : Z) (o : option A) : outcome A :=
  match o with Some a => Ret a | None => Exited code end.

Section programs.
Context {U C : Type} `{!Credentials U C}.

(** *** With user ids: the variable is [euid] *)

Definition setuid_privileges : Privileges (U * Z) := {|
  limit k := Ret (k.1, limit_capabilities geteuid k.1);
  modify on k :=
    let '(rc, u) := modify_capability_raw getuid setuid k.2 on k.1 in (rc, (u, k.2));
  drop_all k := u ← drop_capabilities getuid setuid k.1; Ret (u, k.2) |}.

(** *** With libcap: the variable is [cap_raw], false for CAP_CLEAR *)

Definition caps : list Z := [CAP_NET_RAW].

Definition limit_capabilities_cap (u : U) : outcome (U * bool) :=
  cap_p ← of_option 255 (cap_get_proc u);
  let cap_raw := cap_get_flag cap_p CAP_NET_RAW CAP_PERMITTED in
  u ← (if cap_raw then
         cap_p ← of_option 255 (cap_clear cap_p);
         let cap_p := cap_set_flag cap_p CAP_PERMITTED caps true in
         match cap_set_proc u cap_p with
         | inr u' => Ret u'
         | inl errno => if errno =? EPERM then Ret u else Exited 255
         end
       else Ret u);
  u ← of_option 255 (prctl_keepcaps u true);
  u ← of_option 255 (setuid u (getuid u));
  u ← of_option 255 (prctl_keepcaps u false);
  Ret (u, cap_raw).

Definition modify_capability_raw_cap (cap_raw on : bool) (u : U) : Z * U :=
  if negb cap_raw then (if on then -1 else 0, u)
  else match cap_get_proc u with
  | None => (-1, u)
  | Some cap_p =>
      match cap_set_proc u (cap_set_flag cap_p CAP_EFFECTIVE caps on) with
      | inl _ => (-1, u)
      | inr u' => (0, u')
      end
  end.

Definition drop_capabilities_cap (u : U) : outcome U :=
  cap_p ← of_option 255 (cap_init u);
  match cap_set_proc u cap_p with
  | inl _ => Exited 255
  | inr u' => Ret u'
  end.

Definition libcap_privileges : Privileges (U * bool) := {|
  limit k := limit_capabilities_cap k.1;
  modify on k := let '(rc, u) := modify_capability_raw_cap k.2 on k.1 in (rc, (u, k.2));
  drop_all k := u ← drop_capabilities_cap k.1; Ret (u, k.2) |}.

End programs.

(** *** main *)

(** The states of a run: when the packet socket is opened, when options are
    read and names looked up, when the probe is bound to the device, and when
    packets are handled. *)
Record stages (K : Type) : Type := Stages {
  at_socket : K;
  at_options : K;
  at_bind : option K;
  at_loop : K }.
Arguments Stages {K}.
Arguments at_socket {K}.
Arguments at_options {K}.
Arguments at_bind {K}.
Arguments at_loop {K}.

(** main as far as its privileges go; [probe]: it has a probe socket to bind to
    a device. *)
Definition arp_stages {K} `{!Privileges K} (probe : bool) (k : K) : outcome (stages K) :=
  k ← limit k;
  let '(_, k1) := modify true k in
  let '(_, k2) := modify false k1 in
  let k3 := (modify true k2).2 in
  let k4 := (modify false k3).2 in
  k5 ← drop_all (if probe then k4 else k2);
  Ret (Stages k1 k2 (if probe then Some k3 else None) k5).

(** The kernel opens a packet socket only for a process that may; the last
    routine decides whether main goes on. *)
Definition with_answers (socket drop : bool) (e : main_env) : main_env :=
  MainEnv (packet_socket e && socket) (getifaddrs e) (if_nametoindex e) (ioctls e) (gethostbyname2 e)
    (probe_socket e) (probe_bind e) (probe_connect e) (bind_device e) drop.

(** There is a probe socket, and the device is known by then. *)
Definition binds_probe (a : arping) : bool := negb (dad a && bool_decide (src a = replicate 4 0)).

(** The whole of main with its privileges: what [arp_main] gives, and the state
    the packets are handled in. *)
Definition arp_program {K} `{!Privileges K} (may_open : K → bool) (opts : list (Z * list Z))
    (operands : list (list Z)) (e : main_env) (first : (Z * Z) * (Z * Z) * Z) (events : list aevent) (k : K)
    : outcome unit * option astate * option K :=
  match limit k with
  | Exited c => (Exited c, None, None)
  | Fault => (Fault, None, None)
  | Ret k =>
      let k1 := (modify true k).2 in
      let k2 := (modify false k1).2 in
      match arp_setup opts operands (with_answers (may_open k1) true e) with
      | Exited c => (Exited c, None, None)
      | Fault => (Fault, None, None)
      | Ret (a, s) =>
          let k3 := (modify true k2).2 in
          let k4 := (modify false k3).2 in
          match drop_all (if binds_probe a then k4 else k2) with
          | Exited c => (Exited c, None, None)
          | Fault => (Fault, None, None)
          | Ret k5 =>
              let '(tv, now, err) := first in
              let '(r, s') := arp_run a (EAlarm tv now err :: events) s in (r, Some s', Some k5)
          end
      end
  end.

(** ** Specification *)

(** The documented behaviour.  [lc_uids] are the real, effective and saved user
    ids; [lc_caps] the sets of a process, [lc_flags] those of a [cap_t]. *)
Definition had_root (i : Z * Z * Z) : bool :=
  let '(r, e, s) := i in (r =? 0) || (e =? 0) || (s =? 0).

Class LawfulCredentials (U C : Type) `{!Credentials U C} : Type := {
  lc_uids : U → Z * Z * Z;
  lc_caps : U → cap_flag → gset Z;
  lc_keepcaps : U → bool;
  lc_flags : C → cap_flag → gset Z;
  lc_getuid u : getuid u = (lc_uids u).1.1;
  lc_geteuid u : geteuid u = (lc_uids u).1.2;
  (* setuid: all three ids with CAP_SETUID, otherwise only the effective one,
     to the real or the saved id *)
  lc_setuid_all u n : CAP_SETUID ∈ lc_caps u CAP_EFFECTIVE →
    ∃ u', setuid u n = Some u' ∧ lc_uids u' = (n, n, n);
  lc_setuid_one u r e s n : CAP_SETUID ∉ lc_caps u CAP_EFFECTIVE → lc_uids u = (r, e, s) →
    match setuid u n with
    | Some u' => (n = r ∨ n = s) ∧ lc_uids u' = (r, n, s)
    | None => n ≠ r ∧ n ≠ s
    end;
  (* a process that gives up its last root id loses its permitted capabilities,
     unless it keeps them *)
  lc_setuid_caps u n u' : setuid u n = Some u' →
    lc_caps u' CAP_PERMITTED =
      (if had_root (lc_uids u) && negb (had_root (lc_uids u')) && negb (lc_keepcaps u)
       then ∅ else lc_caps u CAP_PERMITTED) ∧
    lc_caps u' CAP_INHERITABLE = lc_caps u CAP_INHERITABLE;
  lc_setuid_effective u n u' : setuid u n = Some u' → geteuid u' = geteuid u →
    had_root (lc_uids u') = true → lc_caps u' CAP_EFFECTIVE = lc_caps u CAP_EFFECTIVE;
  lc_limiting u : lc_caps u CAP_EFFECTIVE ⊆ lc_caps u CAP_PERMITTED;
  lc_prctl u b u' : prctl_keepcaps u b = Some u' →
    lc_uids u' = lc_uids u ∧ (∀ f, lc_caps u' f = lc_caps u f) ∧ lc_keepcaps u' = b;
  lc_get u c : cap_get_proc u = Some c → ∀ f, lc_flags c f = lc_caps u f;
  lc_init u c : cap_init u = Some c → ∀ f, lc_flags c f = ∅;
  lc_clear c c' : cap_clear c = Some c' → ∀ f, lc_flags c' f = ∅;
  lc_get_flag c v f : cap_get_flag c v f = bool_decide (v ∈ lc_flags c f);
  lc_set_flag c f vs on f' : lc_flags (cap_set_flag c f vs on) f' =
    if decide (f' = f)
    then (if on then lc_flags c f ∪ list_to_set vs else lc_flags c f ∖ list_to_set vs)
    else lc_flags c f';
  (* a process may give capabilities up and make permitted ones effective *)
  lc_set u c u' : cap_set_proc u c = inr u' →
    lc_uids u' = lc_uids u ∧ lc_keepcaps u' = lc_keepcaps u ∧ ∀ f, lc_caps u' f = lc_flags c f;
  lc_set_may u c : lc_flags c CAP_PERMITTED ⊆ lc_caps u CAP_PERMITTED →
    lc_flags c CAP_EFFECTIVE ⊆ lc_flags c CAP_PERMITTED →
    lc_flags c CAP_INHERITABLE ⊆ lc_caps u CAP_INHERITABLE → ∃ u', cap_set_proc u c = inr u' }.

(** The calls that only fail for want of memory, or because the securebits are
    locked, do not. *)
Class CallsWork (U C : Type) `{!Credentials U C} : Prop := {
  cw_get (u : U) : is_Some (cap_get_proc u);
  cw_init (u : U) : is_Some (cap_init u);
  cw_clear (c : C) : is_Some (cap_clear c);
  cw_prctl (u : U) (b : bool) : is_Some (prctl_keepcaps u b) }.

(** ** Lemmas *)

Section lemmas.
Context {U C : Type} `{!Credentials U C, !LawfulCredentials U C}.
Implicit Types u : U.

(** Root that sets its id to 0 stays root. *)
Lemma root_stays u r s :
  lc_uids u = (r, 0, s) → CAP_SETUID ∈ lc_caps u CAP_EFFECTIVE →
  ∃ u', setuid u 0 = Some u' ∧ lc_uids u' = (0, 0, 0) ∧
        lc_caps u' CAP_EFFECTIVE = lc_caps u CAP_EFFECTIVE.
Proof.
  intros Hu Hc. destruct (lc_setuid_all u 0 Hc) as (u' & Hs & Hu'). exists u'. split_and!; [done..|].
  apply (lc_setuid_effective u 0 u' Hs); [|by rewrite Hu']. by rewrite !lc_geteuid, Hu, Hu'.
Qed.

(** To the own real id a process can always go. *)
Lemma setuid_real u :
  ∃ u', setuid u (getuid u) = Some u' ∧ (lc_uids u').1.1 = (lc_uids u).1.1 ∧
        (lc_uids u').1.2 = (lc_uids u).1.1.
Proof.
  rewrite lc_getuid. destruct (lc_uids u) as [[r e] s] eqn:Hu. cbn [fst snd].
  destruct (decide (CAP_SETUID ∈ lc_caps u CAP_EFFECTIVE)) as [Hc|Hc].
  - destruct (lc_setuid_all u r Hc) as (u' & -> & Hu'). exists u'. by rewrite Hu'.
  - pose proof (lc_setuid_one u r e s r Hc Hu) as H. destruct (setuid u r) as [u'|]; [|by destruct H].
    destruct H as [_ Hu']. exists u'. by rewrite Hu'.
Qed.

(** A process may always give everything up. *)
Lemma drop_all_caps u k : drop_capabilities_cap u = Ret k → ∀ f, lc_caps k f = ∅.
Proof.
  unfold drop_capabilities_cap. destruct (cap_init u) as [c|] eqn:Ei; [|done]. cbn [of_option mbind outcome_bind].
  destruct (cap_set_proc u c) as [|u'] eqn:Es; [done|]. intros [= <-] f.
  destruct (lc_set _ _ _ Es) as (_ & _ & Hf). rewrite Hf. by apply (lc_init u).
Qed.

End lemmas.

Section working.
Context {U C : Type} `{!Credentials U C, !LawfulCredentials U C, !CallsWork U C}.
Implicit Types u : U.

(** The state between the operations: at most CAP_NET_RAW, and the effective
    user is the real one. *)
Record limited (u : U) : Prop := {
  li_permitted : lc_caps u CAP_PERMITTED = {[CAP_NET_RAW]};
  li_uid : (lc_uids u).1.2 = (lc_uids u).1.1 }.

Lemma limit_limited u :
  CAP_NET_RAW ∈ lc_caps u CAP_PERMITTED →
  ∃ u', limit_capabilities_cap u = Ret (u', true) ∧ limited u'.
Proof.
  intros Hraw. unfold limit_capabilities_cap.
  destruct (cw_get u) as [c Hc]. rewrite Hc. cbn [of_option mbind outcome_bind].
  rewrite lc_get_flag, (lc_get _ _ Hc), bool_decide_true by done.
  destruct (cw_clear (C := C) c) as [c' Hc']. rewrite Hc'. cbn [of_option mbind outcome_bind].
  pose proof (lc_clear _ _ Hc') as Hcl. set (c1 := cap_set_flag c' CAP_PERMITTED caps true).
  assert (H1 : lc_flags c1 CAP_PERMITTED = {[CAP_NET_RAW]}).
  { subst c1. rewrite lc_set_flag, decide_True, Hcl by done. cbn. set_solver. }
  assert (H2 : lc_flags c1 CAP_EFFECTIVE = ∅ ∧ lc_flags c1 CAP_INHERITABLE = ∅).
  { subst c1. by rewrite !lc_set_flag, !decide_False, !Hcl by done. }
  destruct (lc_set_may u c1) as [u1 Hu1]; [set_solver..|]. rewrite Hu1. cbn [mbind outcome_bind].
  destruct (lc_set _ _ _ Hu1) as (_ & _ & Hf1).
  destruct (cw_prctl u1 true) as [u2 Hu2]. rewrite Hu2. cbn [of_option mbind outcome_bind].
  destruct (lc_prctl _ _ _ Hu2) as (_ & Hf2 & Hk2).
  destruct (setuid_real u2) as (u3 & Hu3 & Hr3 & He3). rewrite Hu3. cbn [of_option mbind outcome_bind].
  destruct (lc_setuid_caps _ _ _ Hu3) as [Hp3 _]. rewrite Hk2, andb_false_r in Hp3.
  destruct (cw_prctl u3 false) as [u4 Hu4]. rewrite Hu4. cbn [of_option mbind outcome_bind].
  destruct (lc_prctl _ _ _ Hu4) as (Hi4 & Hf4 & _).
  exists u4. split; [done|]. split.
  - by rewrite Hf4, Hp3, Hf2, Hf1, H1.
  - by rewrite Hi4, He3, Hr3.
Qed.

Lemma modify_limited on u :
  limited u →
  ∃ u', modify_capability_raw_cap true on u = (0, u') ∧ limited u' ∧
        lc_caps u' CAP_EFFECTIVE = (if on then {[CAP_NET_RAW]} else ∅).
Proof.
  intros [Hp Hi]. unfold modify_capability_raw_cap. cbn [negb].
  destruct (cw_get u) as [c Hc]. rewrite Hc. pose proof (lc_get _ _ Hc) as Hg.
  set (c1 := cap_set_flag c CAP_EFFECTIVE caps on). pose proof (lc_limiting u) as Hl. rewrite Hp in Hl.
  assert (H1 : lc_flags c1 CAP_EFFECTIVE = (if on then {[CAP_NET_RAW]} else ∅)).
  { subst c1. rewrite lc_set_flag, decide_True, Hg by done. cbn. destruct on; set_solver. }
  assert (H2 : lc_flags c1 CAP_PERMITTED = {[CAP_NET_RAW]})
    by (subst c1; by rewrite lc_set_flag, decide_False, Hg by done).
  assert (H3 : lc_flags c1 CAP_INHERITABLE = lc_caps u CAP_INHERITABLE)
    by (subst c1; by rewrite lc_set_flag, decide_False, Hg by done).
  destruct (lc_set_may u c1) as [u' Hu']; [set_solver|rewrite H1, H2; destruct on; set_solver|set_solver|].
  rewrite Hu'. destruct (lc_set _ _ _ Hu') as (Hi' & _ & Hf'). exists u'. split; [done|].
  split; [split|]; rewrite ?Hf', ?Hi'; done.
Qed.

Lemma drop_works u : ∃ u', drop_capabilities_cap u = Ret u' ∧ lc_uids u' = lc_uids u.
Proof.
  unfold drop_capabilities_cap. destruct (cw_init u) as [c Hc]. rewrite Hc. cbn [of_option mbind outcome_bind].
  pose proof (lc_init _ _ Hc) as Hf. destruct (lc_set_may u c) as [u' Hu']; [rewrite ?Hf; set_solver..|].
  rewrite Hu'. exists u'. split; [done|]. by destruct (lc_set _ _ _ Hu') as [? _].
Qed.

End working.

(** ** Theorems *)

Section theorems.
Context {U C : Type} `{!Credentials U C, !LawfulCredentials U C}.

Definition caps_of {A} (k : U * A) (f : cap_flag) : gset Z := lc_caps (C := C) k.1 f.
Definition uids_of {A} (k : U * A) : Z * Z * Z := lc_uids (C := C) k.1.

(** [C40] Least privilege, with libcap.  Whatever fails, packets are handled
    without any capability.  And when the calls work and the program may open
    raw sockets at all, it comes that far, it has CAP_NET_RAW and nothing else
    in the two places that need it, no effective capability while it reads
    options and looks names up, and from the first place on the effective user
    is the real one. *)
Theorem libcap_least_privilege probe u raw :
  (∀ t, arp_stages (Privileges0 := libcap_privileges) probe (u, raw) = Ret t →
     ∀ f, caps_of (at_loop t) f = ∅) ∧
  (CallsWork U C → CAP_NET_RAW ∈ lc_caps u CAP_PERMITTED →
   ∃ t, arp_stages (Privileges0 := libcap_privileges) probe (u, raw) = Ret t ∧
    caps_of (at_socket t) CAP_EFFECTIVE = {[CAP_NET_RAW]} ∧
    caps_of (at_options t) CAP_EFFECTIVE = ∅ ∧
    (if probe
     then ∃ k, at_bind t = Some k ∧ caps_of k CAP_EFFECTIVE = {[CAP_NET_RAW]}
     else at_bind t = None) ∧
    Forall (λ k, (uids_of k).1.2 = (uids_of k).1.1) [at_socket t; at_options t; at_loop t]).
Proof.
  split.
  - intros t. unfold arp_stages. cbn [limit modify drop_all libcap_privileges fst snd].
    destruct (limit_capabilities_cap u) as [[u0 r0]| |]; [|done..]. cbn [mbind outcome_bind fst snd].
    destruct (modify_capability_raw_cap r0 true u0) as [? u1]. cbn [fst snd].
    destruct (modify_capability_raw_cap r0 false u1) as [? u2]. cbn [fst snd].
    destruct (modify_capability_raw_cap r0 true u2) as [? u3]. cbn [fst snd].
    destruct (modify_capability_raw_cap r0 false u3) as [? u4]. cbn [fst snd].
    destruct (drop_capabilities_cap (C := C) (if probe then (u4, r0) else (u2, r0)).1) as [u5| |] eqn:Ed; [|done..].
    intros [= <-] f. unfold caps_of. cbn [at_loop fst]. by eapply drop_all_caps.
  - intros Hwork Hraw. destruct (limit_limited u Hraw) as (u0 & H0 & L0).
    destruct (modify_limited true u0 L0) as (u1 & H1 & L1 & E1).
    destruct (modify_limited false u1 L1) as (u2 & H2 & L2 & E2).
    destruct (modify_limited true u2 L2) as (u3 & H3 & L3 & E3).
    destruct (modify_limited false u3 L3) as (u4 & H4 & L4 & _).
    destruct (drop_works (if probe then u4 else u2)) as (u5 & H5 & I5).
    unfold arp_stages. cbn [limit modify drop_all libcap_privileges fst snd]. rewrite H0.
    cbn [mbind outcome_bind fst snd]. rewrite H1. cbn [fst snd]. rewrite H2. cbn [fst snd]. rewrite H3.
    cbn [fst snd]. rewrite H4. cbn [fst snd].
    assert (Hd : drop_capabilities_cap (if probe then (u4, true) else (u2, true)).1 = Ret u5)
      by (by destruct probe). rewrite Hd. eexists. split; [reflexivity|].
    unfold caps_of, uids_of. cbn [at_socket at_options at_bind at_loop fst]. split_and!; [done..| |].
    + destruct probe; [by eexists|done].
    + repeat constructor; cbn [fst]; [apply L1|apply L2|]. rewrite I5. destruct probe; [apply L4|apply L2].
Qed.

(** [C39] Without libcap, as here built, root is not given up.  The routines use
    setuid, which for root sets the saved and the real id too; after the first
    of them the real id that the last one returns to is 0.  A program that is
    root by its set-user-ID bit, whoever calls it, handles packets as root, with
    the capabilities it was started with. *)
Theorem setuid_keeps_root probe u euid r s :
  lc_uids u = (r, 0, s) → CAP_SETUID ∈ lc_caps u CAP_EFFECTIVE →
  ∃ t, arp_stages (Privileges0 := setuid_privileges) probe (u, euid) = Ret t ∧
    Forall (λ k, uids_of k = (0, 0, 0) ∧ caps_of k CAP_EFFECTIVE = lc_caps u CAP_EFFECTIVE)
      [at_socket t; at_options t; at_loop t].
Proof.
  intros Hu Hc. destruct (root_stays u r s Hu Hc) as (u1 & H1 & I1 & E1).
  assert (Hstep : ∀ v, lc_uids v = (0, 0, 0) → lc_caps v CAP_EFFECTIVE = lc_caps u CAP_EFFECTIVE →
    getuid v = 0 ∧ ∃ v', setuid v 0 = Some v' ∧ lc_uids v' = (0, 0, 0) ∧
      lc_caps v' CAP_EFFECTIVE = lc_caps u CAP_EFFECTIVE).
  { intros v Hv Ev. split; [by rewrite lc_getuid, Hv|].
    destruct (root_stays v 0 0 Hv) as (v' & ? & ? & Ev'); [by rewrite Ev|]. exists v'. by rewrite Ev'. }
  destruct (Hstep u1 I1 E1) as (G1 & u2 & H2 & I2 & E2).
  destruct (Hstep u2 I2 E2) as (G2 & u3 & H3 & I3 & E3).
  destruct (Hstep u3 I3 E3) as (G3 & u4 & H4 & I4 & E4).
  destruct (Hstep u4 I4 E4) as (G4 & u5 & H5 & I5 & E5).
  unfold arp_stages. cbn [limit modify drop_all setuid_privileges fst snd mbind outcome_bind].
  unfold limit_capabilities. rewrite lc_geteuid, Hu. cbn [fst snd].
  unfold modify_capability_raw. rewrite H1. cbn [fst snd]. rewrite G1, H2. cbn [fst snd].
  rewrite H3. cbn [fst snd]. rewrite G3, H4. cbn [fst snd]. unfold drop_capabilities.
  destruct probe; cbn [fst snd]; [rewrite G4, H5|rewrite G2, H3];
    (eexists; split; [reflexivity|]); unfold uids_of, caps_of; repeat constructor; done.
Qed.

(** A process with CAP_NET_RAW may open the socket. *)
Definition raw_allowed {A} (k : U * A) : bool := bool_decide (CAP_NET_RAW ∈ caps_of k CAP_EFFECTIVE).

(** The stages are those of the program. *)
Lemma arp_program_stages {A} (P : Privileges (U * A)) opts operands e first events k r s k5 :
  arp_program raw_allowed opts operands e first events k = (r, Some s, Some k5) →
  ∃ probe t, arp_stages probe k = Ret t ∧ at_loop t = k5.
Proof.
  unfold arp_program, arp_stages. destruct (limit k) as [k0| |]; [|done..].
  destruct (arp_setup _ _ _) as [[a st]| |]; [|done..]. cbn [mbind outcome_bind].
  destruct (modify true k0) as [? k1]. cbn [snd]. destruct (modify false k1) as [? k2]. cbn [snd].
  destruct (drop_all _) as [kx| |] eqn:Ed; [|done..]. destruct first as [[tv now] err].
  destruct (arp_run _ _ _) as [r' s']. intros [= <- <- <-].
  exists (binds_probe a). rewrite Ed. eexists. by split.
Qed.

(** With libcap the program does what it does when nothing is refused, and
    handles packets without a capability. *)
Theorem libcap_program opts operands e first events u raw :
  CallsWork U C → CAP_NET_RAW ∈ lc_caps u CAP_PERMITTED →
  let '(r, s, k) := arp_program (Privileges0 := libcap_privileges) raw_allowed opts operands e first events (u, raw) in
  (r, s) = arp_main opts operands (with_answers true true e) first events ∧
  ∀ k5 f, k = Some k5 → caps_of k5 f = ∅.
Proof.
  intros Hwork Hraw. destruct (limit_limited u Hraw) as (u0 & H0 & L0).
  destruct (modify_limited true u0 L0) as (u1 & H1 & L1 & E1).
  destruct (modify_limited false u1 L1) as (u2 & H2 & L2 & E2).
  destruct (modify_limited true u2 L2) as (u3 & H3 & L3 & E3).
  destruct (modify_limited false u3 L3) as (u4 & H4 & L4 & _).
  unfold arp_program. cbn [limit modify drop_all libcap_privileges fst snd]. rewrite H0.
  cbn [fst snd]. rewrite H1. cbn [fst snd]. rewrite H2. cbn [fst snd]. rewrite H3. cbn [fst snd]. rewrite H4.
  cbn [fst snd]. assert (Hal : raw_allowed (u1, true) = true)
    by (unfold raw_allowed, caps_of; cbn [fst]; rewrite E1; apply bool_decide_eq_true_2; set_solver).
  rewrite Hal. unfold arp_main. destruct (arp_setup _ _ _) as [[a st]| |]; [|by split..].
  destruct (drop_works (if binds_probe a then u4 else u2)) as (u5 & H5 & _).
  assert (Hd : drop_capabilities_cap (if binds_probe a then (u4, true) else (u2, true)).1 = Ret u5)
    by (by destruct (binds_probe a)). rewrite Hd. cbn [mbind outcome_bind].
  destruct first as [[tv now] err]. destruct (arp_run _ _ _) as [r s]. split; [done|].
  intros k5 f [= <-]. by eapply drop_all_caps.
Qed.

End theorems.

(** ** Linux's credentials, as an instance *)

Record process : Type := Process {
  p_uids : Z * Z * Z;
  p_permitted : gset Z;
  p_effective : gset Z;
  p_inheritable : gset Z;
  p_keepcaps : bool }.

Definition p_caps (p : process) (f : cap_flag) : gset Z :=
  match f with
  | CAP_EFFECTIVE => p_effective p ∩ p_permitted p
  | CAP_PERMITTED => p_permitted p
  | CAP_INHERITABLE => p_inheritable p
  end.

(** The capabilities after the ids have become [i]. *)
Definition p_become (p : process) (i : Z * Z * Z) : process :=
  let gone := had_root (p_uids p) && negb (had_root i) in
  let e := (p_uids p).1.2 in
  let perm := if gone && negb (p_keepcaps p) then ∅ else p_permitted p in
  let eff := if gone || ((e =? 0) && negb (i.1.2 =? 0)) then ∅
             else if negb (e =? 0) && (i.1.2 =? 0) then perm
             else p_caps p CAP_EFFECTIVE in
  Process i perm eff (p_inheritable p) (p_keepcaps p).

Definition p_setuid (p : process) (n : Z) : option process :=
  let '(r, e, s) := p_uids p in
  if decide (CAP_SETUID ∈ p_caps p CAP_EFFECTIVE) then Some (p_become p (n, n, n))
  else if (n =? r) || (n =? s) then Some (p_become p (r, n, s))
  else None.

Definition p_cap_set_proc (p : process) (c : gset Z * gset Z * gset Z) : Z + process :=
  let '(perm, eff, inh) := c in
  if decide (perm ⊆ p_permitted p ∧ eff ⊆ perm ∧ inh ⊆ p_inheritable p ∪ p_permitted p)
  then inr (Process (p_uids p) perm eff inh (p_keepcaps p)) else inl EPERM.

Definition c_flags (c : gset Z * gset Z * gset Z) (f : cap_flag) : gset Z :=
  let '(perm, eff, inh) := c in
  match f with CAP_EFFECTIVE => eff | CAP_PERMITTED => perm | CAP_INHERITABLE => inh end.

Definition c_set_flag (c : gset Z * gset Z * gset Z) (f : cap_flag) (vs : list Z) (on : bool)
    : gset Z * gset Z * gset Z :=
  let change (x : gset Z) : gset Z := if on then x ∪ list_to_set vs else x ∖ list_to_set vs in
  let '(perm, eff, inh) := c in
  match f with
  | CAP_EFFECTIVE => (perm, change eff, inh)
  | CAP_PERMITTED => (change perm, eff, inh)
  | CAP_INHERITABLE => (perm, eff, change inh)
  end.

#[export] Instance process_credentials : Credentials process (gset Z * gset Z * gset Z) := {|
  getuid p := (p_uids p).1.1;
  geteuid p := (p_uids p).1.2;
  setuid := p_setuid;
  prctl_keepcaps p b := Some (Process (p_uids p) (p_permitted p) (p_effective p) (p_inheritable p) b);
  cap_get_proc p := Some (p_permitted p, p_caps p CAP_EFFECTIVE, p_inheritable p);
  cap_init _ := Some (∅, ∅, ∅);
  cap_clear _ := Some (∅, ∅, ∅);
  cap_get_flag c v f := bool_decide (v ∈ c_flags c f);
  cap_set_flag := c_set_flag;
  cap_set_proc := p_cap_set_proc |}.

Lemma p_setuid_spec p n p' :
  p_setuid p n = Some p' → ∃ i, p' = p_become p i.
Proof.
  unfold p_setuid. destruct (p_uids p) as [[r e] s]. case_decide; [intros [= <-]; eauto|].
  destruct ((n =? r) || (n =? s)); [|done]. intros [= <-]. eauto.
Qed.

#[export] Instance process_lawful : LawfulCredentials process (gset Z * gset Z * gset Z).
Proof.
  refine {| lc_uids := p_uids; lc_caps := p_caps; lc_keepcaps := p_keepcaps; lc_flags := c_flags |};
    try done.
  - intros p n Hc. exists (p_become p (n, n, n)). split; [|done]. cbn [setuid process_credentials]. unfold p_setuid.
    destruct (p_uids p) as [[r e] s]. by rewrite decide_True.
  - intros p r e s n Hc Hi. cbn [setuid process_credentials]. unfold p_setuid. rewrite Hi.
    rewrite decide_False by done. destruct (n =? r) eqn:Er, (n =? s) eqn:Es; cbn [orb]; zbool;
      try done; (split; [tauto|done]).
  - intros p n p' H. destruct (p_setuid_spec p n p' H) as [i ->]. done.
  - intros p n p' H He Hr. destruct (p_setuid_spec p n p' H) as [i ->].
    cbn [geteuid process_credentials p_uids p_become] in He. cbn [p_uids p_become] in Hr.
    unfold p_become. cbn [p_caps p_effective p_permitted p_uids]. rewrite Hr, He, andb_false_r. cbn [andb orb].
    destruct ((p_uids p).1.2 =? 0); cbn [andb negb orb]; set_solver.
  - intros p. cbn. set_solver.
  - intros p b p' [= <-]. done.
  - intros p c [= <-] []; done.
  - intros p c [= <-] []; done.
  - intros c c' [= <-] []; done.
  - intros [[perm eff] inh] f vs on f'. cbn. destruct f, f'; done.
  - intros p [[perm eff] inh] p'. cbn [cap_set_proc process_credentials]. unfold p_cap_set_proc.
    case_decide as H; [|done]. intros [= <-]. destruct H as (_ & He & _).
    split_and!; [done..|]. intros []; cbn; [set_solver|done..].
  - intros p [[perm eff] inh] H1 H2 H3. cbn [c_flags p_caps] in *. eexists.
    cbn [cap_set_proc process_credentials]. unfold p_cap_set_proc. rewrite decide_True by set_solver. done.
Defined.

#[export] Instance process_works : CallsWork process (gset Z * gset Z * gset Z).
Proof. split; intros; by eexists. Qed.

(** A shell of user 1000 starts the program with its set-user-ID bit.  With
    libcap the saved user id remains 0. *)
Definition set_user_id : process :=
  Process (1000, 0, 0) {[CAP_SETUID; CAP_NET_RAW]} {[CAP_SETUID; CAP_NET_RAW]} ∅ false.

Lemma libcap_least_privilege_witness :
  CAP_NET_RAW ∈ p_caps set_user_id CAP_PERMITTED ∧
  ∃ t, arp_stages (Privileges0 := libcap_privileges) true (set_user_id, false) = Ret t ∧
    (∀ f, p_caps (at_loop t).1 f = ∅) ∧ p_uids (at_loop t).1 = (1000, 1000, 0).
Proof.
  assert (Hr : CAP_NET_RAW ∈ p_caps set_user_id CAP_PERMITTED) by (apply (bool_decide_eq_true_1 _); vm_compute; reflexivity).
  split; [exact Hr|].
  destruct (libcap_least_privilege true set_user_id false) as [H1 H2].
  destruct (H2 process_works Hr) as (t & Ht & _). exists t. split; [exact Ht|].
  split; [intros f; exact (H1 t Ht f)|]. revert Ht. vm_compute. intros [= <-]. reflexivity.
Defined.

Lemma setuid_keeps_root_witness :
  ∃ t, arp_stages (Privileges0 := setuid_privileges) true (set_user_id, 0) = Ret t ∧
    p_uids (at_loop t).1 = (0, 0, 0) ∧ CAP_NET_RAW ∈ p_caps (at_loop t).1 CAP_EFFECTIVE.
Proof.
  destruct (setuid_keeps_root true set_user_id 0 1000 0) as (t & Ht & Hall);
    [reflexivity|apply (bool_decide_eq_true_1 _); vm_compute; reflexivity|].
  exists t. split; [exact Ht|]. inversion Hall as [|? ? _ H2]; subst. inversion H2 as [|? ? _ H3]; subst.
  inversion H3 as [|? ? [H4 H5] _]; subst. split; [exact H4|].
  unfold caps_of in H5. cbn [lc_caps process_lawful] in H5. rewrite H5. apply (bool_decide_eq_true_1 _). vm_compute. reflexivity.
Defined.
